(** * hackpad: task classification and bucket assignment

    A shallow embedding of [src/lib/actions/bucket.ts] (the server actions of
    the student task organiser) together with the properties of its
    specification, and of the functions of its two pages that compute on
    what the server actions return: the priority of a task, the edit
    dialog, and the month grid of the calendar.

    Conventions of the embedding.
    - A JavaScript string is a [string]; each [ascii] stands for one code
      unit in the range 0..255 (Latin-1).  [toLowerCase], [\s], [\w] and
      [trim] are modelled on that range.
    - [string | undefined] is [option string]; JavaScript truthiness of such
      a value is [truthy].
    - A [Date] is its time value: a [Z] number of milliseconds since the
      epoch.  An invalid date (NaN) is [None].
    - The database is the two tables of the application, kept in insertion
      order, and the identifiers of the user table of the authentication
      layer, which [bucket.user_id] references; the server actions are
      computations in a state-and-exception monad over [World], which also
      carries the clock, the UUID source and a ghost trace of storage
      writes and categorizer calls. *)

From Stdlib Require Import ZArith List Bool Ascii String Lia Sorted.
From Stdlib Require Import DecimalString DecimalNat.
From Stdlib Require Import Permutation.
Import ListNotations.

Set Warnings "-register-all".

Local Open Scope list_scope.
Local Open Scope string_scope.

(* ================================================================== *)
(** ** JavaScript strings *)

Module JsString.

Definition code (c : ascii) : N := N_of_ascii c.

Definition inRange (lo hi : N) (c : ascii) : bool :=
  (N.leb lo (code c) && N.leb (code c) hi)%bool.

(** [String.prototype.toLowerCase] on one Latin-1 code unit: [A-Z] and
    U+00C0..U+00DE except U+00D7 move up by 32. *)
Definition lowerChar (c : ascii) : ascii :=
  if (inRange 65 90 c || (inRange 192 222 c && negb (N.eqb (code c) 215)))%bool
  then ascii_of_N (code c + 32)
  else c.

Fixpoint toLowerCase (s : string) : string :=
  match s with
  | EmptyString => EmptyString
  | String c s' => String (lowerChar c) (toLowerCase s')
  end.

(** The class [\s] (and the characters removed by [trim]): TAB, LF, VT, FF,
    CR, SPACE and NBSP. *)
Definition isSpace (c : ascii) : bool :=
  (inRange 9 13 c || N.eqb (code c) 32 || N.eqb (code c) 160)%bool.

(** The class [\w]: [A-Za-z0-9_]. *)
Definition isWordChar (c : ascii) : bool :=
  (inRange 97 122 c || inRange 65 90 c || inRange 48 57 c
   || N.eqb (code c) 95)%bool.

(** [s.replace(/\s+/g, '')]: every whitespace character is dropped. *)
Fixpoint removeSpaces (s : string) : string :=
  match s with
  | EmptyString => EmptyString
  | String c s' =>
      if isSpace c then removeSpaces s' else String c (removeSpaces s')
  end.

Fixpoint trimStart (s : string) : string :=
  match s with
  | EmptyString => EmptyString
  | String c s' => if isSpace c then trimStart s' else s
  end.

Fixpoint trimEnd (s : string) : string :=
  match s with
  | EmptyString => EmptyString
  | String c s' =>
      match trimEnd s' with
      | EmptyString => if isSpace c then EmptyString else String c EmptyString
      | r => String c r
      end
  end.

Definition trim (s : string) : string := trimEnd (trimStart s).

Fixpoint allSpaces (s : string) : bool :=
  match s with
  | EmptyString => true
  | String c s' => (isSpace c && allSpaces s')%bool
  end.

Definition isEmpty (s : string) : bool :=
  match s with EmptyString => true | _ => false end.

(** Truthiness of a [string | undefined] value: defined and non-empty. *)
Definition truthy (o : option string) : bool :=
  match o with
  | Some s => negb (isEmpty s)
  | None => false
  end.

(** [a || b] on [string | undefined] operands. *)
Definition orElse (a b : option string) : option string :=
  if truthy a then a else b.

(** [a ?? d] with a string default. *)
Definition nullish (a : option string) (d : string) : string :=
  match a with Some s => s | None => d end.

Definition startsWithWord (s : string) : bool :=
  match s with
  | EmptyString => false
  | String c _ => isWordChar c
  end.

(** Whether the text [s], read after a context whose last character is a
    word character iff [before], ends in a word character. *)
Fixpoint endsWithWord (before : bool) (s : string) : bool :=
  match s with
  | EmptyString => before
  | String c s' => endsWithWord (isWordChar c) s'
  end.

Fixpoint stripPrefix (p s : string) : option string :=
  match p with
  | EmptyString => Some s
  | String a p' =>
      match s with
      | EmptyString => None
      | String b s' => if Ascii.eqb a b then stripPrefix p' s' else None
      end
  end.

End JsString.

(* ================================================================== *)
(** ** The regular expressions of [categorizeTaskType]

    Every pattern in the source is a literal, possibly with a word boundary
    [\b] in front of it or behind it. *)

Module Regex.
Import JsString.

Record t : Type := mk { leadB : bool; lit : string; trailB : bool }.

(** [/lit/], [/\blit\b/] and [/lit\b/]. *)
Definition plain (l : string) : t := mk false l false.
Definition word (l : string) : t := mk true l true.
Definition wordEnd (l : string) : t := mk false l true.

(** Does the pattern match at the very start of [s], when the character in
    front of [s] is a word character iff [before]? *)
Definition matchHere (before : bool) (r : t) (s : string) : bool :=
  match stripPrefix (lit r) s with
  | None => false
  | Some rest =>
      ((if leadB r then xorb before (startsWithWord s) else true)
       && (if trailB r
           then xorb (endsWithWord before (lit r)) (startsWithWord rest)
           else true))%bool
  end.

Fixpoint testFrom (before : bool) (r : t) (s : string) : bool :=
  (matchHere before r s
   || match s with
      | EmptyString => false
      | String c s' => testFrom (isWordChar c) r s'
      end)%bool.

(** [regex.test(s)]: an unanchored search. *)
Definition test (r : t) (s : string) : bool := testFrom false r s.

(** The declarative reading of a match: an occurrence of the literal whose
    requested boundaries hold. *)
Definition occursIn (before : bool) (r : t) (s : string) : Prop :=
  exists pre post,
    s = pre ++ lit r ++ post
    /\ (leadB r = true ->
        xorb (endsWithWord before pre) (startsWithWord (lit r ++ post)) = true)
    /\ (trailB r = true ->
        xorb (endsWithWord before (pre ++ lit r)) (startsWithWord post) = true).

Definition matches (r : t) (s : string) : Prop := occursIn false r s.

End Regex.

(* ================================================================== *)
(** ** Task types and the lexical categorizer *)

Inductive TaskType : Type :=
  Homework | Quiz | Lab | Test | Project | Event | Reminder | Other.

Record ParsedTask : Type := mkParsedTask {
  assignmentName : option string;
  dueDate : option string;
  dueTime : option string;
  description : option string;
  courseCategory : option string;
  typeTag : option string
}.

Definition emptyParsedTask : ParsedTask :=
  mkParsedTask None None None None None None.

Module Categorizer.
Import JsString.

(** Lines 496-503: the ordered list of pattern groups. *)
Definition groups : list (TaskType * list Regex.t) :=
  [ (Homework, [Regex.plain "homework"; Regex.word "hw"; Regex.plain "assignment"]);
    (Quiz, [Regex.plain "quiz"]);
    (Lab, [Regex.wordEnd "lab"; Regex.plain "laboratory"]);
    (Test, [Regex.plain "test"; Regex.plain "midterm"; Regex.plain "final exam";
            Regex.plain "exam"]);
    (Project, [Regex.plain "project"; Regex.plain "presentation"]);
    (Event, [Regex.plain "event"; Regex.plain "meeting"; Regex.plain "rehearsal";
             Regex.plain "game"; Regex.plain "practice"]);
    (Reminder, [Regex.plain "reminder"; Regex.plain "note"; Regex.plain "remember"]) ].

(** Line 494: the text that is searched. *)
Definition source (task : string) (parsedTask : option ParsedTask) : string :=
  toLowerCase
    (task ++ " " ++ nullish (match parsedTask with
                             | Some p => description p
                             | None => None
                             end) ""
          ++ " " ++ nullish (match parsedTask with
                             | Some p => assignmentName p
                             | None => None
                             end) "").

Definition groupTest (src : string) (entry : TaskType * list Regex.t) : bool :=
  existsb (fun regex => Regex.test regex src) (snd entry).

Definition categorizeTaskType (task : string) (parsedTask : option ParsedTask)
  : TaskType :=
  match find (groupTest (source task parsedTask)) groups with
  | Some matchingEntry => fst matchingEntry
  | None => Other
  end.

End Categorizer.

(* ================================================================== *)
(** ** JavaScript dates

    The time value of a [Date] is a [Z] (milliseconds since the epoch, UTC).
    [parse] follows the engine's reading of the ECMAScript date-time string
    format: a date-only text is UTC, a date-time text without a zone
    designator is local time.  The local zone of the server is a fixed
    offset from UTC, in minutes.  Texts that do not begin in that format
    are handed by the engine to an implementation-defined parser, which
    stays a parameter ([legacy]). *)

Module JsDate.
Import JsString.
Local Open Scope Z_scope.

Definition msPerMinute : Z := 60000.
Definition msPerHour : Z := 3600000.
Definition msPerDay : Z := 86400000.
Definition maxTime : Z := 8640000000000000.

(** Day number (days since the epoch) of the civil date [y]-[m]-[d], with
    [m] in 1..12; a day past the end of the month runs into the next. *)
Definition daysFromCivil (y m d : Z) : Z :=
  let y' := if m <=? 2 then y - 1 else y in
  let era := y' / 400 in
  let yoe := y' - era * 400 in
  let mp := if m <=? 2 then m + 9 else m - 3 in
  let doy := (153 * mp + 2) / 5 + d - 1 in
  let doe := yoe * 365 + yoe / 4 - yoe / 100 + doy in
  era * 146097 + doe - 719468.

(** The civil date of a day number. *)
Definition civilFromDays (z : Z) : Z * Z * Z :=
  let z' := z + 719468 in
  let era := z' / 146097 in
  let doe := z' - era * 146097 in
  let yoe := (doe - doe / 1460 + doe / 36524 - doe / 146096) / 365 in
  let doy := doe - (365 * yoe + yoe / 4 - yoe / 100) in
  let mp := (5 * doy + 2) / 153 in
  let d := doy - (153 * mp + 2) / 5 + 1 in
  let m := if mp <? 10 then mp + 3 else mp - 9 in
  let y := yoe + era * 400 in
  ((if m <=? 2 then y + 1 else y), m, d).

Definition getUTCHours (t : Z) : Z := (t mod msPerDay) / msPerHour.
Definition getUTCMinutes (t : Z) : Z := ((t mod msPerDay) / msPerMinute) mod 60.
Definition getUTCSeconds (t : Z) : Z := ((t mod msPerDay) / 1000) mod 60.
Definition getUTCMilliseconds (t : Z) : Z := t mod 1000.

Definition digitChar (d : Z) : ascii := ascii_of_N (48 + Z.to_N d).

(** The last [w] decimal digits of [n], zero padded. *)
Fixpoint pad (w : nat) (n : Z) : string :=
  match w with
  | O => EmptyString
  | S w' => (pad w' (n / 10) ++ String (digitChar (n mod 10)) EmptyString)%string
  end.

(** [Date.prototype.toISOString] of a valid time value. *)
Definition toISOString (t : Z) : string :=
  let '(y, m, d) := civilFromDays (t / msPerDay) in
  let year :=
    if (0 <=? y) && (y <=? 9999) then pad 4 y
    else if y <? 0 then ("-" ++ pad 6 (- y))%string
    else ("+" ++ pad 6 y)%string in
  (year ++ "-" ++ pad 2 m ++ "-" ++ pad 2 d ++ "T"
        ++ pad 2 (getUTCHours t) ++ ":" ++ pad 2 (getUTCMinutes t) ++ ":"
        ++ pad 2 (getUTCSeconds t) ++ "." ++ pad 3 (getUTCMilliseconds t)
        ++ "Z")%string.

(** [s.slice(a, b)] for [0 <= a <= b]. *)
Definition slice (a b : nat) (s : string) : string := substring a (b - a) s.

(** *** Reading the date-time string format *)

Definition digitVal (c : ascii) : option Z :=
  if inRange 48 57 c then Some (Z.of_N (code c) - 48) else None.

(** The maximal run of digits in front of [s]: its digits, most significant
    first, and the rest of the text. *)
Fixpoint digitRun (s : string) : list Z * string :=
  match s with
  | EmptyString => (nil, EmptyString)
  | String c s' =>
      match digitVal c with
      | Some v => let '(ds, rest) := digitRun s' in (v :: ds, rest)
      | None => (nil, s)
      end
  end.

Definition digitsValue (ds : list Z) : Z :=
  fold_left (fun acc v => acc * 10 + v) ds 0.

(** A number token of exactly [n] digits. *)
Definition fixedNumber (n : nat) (s : string) : option (Z * string) :=
  let '(ds, rest) := digitRun s in
  if Nat.eqb (List.length ds) n then Some (digitsValue ds, rest) else None.

Fixpoint dropZeros (ds : list Z) : list Z :=
  match ds with
  | d :: ds' => if d =? 0 then dropZeros ds' else ds
  | nil => nil
  end.

(** The number of a digit token as the engine scans it: leading zeros are
    skipped and at most nine significant digits are kept. *)
Definition tokenNumber (ds : list Z) : Z := digitsValue (firstn 9 (dropZeros ds)).

(** The fraction of a second as milliseconds: the token's number scaled by
    the length of the token, which counts at most nine digits. *)
Definition readMilliseconds (ds : list Z) : Z :=
  let number := tokenNumber ds in
  match List.length ds with
  | 1%nat => number * 100
  | 2%nat => number * 10
  | 3%nat => number
  | len => number / 10 ^ (Z.of_nat (Nat.min len 9) - 3)
  end.

Definition isChar (x : ascii) (c : ascii) : bool := Ascii.eqb x c.

(** Outcome of the strict reader: a time value or NaN ([Done]), or a text
    that is left to the implementation-defined parser. *)
Inductive Outcome : Type :=
| Done (t : option Z)
| Legacy.

(** Fields of a time of day: hour, minute, second, millisecond. *)
Definition validTime (h mi s ms : Z) : bool :=
  ((h <=? 23) && (mi <=? 59) && (s <=? 59) && (ms <=? 999))
  || ((h =? 24) && (mi =? 0) && (s =? 0) && (ms =? 0)).

Definition makeTime (h mi s ms : Z) : Z :=
  h * msPerHour + mi * msPerMinute + s * 1000 + ms.

Definition timeClip (t : Z) : option Z :=
  if Z.abs t <=? maxTime then Some t else None.

Definition isHour (h : Z) : bool := h <? 24.
Definition isMinute (m : Z) : bool := m <? 60.

(** Optional zone designator, then the end of the text: the offset in
    minutes east of UTC, [None] when there is no designator.  The hours of
    a designator are below 24 and its minutes below 60. *)
Definition readZone (s : string) : option (option Z) :=
  match s with
  | EmptyString => Some None
  | String c rest =>
      if isChar "Z" c || isChar "z" c then
        match rest with EmptyString => Some (Some 0) | _ => None end
      else if isChar "+" c || isChar "-" c then
        let sign := if isChar "+" c then 1 else -1 in
        match fixedNumber 4 rest with
        | Some (hhmm, EmptyString) =>
            if isHour (hhmm / 100) && isMinute (hhmm mod 100)
            then Some (Some (sign * ((hhmm / 100) * 60 + hhmm mod 100)))
            else None
        | Some _ => None
        | None =>
            match fixedNumber 2 rest with
            | Some (hh, String c2 rest2) =>
                if isChar ":" c2 && isHour hh then
                  match fixedNumber 2 rest2 with
                  | Some (mm, EmptyString) =>
                      if isMinute mm then Some (Some (sign * (hh * 60 + mm)))
                      else None
                  | _ => None
                  end
                else None
            | _ => None
            end
        end
      else None
  end.

(** The time part after the separator [T]: milliseconds into the day and
    the zone designator.  After the hour 24 only zeros may follow, in the
    fraction too. *)
Definition readTime (s : string) : option (Z * option Z) :=
  match fixedNumber 2 s with
  | Some (h, String c1 s1) =>
      if isChar ":" c1 then
        match fixedNumber 2 s1 with
        | Some (mi, s2) =>
            let '(sec, ms, s4) :=
              match s2 with
              | String c2 s3 =>
                  if isChar ":" c2 then
                    match fixedNumber 2 s3 with
                    | Some (sec, String c3 s5) =>
                        if isChar "." c3 then
                          let '(ds, s6) := digitRun s5 in
                          match ds with
                          | nil => (-1, 0, s5)
                          | _ =>
                              if (h =? 24) && (0 <? tokenNumber ds)
                              then (-1, 0, s6)
                              else (sec, readMilliseconds ds, s6)
                          end
                        else (sec, 0, String c3 s5)
                    | Some (sec, EmptyString) => (sec, 0, EmptyString)
                    | None => (-1, 0, s3)
                    end
                  else (0, 0, s2)
              | EmptyString => (0, 0, EmptyString)
              end in
            if (0 <=? sec) && validTime h mi sec ms then
              match readZone s4 with
              | Some z => Some (makeTime h mi sec ms, z)
              | None => None
              end
            else None
        | None => None
        end
      else None
  | _ => None
  end.

Definition isMonth (m : Z) : bool := (1 <=? m) && (m <=? 12).
Definition isDay (d : Z) : bool := (1 <=? d) && (d <=? 31).

(** After the year: optional [-MM], optional [-DD], then the end of the text
    or the separator and a time.  A time without zone designator is local
    time; [local] gives the offset of the local zone, in minutes east of
    UTC, for a local time value. *)
Definition readAfterYear (local : Z -> Z) (y : Z) (s : string) : Outcome :=
  let finish (m d : Z) (rest : string) : Outcome :=
    match rest with
    | EmptyString => Done (timeClip (daysFromCivil y m 1 * msPerDay + (d - 1) * msPerDay))
    | String c rest' =>
        if isChar "T" c || isChar "t" c then
          match readTime rest' with
          | Some (tod, zone) =>
              let localValue :=
                daysFromCivil y m 1 * msPerDay + (d - 1) * msPerDay + tod in
              let offset :=
                match zone with Some z => z | None => local localValue end in
              Done (timeClip (localValue - offset * msPerMinute))
          | None => Done None
          end
        else Legacy
    end in
  match s with
  | String c s1 =>
      if isChar "-" c then
        match fixedNumber 2 s1 with
        | Some (m, s2) =>
            if isMonth m then
              match s2 with
              | String c2 s3 =>
                  if isChar "-" c2 then
                    match fixedNumber 2 s3 with
                    | Some (d, s4) => if isDay d then finish m d s4 else Legacy
                    | None => Legacy
                    end
                  else finish m 1 s2
              | EmptyString => finish m 1 s2
              end
            else Legacy
        | None => Legacy
        end
      else finish 1 1 s
  | EmptyString => finish 1 1 s
  end.

Definition readDateTime (local : Z -> Z) (s : string) : Outcome :=
  match s with
  | String c s1 =>
      if isChar "+" c || isChar "-" c then
        match fixedNumber 6 s1 with
        | Some (y, rest) =>
            if isChar "-" c && (y =? 0) then Done None
            else readAfterYear local (if isChar "-" c then - y else y) rest
        | None => Legacy
        end
      else
        match fixedNumber 4 s with
        | Some (y, rest) => readAfterYear local y rest
        | None => Legacy
        end
  | EmptyString => Legacy
  end.

(** [new Date(text).getTime()], with NaN as [None], in a zone whose offset
    for a local time value is [local]. *)
Definition parseIn (local : Z -> Z) (legacy : string -> option Z) (s : string)
  : option Z :=
  match readDateTime local s with
  | Done t => t
  | Legacy => legacy s
  end.

(** The same in a zone with the fixed offset [tz]. *)
Definition parse (tz : Z) (legacy : string -> option Z) (s : string) : option Z :=
  parseIn (fun _ => tz) legacy s.

End JsDate.

(* ================================================================== *)
(** ** Data model *)

(** Rows of the [bucket] table ([src/drizzle/0000_third_jocasta.sql]). *)
Module BucketRow.
Record t : Type := mk {
  id : string;
  name : string;
  userId : string;
  createdAt : Z;
  updatedAt : Z
}.
End BucketRow.

(** Rows of the [task] table. *)
Module TaskRow.
Record t : Type := mk {
  id : string;
  bucketId : string;
  raw : string;
  assignmentName : option string;
  description : option string;
  dueDate : option Z;
  createdAt : Z;
  updatedAt : Z
}.
End TaskRow.

(** [interface TaskItem] (lines 9-18). *)
Module TaskItem.
Record t : Type := mk {
  id : string;
  raw : string;
  assignmentName : option string;
  dueDate : option string;
  dueTime : option string;
  description : option string;
  typeTag : option TaskType;
  bucketCategory : option string
}.
End TaskItem.

(** [interface Bucket] (lines 20-24). *)
Module Bucket.
Record t : Type := mk {
  id : string;
  name : string;
  items : list TaskItem.t
}.
End Bucket.

(** [interface CalendarTask] (lines 381-390). *)
Module CalendarTask.
Record t : Type := mk {
  id : string;
  bucketName : string;
  assignmentName : option string;
  raw : string;
  dueDate : option string;
  dueTime : option string;
  description : option string;
  typeTag : option TaskType
}.
End CalendarTask.

(** [interface AssignmentResult] (lines 45-50). *)
Module AssignmentResult.
Record t : Type := mk {
  bucketId : option string;
  newBucketName : option string;
  parsedTask : option ParsedTask;
  reason : option string
}.
Definition empty : t := mk None None None None.
End AssignmentResult.

(** The fields that [updateTask] accepts (lines 332-338). *)
Module TaskUpdates.
Record t : Type := mk {
  assignmentName : option string;
  description : option string;
  dueDate : option string;
  dueTime : option string;
  bucketId : option string
}.
End TaskUpdates.

Definition DEFAULT_BUCKET_NAMES : list string := ["Events"].

Definition VALID_TASK_TYPES : list (string * TaskType) :=
  [ ("Homework", Homework); ("Quiz", Quiz); ("Lab", Lab); ("Test", Test);
    ("Project", Project); ("Event", Event); ("Reminder", Reminder);
    ("Other", Other) ].

(** [VALID_TASK_TYPES.includes(tag)], with the tag it denotes. *)
Definition validTaskType (tag : string) : option TaskType :=
  option_map snd (find (fun p => String.eqb (fst p) tag) VALID_TASK_TYPES).

(* ================================================================== *)
(** ** The world of a server action *)

(** Storage writes and calls of the categorizer, in the order in which they
    happen.  The trace is ghost state: no action reads it. *)
Inductive Effect : Type :=
| InsertBucket (row : BucketRow.t)
| InsertTask (row : TaskRow.t)
| DeleteBucket (id : string)
| DeleteTask (id : string)
| UpdateBucket (id name : string) (updatedAt : Z)
| UpdateTask (id : string) (assignmentName description : option string)
    (dueDate : option Z) (bucketId : option string) (updatedAt : Z)
| Categorize (task : string) (parsedTask : option ParsedTask)
| DefaultBucketCreated (userId : string).

Definition isWrite (e : Effect) : bool :=
  match e with
  | Categorize _ _ | DefaultBucketCreated _ => false
  | _ => true
  end.

(** [users] holds the primary keys of the user table.  That table belongs
    to the authentication layer ([src/lib/auth.ts]); the server actions
    never write it, but the bucket table references it. *)
Record World : Type := mkWorld {
  users : list string;
  buckets : list BucketRow.t;
  tasks : list TaskRow.t;
  clock : Z;
  uuids : nat;
  trace : list Effect
}.

(** The storage writes performed so far. *)
Definition writes (w : World) : list Effect := filter isWrite (trace w).

(** What the external model call produced: a failure (network, auth, model
    error) or a message whose content may be missing. *)
Inductive Completion : Type :=
| CallFailed
| Reply (content : option string).

(** The prompt of [analyzeTaskWithAI] (lines 534-578) is a fixed text with
    three holes: the task, the summary of the buckets and today's date. *)
Record Prompt : Type := mkPrompt {
  promptTask : string;
  promptBuckets : string;
  promptToday : string
}.

(** The surroundings of the server: configuration, the local time zone, the
    engine's fallback date parser, and the language model, which answers a
    prompt.  [OPENAI_API_KEY] is the value of the environment variable on a
    server whose modules are loaded, possibly the empty text: the client
    of [src/lib/openai.ts] is built when that module is loaded, so without
    the variable no server action of [bucket.ts], which imports it, comes
    to run. *)
Record Env : Type := mkEnv {
  OPENAI_API_KEY : string;
  tzOffset : Z;
  legacyDateParse : string -> option Z;
  chat : Prompt -> Completion
}.

(** What a server action can throw.  [Unmodelled] is not an error of the
    program: it marks the two places where a run leaves what this
    embedding represents (see [Json]). *)
Inductive Error : Type :=
| MissingApiKey
| PrimaryKeyViolation
| ForeignKeyViolation
| TypeError
| Unmodelled.

Inductive Result (A : Type) : Type :=
| Ok (a : A)
| Thrown (e : Error).
Arguments Ok {A} a.
Arguments Thrown {A} e.

(** Computations that read and write the world and may throw. *)
Definition M (A : Type) : Type := World -> Result A * World.

Definition ret {A} (a : A) : M A := fun w => (Ok a, w).

Definition bind {A B} (m : M A) (k : A -> M B) : M B :=
  fun w =>
    match m w with
    | (Ok a, w') => k a w'
    | (Thrown e, w') => (Thrown e, w')
    end.

Definition throw {A} (e : Error) : M A := fun w => (Thrown e, w).

Declare Scope action_scope.
Delimit Scope action_scope with action.
Notation "x <- m ;; k" := (bind m (fun x => k))
  (at level 100, m at next level, right associativity) : action_scope.
Notation "m ;;; k" := (bind m (fun _ => k))
  (at level 100, right associativity) : action_scope.
Local Open Scope action_scope.

Fixpoint mapM {A B} (f : A -> M B) (l : list A) : M (list B) :=
  match l with
  | [] => ret []
  | x :: l' => y <- f x ;; ys <- mapM f l' ;; ret (y :: ys)
  end.

Definition log (e : Effect) : M unit :=
  fun w => (Ok tt, mkWorld (users w) (buckets w) (tasks w) (clock w) (uuids w)
                           (trace w ++ [e])%list).

(** [new Date()]. *)
Definition newDate : M Z := fun w => (Ok (clock w), w).

(** The text of the [n]-th identifier handed out by [randomUUID]. *)
Definition uuidOf (n : nat) : string :=
  "uuid-" ++ NilEmpty.string_of_uint (Nat.to_uint n).

Definition randomUUID : M string :=
  fun w => (Ok (uuidOf (uuids w)),
            mkWorld (users w) (buckets w) (tasks w) (clock w) (S (uuids w)) (trace w)).

(** [ORDER BY]: a stable insertion sort for the order [leb].  Among rows
    of equal keys the database fixes no order; the sort keeps the order of
    the table, in which an updated row stays in its place. *)
Fixpoint insertBy {A} (leb : A -> A -> bool) (x : A) (l : list A) : list A :=
  match l with
  | [] => [x]
  | y :: l' => if leb x y then x :: y :: l' else y :: insertBy leb x l'
  end.

Definition orderBy {A} (leb : A -> A -> bool) (l : list A) : list A :=
  fold_right (insertBy leb) [] l.

(* ================================================================== *)
(** ** JSON values and [JSON.parse]

    The reply of the model is read with [JSON.parse] and cast, unchecked, to
    [AssignmentResult]: the orchestrator works on whatever value the reply
    denotes.  The embedding follows it for every value up to two limits,
    where it stops with the pseudo-error [Unmodelled]:
    - a string with a character above U+00FF (written as a [\u] escape)
      has no counterpart among the Latin-1 strings of the embedding; it is
      the value [Wide], which is followed where only its being a non-empty
      string matters;
    - a truthy value that is not a string, in the place of a text that goes
      into a template literal or into the database: what the engine's
      string conversion and the database driver make of it is not in the
      source.
    [Json.asAssignment] reads a value by the declared interface (a field is
    read when it is a string, an object for [parsedTask], and is absent
    otherwise); the orchestrator uses that reading where it agrees with
    what the source does on the raw value. *)

Module Json.
Import JsString.

Inductive value : Type :=
| Null
| Bool (b : bool)
| Number (lexeme : string)
| Str (s : string)
| Wide
| Arr (elements : list value)
| Obj (members : list (string * value)).

Definition isWs (c : ascii) : bool :=
  (N.eqb (code c) 32 || N.eqb (code c) 9 || N.eqb (code c) 10
   || N.eqb (code c) 13)%bool.

Fixpoint skipWs (s : string) : string :=
  match s with
  | String c s' => if isWs c then skipWs s' else s
  | EmptyString => EmptyString
  end.

Definition hexVal (c : ascii) : option N :=
  if inRange 48 57 c then Some (code c - 48)%N
  else if inRange 97 102 c then Some (code c - 87)%N
  else if inRange 65 70 c then Some (code c - 55)%N
  else None.

(** The code unit written by the four hex digits of a [\u] escape. *)
Definition readHex4 (s : string) : option (N * string) :=
  match s with
  | String a (String b (String c (String d rest))) =>
      match hexVal a, hexVal b, hexVal c, hexVal d with
      | Some p, Some q, Some x, Some y =>
          Some ((((p * 16 + q) * 16 + x) * 16 + y)%N, rest)
      | _, _, _, _ => None
      end
  | _ => None
  end.

(** A character in front of a text; no text when either is beyond
    Latin-1. *)
Definition cons (x : option ascii) (str : option string) : option string :=
  match x, str with
  | Some c, Some t => Some (String c t)
  | _, _ => None
  end.

(** The characters of a string literal after its opening quote.  In the
    place of the text there is [None] when the literal holds an escape for
    a code unit above U+00FF. *)
Fixpoint readString (fuel : nat) (s : string) : option (option string * string) :=
  match fuel with
  | O => None
  | S fuel' =>
      match s with
      | EmptyString => None
      | String c rest =>
          if N.eqb (code c) 34 then Some (Some EmptyString, rest)
          else if N.ltb (code c) 32 then None
          else if N.eqb (code c) 92 then
            match rest with
            | String e rest' =>
                let continue (x : option ascii) (r : string) :=
                  match readString fuel' r with
                  | Some (str, r') => Some (cons x str, r')
                  | None => None
                  end in
                if N.eqb (code e) 34 then continue (Some e) rest'
                else if N.eqb (code e) 92 then continue (Some e) rest'
                else if N.eqb (code e) 47 then continue (Some e) rest'
                else if N.eqb (code e) 98 then continue (Some (ascii_of_N 8)) rest'
                else if N.eqb (code e) 102 then continue (Some (ascii_of_N 12)) rest'
                else if N.eqb (code e) 110 then continue (Some (ascii_of_N 10)) rest'
                else if N.eqb (code e) 114 then continue (Some (ascii_of_N 13)) rest'
                else if N.eqb (code e) 116 then continue (Some (ascii_of_N 9)) rest'
                else if N.eqb (code e) 117 then
                  match readHex4 rest' with
                  | Some (n, r) =>
                      continue (if N.ltb n 256 then Some (ascii_of_N n) else None) r
                  | None => None
                  end
                else None
            | EmptyString => None
            end
          else
            match readString fuel' rest with
            | Some (str, r') => Some (cons (Some c) str, r')
            | None => None
            end
      end
  end.

Fixpoint digits (s : string) : string * string :=
  match s with
  | String c s' =>
      if inRange 48 57 c then let '(d, r) := digits s' in (String c d, r)
      else (EmptyString, s)
  | EmptyString => (EmptyString, EmptyString)
  end.

(** A number literal: an optional minus sign, an integer part without
    leading zero, an optional fraction and an optional exponent. *)
Definition readNumber (s : string) : option (string * string) :=
  let '(sign, s1) :=
    match s with
    | String c r => if N.eqb (code c) 45 then ("-", r) else ("", s)
    | EmptyString => ("", s)
    end in
  let '(int, s2) := digits s1 in
  match int with
  | EmptyString => None
  | String d0 more =>
      if (N.eqb (code d0) 48 && negb (isEmpty more))%bool then None
      else
        let frac :=
          match s2 with
          | String c r =>
              if N.eqb (code c) 46 then
                let '(f, r') := digits r in
                if isEmpty f then None else Some ("." ++ f, r')
              else Some ("", s2)
          | EmptyString => Some ("", s2)
          end in
        match frac with
        | None => None
        | Some (f, s3) =>
            let expo :=
              match s3 with
              | String c r =>
                  if (N.eqb (code c) 101 || N.eqb (code c) 69)%bool then
                    let '(sg, r1) :=
                      match r with
                      | String c' r' =>
                          if (N.eqb (code c') 43 || N.eqb (code c') 45)%bool
                          then (String c' "", r') else ("", r)
                      | EmptyString => ("", r)
                      end in
                    let '(e, r2) := digits r1 in
                    if isEmpty e then None else Some (String c sg ++ e, r2)
                  else Some ("", s3)
              | EmptyString => Some ("", s3)
              end in
            match expo with
            | None => None
            | Some (e, s4) => Some (sign ++ int ++ f ++ e, s4)
            end
        end
  end.

Section Containers.
(** The reader of one value, used for the elements of containers. *)
Variable readValue : string -> option (value * string).

(** Elements after [[]: the text stands in front of an element. *)
Fixpoint readElements (fuel : nat) (s : string) : option (list value * string) :=
  match fuel with
  | O => None
  | S fuel' =>
      match readValue s with
      | Some (v, r) =>
          match skipWs r with
          | String c r' =>
              if N.eqb (code c) 93 then Some ([v], r')
              else if N.eqb (code c) 44 then
                match readElements fuel' r' with
                | Some (vs, r'') => Some (v :: vs, r'')
                | None => None
                end
              else None
          | EmptyString => None
          end
      | None => None
      end
  end.

(** A member in front of the members read after it.  A member whose key
    holds a character above U+00FF is left out: no name that the source
    looks up has one. *)
Definition member (key : option string) (v : value)
    (ms : list (string * value)) : list (string * value) :=
  match key with
  | Some k => (k, v) :: ms
  | None => ms
  end.

(** Members after [{]: the text stands in front of a key. *)
Fixpoint readMembers (fuel : nat) (s : string)
  : option (list (string * value) * string) :=
  match fuel with
  | O => None
  | S fuel' =>
      match skipWs s with
      | String q r0 =>
          if N.eqb (code q) 34 then
            match readString (S (String.length r0)) r0 with
            | Some (key, r1) =>
                match skipWs r1 with
                | String c r2 =>
                    if N.eqb (code c) 58 then
                      match readValue r2 with
                      | Some (v, r3) =>
                          match skipWs r3 with
                          | String c' r4 =>
                              if N.eqb (code c') 125 then Some (member key v [], r4)
                              else if N.eqb (code c') 44 then
                                match readMembers fuel' r4 with
                                | Some (ms, r5) => Some (member key v ms, r5)
                                | None => None
                                end
                              else None
                          | EmptyString => None
                          end
                      | None => None
                      end
                    else None
                | EmptyString => None
                end
            | None => None
            end
          else None
      | EmptyString => None
      end
  end.
End Containers.

Fixpoint readValue (fuel : nat) (s : string) : option (value * string) :=
  match fuel with
  | O => None
  | S fuel' =>
      match skipWs s with
      | EmptyString => None
      | String c rest as s' =>
          if N.eqb (code c) 123 then
            match skipWs rest with
            | String c' r =>
                if N.eqb (code c') 125 then Some (Obj [], r)
                else option_map (fun p => (Obj (fst p), snd p))
                       (readMembers (readValue fuel') fuel' rest)
            | EmptyString => None
            end
          else if N.eqb (code c) 91 then
            match skipWs rest with
            | String c' r =>
                if N.eqb (code c') 93 then Some (Arr [], r)
                else option_map (fun p => (Arr (fst p), snd p))
                       (readElements (readValue fuel') fuel' rest)
            | EmptyString => None
            end
          else if N.eqb (code c) 34 then
            option_map (fun p => (match fst p with
                                  | Some str => Str str
                                  | None => Wide
                                  end, snd p))
              (readString (S (String.length rest)) rest)
          else
            match stripPrefix "true" s', stripPrefix "false" s',
                  stripPrefix "null" s' with
            | Some r, _, _ => Some (Bool true, r)
            | _, Some r, _ => Some (Bool false, r)
            | _, _, Some r => Some (Null, r)
            | _, _, _ =>
                option_map (fun p => (Number (fst p), snd p)) (readNumber s')
            end
      end
  end.

(** [JSON.parse(text)]; [None] stands for the [SyntaxError]. *)
Definition parse (text : string) : option value :=
  match readValue (S (String.length text)) text with
  | Some (v, rest) => if isEmpty (skipWs rest) then Some v else None
  | None => None
  end.

(** The number written by a text of digits, after the digits [acc]. *)
Fixpoint digitsNumber (s : string) (acc : Z) : Z :=
  match s with
  | EmptyString => acc
  | String c s' => digitsNumber s' (acc * 10 + (Z.of_N (code c) - 48))%Z
  end.

(** A number literal as a mantissa [m] and a decimal exponent [e]: up to
    its sign the literal denotes [m * 10 ^ e]. *)
Definition numberParts (lexeme : string) : Z * Z :=
  let s1 :=
    match lexeme with
    | String c r => if N.eqb (code c) 45 then r else lexeme
    | EmptyString => lexeme
    end in
  let '(int, s2) := digits s1 in
  let '(frac, s3) :=
    match s2 with
    | String c r => if N.eqb (code c) 46 then digits r else (EmptyString, s2)
    | EmptyString => (EmptyString, s2)
    end in
  let e :=
    match s3 with
    | String _ r =>
        match r with
        | String c' r' =>
            if N.eqb (code c') 45 then (- digitsNumber (fst (digits r')) 0)%Z
            else if N.eqb (code c') 43 then digitsNumber (fst (digits r')) 0
            else digitsNumber (fst (digits r)) 0
        | EmptyString => 0%Z
        end
    | EmptyString => 0%Z
    end in
  (digitsNumber (int ++ frac) 0, (e - Z.of_nat (String.length frac))%Z).

(** The literal is read as the number 0 (or -0): its mantissa is 0, or it
    denotes at most 2^-1075, half of the least positive double, which
    rounds to 0. *)
Definition isZero (lexeme : string) : bool :=
  let '(m, e) := numberParts lexeme in
  if (0 <=? e)%Z then (m =? 0)%Z else (m * 2 ^ 1075 <=? 10 ^ (- e))%Z.

(** JavaScript truthiness of a parsed value. *)
Definition truthy (v : value) : bool :=
  match v with
  | Null => false
  | Bool b => b
  | Number n => negb (isZero n)
  | Str s => negb (isEmpty s)
  | Wide | Arr _ | Obj _ => true
  end.

(** Truthiness of [v.key], which may be [undefined]. *)
Definition truthyAt (o : option value) : bool :=
  match o with
  | Some v => truthy v
  | None => false
  end.

(** [a || b]. *)
Definition orElse (a b : option value) : option value :=
  if truthyAt a then a else b.

(** Property access [v.key]: the last member of that name of an object. *)
Definition field (key : string) (v : value) : option value :=
  match v with
  | Obj members =>
      option_map snd (find (fun m => String.eqb (fst m) key) (rev members))
  | _ => None
  end.

Definition stringField (key : string) (v : value) : option string :=
  match field key v with
  | Some (Str s) => Some s
  | _ => None
  end.

Definition asParsedTask (v : value) : ParsedTask :=
  mkParsedTask (stringField "assignmentName" v) (stringField "dueDate" v)
    (stringField "dueTime" v) (stringField "description" v)
    (stringField "courseCategory" v) (stringField "typeTag" v).

Definition asAssignment (v : value) : AssignmentResult.t :=
  AssignmentResult.mk (stringField "bucketId" v) (stringField "newBucketName" v)
    (match field "parsedTask" v with
     | Some (Obj ms) => Some (asParsedTask (Obj ms))
     | _ => None
     end)
    (stringField "reason" v).

(** [assignment.parsedTask || {}] (line 153). *)
Definition parsedTaskValue (assignment : value) : value :=
  match orElse (field "parsedTask" assignment) (Some (Obj [])) with
  | Some p => p
  | None => Obj []
  end.

Definition isText (o : option value) : bool :=
  match o with
  | Some (Str _) => true
  | _ => false
  end.

(** The value is a string or is skipped by [||]. *)
Definition textOrFalsy (o : option value) : bool :=
  (isText o || negb (truthyAt o))%bool.

(** Where the second half of the orchestrator (lines 153-170) uses a text,
    there is a string or a falsy value: the assignment name that wins line
    154, the description, the due date and, when there is a due date, the
    due time. *)
Definition taskFieldsTyped (assignment : value) : bool :=
  let p := parsedTaskValue assignment in
  (isText (orElse (field "assignmentName" p)
             (orElse (field "courseCategory" p) (Some (Str "Task"))))
   && textOrFalsy (field "description" p)
   && textOrFalsy (field "dueDate" p)
   && (negb (truthyAt (field "dueDate" p)) || textOrFalsy (field "dueTime" p)))%bool.

(** The text that [`${x ?? ''}`] shows for a string or a falsy value:
    nothing for [null] and [undefined], "false", and "0" for a number that
    is zero. *)
Definition shown (o : option value) : option string :=
  match o with
  | Some (Str s) => Some s
  | Some (Bool false) => Some "false"
  | Some (Number _) => Some "0"
  | _ => None
  end.

(** The fields of [parsedTask] as the categorizer is given them at line
    159: it puts the description and the assignment name into a template
    literal. *)
Definition categorizerFields (assignment : value) : ParsedTask :=
  let p := parsedTaskValue assignment in
  mkParsedTask (shown (field "assignmentName" p)) (stringField "dueDate" p)
    (stringField "dueTime" p) (shown (field "description" p))
    (stringField "courseCategory" p) (stringField "typeTag" p).

End Json.

(* ================================================================== *)
(** ** Storage

    The tables are lists in insertion order.  [id] is the primary key of
    both tables; [task.bucket_id] references [bucket.id] and
    [bucket.user_id] references the [id] of the user table, both with
    [ON DELETE cascade] ([src/unnamed/part_001]).  An insertion checks the
    primary key first and the reference after it. *)

Module Db.

Definition hasUser (id : string) (w : World) : bool :=
  existsb (String.eqb id) (users w).

Definition hasBucketId (id : string) (w : World) : bool :=
  existsb (fun b => String.eqb (BucketRow.id b) id) (buckets w).

Definition hasTaskId (id : string) (w : World) : bool :=
  existsb (fun t => String.eqb (TaskRow.id t) id) (tasks w).

Definition selectBuckets (where_ : BucketRow.t -> bool) : M (list BucketRow.t) :=
  fun w => (Ok (filter where_ (buckets w)), w).

Definition selectTasks (where_ : TaskRow.t -> bool) : M (list TaskRow.t) :=
  fun w => (Ok (filter where_ (tasks w)), w).

(** [task INNER JOIN bucket ON task.bucket_id = bucket.id WHERE ...]. *)
Definition selectTasksJoinBuckets (where_ : TaskRow.t -> BucketRow.t -> bool)
  : M (list (TaskRow.t * BucketRow.t)) :=
  fun w =>
    (Ok (flat_map
           (fun t =>
              map (fun b => (t, b))
                (filter (fun b =>
                           (String.eqb (TaskRow.bucketId t) (BucketRow.id b)
                            && where_ t b)%bool)
                   (buckets w)))
           (tasks w)),
     w).

Definition insertBucket (row : BucketRow.t) : M unit :=
  fun w =>
    if hasBucketId (BucketRow.id row) w then (Thrown PrimaryKeyViolation, w)
    else if negb (hasUser (BucketRow.userId row) w)
    then (Thrown ForeignKeyViolation, w)
    else (Ok tt, mkWorld (users w) (buckets w ++ [row]) (tasks w) (clock w) (uuids w)
                         (trace w ++ [InsertBucket row]))%list.

Definition insertTask (row : TaskRow.t) : M unit :=
  fun w =>
    if hasTaskId (TaskRow.id row) w then (Thrown PrimaryKeyViolation, w)
    else if negb (hasBucketId (TaskRow.bucketId row) w)
    then (Thrown ForeignKeyViolation, w)
    else (Ok tt, mkWorld (users w) (buckets w) (tasks w ++ [row]) (clock w) (uuids w)
                         (trace w ++ [InsertTask row]))%list.

(** [DELETE FROM bucket WHERE id = ...], with the cascade to its tasks. *)
Definition deleteBucket (id : string) : M unit :=
  fun w =>
    (Ok tt,
     mkWorld (users w)
             (filter (fun b => negb (String.eqb (BucketRow.id b) id)) (buckets w))
             (filter (fun t => negb (String.eqb (TaskRow.bucketId t) id)) (tasks w))
             (clock w) (uuids w) (trace w ++ [DeleteBucket id])%list).

Definition deleteTask (id : string) : M unit :=
  fun w =>
    (Ok tt,
     mkWorld (users w) (buckets w)
             (filter (fun t => negb (String.eqb (TaskRow.id t) id)) (tasks w))
             (clock w) (uuids w) (trace w ++ [DeleteTask id])%list).

(** [UPDATE bucket SET name, updated_at WHERE id = ...]. *)
Definition updateBucket (id name : string) (updatedAt : Z) : M unit :=
  fun w =>
    (Ok tt,
     mkWorld (users w)
             (map (fun b =>
                     if String.eqb (BucketRow.id b) id
                     then BucketRow.mk (BucketRow.id b) name (BucketRow.userId b)
                            (BucketRow.createdAt b) updatedAt
                     else b)
                (buckets w))
             (tasks w) (clock w) (uuids w)
             (trace w ++ [UpdateBucket id name updatedAt])%list).

Definition orKeep {A} (new : option A) (old : A) : A :=
  match new with Some x => x | None => old end.

(** [UPDATE task SET ... WHERE id = ...]; a field passed as [undefined] is
    left out of the statement and keeps its value. *)
Definition updateTask (id : string) (assignmentName description : option string)
    (dueDate : option Z) (bucketId : option string) (updatedAt : Z) : M unit :=
  fun w =>
    if (hasTaskId id w
        && match bucketId with
           | Some b => negb (hasBucketId b w)
           | None => false
           end)%bool
    then (Thrown ForeignKeyViolation, w)
    else
      (Ok tt,
       mkWorld (users w) (buckets w)
               (map (fun t =>
                       if String.eqb (TaskRow.id t) id
                       then TaskRow.mk (TaskRow.id t)
                              (orKeep bucketId (TaskRow.bucketId t))
                              (TaskRow.raw t)
                              (match assignmentName with
                               | Some x => Some x
                               | None => TaskRow.assignmentName t
                               end)
                              (match description with
                               | Some x => Some x
                               | None => TaskRow.description t
                               end)
                              (match dueDate with
                               | Some x => Some x
                               | None => TaskRow.dueDate t
                               end)
                              (TaskRow.createdAt t) updatedAt
                       else t)
                  (tasks w))
               (clock w) (uuids w)
               (trace w ++ [UpdateTask id assignmentName description dueDate
                              bucketId updatedAt])%list).

Definition byCreatedAt (a b : BucketRow.t) : bool :=
  (BucketRow.createdAt a <=? BucketRow.createdAt b)%Z.

Definition taskByCreatedAt (a b : TaskRow.t) : bool :=
  (TaskRow.createdAt a <=? TaskRow.createdAt b)%Z.

(** [ORDER BY task.due_date, task.created_at]: ascending, NULLs last. *)
Definition byDueDateThenCreatedAt (a b : TaskRow.t * BucketRow.t) : bool :=
  match TaskRow.dueDate (fst a), TaskRow.dueDate (fst b) with
  | Some x, Some y =>
      ((x <? y) || ((x =? y) && taskByCreatedAt (fst a) (fst b)))%Z%bool
  | Some _, None => true
  | None, Some _ => false
  | None, None => taskByCreatedAt (fst a) (fst b)
  end.

End Db.

(* ================================================================== *)
(** ** The server actions of [bucket.ts] *)

Import JsString.

(** Lines 481-491. *)
Definition composeDueDate (env : Env) (dueDate dueTime : option string)
  : option Z :=
  if negb (truthy dueDate) then None
  else
    let time := nullish (orElse dueTime (Some "00:00")) "00:00" in
    let isoTime := if Nat.eqb (String.length time) 5 then time ++ ":00" else time in
    let iso := nullish dueDate "" ++ "T" ++ isoTime in
    JsDate.parse (tzOffset env) (legacyDateParse env) iso.

(** Lines 493-511; the call is recorded in the trace. *)
Definition categorizeTaskType (task : string) (parsedTask : option ParsedTask)
  : M TaskType :=
  (log (Categorize task parsedTask) ;;;
   ret (Categorizer.categorizeTaskType task parsedTask))%action.

(** The date and the time shown for a stored due timestamp (lines 458-462,
    and again at 308-312 and 413-417). *)
Definition dueDateText (d : option Z) : option string :=
  option_map (fun t => JsDate.slice 0 10 (JsDate.toISOString t)) d.

Definition dueTimeText (d : option Z) : option string :=
  match d with
  | Some t =>
      if (negb (JsDate.getUTCHours t =? 0)%Z
          || negb (JsDate.getUTCMinutes t =? 0)%Z)%bool
      then Some (JsDate.slice 11 16 (JsDate.toISOString t))
      else None
  | None => None
  end.

(** Lines 457-479. *)
Definition formatTaskRecord (task : TaskRow.t) : M TaskItem.t :=
  (let dueDate := dueDateText (TaskRow.dueDate task) in
   let dueTime := dueTimeText (TaskRow.dueDate task) in
   typeTag <- categorizeTaskType (TaskRow.raw task)
                (Some (mkParsedTask (TaskRow.assignmentName task) None None
                         (TaskRow.description task) None None)) ;;
   ret (TaskItem.mk (TaskRow.id task) (TaskRow.raw task)
          (TaskRow.assignmentName task) dueDate dueTime
          (TaskRow.description task) (Some typeTag) None))%action.

(** Lines 439-455. *)
Definition ensureDefaultBuckets (userId : string) : M unit :=
  (existing <- Db.selectBuckets
                 (fun b => (String.eqb (BucketRow.userId b) userId
                            && String.eqb (BucketRow.name b)
                                 (hd "" DEFAULT_BUCKET_NAMES))%bool) ;;
   if Nat.eqb (List.length (firstn 1 existing)) 0 then
     id <- randomUUID ;;
     createdAt <- newDate ;;
     updatedAt <- newDate ;;
     Db.insertBucket (BucketRow.mk id (hd "" DEFAULT_BUCKET_NAMES) userId
                        createdAt updatedAt) ;;;
     log (DefaultBucketCreated userId)
   else ret tt)%action.

(** Lines 66-104. *)
Definition loadBuckets (userId : string) : M (list Bucket.t) :=
  (if isEmpty userId then ret []
   else
     ensureDefaultBuckets userId ;;;
     rows <- Db.selectBuckets (fun b => String.eqb (BucketRow.userId b) userId) ;;
     let bucketRows := orderBy Db.byCreatedAt rows in
     if Nat.eqb (List.length bucketRows) 0 then ret []
     else
       let bucketIds := map BucketRow.id bucketRows in
       trows <- Db.selectTasks
                  (fun t => existsb (String.eqb (TaskRow.bucketId t)) bucketIds) ;;
       let taskRows := orderBy Db.taskByCreatedAt trows in
       formatted <- mapM (fun task =>
                            item <- formatTaskRecord task ;;
                            ret (TaskRow.bucketId task, item))
                      taskRows ;;
       ret (map (fun bucket =>
                   Bucket.mk (BucketRow.id bucket) (BucketRow.name bucket)
                     (map snd
                        (filter (fun p => String.eqb (fst p) (BucketRow.id bucket))
                           formatted)))
              bucketRows))%action.

(** [ensureOpenAIConfigured] ([src/lib/openai.ts], lines 7-11): the empty
    text is falsy. *)
Definition ensureOpenAIConfigured (env : Env) : M unit :=
  if isEmpty (OPENAI_API_KEY env) then throw MissingApiKey else ret tt.

(** [parts.join(sep)]. *)
Fixpoint join (sep : string) (parts : list string) : string :=
  match parts with
  | [] => ""
  | [x] => x
  | x :: rest => x ++ sep ++ join sep rest
  end.

(** The text in front of the first [T] ([split('T')[0]], line 519). *)
Fixpoint beforeT (s : string) : string :=
  match s with
  | EmptyString => EmptyString
  | String c s' =>
      if Ascii.eqb c "T" then EmptyString else String c (beforeT s')
  end.

(** Lines 521-532. *)
Definition bucketSummary (buckets : list Bucket.t) : string :=
  if Nat.eqb (List.length buckets) 0 then "No buckets yet."
  else
    join (String (ascii_of_nat 10) "")
      (map (fun bucket =>
              "- " ++ Bucket.id bucket ++ ": " ++ Bucket.name bucket
                ++ " (example items: "
                ++ nullish
                     (orElse
                        (Some (join "; "
                                 (map (fun item =>
                                         nullish
                                           (orElse (TaskItem.assignmentName item)
                                              (Some (TaskItem.raw item)))
                                           (TaskItem.raw item)
                                           ++ (if truthy (TaskItem.dueDate item)
                                               then " due "
                                                      ++ nullish
                                                           (TaskItem.dueDate item)
                                                           ""
                                               else ""))
                                    (firstn 2 (Bucket.items bucket)))))
                        (Some "none"))
                     "none"
                ++ ")")
         buckets).

(** The request of lines 581-589. *)
Definition askModel (env : Env) (task : string) (buckets : list Bucket.t)
    (currentDate : Z) : Completion :=
  chat env (mkPrompt task (bucketSummary buckets)
              (beforeT (JsDate.toISOString currentDate))).

(** Lines 514-604: [None] is the [undefined] returned when the call or the
    parse fails. *)
Definition analyzeTaskWithAI (env : Env) (task : string)
    (buckets : list Bucket.t) (currentDate : Z) : option Json.value :=
  match askModel env task buckets currentDate with
  | CallFailed => None
  | Reply message =>
      let content := nullish message "{}" in
      Json.parse content
  end.

(** [!assignment] (line 122). *)
Definition noSuggestion (assignment : option Json.value) : bool :=
  match assignment with
  | Some v => negb (Json.truthy v)
  | None => true
  end.

(** [name.toLowerCase().replace(/\s+/g, '')] (lines 133 and 135). *)
Definition normalizeName (name : string) : string :=
  removeSpaces (toLowerCase name).

(** Line 130 as the interface reads it: the candidate name when the
    values in its places are strings. *)
Definition candidateBucketName (assignment : AssignmentResult.t) : string :=
  nullish
    (orElse (AssignmentResult.newBucketName assignment)
       (orElse (match AssignmentResult.parsedTask assignment with
                | Some p => courseCategory p
                | None => None
                end)
          (Some "Others")))
    "Others".

(** Line 130 on the value that [JSON.parse] returned:
    [assignment.newBucketName || assignment.parsedTask?.courseCategory ||
    'Others']. *)
Definition candidateValue (assignment : Json.value) : option Json.value :=
  Json.orElse (Json.field "newBucketName" assignment)
    (Json.orElse (match Json.field "parsedTask" assignment with
                  | Some p => Json.field "courseCategory" p
                  | None => None
                  end)
       (Some (Json.Str "Others"))).

(** Line 127: [b.id === assignment.bucketId] holds for a string only. *)
Definition findById (existingBuckets : list Bucket.t) (bucketId : option string)
  : option Bucket.t :=
  find (fun b => match bucketId with
                 | Some i => String.eqb (Bucket.id b) i
                 | None => false
                 end)
    existingBuckets.

(** Lines 134-136. *)
Definition findByName (existingBuckets : list Bucket.t) (bucketName : string)
  : option Bucket.t :=
  find (fun b => String.eqb (normalizeName (Bucket.name b))
                   (normalizeName bucketName))
    existingBuckets.

(** The [parsedTask] of a suggestion as the interface reads it. *)
Definition parsedTaskOf (a : AssignmentResult.t) : ParsedTask :=
  match AssignmentResult.parsedTask a with
  | Some p => p
  | None => emptyParsedTask
  end.

(** Lines 107-173.  Line 133 calls [toLowerCase] on the candidate name,
    which throws a [TypeError] when the candidate is a number, a boolean,
    an array or an object. *)
Definition assignTaskToBucket (env : Env) (task userId : string)
  : M (list Bucket.t) :=
  (let trimmedTask := trim task in
   if (isEmpty trimmedTask || isEmpty userId)%bool then loadBuckets userId
   else
     ensureOpenAIConfigured env ;;;
     ensureDefaultBuckets userId ;;;
     existingBuckets <- loadBuckets userId ;;
     now <- newDate ;;
     match analyzeTaskWithAI env trimmedTask existingBuckets now with
     | None => loadBuckets userId
     | Some assignment =>
         if negb (Json.truthy assignment) then loadBuckets userId
         else
           targetBucket <-
             match findById existingBuckets
                     (Json.stringField "bucketId" assignment) with
             | Some b => ret b
             | None =>
                 match candidateValue assignment with
                 | Some (Json.Str bucketName) =>
                     match findByName existingBuckets bucketName with
                     | Some b => ret b
                     | None =>
                         bucketId <- randomUUID ;;
                         createdAt <- newDate ;;
                         updatedAt <- newDate ;;
                         Db.insertBucket
                           (BucketRow.mk bucketId bucketName userId createdAt
                              updatedAt) ;;;
                         ret (Bucket.mk bucketId bucketName [])
                     end
                 | Some Json.Wide => throw Unmodelled
                 | _ => throw TypeError
                 end
             end ;;
           if negb (Json.taskFieldsTyped assignment) then throw Unmodelled
           else
             let parsedTask := parsedTaskOf (Json.asAssignment assignment) in
             let assignmentName :=
               nullish (orElse (assignmentName parsedTask)
                          (orElse (courseCategory parsedTask) (Some "Task")))
                 "Task" in
             let dueDate :=
               composeDueDate env (dueDate parsedTask) (dueTime parsedTask) in
             typeTag <-
               match (if truthy (typeTag parsedTask)
                      then validTaskType (nullish (typeTag parsedTask) "")
                      else None) with
               | Some tag => ret tag
               | None =>
                   categorizeTaskType trimmedTask
                     (Some (Json.categorizerFields assignment))
               end ;;
             id <- randomUUID ;;
             createdAt <- newDate ;;
             updatedAt <- newDate ;;
             Db.insertTask
               (TaskRow.mk id (Bucket.id targetBucket) trimmedTask
                  (Some assignmentName)
                  (Some (nullish (orElse (description parsedTask)
                                    (Some trimmedTask))
                           trimmedTask))
                  dueDate createdAt updatedAt) ;;;
             loadBuckets userId
     end)%action.

(** The guard of lines 195 and 269. *)
Definition isDefaultBucketName (bucketName : string) : bool :=
  existsb (fun name => String.eqb (toLowerCase name) (toLowerCase bucketName))
    DEFAULT_BUCKET_NAMES.

(** The query of lines 183-187 and 259-263. *)
Definition selectOwnedBucket (userId bucketId : string) : M (list BucketRow.t) :=
  (rows <- Db.selectBuckets
             (fun b => (String.eqb (BucketRow.id b) bucketId
                        && String.eqb (BucketRow.userId b) userId)%bool) ;;
   ret (firstn 1 rows))%action.

(** The query of lines 211-218 and 344-351. *)
Definition selectOwnedTask (userId taskId : string)
  : M (list (TaskRow.t * BucketRow.t)) :=
  (rows <- Db.selectTasksJoinBuckets
             (fun t b => (String.eqb (TaskRow.id t) taskId
                          && String.eqb (BucketRow.userId b) userId)%bool) ;;
   ret (firstn 1 rows))%action.

(** Lines 175-201. *)
Definition deleteBucket (userId bucketId : string) : M (list Bucket.t) :=
  (if (isEmpty userId || isEmpty bucketId)%bool then loadBuckets userId
   else
     bucketRecord <- selectOwnedBucket userId bucketId ;;
     match bucketRecord with
     | [] => loadBuckets userId
     | bucket :: _ =>
         if isDefaultBucketName (BucketRow.name bucket) then loadBuckets userId
         else Db.deleteBucket bucketId ;;; loadBuckets userId
     end)%action.

(** Lines 203-226. *)
Definition completeTask (userId taskId : string) : M (list Bucket.t) :=
  (if (isEmpty userId || isEmpty taskId)%bool then loadBuckets userId
   else
     taskRecord <- selectOwnedTask userId taskId ;;
     match taskRecord with
     | [] => loadBuckets userId
     | _ :: _ => Db.deleteTask taskId ;;; loadBuckets userId
     end)%action.

(** Lines 228-248. *)
Definition createEmptyBucket (userId bucketName : string) : M (list Bucket.t) :=
  (if (isEmpty userId || isEmpty (trim bucketName))%bool then loadBuckets userId
   else
     let trimmedName := trim bucketName in
     bucketId <- randomUUID ;;
     createdAt <- newDate ;;
     updatedAt <- newDate ;;
     Db.insertBucket (BucketRow.mk bucketId trimmedName userId createdAt updatedAt) ;;;
     loadBuckets userId)%action.

(** Lines 250-279. *)
Definition updateBucketName (userId bucketId newName : string)
  : M (list Bucket.t) :=
  (if (isEmpty userId || isEmpty bucketId || isEmpty (trim newName))%bool
   then loadBuckets userId
   else
     bucketRecord <- selectOwnedBucket userId bucketId ;;
     match bucketRecord with
     | [] => loadBuckets userId
     | bucket :: _ =>
         if isDefaultBucketName (BucketRow.name bucket) then loadBuckets userId
         else
           updatedAt <- newDate ;;
           Db.updateBucket bucketId (trim newName) updatedAt ;;;
           loadBuckets userId
     end)%action.

(** The entry built at lines 307-326 and 413-431. *)
Definition calendarEntry (dueDateKey : option string) (row : TaskRow.t * BucketRow.t)
  : M CalendarTask.t :=
  (let task := fst row in
   typeTag <- categorizeTaskType (TaskRow.raw task)
                (Some (mkParsedTask (TaskRow.assignmentName task) None None
                         (TaskRow.description task) None None)) ;;
   ret (CalendarTask.mk (TaskRow.id task) (BucketRow.name (snd row))
          (TaskRow.assignmentName task) (TaskRow.raw task) dueDateKey
          (dueTimeText (TaskRow.dueDate task)) (TaskRow.description task)
          (Some typeTag)))%action.

(** Lines 281-327. *)
Definition getTaskById (userId taskId : string) : M (option CalendarTask.t) :=
  (if (isEmpty userId || isEmpty taskId)%bool then ret None
   else
     row <- selectOwnedTask userId taskId ;;
     match row with
     | [] => ret None
     | r :: _ =>
         entry <- calendarEntry (dueDateText (TaskRow.dueDate (fst r))) r ;;
         ret (Some entry)
     end)%action.

(** [grouped[key] = [...(grouped[key] ?? []), entry]] on an object whose
    keys keep their insertion order. *)
Fixpoint groupAdd (key : string) (entry : CalendarTask.t)
    (grouped : list (string * list CalendarTask.t))
  : list (string * list CalendarTask.t) :=
  match grouped with
  | [] => [(key, [entry])]
  | (k, es) :: rest =>
      if String.eqb k key then (k, es ++ [entry])%list :: rest
      else (k, es) :: groupAdd key entry rest
  end.

(** Lines 392-437. *)
Definition loadCalendarTasks (userId : string)
  : M (list (string * list CalendarTask.t)) :=
  (if isEmpty userId then ret []
   else
     joined <- Db.selectTasksJoinBuckets
                 (fun _ b => String.eqb (BucketRow.userId b) userId) ;;
     let rows := orderBy Db.byDueDateThenCreatedAt joined in
     entries <- mapM (fun row =>
                        let dueDate :=
                          nullish (dueDateText (TaskRow.dueDate (fst row)))
                            "unscheduled" in
                        entry <- calendarEntry (Some dueDate) row ;;
                        ret (dueDate, entry))
                  rows ;;
     ret (fold_left (fun grouped p => groupAdd (fst p) (snd p) grouped)
            entries []))%action.

(** Lines 329-371. *)
Definition updateTask (env : Env) (userId taskId : string)
    (updates : TaskUpdates.t) : M (list (string * list CalendarTask.t)) :=
  (if (isEmpty userId || isEmpty taskId)%bool then loadCalendarTasks userId
   else
     taskRecord <- selectOwnedTask userId taskId ;;
     match taskRecord with
     | [] => loadCalendarTasks userId
     | _ :: _ =>
         let dueDate :=
           if truthy (TaskUpdates.dueDate updates)
           then composeDueDate env (TaskUpdates.dueDate updates)
                  (TaskUpdates.dueTime updates)
           else None in
         updatedAt <- newDate ;;
         Db.updateTask taskId (TaskUpdates.assignmentName updates)
           (TaskUpdates.description updates) dueDate
           (TaskUpdates.bucketId updates) updatedAt ;;;
         loadCalendarTasks userId
     end)%action.

(** Lines 373-379. *)
Definition deleteTaskFromCalendar (userId taskId : string)
  : M (list (string * list CalendarTask.t)) :=
  (completeTask userId taskId ;;; loadCalendarTasks userId)%action.

(* ================================================================== *)
(** ** Runs of the server *)

(** One request to the server, the passing of time between requests, or
    the authentication layer storing a new user.  (Users are not deleted:
    the configuration of [src/lib/auth.ts] does not enable it.) *)
Inductive Request : Type :=
| LoadBuckets (userId : string)
| AssignTask (task userId : string)
| DeleteBucketReq (userId bucketId : string)
| CompleteTask (userId taskId : string)
| CreateEmptyBucket (userId bucketName : string)
| UpdateBucketName (userId bucketId newName : string)
| GetTaskById (userId taskId : string)
| UpdateTaskReq (userId taskId : string) (updates : TaskUpdates.t)
| DeleteTaskFromCalendar (userId taskId : string)
| LoadCalendarTasks (userId : string)
| Tick (elapsed : Z)
| SignUp (userId : string).

(** The world after a request; what the request returned (or threw) is
    dropped. *)
Definition serve (env : Env) (r : Request) (w : World) : World :=
  match r with
  | LoadBuckets u => snd (loadBuckets u w)
  | AssignTask t u => snd (assignTaskToBucket env t u w)
  | DeleteBucketReq u b => snd (deleteBucket u b w)
  | CompleteTask u t => snd (completeTask u t w)
  | CreateEmptyBucket u n => snd (createEmptyBucket u n w)
  | UpdateBucketName u b n => snd (updateBucketName u b n w)
  | GetTaskById u t => snd (getTaskById u t w)
  | UpdateTaskReq u t up => snd (updateTask env u t up w)
  | DeleteTaskFromCalendar u t => snd (deleteTaskFromCalendar u t w)
  | LoadCalendarTasks u => snd (loadCalendarTasks u w)
  | Tick d =>
      mkWorld (users w) (buckets w) (tasks w) (clock w + d)%Z (uuids w) (trace w)
  | SignUp u =>
      if Db.hasUser u w then w
      else mkWorld (users w ++ [u]) (buckets w) (tasks w) (clock w) (uuids w)
                   (trace w)
  end.

(** The empty database: no user has signed up. *)
Definition initial : World := mkWorld [] [] [] 0%Z 0 [].

(** The worlds that the server can be in: any sequence of requests, under
    any behaviour of the surroundings, from the empty database. *)
Inductive reachable : World -> Prop :=
| reachable_initial : reachable initial
| reachable_serve (env : Env) (r : Request) (w : World) :
    reachable w -> reachable (serve env r w).

(* ================================================================== *)
(** ** Vocabulary of the properties

    Views of the tables as functions, the worlds that the actions lead
    to, the invariants of the reachable worlds, and the statements of the
    specification as they are worded. *)

(** A group matches a text when one of its patterns occurs in it. *)
Definition groupMatches (src : string) (entry : TaskType * list Regex.t) : Prop :=
  exists regex, In regex (snd entry) /\ Regex.matches regex src.

(** The text [kw] occurs somewhere in [s]. *)
Definition contains (kw s : string) : Prop :=
  exists pre post, s = pre ++ kw ++ post.

(** What [new Date] makes of a date text, the separator and a time text. *)
Definition parseComposite (env : Env) (dateStr time : string) : option Z :=
  JsDate.parse (tzOffset env) (legacyDateParse env) (dateStr ++ "T" ++ time).

(** Surroundings for examples: the key is set, the engine's fallback parser
    rejects everything, the model call fails; the zone is [tz] minutes east
    of UTC. *)
Definition zoneEnv (tz : Z) : Env :=
  mkEnv "sk-test" tz (fun _ => None) (fun _ => CallFailed).

(** The empty database after the users "u1" and "u2" have signed up. *)
Definition signedUp : World :=
  serve (zoneEnv 0) (SignUp "u2") (serve (zoneEnv 0) (SignUp "u1") initial).

(** The rule of C5 for times that are not five characters long, as worded:
    such a time is put into the composite text as it is. *)
Definition otherLengthsUsedAsIs : Prop :=
  forall (env : Env) (dateStr timeStr : string),
    String.length timeStr <> 5 ->
    composeDueDate env (Some dateStr) (Some timeStr)
    = parseComposite env dateStr timeStr.

(** Does the text "14:00", composed with the date "2024-12-01" on a server
    [tz] minutes east of UTC, come back from the projection? *)
Definition roundTripsAt (tz : Z) : bool :=
  let stored := composeDueDate (zoneEnv tz) (Some "2024-12-01") (Some "14:00") in
  match dueDateText stored, dueTimeText stored with
  | Some d, Some t => (String.eqb d "2024-12-01" && String.eqb t "14:00")%bool
  | _, _ => false
  end.

Local Open Scope list_scope.

(** The world with some more effects recorded. *)
Definition addTrace (es : list Effect) (w : World) : World :=
  mkWorld (users w) (buckets w) (tasks w) (clock w) (uuids w) (trace w ++ es).

(** The world after a row went into the bucket table. *)
Definition withBucket (row : BucketRow.t) (w : World) : World :=
  mkWorld (users w) (buckets w ++ [row]) (tasks w) (clock w) (uuids w)
          (trace w ++ [InsertBucket row]).

(** The world after a row went into the task table. *)
Definition withTask (row : TaskRow.t) (w : World) : World :=
  mkWorld (users w) (buckets w) (tasks w ++ [row]) (clock w) (uuids w)
          (trace w ++ [InsertTask row]).

(** The world after [randomUUID] handed out an identifier. *)
Definition nextUuid (w : World) : World :=
  mkWorld (users w) (buckets w) (tasks w) (clock w) (S (uuids w)) (trace w).

(** The user owns a bucket named exactly like the reserved default. *)
Definition hasDefault (userId : string) (w : World) : bool :=
  existsb (fun b => (String.eqb (BucketRow.userId b) userId
                     && String.eqb (BucketRow.name b) "Events")%bool)
    (buckets w).

(** The row that [ensureDefaultBuckets] inserts in the world [w]. *)
Definition defaultRow (userId : string) (w : World) : BucketRow.t :=
  BucketRow.mk (uuidOf (uuids w)) "Events" userId (clock w) (clock w).

(** The arguments with which the read side calls the categorizer. *)
Definition storedFields (task : TaskRow.t) : option ParsedTask :=
  Some (mkParsedTask (TaskRow.assignmentName task) None None
          (TaskRow.description task) None None).

(** [formatTaskRecord] without the trace. *)
Definition itemOf (task : TaskRow.t) : TaskItem.t :=
  TaskItem.mk (TaskRow.id task) (TaskRow.raw task) (TaskRow.assignmentName task)
    (dueDateText (TaskRow.dueDate task)) (dueTimeText (TaskRow.dueDate task))
    (TaskRow.description task)
    (Some (Categorizer.categorizeTaskType (TaskRow.raw task) (storedFields task)))
    None.

Definition bucketRowsOf (userId : string) (w : World) : list BucketRow.t :=
  orderBy Db.byCreatedAt
    (filter (fun b => String.eqb (BucketRow.userId b) userId) (buckets w)).

Definition taskRowsOf (userId : string) (w : World) : list TaskRow.t :=
  orderBy Db.taskByCreatedAt
    (filter (fun t => existsb (String.eqb (TaskRow.bucketId t))
                        (map BucketRow.id (bucketRowsOf userId w)))
       (tasks w)).

(** What [loadBuckets] returns, as a function of the tables. *)
Definition bucketView (userId : string) (w : World) : list Bucket.t :=
  map (fun bucket =>
         Bucket.mk (BucketRow.id bucket) (BucketRow.name bucket)
           (map snd
              (filter (fun p => String.eqb (fst p) (BucketRow.id bucket))
                 (map (fun t => (TaskRow.bucketId t, itemOf t))
                    (taskRowsOf userId w)))))
    (bucketRowsOf userId w).

(** The categorizer calls of one [loadBuckets]: one per task of the user. *)
Definition viewTrace (userId : string) (w : World) : list Effect :=
  map (fun t => Categorize (TaskRow.raw t) (storedFields t)) (taskRowsOf userId w).

Definition isCategorize (e : Effect) : bool :=
  match e with Categorize _ _ => true | _ => false end.

Definition isCreatedFor (userId : string) (e : Effect) : bool :=
  match e with
  | DefaultBucketCreated u => String.eqb u userId
  | _ => false
  end.

(** How often [ensureDefaultBuckets] created the default bucket of a user. *)
Definition autoCreated (userId : string) (w : World) : nat :=
  List.length (filter (isCreatedFor userId) (trace w)).

(** Identifiers are unique and come from [randomUUID]; buckets have an
    owner, who has a user row; the default bucket of a user was created at
    most once, and not at all while the user has none. *)
Record Sound (w : World) : Prop := mkSound {
  sound_users :
    forall b, In b (buckets w) -> Db.hasUser (BucketRow.userId b) w = true;
  sound_keys : NoDup (map BucketRow.id (buckets w));
  sound_bucket_ids :
    forall b, In b (buckets w) ->
              exists k, k < uuids w /\ BucketRow.id b = uuidOf k;
  sound_task_ids :
    forall t, In t (tasks w) ->
              exists k, k < uuids w /\ TaskRow.id t = uuidOf k;
  sound_owners : forall b, In b (buckets w) -> BucketRow.userId b <> "";
  sound_created :
    forall u, autoCreated u w <= 1
              /\ (hasDefault u w = false -> autoCreated u w = 0)
}.

(** Every owner of a bucket, other than [skip], owns the default bucket. *)
Definition defaultsPresentExcept (skip : option string) (w : World) : Prop :=
  forall b, In b (buckets w) ->
            skip <> Some (BucketRow.userId b) ->
            hasDefault (BucketRow.userId b) w = true.

Definition Inv (w : World) : Prop := Sound w /\ defaultsPresentExcept None w.

(** What the world looks like after [ensureDefaultBuckets], for a user
    who has the default bucket or has a user row. *)
Definition afterDefault (u : string) (w : World) : World :=
  if hasDefault u w then w
  else addTrace [DefaultBucketCreated u] (withBucket (defaultRow u w) (nextUuid w)).

(** The bucket with this id that the user owns, if any (lines 183-189). *)
Definition ownedBucket (userId bucketId : string) (w : World)
  : option BucketRow.t :=
  find (fun b => (String.eqb (BucketRow.id b) bucketId
                  && String.eqb (BucketRow.userId b) userId)%bool)
    (buckets w).

(** The user owns the bucket of the task with this id (lines 211-220). *)
Definition ownsTask (userId taskId : string) (w : World) : bool :=
  existsb (fun t =>
             existsb (fun b =>
                        (String.eqb (TaskRow.bucketId t) (BucketRow.id b)
                         && (String.eqb (TaskRow.id t) taskId
                             && String.eqb (BucketRow.userId b) userId))%bool)
               (buckets w))
    (tasks w).

(** [calendarEntry] without the trace. *)
Definition entryOf (dueDateKey : option string) (row : TaskRow.t * BucketRow.t)
  : CalendarTask.t :=
  CalendarTask.mk (TaskRow.id (fst row)) (BucketRow.name (snd row))
    (TaskRow.assignmentName (fst row)) (TaskRow.raw (fst row)) dueDateKey
    (dueTimeText (TaskRow.dueDate (fst row))) (TaskRow.description (fst row))
    (Some (Categorizer.categorizeTaskType (TaskRow.raw (fst row))
             (storedFields (fst row)))).

(** The rows of the calendar query, in its order. *)
Definition calendarRows (userId : string) (w : World)
  : list (TaskRow.t * BucketRow.t) :=
  orderBy Db.byDueDateThenCreatedAt
    (flat_map
       (fun t =>
          map (fun b => (t, b))
            (filter (fun b =>
                       (String.eqb (TaskRow.bucketId t) (BucketRow.id b)
                        && String.eqb (BucketRow.userId b) userId)%bool)
               (buckets w)))
       (tasks w)).

Definition dateKey (row : TaskRow.t * BucketRow.t) : string :=
  JsString.nullish (dueDateText (TaskRow.dueDate (fst row))) "unscheduled".

(** What [loadCalendarTasks] returns, as a function of the tables. *)
Definition calendarView (userId : string) (w : World)
  : list (string * list CalendarTask.t) :=
  if JsString.isEmpty userId then []
  else fold_left (fun grouped p => groupAdd (fst p) (snd p) grouped)
         (map (fun row => (dateKey row, entryOf (Some (dateKey row)) row))
            (calendarRows userId w))
         [].

(** The categorizer calls of one [loadCalendarTasks]. *)
Definition calendarTrace (userId : string) (w : World) : list Effect :=
  if JsString.isEmpty userId then []
  else map (fun row => Categorize (TaskRow.raw (fst row)) (storedFields (fst row)))
         (calendarRows userId w).

(** The tag that line 157 accepts from the model, if any. *)
Definition tagFromModel (p : ParsedTask) : option TaskType :=
  if JsString.truthy (typeTag p)
  then validTaskType (JsString.nullish (typeTag p) "")
  else None.

(** The bucket row created at lines 140-147 in the world [w]. *)
Definition newBucketRow (userId : string) (a : AssignmentResult.t) (w : World)
  : BucketRow.t :=
  BucketRow.mk (uuidOf (uuids w)) (candidateBucketName a) userId
    (clock w) (clock w).

(** The world after the target bucket is resolved, and the target. *)
Definition afterResolve (userId : string) (existing : list Bucket.t)
    (a : AssignmentResult.t) (w : World) : World * Bucket.t :=
  match findById existing (AssignmentResult.bucketId a) with
  | Some b => (w, b)
  | None =>
      match findByName existing (candidateBucketName a) with
      | Some b => (w, b)
      | None =>
          (withBucket (newBucketRow userId a w) (nextUuid w),
           Bucket.mk (uuidOf (uuids w)) (candidateBucketName a) [])
      end
  end.

(** The world after the type tag is settled (lines 156-159); [q] holds
    the fields as the categorizer is given them. *)
Definition afterTag (trimmedTask : string) (p q : ParsedTask) (w : World)
  : World :=
  match tagFromModel p with
  | Some _ => w
  | None => addTrace [Categorize trimmedTask (Some q)] w
  end.

(** The task row inserted at lines 161-170 in the world [w]. *)
Definition newTaskRow (env : Env) (trimmedTask : string) (p : ParsedTask)
    (targetId : string) (w : World) : TaskRow.t :=
  TaskRow.mk (uuidOf (uuids w)) targetId trimmedTask
    (Some (JsString.nullish
             (JsString.orElse (assignmentName p)
                (JsString.orElse (courseCategory p) (Some "Task"))) "Task"))
    (Some (JsString.nullish
             (JsString.orElse (description p) (Some trimmedTask)) trimmedTask))
    (composeDueDate env (dueDate p) (dueTime p)) (clock w) (clock w).

(** The world after an accepted suggestion was carried out, starting from
    the world [w] in which the buckets were loaded. *)
Definition afterAssignment (env : Env) (userId trimmedTask : string)
    (existing : list Bucket.t) (a : AssignmentResult.t) (q : ParsedTask)
    (w : World) : World :=
  let '(w3, target) := afterResolve userId existing a w in
  let w4 := afterTag trimmedTask (parsedTaskOf a) q w3 in
  withTask (newTaskRow env trimmedTask (parsedTaskOf a) (Bucket.id target) w4)
    (nextUuid w4).

(** The target bucket of a suggestion can be resolved: a loaded bucket has
    the suggested id, or the candidate name is a string. *)
Definition resolvable (existing : list Bucket.t) (v : Json.value) : bool :=
  match findById existing (Json.stringField "bucketId" v) with
  | Some _ => true
  | None => Json.isText (candidateValue v)
  end.

(** What line 133 throws on a candidate name that is not a string (for a
    string beyond Latin-1 the embedding stops). *)
Definition nameError (v : Json.value) : Error :=
  match candidateValue v with
  | Some Json.Wide => Unmodelled
  | _ => TypeError
  end.

(** The part of [assignTaskToBucket] after an accepted suggestion (lines
    126-172), from the world [w] in which the buckets were loaded. *)
Definition carryOut (env : Env) (userId trimmedTask : string)
    (existingBuckets : list Bucket.t) (assignment : Json.value)
  : M (list Bucket.t) :=
  (targetBucket <-
     match findById existingBuckets (Json.stringField "bucketId" assignment) with
     | Some b => ret b
     | None =>
         match candidateValue assignment with
         | Some (Json.Str bucketName) =>
             match findByName existingBuckets bucketName with
             | Some b => ret b
             | None =>
                 bucketId <- randomUUID ;;
                 createdAt <- newDate ;;
                 updatedAt <- newDate ;;
                 Db.insertBucket
                   (BucketRow.mk bucketId bucketName userId createdAt
                      updatedAt) ;;;
                 ret (Bucket.mk bucketId bucketName [])
             end
         | Some Json.Wide => throw Unmodelled
         | _ => throw TypeError
         end
     end ;;
   if negb (Json.taskFieldsTyped assignment) then throw Unmodelled
   else
     let parsedTask := parsedTaskOf (Json.asAssignment assignment) in
     let assignmentName :=
       JsString.nullish
         (JsString.orElse (assignmentName parsedTask)
            (JsString.orElse (courseCategory parsedTask) (Some "Task")))
         "Task" in
     let dueDate :=
       composeDueDate env (dueDate parsedTask) (dueTime parsedTask) in
     typeTag <-
       match tagFromModel parsedTask with
       | Some tag => ret tag
       | None =>
           categorizeTaskType trimmedTask
             (Some (Json.categorizerFields assignment))
       end ;;
     id <- randomUUID ;;
     createdAt <- newDate ;;
     updatedAt <- newDate ;;
     Db.insertTask
       (TaskRow.mk id (Bucket.id targetBucket) trimmedTask (Some assignmentName)
          (Some (JsString.nullish
                   (JsString.orElse (description parsedTask) (Some trimmedTask))
                   trimmedTask))
          dueDate createdAt updatedAt) ;;;
     loadBuckets userId)%action.

(** What a load does to the tables and to the list of writes: nothing, or
    the creation of the missing default bucket. *)
Definition onlyDefaultCreated (u : string) (w w' : World) : Prop :=
  tasks w' = tasks w
  /\ (hasDefault u w = true ->
      buckets w' = buckets w /\ writes w' = writes w)
  /\ (hasDefault u w = false ->
      buckets w' = buckets w ++ [defaultRow u w]
      /\ writes w' = writes w ++ [InsertBucket (defaultRow u w)]).

(** C7 as worded: with a blank text or without a user, [assignTaskToBucket]
    performs no storage write. *)
Definition blankAssignWritesNothing : Prop :=
  forall (env : Env) (task u : string) (w : World),
    reachable w ->
    JsString.allSpaces task = true \/ u = "" ->
    writes (snd (assignTaskToBucket env task u w)) = writes w.

(** C1 as worded: when the model call fails, no bucket row is inserted. *)
Definition failedCallInsertsNoBucket : Prop :=
  forall (env : Env) (task u : string) (w : World),
    reachable w -> OPENAI_API_KEY env <> "" -> JsString.trim task <> "" ->
    (forall prompt, chat env prompt = CallFailed) ->
    buckets (snd (assignTaskToBucket env task u w)) = buckets w.

(** C9 as worded, for [deleteBucket]: with a bucket id that the caller does
    not own, no write is performed. *)
Definition foreignDeleteWritesNothing : Prop :=
  forall (u bucketId : string) (w : World),
    reachable w -> ownedBucket u bucketId w = None ->
    writes (snd (deleteBucket u bucketId w)) = writes w.

(** A protected request changes nothing and returns the caller's view. *)
Definition unchangedBy (u : string) (w : World)
    (r : Result (list Bucket.t) * World) : Prop :=
  fst r = Ok (bucketView u w)
  /\ buckets (snd r) = buckets w /\ tasks (snd r) = tasks w
  /\ writes (snd r) = writes w.

(** No two buckets of the user have names with the same normal form. *)
Definition uniqueNormalizedNames (userId : string) (w : World) : Prop :=
  NoDup (map (fun b => normalizeName (BucketRow.name b))
           (filter (fun b => String.eqb (BucketRow.userId b) userId)
              (buckets w))).

(** How the target of an accepted suggestion was found, and what that did
    to the bucket table [before]: by the suggested id; else by the
    candidate name, a string, among the loaded buckets in their order;
    else by the creation of a bucket with that name. *)
Definition resolvedAs (u : string) (existing : list Bucket.t)
    (v : Json.value) (target : string)
    (before after : list BucketRow.t) : Prop :=
  (exists b, In b existing
             /\ Json.field "bucketId" v = Some (Json.Str (Bucket.id b))
             /\ target = Bucket.id b /\ after = before)
  \/ ((forall b, In b existing ->
                 Json.field "bucketId" v <> Some (Json.Str (Bucket.id b)))
      /\ exists name,
           candidateValue v = Some (Json.Str name)
           /\ ((exists pre b post,
                   existing = pre ++ b :: post
                   /\ normalizeName (Bucket.name b) = normalizeName name
                   /\ (forall x, In x pre ->
                                 normalizeName (Bucket.name x)
                                 <> normalizeName name)
                   /\ target = Bucket.id b /\ after = before)
               \/ ((forall b, In b existing ->
                              normalizeName (Bucket.name b)
                              <> normalizeName name)
                   /\ exists newRow,
                        after = before ++ [newRow]
                        /\ BucketRow.name newRow = name
                        /\ BucketRow.userId newRow = u
                        /\ BucketRow.id newRow = target))).


(** Surroundings for examples in which the model replies with the text
    [content]. *)
Definition replyEnv (content : string) : Env :=
  mkEnv "sk-test" 0%Z (fun _ => None) (fun _ => Reply (Some content)).

(** JSON text for examples: a string without escapes, and an object with
    one member. *)
Definition quoted (s : string) : string :=
  String (ascii_of_nat 34) (s ++ String (ascii_of_nat 34) EmptyString).



Definition falsy (o : option string) : Prop := JsString.truthy o = false.

(** None of the fields that the orchestrator reads holds a truthy value,
    of whatever type. *)
Definition noUsableFields (v : Json.value) : Prop :=
  let p := Json.parsedTaskValue v in
  Json.truthyAt (Json.field "bucketId" v) = false
  /\ Json.truthyAt (Json.field "newBucketName" v) = false
  /\ Json.truthyAt (Json.field "assignmentName" p) = false
  /\ Json.truthyAt (Json.field "courseCategory" p) = false
  /\ Json.truthyAt (Json.field "typeTag" p) = false
  /\ Json.truthyAt (Json.field "dueDate" p) = false
  /\ Json.truthyAt (Json.field "description" p) = false.

(** The target found by name for the literal "Others". *)
Definition resolvedFromOthers (u : string) (existing : list Bucket.t)
    (target : string) (before after : list BucketRow.t) : Prop :=
  (exists pre b post,
      existing = pre ++ b :: post
      /\ normalizeName (Bucket.name b) = "others"
      /\ (forall x, In x pre -> normalizeName (Bucket.name x) <> "others")
      /\ target = Bucket.id b /\ after = before)
  \/ ((forall b, In b existing -> normalizeName (Bucket.name b) <> "others")
      /\ exists newRow,
           after = before ++ [newRow]
           /\ BucketRow.name newRow = "Others"
           /\ BucketRow.userId newRow = u
           /\ BucketRow.id newRow = target).

(* ================================================================== *)
(** ** The pages: local dates

    The pages run in the browser and read dates in its local zone.  A
    [Date] object is its time value, [None] when it is invalid.

    The month grid of the calendar works on the calendar fields of local
    dates (year, month, day of the month, day of the week); there the zone
    is a fixed offset [tz] from UTC in minutes.  The priority of a task
    subtracts the time values of two local midnights, which are not a
    whole number of days apart when the offset of the zone changes between
    them (daylight saving); there the zone is a [Zone], whose offset
    depends on the time. *)

Module JsLocal.
Import JsDate.
Local Open Scope Z_scope.

Definition localTime (tz t : Z) : Z := t + tz * msPerMinute.
Definition utc (tz lt : Z) : Z := lt - tz * msPerMinute.

(** The local day number of a time value. *)
Definition localDay (tz t : Z) : Z := localTime tz t / msPerDay.

(** [MakeDay]: a month outside 0..11 carries into the year, a day outside
    the month into the neighbouring months. *)
Definition makeDay (year month date : Z) : Z :=
  daysFromCivil (year + month / 12) (month mod 12 + 1) 1 + date - 1.

(** [new Date(year, month, date)]: years 0..99 mean 1900..1999. *)
Definition construct (tz year month date : Z) : option Z :=
  let yr := if (0 <=? year) && (year <=? 99) then 1900 + year else year in
  timeClip (utc tz (makeDay yr month date * msPerDay)).

Definition getFullYear (tz : Z) (t : option Z) : option Z :=
  option_map (fun t => fst (fst (civilFromDays (localDay tz t)))) t.

(** Months count from 0. *)
Definition getMonth (tz : Z) (t : option Z) : option Z :=
  option_map (fun t => snd (fst (civilFromDays (localDay tz t))) - 1) t.

Definition getDate (tz : Z) (t : option Z) : option Z :=
  option_map (fun t => snd (civilFromDays (localDay tz t))) t.

(** Sunday is 0; the epoch was a Thursday. *)
Definition getDay (tz : Z) (t : option Z) : option Z :=
  option_map (fun t => (localDay tz t + 4) mod 7) t.

(** [date.setDate(d)], the new time value. *)
Definition setDate (tz : Z) (t d : option Z) : option Z :=
  match t, d with
  | Some t, Some d =>
      let lt := localTime tz t in
      let '(y, m, _) := civilFromDays (lt / msPerDay) in
      timeClip (utc tz (makeDay y (m - 1) d * msPerDay + lt mod msPerDay))
  | _, _ => None
  end.

(** A time zone as ECMAScript sees it: the offset from UTC, in minutes
    east, in force at a time value ([LocalTZA(t, true)]), and the offset
    that the engine picks for a local time value ([LocalTZA(t, false)]:
    where the local time is skipped or repeated by a change of the offset,
    the offset before the change). *)
Record Zone : Type := mkZone {
  offsetAt : Z -> Z;
  offsetOfLocal : Z -> Z
}.

(** A zone without changes of its offset. *)
Definition fixedZone (tz : Z) : Zone := mkZone (fun _ => tz) (fun _ => tz).

Definition localTimeIn (zone : Zone) (t : Z) : Z :=
  t + offsetAt zone t * msPerMinute.

Definition utcIn (zone : Zone) (lt : Z) : Z :=
  lt - offsetOfLocal zone lt * msPerMinute.

(** The local day number of a time value. *)
Definition localDayIn (zone : Zone) (t : Z) : Z := localTimeIn zone t / msPerDay.

(** [date.setHours(0, 0, 0, 0)], the new time value: the midnight that
    begins the local day of [t]. *)
Definition setHoursZero (zone : Zone) (t : option Z) : option Z :=
  match t with
  | Some t => timeClip (utcIn zone (localDayIn zone t * msPerDay))
  | None => None
  end.

Definition decimal (n : Z) : string :=
  NilEmpty.string_of_uint (N.to_uint (Z.to_N n)).

(** [date.toLocaleDateString('en-CA')]: year, month and day of the local
    date as [y-MM-dd]; the year of the era for years before 1. *)
Definition toLocaleDateStringCA (tz : Z) (t : option Z) : string :=
  match t with
  | Some t =>
      let '(y, m, d) := civilFromDays (localDay tz t) in
      let era := if 0 <? y then y else 1 - y in
      (decimal era ++ "-" ++ pad 2 m ++ "-" ++ pad 2 d)%string
  | None => "Invalid Date"
  end.

End JsLocal.

(* ================================================================== *)
(** ** The calendar page ([CalendarPage], kept in
    [src/app/api/transcribe/route.ts]) *)

Record VisibleMonth : Type := mkVisibleMonth { year : Z; month : Z }.

(** The handler of the button "Previous" (lines 161-165). *)
Definition previousMonth (prev : VisibleMonth) : VisibleMonth :=
  let month' := if (month prev =? 0)%Z then 11%Z else (month prev - 1)%Z in
  let year' := if (month prev =? 0)%Z then (year prev - 1)%Z else year prev in
  mkVisibleMonth year' month'.

(** The handler of the button "Next" (lines 180-184). *)
Definition nextMonth (prev : VisibleMonth) : VisibleMonth :=
  let month' := if (month prev =? 11)%Z then 0%Z else (month prev + 1)%Z in
  let year' := if (month prev =? 11)%Z then (year prev + 1)%Z else year prev in
  mkVisibleMonth year' month'.

Inductive Click : Type := Previous | Next.

Definition click (v : VisibleMonth) (c : Click) : VisibleMonth :=
  match c with Previous => previousMonth v | Next => nextMonth v end.

(** [type DayCell] (line 263). *)
Record DayCell : Type := mkDayCell {
  date : string;
  cellTasks : list CalendarTask.t
}.

(** [tasksByDate[isoDate] ?? []] on the object that [loadCalendarTasks]
    returned. *)
Definition tasksOn (tasksByDate : list (string * list CalendarTask.t))
    (isoDate : string) : list CalendarTask.t :=
  match find (fun p => String.eqb (fst p) isoDate) tasksByDate with
  | Some p => snd p
  | None => []
  end.

(** The inner loop of lines 281-289: [n] cells from [current] on, and the
    date on which the loop stops. *)
Fixpoint fillDays (tz : Z) (tasksByDate : list (string * list CalendarTask.t))
    (n : nat) (current : option Z) : list DayCell * option Z :=
  match n with
  | O => ([], current)
  | S n' =>
      let isoDate := JsLocal.toLocaleDateStringCA tz current in
      let cell := mkDayCell isoDate (tasksOn tasksByDate isoDate) in
      let current' :=
        JsLocal.setDate tz current
          (option_map (fun d => (d + 1)%Z) (JsLocal.getDate tz current)) in
      let '(days, final) := fillDays tz tasksByDate n' current' in
      (cell :: days, final)
  end.

(** The outer loop of lines 278-292. *)
Fixpoint fillWeeks (tz : Z) (tasksByDate : list (string * list CalendarTask.t))
    (n : nat) (current : option Z) : list (list DayCell) :=
  match n with
  | O => []
  | S n' =>
      let '(days, current') := fillDays tz tasksByDate 7 current in
      days :: fillWeeks tz tasksByDate n' current'
  end.

(** Lines 266-295. *)
Definition buildCalendarWeeks (tz : Z)
    (tasksByDate : list (string * list CalendarTask.t)) (year month : Z)
  : list (list DayCell) :=
  let firstDay := JsLocal.construct tz year month 1 in
  let startOfCalendar :=
    JsLocal.setDate tz firstDay
      (match JsLocal.getDate tz firstDay, JsLocal.getDay tz firstDay with
       | Some d, Some wd => Some (d - wd)%Z
       | _, _ => None
       end) in
  fillWeeks tz tasksByDate 6 startOfCalendar.

(** [calendarWeeks.length === 0] (line 206), the test for the empty-state
    panel. *)
Definition showsEmptyState (weeks : list (list DayCell)) : bool :=
  Nat.eqb (List.length weeks) 0.

(* ================================================================== *)
(** ** The dashboard ([src/app/dashboard/page.tsx]) *)

(** [type PriorityLevel] (line 455). *)
Inductive PriorityLevel : Type := high | medium | low.

(** [s.includes(kw)]. *)
Fixpoint includes (s kw : string) : bool :=
  match JsString.stripPrefix kw s with
  | Some _ => true
  | None =>
      match s with
      | EmptyString => false
      | String _ s' => includes s' kw
      end
  end.

(** [Math.ceil(a / b)] for a positive [b] that divides exactly or not. *)
Definition ceilDiv (a b : Z) : Z := (- ((- a) / b))%Z.

Definition urgentKeywords : list string :=
  ["urgent"; "asap"; "today"; "tonight"; "immediately"].

Definition mediumKeywords : list string :=
  ["exam"; "test"; "midterm"; "assignment"; "project"; "meeting"].

(** Lines 536-597, in a browser in the zone [zone] at the time [now]; a
    comparison with NaN is false.  The function returns the level with its
    entry of the style table. *)
Definition getTaskPriority (zone : JsLocal.Zone) (legacy : string -> option Z)
    (now : Z) (item : TaskItem.t) : PriorityLevel :=
  let today := JsLocal.setHoursZero zone (Some now) in
  if JsString.truthy (TaskItem.dueDate item) then
    match JsDate.parseIn (JsLocal.offsetOfLocal zone) legacy
            (JsString.nullish (TaskItem.dueDate item) "") with
    | Some dueTime =>
        match JsLocal.setHoursZero zone (Some dueTime), today with
        | Some due, Some today =>
            let diffDays := ceilDiv (due - today) (1000 * 60 * 60 * 24) in
            let level :=
              if (diffDays <=? 1)%Z then high
              else if (diffDays <=? 4)%Z then medium
              else low in
            if (diffDays <? 0)%Z then high else level
        | _, _ => low
        end
    | None => low
    end
  else
    let context :=
      JsString.toLowerCase
        (JsString.nullish (TaskItem.assignmentName item) "" ++ " "
           ++ JsString.nullish (TaskItem.description item) "" ++ " "
           ++ TaskItem.raw item)%string in
    if existsb (fun keyword => includes context keyword) urgentKeywords
    then high
    else if existsb (fun keyword => includes context keyword) mediumKeywords
    then medium
    else low.

(** The state of the edit dialog ([EditTaskModal], lines 616-759; the
    calendar page has the same dialog, with the same [handleSave]). *)
Record EditForm : Type := mkEditForm {
  formAssignmentName : string;
  formDescription : string;
  formDueDate : string;
  formDueTime : string;
  formBucketId : string
}.

(** [s || undefined]. *)
Definition orUndefined (s : string) : option string :=
  if JsString.isEmpty s then None else Some s.

(** [handleSave] (lines 645-653): what the dialog sends to [updateTask]. *)
Definition handleSave (form : EditForm) : TaskUpdates.t :=
  TaskUpdates.mk
    (orUndefined (JsString.trim (formAssignmentName form)))
    (orUndefined (JsString.trim (formDescription form)))
    (orUndefined (formDueDate form))
    (orUndefined (formDueTime form))
    (orUndefined (formBucketId form)).

(** The item that [handleEditTask] builds from the answer of [getTaskById]
    (lines 242-252). *)
Definition editedItem (fullTask : CalendarTask.t) : TaskItem.t :=
  TaskItem.mk (CalendarTask.id fullTask) (CalendarTask.raw fullTask)
    (CalendarTask.assignmentName fullTask) (CalendarTask.dueDate fullTask)
    (CalendarTask.dueTime fullTask) (CalendarTask.description fullTask)
    (CalendarTask.typeTag fullTask) (Some (CalendarTask.bucketName fullTask)).

(** The initial state of the dialog (lines 633-643). *)
Definition openEditForm (task : TaskItem.t) (buckets : list Bucket.t)
  : EditForm :=
  mkEditForm
    (JsString.nullish (JsString.orElse (TaskItem.assignmentName task) (Some "")) "")
    (JsString.nullish (JsString.orElse (TaskItem.description task) (Some "")) "")
    (JsString.nullish (JsString.orElse (TaskItem.dueDate task) (Some "")) "")
    (JsString.nullish (JsString.orElse (TaskItem.dueTime task) (Some "")) "")
    (if JsString.truthy (TaskItem.bucketCategory task) then
       match find (fun b => String.eqb (Bucket.name b)
                              (JsString.nullish (TaskItem.bucketCategory task) ""))
               buckets with
       | Some bucket => Bucket.id bucket
       | None => ""
       end
     else "").

(** The names that the dashboard does not offer for deletion (line 26). *)
Definition protectedBucketNames : list string := ["events"].

(** [handleDeleteBucket] (lines 185-197); [None] when the handler returns
    without a request. *)
Definition handleDeleteBucket (userId bucketId bucketName : string)
  : M (option (list Bucket.t)) :=
  (if existsb (String.eqb (JsString.toLowerCase bucketName)) protectedBucketNames
   then ret None
   else updated <- deleteBucket userId bucketId ;; ret (Some updated))%action.

(* ================================================================== *)
(** ** Vocabulary of the further properties *)

(** The rows of the ownership query of lines 211-218, 289-301 and 344-351,
    before [limit(1)]. *)
Definition ownedTaskRows (userId taskId : string) (w : World)
  : list (TaskRow.t * BucketRow.t) :=
  flat_map
    (fun t =>
       map (fun b => (t, b))
         (filter (fun b =>
                    (String.eqb (TaskRow.bucketId t) (BucketRow.id b)
                     && (String.eqb (TaskRow.id t) taskId
                         && String.eqb (BucketRow.userId b) userId))%bool)
            (buckets w)))
    (tasks w).

(** Referential integrity of the task table: [id] is a key and every
    [bucket_id] names a stored bucket. *)
Definition tasksIntact (w : World) : Prop :=
  NoDup (map TaskRow.id (tasks w))
  /\ forall t, In t (tasks w) -> Db.hasBucketId (TaskRow.bucketId t) w = true.

(** A computation keeps a property of the world, whether it returns or
    throws. *)
Definition preserves {A} (P : World -> Prop) (m : M A) : Prop :=
  forall w, P w -> P (snd (m w)).

(** Surroundings for examples: the key is set, the zone is UTC, and the
    model answers with a message without content. *)
Definition quietEnv : Env :=
  mkEnv "sk-test" 0%Z (fun _ => None) (fun _ => Reply None).

(** A world for examples: "u1" has submitted the task "essay", which went
    into the new bucket "Others" beside the default bucket. *)
Definition oneTask : World := serve quietEnv (AssignTask "essay" "u1") signedUp.

(** A second user, "u2", has then created the bucket "Maths". *)
Definition twoUsers : World :=
  serve quietEnv (CreateEmptyBucket "u2" "Maths") oneTask.

(** A world for examples: "u1" has loaded the buckets and, a second later,
    created the bucket "Maths". *)
Definition laterBucket : World :=
  serve quietEnv (CreateEmptyBucket "u1" "Maths")
    (serve quietEnv (Tick 1000)
       (serve quietEnv (LoadBuckets "u1") signedUp)).

(** The task row sits in a bucket of the user. *)
Definition inBucketOf (userId : string) (w : World) (t : TaskRow.t) : bool :=
  existsb (fun b => (String.eqb (TaskRow.bucketId t) (BucketRow.id b)
                     && String.eqb (BucketRow.userId b) userId)%bool)
    (buckets w).

(** A bucket of the view without the items of one task id. *)
Definition withoutItem (taskId : string) (b : Bucket.t) : Bucket.t :=
  Bucket.mk (Bucket.id b) (Bucket.name b)
    (filter (fun item => negb (String.eqb (TaskItem.id item) taskId))
       (Bucket.items b)).

(** A bucket of the view under another name. *)
Definition renamed (bucketId newName : string) (b : Bucket.t) : Bucket.t :=
  if String.eqb (Bucket.id b) bucketId
  then Bucket.mk (Bucket.id b) newName (Bucket.items b)
  else b.

(** The user on whose behalf a request is made. *)
Definition requester (r : Request) : option string :=
  match r with
  | LoadBuckets u | AssignTask _ u | DeleteBucketReq u _ | CompleteTask u _
  | CreateEmptyBucket u _ | UpdateBucketName u _ _ | GetTaskById u _
  | UpdateTaskReq u _ _ | DeleteTaskFromCalendar u _ | LoadCalendarTasks u =>
      Some u
  | Tick _ | SignUp _ => None
  end.

(** The bucket rows of the users other than [userId]. *)
Definition bucketsOfOthers (userId : string) (w : World) : list BucketRow.t :=
  filter (fun b => negb (String.eqb (BucketRow.userId b) userId)) (buckets w).

(** From [w] to [w'] the buckets of the other users are the same rows, and
    the tasks in them are still there, unchanged. *)
Definition othersKept (userId : string) (w w' : World) : Prop :=
  bucketsOfOthers userId w' = bucketsOfOthers userId w
  /\ forall t b,
       In t (tasks w) -> In b (buckets w) ->
       TaskRow.bucketId t = BucketRow.id b -> BucketRow.userId b <> userId ->
       In t (tasks w').

(** Every group is non-empty and holds entries whose date is its key. *)
Definition wellGrouped (g : list (string * list CalendarTask.t)) : Prop :=
  NoDup (map fst g)
  /\ forall k es, In (k, es) g ->
       es <> [] /\ forall e, In e es -> CalendarTask.dueDate e = Some k.

(** How far a list of clicks moves the visible month. *)
Definition monthsMoved (clicks : list Click) : Z :=
  fold_right (fun c acc =>
                (match c with Previous => -1 | Next => 1 end + acc)%Z)
    0%Z clicks.

(** The texts of the local days [first], [first + 1], ... *)
Definition dayTexts (first : Z) (n : nat) : list string :=
  map (fun k => JsLocal.toLocaleDateStringCA 0
                  (Some ((first + Z.of_nat k) * JsDate.msPerDay)%Z))
    (seq 0 n).

(** The date texts of [n] days from the time value [t] on. *)
Definition datesFrom (tz t : Z) (n : nat) : list string :=
  map (fun k => JsLocal.toLocaleDateStringCA tz
                  (Some (t + Z.of_nat k * JsDate.msPerDay)%Z))
    (seq 0 n).

(** The character occurs in the text. *)
Fixpoint hasChar (c : ascii) (s : string) : bool :=
  match s with
  | EmptyString => false
  | String x s' => (Ascii.eqb x c || hasChar c s')%bool
  end.

(** The digits that [pad] writes. *)
Fixpoint padDigits (w : nat) (n : Z) : list Z :=
  match w with
  | O => []
  | S w' => padDigits w' (n / 10)%Z ++ [(n mod 10)%Z]
  end.

(** The level for a due date that lies [diffDays] local days ahead. *)
Definition levelOfDays (diffDays : Z) : PriorityLevel :=
  if (diffDays <=? 1)%Z then high
  else if (diffDays <=? 4)%Z then medium
  else low.

(** Urgency as a number. *)
Definition urgency (level : PriorityLevel) : Z :=
  match level with high => 2 | medium => 1 | low => 0 end%Z.

(** The midnight that begins the local day of [t] is a time value that a
    [Date] can hold. *)
Definition midnightInRange (zone : JsLocal.Zone) (t : Z) : Prop :=
  (- JsDate.maxTime
   <= JsLocal.utcIn zone (JsLocal.localDayIn zone t * JsDate.msPerDay)
   <= JsDate.maxTime)%Z.

(** The local days and the local midnights of the zone follow the order
    of time. *)
Definition orderedZone (zone : JsLocal.Zone) : Prop :=
  (forall a b : Z,
      (a <= b)%Z -> (JsLocal.localDayIn zone a <= JsLocal.localDayIn zone b)%Z)
  /\ (forall d e : Z,
         (d <= e)%Z ->
         (JsLocal.utcIn zone (d * JsDate.msPerDay)
          <= JsLocal.utcIn zone (e * JsDate.msPerDay))%Z).

(** 3 November 2024, 06:00 UTC: the clocks of New York go from 02:00,
    four hours behind UTC, back to 01:00, five hours behind. *)
Definition autumnChange : Z := 1730613600000%Z.

(** The zone of New York around that change.  A local time that occurs
    twice is read with the offset before the change. *)
Definition newYork2024 : JsLocal.Zone :=
  JsLocal.mkZone
    (fun t => if (t <? autumnChange)%Z then (-240)%Z else (-300)%Z)
    (fun lt => if (lt <? autumnChange - 240 * JsDate.msPerMinute)%Z
               then (-240)%Z else (-300)%Z).

(** The text that the keywords are searched in (line 579). *)
Definition priorityContext (item : TaskItem.t) : string :=
  JsString.toLowerCase
    (JsString.nullish (TaskItem.assignmentName item) "" ++ " "
       ++ JsString.nullish (TaskItem.description item) "" ++ " "
       ++ TaskItem.raw item)%string.

(** One of the keywords occurs in the text. *)
Definition mentions (keywords : list string) (text : string) : Prop :=
  exists keyword, In keyword keywords /\ contains keyword text.

(** A parsed task with its texts in lower case. *)
Definition lowerCased (p : ParsedTask) : ParsedTask :=
  mkParsedTask (option_map JsString.toLowerCase (assignmentName p)) (dueDate p)
    (dueTime p) (option_map JsString.toLowerCase (description p))
    (courseCategory p) (typeTag p).

(* ================================================================== *)
(** ** Facts about strings and pattern search *)

Module StringFacts.
Import JsString.
Local Open Scope string_scope.

Lemma append_nil_r (s : string) : s ++ "" = s.
Proof. induction s as [|c s IH]; simpl; [reflexivity | now rewrite IH]. Qed.

Lemma append_assoc (a b c : string) : (a ++ b) ++ c = a ++ b ++ c.
Proof. induction a as [|x a IH]; simpl; [reflexivity | now rewrite IH]. Qed.

Lemma toLowerCase_app (a b : string) :
  toLowerCase (a ++ b) = toLowerCase a ++ toLowerCase b.
Proof. induction a as [|x a IH]; simpl; [reflexivity | now rewrite IH]. Qed.

Lemma removeSpaces_app (a b : string) :
  removeSpaces (a ++ b) = removeSpaces a ++ removeSpaces b.
Proof.
  induction a as [|x a IH]; simpl; [reflexivity|].
  destruct (isSpace x); simpl; now rewrite IH.
Qed.

Lemma endsWithWord_app (b : bool) (s u : string) :
  endsWithWord b (s ++ u) = endsWithWord (endsWithWord b s) u.
Proof. revert b; induction s as [|c s IH]; intros b; simpl; [reflexivity | apply IH]. Qed.

Lemma stripPrefix_app (p rest : string) : stripPrefix p (p ++ rest) = Some rest.
Proof.
  induction p as [|a p IH]; simpl; [reflexivity|].
  now rewrite Ascii.eqb_refl.
Qed.

Lemma stripPrefix_Some (p s rest : string) :
  stripPrefix p s = Some rest -> s = p ++ rest.
Proof.
  revert s; induction p as [|a p IH]; intros s H; simpl in *.
  - now inversion H.
  - destruct s as [|b s]; [discriminate|].
    destruct (Ascii.eqb a b) eqn:E; [|discriminate].
    apply Ascii.eqb_eq in E; subst b. f_equal. now apply IH.
Qed.

Lemma trimStart_allSpaces (s : string) :
  allSpaces s = true -> trimStart s = "".
Proof.
  induction s as [|c s IH]; simpl; [reflexivity|].
  destruct (isSpace c); simpl; [assumption | discriminate].
Qed.

Lemma trimEnd_empty (s : string) : trimEnd s = "" -> allSpaces s = true.
Proof.
  induction s as [|c s IH]; simpl; [reflexivity|].
  destruct (trimEnd s) eqn:E; [|discriminate].
  destruct (isSpace c); [intros _; now apply IH | discriminate].
Qed.

Lemma trimStart_head (s : string) :
  match trimStart s with
  | EmptyString => allSpaces s = true
  | String c _ => isSpace c = false
  end.
Proof.
  induction s as [|c s IH]; simpl; [reflexivity|].
  destruct (isSpace c) eqn:E; simpl; [exact IH | now rewrite E].
Qed.

(** [trim] leaves nothing exactly for the texts made of whitespace only. *)
Lemma trim_empty_iff (s : string) : trim s = "" <-> allSpaces s = true.
Proof.
  unfold trim; split; intros H.
  - pose proof (trimStart_head s) as Hh.
    destruct (trimStart s) as [|c r] eqn:E; [exact Hh|].
    apply trimEnd_empty in H. simpl in H. rewrite Hh in H. discriminate.
  - now rewrite trimStart_allSpaces.
Qed.

End StringFacts.

Module RegexFacts.
Import JsString StringFacts.
Local Open Scope string_scope.

Lemma matchHere_occurs (b : bool) (r : Regex.t) (s : string) :
  Regex.matchHere b r s = true -> Regex.occursIn b r s.
Proof.
  unfold Regex.matchHere, Regex.occursIn.
  destruct (stripPrefix (Regex.lit r) s) as [rest|] eqn:E; [|discriminate].
  apply stripPrefix_Some in E. intros H.
  apply andb_true_iff in H as [Hl Ht].
  exists "", rest; simpl; subst s. repeat split.
  - intros Hb; now rewrite Hb in Hl.
  - intros Hb; now rewrite Hb in Ht.
Qed.

Lemma testFrom_occurs (r : Regex.t) (s : string) :
  forall b, Regex.testFrom b r s = true -> Regex.occursIn b r s.
Proof.
  induction s as [|c s IH]; intros b H; simpl in H;
    apply orb_true_iff in H as [H|H];
    try (now apply matchHere_occurs); try discriminate.
  destruct (IH _ H) as (pre & post & Hs & Hl & Ht).
  exists (String c pre), post; simpl. repeat split; [now rewrite Hs | exact Hl | exact Ht].
Qed.

Lemma occurs_testFrom (r : Regex.t) (pre post : string) :
  forall b,
    (Regex.leadB r = true ->
     xorb (endsWithWord b pre) (startsWithWord (Regex.lit r ++ post)) = true) ->
    (Regex.trailB r = true ->
     xorb (endsWithWord b (pre ++ Regex.lit r)) (startsWithWord post) = true) ->
    Regex.testFrom b r (pre ++ Regex.lit r ++ post) = true.
Proof.
  induction pre as [|c pre IH]; intros b Hl Ht.
  - simpl in *.
    assert (Hm : Regex.matchHere b r (Regex.lit r ++ post) = true).
    { unfold Regex.matchHere. rewrite stripPrefix_app.
      apply andb_true_iff; split.
      - destruct (Regex.leadB r); [now apply Hl | reflexivity].
      - destruct (Regex.trailB r); [now apply Ht | reflexivity]. }
    destruct (Regex.lit r ++ post); simpl; now rewrite Hm.
  - simpl. apply orb_true_iff; right. now apply IH.
Qed.

(** The search [Regex.test] finds a match exactly when the pattern occurs. *)
Lemma test_iff (r : Regex.t) (s : string) :
  Regex.test r s = true <-> Regex.matches r s.
Proof.
  unfold Regex.test, Regex.matches; split.
  - apply testFrom_occurs.
  - intros (pre & post & -> & Hl & Ht). now apply occurs_testFrom.
Qed.

(** A pattern without boundaries matches every text that contains its
    literal. *)
Lemma plain_matches (l pre post : string) :
  Regex.matches (Regex.plain l) (pre ++ l ++ post).
Proof. exists pre, post; simpl; repeat split; discriminate. Qed.

End RegexFacts.


(* ================================================================== *)
(** ** Properties of the lexical categorizer *)

Module CategorizerFacts.
Import StringFacts RegexFacts Categorizer.
Local Open Scope string_scope.

Lemma groupTest_iff (src : string) (entry : TaskType * list Regex.t) :
  groupTest src entry = true <-> groupMatches src entry.
Proof.
  unfold groupTest, groupMatches. rewrite existsb_exists.
  split; intros (r & Hin & H); exists r; split; auto; now apply test_iff.
Qed.

Lemma find_first {A} (p : A -> bool) (pre : list A) (x : A) (post : list A) :
  p x = true -> (forall y, In y pre -> p y = false) ->
  find p (pre ++ x :: post)%list = Some x.
Proof.
  intros Hx. induction pre as [|y pre IH]; intros Hpre; simpl.
  - now rewrite Hx.
  - rewrite (Hpre y (or_introl eq_refl)). apply IH. intros z Hz. apply Hpre. now right.
Qed.

Lemma find_none {A} (p : A -> bool) (l : list A) :
  (forall y, In y l -> p y = false) -> find p l = None.
Proof.
  induction l as [|y l IH]; intros H; simpl; [reflexivity|].
  rewrite (H y (or_introl eq_refl)). apply IH. intros z Hz. apply H. now right.
Qed.

Lemma not_groupMatches (src : string) (entry : TaskType * list Regex.t) :
  ~ groupMatches src entry -> groupTest src entry = false.
Proof.
  intros H. destruct (groupTest src entry) eqn:E; [|reflexivity].
  exfalso. now apply H, groupTest_iff.
Qed.

Lemma source_eq (task : string) (parsedTask : option ParsedTask) :
  source task parsedTask =
  JsString.toLowerCase task ++ " "
    ++ JsString.toLowerCase
         (JsString.nullish (match parsedTask with
                            | Some p => description p
                            | None => None
                            end) "")
    ++ " "
    ++ JsString.toLowerCase
         (JsString.nullish (match parsedTask with
                            | Some p => assignmentName p
                            | None => None
                            end) "").
Proof. unfold source. now rewrite !toLowerCase_app. Qed.

Lemma contains_source (kw task : string) (parsedTask : option ParsedTask) :
  contains kw (JsString.toLowerCase task) -> contains kw (source task parsedTask).
Proof.
  intros (pre & post & H). rewrite source_eq, H.
  exists pre. eexists. rewrite !append_assoc. reflexivity.
Qed.

(** C2. The categorizer searches the lower-cased text made of the raw task,
    the description and the assignment name; its groups come in the order
    Homework, Quiz, Lab, Test, Project, Event, Reminder; the answer is the
    tag of the first group one of whose patterns occurs in the text, and
    Other when no group matches.  Hence a Homework pattern decides for
    Homework whatever else the text matches, in particular a Quiz keyword;
    a Quiz keyword without any Homework pattern gives Quiz; and the answer
    is always one of the eight tags. *)
Theorem categorizeTaskType_first_matching_group :
  forall (task : string) (parsedTask : option ParsedTask),
    let src :=
      JsString.toLowerCase
        (task ++ " "
           ++ JsString.nullish (match parsedTask with
                                | Some p => description p
                                | None => None
                                end) ""
           ++ " "
           ++ JsString.nullish (match parsedTask with
                                | Some p => assignmentName p
                                | None => None
                                end) "") in
    let answer := categorizeTaskType task parsedTask in
    map fst groups = [Homework; Quiz; Lab; Test; Project; Event; Reminder]
    /\ (forall earlier entry later,
           groups = (earlier ++ entry :: later)%list ->
           groupMatches src entry ->
           (forall e, In e earlier -> ~ groupMatches src e) ->
           answer = fst entry)
    /\ ((forall e, In e groups -> ~ groupMatches src e) -> answer = Other)
    /\ (forall hw quiz,
           In hw ["homework"; "assignment"] ->
           contains hw (JsString.toLowerCase task) ->
           contains quiz (JsString.toLowerCase task) ->
           answer = Homework)
    /\ (Regex.matches (Regex.word "hw") src -> answer = Homework)
    /\ (contains "quiz" (JsString.toLowerCase task) ->
        ~ groupMatches src (hd (Other, []) groups) ->
        answer = Quiz)
    /\ In answer [Homework; Quiz; Lab; Test; Project; Event; Reminder; Other].
Proof.
  intros task parsedTask src answer.
  assert (Hfirst : forall earlier entry later,
             groups = (earlier ++ entry :: later)%list ->
             groupMatches src entry ->
             (forall e, In e earlier -> ~ groupMatches src e) ->
             answer = fst entry).
  { intros earlier entry later Hg Hm Hno.
    subst answer. unfold categorizeTaskType. fold (source task parsedTask).
    change (source task parsedTask) with src. rewrite Hg.
    rewrite find_first; [reflexivity | now apply groupTest_iff |].
    intros y Hy. now apply not_groupMatches, Hno. }
  assert (Hhomework : groupMatches src (hd (Other, []) groups) -> answer = Homework).
  { intros Hm. now apply (Hfirst [] _ (tl groups) eq_refl Hm). }
  split; [reflexivity|]. split; [exact Hfirst|]. split; [|split; [|split; [|split]]].
  - intros Hno. subst answer. unfold categorizeTaskType.
    fold (source task parsedTask). change (source task parsedTask) with src.
    rewrite find_none; [reflexivity|]. intros y Hy. now apply not_groupMatches, Hno.
  - intros hw quiz Hin Hhw _. apply Hhomework.
    apply (contains_source hw task parsedTask) in Hhw.
    destruct Hhw as (pre & post & Hs). fold (source task parsedTask) in src.
    exists (Regex.plain hw). split.
    + simpl in Hin. destruct Hin as [<-|[<-|[]]]; simpl; auto.
    + subst src. rewrite Hs. apply plain_matches.
  - intros Hm. apply Hhomework. exists (Regex.word "hw"). split; [simpl; auto | exact Hm].
  - intros Hq Hno.
    apply (Hfirst [hd (Other, []) groups] (Quiz, [Regex.plain "quiz"])
             (tl (tl groups)) eq_refl).
    + apply (contains_source "quiz" task parsedTask) in Hq.
      destruct Hq as (pre & post & Hs). fold (source task parsedTask) in src.
      exists (Regex.plain "quiz"). split; [simpl; auto|].
      subst src. rewrite Hs. apply plain_matches.
    + intros e [<-|[]]. exact Hno.
  - subst answer. unfold categorizeTaskType.
    destruct (find _ groups) as [e|] eqn:E; [|simpl; tauto].
    apply find_some in E. destruct E as [Hin _].
    unfold groups in Hin. simpl in Hin.
    repeat (destruct Hin as [<-|Hin]; [simpl; tauto|]). destruct Hin.
Qed.

(** A text with a Homework keyword and a Quiz keyword is Homework. *)
Lemma categorizeTaskType_first_matching_group_witness :
  categorizeTaskType "Finish the Homework before the QUIZ" None = Homework.
Proof.
  apply (proj1 (proj2 (proj2 (proj2
           (categorizeTaskType_first_matching_group
              "Finish the Homework before the QUIZ" None))))
         "homework" "quiz").
  - simpl; auto.
  - exists "finish the ", " before the quiz"; reflexivity.
  - exists "finish the homework before the ", ""; reflexivity.
Defined.

End CategorizerFacts.

(* ================================================================== *)
(** ** Properties of the due-date composer and of the date/time split *)

Module ComposerFacts.
Local Open Scope string_scope.

(** C5, counterexample.  An empty time text has length 0, yet it is not used
    as it is: line 486 replaces it by "00:00", so the composer answers
    midnight where the text "2024-12-01T" itself does not parse. *)
Lemma composeDueDate_empty_time_not_as_is : ~ otherLengthsUsedAsIs.
Proof.
  intros H.
  specialize (H (zoneEnv 0) "2024-12-01" "" ltac:(simpl; discriminate)).
  vm_compute in H. discriminate H.
Qed.

(** C5, amended.  The composer answers nothing when the date is absent or
    empty; an absent or empty time stands for "00:00"; a non-empty time of
    five characters gets ":00" appended and any other non-empty time is used
    as it is; the result is the parse of date, "T" and that time, and where
    that parse fails the result is absent. *)
Theorem composeDueDate_rules :
  forall (env : Env) (dateStr timeStr : option string),
    (JsString.truthy dateStr = false -> composeDueDate env dateStr timeStr = None)
    /\ (JsString.truthy timeStr = false ->
        composeDueDate env dateStr timeStr
        = composeDueDate env dateStr (Some "00:00"))
    /\ (forall d t,
           dateStr = Some d -> d <> "" -> timeStr = Some t -> t <> "" ->
           (String.length t = 5 ->
            composeDueDate env dateStr timeStr = parseComposite env d (t ++ ":00"))
           /\ (String.length t <> 5 ->
               composeDueDate env dateStr timeStr = parseComposite env d t))
    /\ (forall d,
           dateStr = Some d -> d <> "" ->
           composeDueDate env dateStr None = parseComposite env d "00:00:00")
    /\ (forall d t,
           dateStr = Some d -> d <> "" -> timeStr = Some t -> t <> "" ->
           parseComposite env d (if Nat.eqb (String.length t) 5
                                 then t ++ ":00" else t) = None ->
           composeDueDate env dateStr timeStr = None).
Proof.
  intros env dateStr timeStr.
  assert (Hne : forall s, s <> "" -> JsString.isEmpty s = false).
  { intros [|c s] H; [now elim H | reflexivity]. }
  assert (Hmain : forall d t,
             dateStr = Some d -> d <> "" -> timeStr = Some t -> t <> "" ->
             composeDueDate env dateStr timeStr
             = parseComposite env d (if Nat.eqb (String.length t) 5
                                     then t ++ ":00" else t)).
  { intros d t -> Hd -> Ht. unfold composeDueDate, parseComposite; simpl.
    unfold JsString.orElse; simpl. now rewrite (Hne d Hd), (Hne t Ht). }
  repeat split.
  - intros H. unfold composeDueDate. now rewrite H.
  - intros H. unfold composeDueDate, JsString.orElse. now rewrite H.
  - intros Hlen. rewrite (Hmain d t) by assumption.
    now rewrite (proj2 (Nat.eqb_eq _ _) Hlen).
  - intros Hlen. rewrite (Hmain d t) by assumption.
    now rewrite (proj2 (Nat.eqb_neq _ _) Hlen).
  - intros d -> Hd. unfold composeDueDate, parseComposite; simpl.
    now rewrite (Hne d Hd).
  - intros d t Hd Hd' Ht Ht' Hp. now rewrite (Hmain d t).
Qed.

(** The rule at work: "14:00" becomes "14:00:00", "14:00:30" stays. *)
Lemma composeDueDate_rules_witness :
  composeDueDate (zoneEnv 0) (Some "2024-12-01") (Some "14:00")
  = parseComposite (zoneEnv 0) "2024-12-01" ("14:00" ++ ":00")
  /\ composeDueDate (zoneEnv 0) (Some "2024-12-01") (Some "14:00:30")
     = parseComposite (zoneEnv 0) "2024-12-01" "14:00:30".
Proof.
  pose proof (composeDueDate_rules (zoneEnv 0) (Some "2024-12-01") (Some "14:00"))
    as (_ & _ & H1 & _).
  pose proof (composeDueDate_rules (zoneEnv 0) (Some "2024-12-01") (Some "14:00:30"))
    as (_ & _ & H2 & _).
  split.
  - apply (proj1 (H1 "2024-12-01" "14:00" eq_refl ltac:(discriminate) eq_refl
                      ltac:(discriminate))). reflexivity.
  - apply (proj2 (H2 "2024-12-01" "14:00:30" eq_refl ltac:(discriminate) eq_refl
                      ltac:(discriminate))). simpl; discriminate.
Defined.

(** The time component is left out exactly when the UTC hour and the UTC
    minute of the stored instant are both zero. *)
Lemma dueTimeText_None_iff (t : Z) :
  dueTimeText (Some t) = None
  <-> JsDate.getUTCHours t = 0%Z /\ JsDate.getUTCMinutes t = 0%Z.
Proof.
  unfold dueTimeText.
  destruct (Z.eqb_spec (JsDate.getUTCHours t) 0) as [Hh|Hh];
    destruct (Z.eqb_spec (JsDate.getUTCMinutes t) 0) as [Hm|Hm]; simpl;
    split; try discriminate; try tauto.
Qed.

(** Among the zone offsets in use (UTC-12:00 to UTC+14:00) the round trip
    succeeds in the zone UTC only. *)
Lemma roundTrip_only_in_utc (tz : Z) :
  (-720 <= tz <= 840)%Z -> roundTripsAt tz = (tz =? 0)%Z.
Proof.
  intros Hr.
  assert (Hall : forallb (fun n => Bool.eqb (roundTripsAt (Z.of_nat n - 720))
                                     (Z.of_nat n - 720 =? 0)%Z)
                   (seq 0 1561) = true) by (vm_compute; reflexivity).
  rewrite forallb_forall in Hall.
  specialize (Hall (Z.to_nat (tz + 720))).
  replace (Z.of_nat (Z.to_nat (tz + 720)) - 720)%Z with tz in Hall by lia.
  apply Bool.eqb_prop, Hall, in_seq. lia.
Qed.

(** On a server in the zone UTC every time of day [hh:mm] composed with
    that date comes back, except midnight, which comes back as no time. *)
Lemma roundTrip_in_utc (h m : Z) :
  (0 <= h < 24)%Z -> (0 <= m < 60)%Z ->
  let time := JsDate.pad 2 h ++ ":" ++ JsDate.pad 2 m in
  let stored := composeDueDate (zoneEnv 0) (Some "2024-12-01") (Some time) in
  dueDateText stored = Some "2024-12-01"
  /\ dueTimeText stored = if ((h =? 0) && (m =? 0))%Z%bool then None else Some time.
Proof.
  intros Hh Hm.
  set (ok := fun n : nat =>
               let h := Z.of_nat (n / 60) in
               let m := Z.of_nat (n mod 60) in
               let time := JsDate.pad 2 h ++ ":" ++ JsDate.pad 2 m in
               let stored := composeDueDate (zoneEnv 0) (Some "2024-12-01")
                               (Some time) in
               match dueDateText stored, dueTimeText stored with
               | Some d, t =>
                   (String.eqb d "2024-12-01"
                    && match t, (if ((h =? 0) && (m =? 0))%Z%bool
                                 then None else Some time) with
                       | Some a, Some b => String.eqb a b
                       | None, None => true
                       | _, _ => false
                       end)%bool
               | None, _ => false
               end).
  assert (Hall : forallb ok (seq 0 1440) = true) by (vm_compute; reflexivity).
  rewrite forallb_forall in Hall.
  specialize (Hall (Z.to_nat (h * 60 + m)) ltac:(apply in_seq; lia)).
  unfold ok in Hall. cbv zeta in Hall.
  replace (Z.of_nat (Z.to_nat (h * 60 + m) / 60)) with h in Hall
    by (rewrite Nat2Z.inj_div, Z2Nat.id by lia; simpl;
        apply (Z.div_unique _ _ h m); lia).
  replace (Z.of_nat (Z.to_nat (h * 60 + m) mod 60)) with m in Hall
    by (rewrite Nat2Z.inj_mod, Z2Nat.id by lia; simpl;
        apply (Z.mod_unique _ _ h m); lia).
  cbv zeta.
  destruct (dueDateText _) as [d|]; [|discriminate].
  apply andb_true_iff in Hall as [Hd Ht]. apply String.eqb_eq in Hd. subst d.
  split; [reflexivity|].
  destruct (dueTimeText _) as [a|];
    destruct ((h =? 0) && (m =? 0))%Z%bool; try discriminate; [|reflexivity].
  apply String.eqb_eq in Ht. now subst a.
Qed.

(** C4, the code at the failing input.  For every stored instant the
    projection leaves the time out exactly when its UTC hour and UTC minute
    are zero.  The composer, however, reads "2024-12-01" and "14:00" as
    local time, while the projection splits the stored instant in UTC.  On
    a server in the zone UTC the split gives the text back (and so for every
    other time of that day); on a server in any other zone it does not:
    five hours west of UTC the same task is shown with the time "19:00",
    and a task composed without a time is shown with the time "05:00". *)
Theorem compose_then_split_depends_on_zone :
  let utc := composeDueDate (zoneEnv 0) (Some "2024-12-01") (Some "14:00") in
  let west := composeDueDate (zoneEnv (-300)) (Some "2024-12-01") (Some "14:00") in
  let westNoTime := composeDueDate (zoneEnv (-300)) (Some "2024-12-01") None in
  (forall t, dueTimeText (Some t) = None
             <-> JsDate.getUTCHours t = 0%Z /\ JsDate.getUTCMinutes t = 0%Z)
  /\ (dueDateText utc = Some "2024-12-01" /\ dueTimeText utc = Some "14:00")
  /\ (dueDateText west = Some "2024-12-01" /\ dueTimeText west = Some "19:00")
  /\ dueTimeText westNoTime = Some "05:00"
  /\ dueTimeText (composeDueDate (zoneEnv 0) (Some "2024-12-01") None) = None
  /\ dueTimeText (composeDueDate (zoneEnv 0) (Some "2024-12-01") (Some "00:00"))
     = None
  /\ (forall tz, (-720 <= tz <= 840)%Z -> roundTripsAt tz = (tz =? 0)%Z)
  /\ (forall h m, (0 <= h < 24)%Z -> (0 <= m < 60)%Z ->
         let time := JsDate.pad 2 h ++ ":" ++ JsDate.pad 2 m in
         let stored := composeDueDate (zoneEnv 0) (Some "2024-12-01")
                         (Some time) in
         dueDateText stored = Some "2024-12-01"
         /\ dueTimeText stored
            = if ((h =? 0) && (m =? 0))%Z%bool then None else Some time).
Proof.
  cbv zeta. split; [exact dueTimeText_None_iff|].
  do 5 (split; [vm_compute; repeat split|]).
  split; [exact roundTrip_only_in_utc | exact roundTrip_in_utc].
Qed.

End ComposerFacts.

(* ================================================================== *)
(** ** The monad and the read side, equationally *)

Module WorldFacts.

Lemma addTrace_nil (w : World) : addTrace [] w = w.
Proof. destruct w; unfold addTrace; simpl. now rewrite app_nil_r. Qed.

Lemma addTrace_addTrace (a b : list Effect) (w : World) :
  addTrace b (addTrace a w) = addTrace (a ++ b) w.
Proof. unfold addTrace; simpl. now rewrite app_assoc. Qed.

Lemma bind_Ok {A B} (m : M A) (k : A -> M B) (w w' : World) (a : A) :
  m w = (Ok a, w') -> bind m k w = k a w'.
Proof. intros H. unfold bind. now rewrite H. Qed.

Lemma bind_Thrown {A B} (m : M A) (k : A -> M B) (w w' : World) (e : Error) :
  m w = (Thrown e, w') -> bind m k w = (Thrown e, w').
Proof. intros H. unfold bind. now rewrite H. Qed.

Lemma filter_nil_existsb {A} (p : A -> bool) (l : list A) :
  Nat.eqb (List.length (firstn 1 (filter p l))) 0 = negb (existsb p l).
Proof.
  induction l as [|x l IH]; simpl; [reflexivity|].
  destruct (p x); simpl; [reflexivity | exact IH].
Qed.

(** [ensureDefaultBuckets], case by case. *)
Lemma ensureDefaultBuckets_eq (u : string) (w : World) :
  ensureDefaultBuckets u w =
  if hasDefault u w then (Ok tt, w)
  else if Db.hasBucketId (uuidOf (uuids w)) w
       then (Thrown PrimaryKeyViolation, nextUuid w)
       else if Db.hasUser u w
            then (Ok tt, addTrace [DefaultBucketCreated u]
                           (withBucket (defaultRow u w) (nextUuid w)))
            else (Thrown ForeignKeyViolation, nextUuid w).
Proof.
  unfold ensureDefaultBuckets, bind, Db.selectBuckets, hasDefault. simpl hd.
  rewrite filter_nil_existsb.
  destruct (existsb _ (buckets w)); simpl; [reflexivity|].
  unfold Db.insertBucket, Db.hasBucketId, Db.hasUser, randomUUID, newDate; simpl.
  destruct (existsb _ (buckets w)); [reflexivity|].
  destruct (existsb _ (users w)); reflexivity.
Qed.

Lemma mapM_format (l : list TaskRow.t) (w : World) :
  mapM (fun task => bind (formatTaskRecord task)
                      (fun item => ret (TaskRow.bucketId task, item))) l w
  = (Ok (map (fun t => (TaskRow.bucketId t, itemOf t)) l),
     addTrace (map (fun t => Categorize (TaskRow.raw t) (storedFields t)) l) w).
Proof.
  revert w; induction l as [|t l IH]; intros w; simpl.
  - unfold ret. now rewrite addTrace_nil.
  - unfold bind at 1. unfold bind at 1.
    unfold formatTaskRecord, categorizeTaskType, bind at 1 2, log, ret; simpl.
    unfold bind at 1. rewrite IH. unfold ret, addTrace; simpl.
    now rewrite <- app_assoc.
Qed.

Lemma orderBy_nil_length {A} (leb : A -> A -> bool) (l : list A) :
  Nat.eqb (List.length (orderBy leb l)) 0 = true -> orderBy leb l = [].
Proof. destruct (orderBy leb l); [reflexivity | discriminate]. Qed.

(** The reading part of [loadBuckets]: the view, and one categorizer call
    per task in the trace. *)
Lemma loadBuckets_eq (u : string) (w : World) :
  loadBuckets u w =
  if JsString.isEmpty u then (Ok [], w)
  else match ensureDefaultBuckets u w with
       | (Ok _, w1) => (Ok (bucketView u w1), addTrace (viewTrace u w1) w1)
       | (Thrown e, w1) => (Thrown e, w1)
       end.
Proof.
  unfold loadBuckets. destruct (JsString.isEmpty u); [reflexivity|].
  unfold bind at 1. destruct (ensureDefaultBuckets u w) as [[[]|e] w1]; [|reflexivity].
  unfold bind at 1, Db.selectBuckets. fold (bucketRowsOf u w1).
  destruct (Nat.eqb (List.length (bucketRowsOf u w1)) 0) eqn:E.
  - unfold bucketView, viewTrace, taskRowsOf.
    destruct (bucketRowsOf u w1); [|discriminate]. simpl.
    assert (H : filter (fun _ : TaskRow.t => false) (tasks w1) = []).
    { induction (tasks w1); simpl; auto. }
    rewrite H. simpl. unfold ret. now rewrite addTrace_nil.
  - unfold bind at 1, Db.selectTasks. fold (taskRowsOf u w1).
    unfold bind at 1. rewrite mapM_format. reflexivity.
Qed.

End WorldFacts.

(* ================================================================== *)
(** ** Invariants of the reachable worlds *)

Module InvFacts.
Import WorldFacts.

Lemma uuidOf_inj (a b : nat) : uuidOf a = uuidOf b -> a = b.
Proof.
  unfold uuidOf. intros H. simpl in H. injection H as H.
  apply DecimalNat.Unsigned.to_uint_inj.
  assert (E : Some (Nat.to_uint a) = Some (Nat.to_uint b)).
  { rewrite <- (NilEmpty.usu (Nat.to_uint a)), <- (NilEmpty.usu (Nat.to_uint b)).
    now rewrite H. }
  now injection E.
Qed.

Lemma uuidOf_nonempty (k : nat) : JsString.isEmpty (uuidOf k) = false.
Proof. reflexivity. Qed.

Lemma hasBucketId_In (i : string) (w : World) :
  Db.hasBucketId i w = true <-> In i (map BucketRow.id (buckets w)).
Proof.
  unfold Db.hasBucketId. rewrite existsb_exists, in_map_iff.
  split; intros (b & H1 & H2).
  - exists b. split; [now apply String.eqb_eq | assumption].
  - exists b. split; [assumption | now apply String.eqb_eq].
Qed.

Lemma hasTaskId_In (i : string) (w : World) :
  Db.hasTaskId i w = true <-> In i (map TaskRow.id (tasks w)).
Proof.
  unfold Db.hasTaskId. rewrite existsb_exists, in_map_iff.
  split; intros (b & H1 & H2).
  - exists b. split; [now apply String.eqb_eq | assumption].
  - exists b. split; [assumption | now apply String.eqb_eq].
Qed.

(** The next identifier is not in use. *)
Lemma fresh_bucket_id (w : World) :
  Sound w -> Db.hasBucketId (uuidOf (uuids w)) w = false.
Proof.
  intros S. destruct (Db.hasBucketId _ w) eqn:E; [|reflexivity].
  apply hasBucketId_In, in_map_iff in E. destruct E as (b & Hid & Hb).
  destruct (sound_bucket_ids w S b Hb) as (k & Hk & Hk').
  rewrite Hk' in Hid. apply uuidOf_inj in Hid. lia.
Qed.

Lemma fresh_task_id (w : World) :
  Sound w -> Db.hasTaskId (uuidOf (uuids w)) w = false.
Proof.
  intros S. destruct (Db.hasTaskId _ w) eqn:E; [|reflexivity].
  apply hasTaskId_In, in_map_iff in E. destruct E as (b & Hid & Hb).
  destruct (sound_task_ids w S b Hb) as (k & Hk & Hk').
  rewrite Hk' in Hid. apply uuidOf_inj in Hid. lia.
Qed.

Lemma hasDefault_iff (u : string) (w : World) :
  hasDefault u w = true
  <-> exists b, In b (buckets w) /\ BucketRow.userId b = u
                /\ BucketRow.name b = "Events".
Proof.
  unfold hasDefault. rewrite existsb_exists.
  split; intros (b & Hb & H); exists b.
  - apply andb_true_iff in H as [H1 H2].
    apply String.eqb_eq in H1, H2. auto.
  - destruct H as [H1 H2]. split; [assumption|].
    apply andb_true_iff. split; now apply String.eqb_eq.
Qed.

(** A world whose buckets include those of [w] keeps the defaults of [w]. *)
Lemma hasDefault_mono (u : string) (w w' : World) :
  (forall b, In b (buckets w) -> BucketRow.name b = "Events" -> In b (buckets w')) ->
  hasDefault u w = true -> hasDefault u w' = true.
Proof.
  intros Hsub H. apply hasDefault_iff in H as (b & Hb & Hu & Hn).
  apply hasDefault_iff. exists b. auto.
Qed.

Lemma autoCreated_addTrace (u : string) (es : list Effect) (w : World) :
  autoCreated u (addTrace es w)
  = autoCreated u w + List.length (filter (isCreatedFor u) es).
Proof. unfold autoCreated, addTrace; simpl. now rewrite filter_app, length_app. Qed.

Lemma categorize_not_created (u : string) (es : list Effect) :
  forallb isCategorize es = true -> filter (isCreatedFor u) es = [].
Proof.
  induction es as [|e es IH]; simpl; [reflexivity|].
  intros H. apply andb_true_iff in H as [He Hes].
  destruct e; try discriminate. simpl. now apply IH.
Qed.

Lemma categorize_not_write (es : list Effect) :
  forallb isCategorize es = true -> filter isWrite es = [].
Proof.
  induction es as [|e es IH]; simpl; [reflexivity|].
  intros H. apply andb_true_iff in H as [He Hes].
  destruct e; try discriminate. simpl. now apply IH.
Qed.

(** Sound worlds stay sound when only the trace, the clock or the UUID
    counter move, as long as no creation of a default bucket is recorded. *)
Lemma Sound_same_tables (w w' : World) :
  users w' = users w ->
  buckets w' = buckets w -> tasks w' = tasks w -> uuids w <= uuids w' ->
  (forall u, autoCreated u w' = autoCreated u w) ->
  Sound w -> Sound w'.
Proof.
  intros Hus Hb Ht Hu Hc S. constructor.
  - unfold Db.hasUser. rewrite Hb, Hus. apply (sound_users w S).
  - rewrite Hb. apply (sound_keys w S).
  - rewrite Hb. intros b H. destruct (sound_bucket_ids w S b H) as (k & Hk & E).
    exists k. split; [lia | assumption].
  - rewrite Ht. intros t H. destruct (sound_task_ids w S t H) as (k & Hk & E).
    exists k. split; [lia | assumption].
  - rewrite Hb. apply (sound_owners w S).
  - intros u. rewrite Hc. unfold hasDefault. rewrite Hb. apply (sound_created w S).
Qed.

Lemma Sound_addTrace (es : list Effect) (w : World) :
  forallb isCategorize es = true -> Sound w -> Sound (addTrace es w).
Proof.
  intros H. apply Sound_same_tables; try reflexivity; try (simpl; lia).
  intros u. rewrite autoCreated_addTrace, categorize_not_created by assumption.
  simpl. lia.
Qed.

Lemma Sound_nextUuid (w : World) : Sound w -> Sound (nextUuid w).
Proof. apply Sound_same_tables; try reflexivity; simpl; lia. Qed.

Lemma defaultsPresent_same_buckets (skip : option string) (w w' : World) :
  buckets w' = buckets w ->
  defaultsPresentExcept skip w -> defaultsPresentExcept skip w'.
Proof.
  unfold defaultsPresentExcept, hasDefault. intros ->. auto.
Qed.

End InvFacts.

Module TableFacts.
Import WorldFacts InvFacts.

(** A world whose rows all stem from rows of a sound world, with unique
    keys, no new creation record and no default bucket lost, is sound. *)
Lemma Sound_build (w w' : World) :
  users w' = users w ->
  NoDup (map BucketRow.id (buckets w')) ->
  (forall b, In b (buckets w') ->
             exists b0, In b0 (buckets w) /\ BucketRow.id b = BucketRow.id b0
                        /\ BucketRow.userId b = BucketRow.userId b0) ->
  (forall t, In t (tasks w') ->
             exists t0, In t0 (tasks w) /\ TaskRow.id t = TaskRow.id t0) ->
  uuids w <= uuids w' ->
  (forall u, autoCreated u w' = autoCreated u w) ->
  (forall u, hasDefault u w = true -> hasDefault u w' = true) ->
  Sound w -> Sound w'.
Proof.
  intros Hus Hk Hb Ht Hu Hc Hd S. constructor.
  - intros b H. destruct (Hb b H) as (b0 & H0 & _ & E). unfold Db.hasUser.
    rewrite E, Hus. now apply (sound_users w S).
  - exact Hk.
  - intros b H. destruct (Hb b H) as (b0 & H0 & E & _).
    destruct (sound_bucket_ids w S b0 H0) as (k & Hlt & Ek).
    exists k. split; [lia | congruence].
  - intros t H. destruct (Ht t H) as (t0 & H0 & E).
    destruct (sound_task_ids w S t0 H0) as (k & Hlt & Ek).
    exists k. split; [lia | congruence].
  - intros b H. destruct (Hb b H) as (b0 & H0 & _ & E). rewrite E.
    now apply (sound_owners w S).
  - intros u. rewrite Hc. destruct (sound_created w S u) as [H1 H2].
    split; [exact H1|]. intros H. apply H2.
    destruct (hasDefault u w) eqn:E; [|reflexivity].
    apply Hd in E. congruence.
Qed.

Lemma NoDup_snoc {A} (l : list A) (x : A) :
  NoDup l -> ~ In x l -> NoDup (l ++ [x]).
Proof.
  intros Hl Hx. induction Hl as [|y l Hy Hl IH]; simpl.
  - constructor; [intros [] | constructor].
  - constructor.
    + rewrite in_app_iff. intros [H|[H|[]]]; [now apply Hy|].
      subst. apply Hx. now left.
    + apply IH. intros H. apply Hx. now right.
Qed.

(** Keys stay unique when rows are deleted. *)
Lemma NoDup_map_filter {Row Key} (key : Row -> Key) (keep : Row -> bool) :
  forall rows, NoDup (map key rows) -> NoDup (map key (filter keep rows)).
Proof.
  intros rows. induction rows as [|x l IH]; simpl; intros H; [constructor|].
  inversion H as [|? ? Hx Hl]; subst.
  destruct (keep x); simpl; [|now apply IH].
  constructor; [|now apply IH].
  intros Hin. apply Hx. apply in_map_iff in Hin as (y & E & Hy).
  apply filter_In in Hy as [Hy _]. apply in_map_iff. now exists y.
Qed.

(** Rows with the same key are the same row. *)
Lemma same_key_same_row (l : list BucketRow.t) (a b : BucketRow.t) :
  NoDup (map BucketRow.id l) -> In a l -> In b l ->
  BucketRow.id a = BucketRow.id b -> a = b.
Proof.
  induction l as [|x l IH]; simpl; intros Hn Ha Hb E; [contradiction|].
  inversion Hn as [|? ? Hx Hl]; subst.
  destruct Ha as [<-|Ha], Hb as [<-|Hb]; auto.
  - exfalso. apply Hx. rewrite E. now apply in_map.
  - exfalso. apply Hx. rewrite <- E. now apply in_map.
Qed.

(** The world after a new row with the next identifier went in. *)
Lemma Sound_withBucket (row : BucketRow.t) (w : World) :
  Sound w ->
  BucketRow.id row = uuidOf (uuids w) -> BucketRow.userId row <> "" ->
  Db.hasUser (BucketRow.userId row) w = true ->
  Sound (withBucket row (nextUuid w)).
Proof.
  intros S Hid Hu Hrow. pose proof (fresh_bucket_id w S) as Hf.
  constructor; simpl.
  - intros b H. apply in_app_iff in H as [H|[<-|[]]]; [|exact Hrow].
    now apply (sound_users w S).
  - rewrite map_app. apply NoDup_snoc; [apply (sound_keys w S)|].
    simpl. intros H. apply hasBucketId_In in H. congruence.
  - intros b H. apply in_app_iff in H as [H|[<-|[]]].
    + destruct (sound_bucket_ids w S b H) as (k & Hk & E). exists k; split; [lia|auto].
    + exists (uuids w); split; [lia|auto].
  - intros t H. destruct (sound_task_ids w S t H) as (k & Hk & E).
    exists k; split; [lia|auto].
  - intros b H. apply in_app_iff in H as [H|[<-|[]]]; [|assumption].
    now apply (sound_owners w S).
  - intros u. destruct (sound_created w S u) as [H1 H2].
    assert (Hc : autoCreated u (withBucket row (nextUuid w)) = autoCreated u w).
    { unfold autoCreated; simpl. rewrite filter_app; simpl. now rewrite app_nil_r. }
    rewrite Hc. split; [exact H1|]. intros H. apply H2.
    destruct (hasDefault u w) eqn:E; [|reflexivity].
    apply (hasDefault_mono u w (withBucket row (nextUuid w))) in E; [congruence|].
    intros b Hb _. simpl. apply in_app_iff. now left.
Qed.

Lemma defaultsPresent_withBucket (skip : option string) (row : BucketRow.t)
    (w : World) :
  defaultsPresentExcept skip w ->
  (skip = Some (BucketRow.userId row)
   \/ hasDefault (BucketRow.userId row) w = true
   \/ BucketRow.name row = "Events") ->
  defaultsPresentExcept skip (withBucket row (nextUuid w)).
Proof.
  intros D Hrow b Hb Hs.
  assert (Hm : forall u, hasDefault u w = true ->
                         hasDefault u (withBucket row (nextUuid w)) = true).
  { intros u. apply hasDefault_mono. intros x Hx _. simpl.
    apply in_app_iff. now left. }
  simpl in Hb. apply in_app_iff in Hb as [Hb|[<-|[]]].
  - apply Hm. now apply D.
  - destruct Hrow as [E|[E|E]]; [congruence | now apply Hm |].
    apply hasDefault_iff. exists row. simpl. rewrite in_app_iff. simpl. auto.
Qed.

(** The world after [ensureDefaultBuckets] created the default bucket. *)
Lemma Sound_default_created (u : string) (w : World) :
  Sound w -> hasDefault u w = false -> u <> "" -> Db.hasUser u w = true ->
  Sound (addTrace [DefaultBucketCreated u]
           (withBucket (defaultRow u w) (nextUuid w))).
Proof.
  intros S Hd Hu Hrow.
  pose proof (Sound_withBucket (defaultRow u w) w S eq_refl Hu Hrow) as S1.
  set (w1 := withBucket (defaultRow u w) (nextUuid w)) in *.
  constructor; try apply S1.
  intros u'. rewrite autoCreated_addTrace. simpl.
  destruct (sound_created w1 S1 u') as [H1 H2].
  assert (Hc : autoCreated u' w1 = autoCreated u' w).
  { unfold autoCreated, w1; simpl. rewrite filter_app; simpl. now rewrite app_nil_r. }
  destruct (String.eqb_spec u u') as [<-|Hne]; simpl.
  - destruct (sound_created w S u) as [_ H0]. rewrite Hc, (H0 Hd). split; [lia|].
    intros H. exfalso.
    assert (E : hasDefault u w1 = true).
    { apply hasDefault_iff. exists (defaultRow u w). unfold w1; simpl.
      rewrite in_app_iff; simpl. auto. }
    unfold hasDefault in *. simpl in *. congruence.
  - split; [lia|]. intros H. rewrite Nat.add_0_r. apply H2. exact H.
Qed.

End TableFacts.

Module LoadFacts.
Import WorldFacts InvFacts TableFacts.

Lemma isEmpty_false (s : string) : JsString.isEmpty s = false <-> s <> "".
Proof. destruct s; simpl; split; congruence. Qed.

Lemma isEmpty_true (s : string) : JsString.isEmpty s = true <-> s = "".
Proof. destruct s; simpl; split; congruence. Qed.

Lemma viewTrace_categorize (u : string) (w : World) :
  forallb isCategorize (viewTrace u w) = true.
Proof. unfold viewTrace. induction (taskRowsOf u w); simpl; auto. Qed.

Lemma Inv_addTrace (es : list Effect) (w : World) :
  forallb isCategorize es = true -> Inv w -> Inv (addTrace es w).
Proof.
  intros H [S D]. split; [now apply Sound_addTrace|].
  now apply (defaultsPresent_same_buckets None w).
Qed.

Lemma Inv_weaken (skip : option string) (w : World) :
  Inv w -> Sound w /\ defaultsPresentExcept skip w.
Proof. intros [S D]. split; [assumption|]. intros b Hb _. apply D; [assumption|discriminate]. Qed.

Lemma hasDefault_afterDefault (u : string) (w : World) :
  hasDefault u (afterDefault u w) = true.
Proof.
  unfold afterDefault. destruct (hasDefault u w) eqn:E; [assumption|].
  apply hasDefault_iff. exists (defaultRow u w). simpl.
  rewrite in_app_iff; simpl. auto.
Qed.

Lemma afterDefault_idem (u : string) (w : World) :
  hasDefault u w = true -> afterDefault u w = w.
Proof. unfold afterDefault. now intros ->. Qed.

Lemma tasks_afterDefault (u : string) (w : World) :
  tasks (afterDefault u w) = tasks w.
Proof. unfold afterDefault. now destruct (hasDefault u w). Qed.

(** The owner of a bucket has a user row. *)
Lemma hasUser_of_default (u : string) (w : World) :
  Sound w -> hasDefault u w = true -> Db.hasUser u w = true.
Proof.
  intros S H. apply hasDefault_iff in H as (b & Hb & <- & _).
  now apply (sound_users w S).
Qed.

(** A user id without a user row owns no bucket. *)
Lemma hasDefault_unknown_user (u : string) (w : World) :
  Sound w -> Db.hasUser u w = false -> hasDefault u w = false.
Proof.
  intros S H. destruct (hasDefault u w) eqn:E; [|reflexivity].
  apply (hasUser_of_default u w S) in E. congruence.
Qed.

(** In a sound world [ensureDefaultBuckets] does not throw for a user with
    a user row, and it establishes the invariant even if the user's
    default was missing. *)
Lemma ensureDefaultBuckets_sound (u : string) (w : World) :
  Sound w -> defaultsPresentExcept (Some u) w -> u <> "" ->
  Db.hasUser u w = true ->
  ensureDefaultBuckets u w = (Ok tt, afterDefault u w)
  /\ Inv (afterDefault u w).
Proof.
  intros S D Hu Hrow. rewrite ensureDefaultBuckets_eq. unfold afterDefault.
  destruct (hasDefault u w) eqn:E.
  - split; [reflexivity|]. split; [assumption|].
    intros b Hb _. destruct (String.eqb_spec (BucketRow.userId b) u) as [->|Hne];
      [assumption|]. apply D; [assumption | congruence].
  - rewrite (fresh_bucket_id w S), Hrow. split; [reflexivity|]. split.
    + now apply Sound_default_created.
    + apply (defaultsPresent_same_buckets None
               (withBucket (defaultRow u w) (nextUuid w))); [reflexivity|].
      intros b Hb _.
      assert (Hm : forall u', hasDefault u' w = true ->
                 hasDefault u' (withBucket (defaultRow u w) (nextUuid w)) = true).
      { intros u'. apply hasDefault_mono. intros x Hx _. simpl.
        apply in_app_iff. now left. }
      simpl in Hb. apply in_app_iff in Hb as [Hb|[<-|[]]].
      * destruct (String.eqb_spec (BucketRow.userId b) u) as [->|Hne].
        -- apply hasDefault_iff. exists (defaultRow u w). simpl.
           rewrite in_app_iff; simpl. auto.
        -- apply Hm, D; [assumption | congruence].
      * apply hasDefault_iff. exists (defaultRow u w). simpl.
        rewrite in_app_iff; simpl. auto.
Qed.

(** For a user id without a user row the creation of the default bucket
    fails on the reference to the user table: an identifier has been
    drawn, nothing is written. *)
Lemma ensureDefaultBuckets_unknown_user (u : string) (w : World) :
  Sound w -> Db.hasUser u w = false ->
  ensureDefaultBuckets u w = (Thrown ForeignKeyViolation, nextUuid w).
Proof.
  intros S H. rewrite ensureDefaultBuckets_eq.
  now rewrite (hasDefault_unknown_user u w S H), (fresh_bucket_id w S), H.
Qed.

(** [loadBuckets] for a signed-in user in a sound world. *)
Lemma loadBuckets_sound (u : string) (w : World) :
  Sound w -> defaultsPresentExcept (Some u) w -> u <> "" ->
  Db.hasUser u w = true ->
  loadBuckets u w
  = (Ok (bucketView u (afterDefault u w)),
     addTrace (viewTrace u (afterDefault u w)) (afterDefault u w))
  /\ Inv (addTrace (viewTrace u (afterDefault u w)) (afterDefault u w)).
Proof.
  intros S D Hu Hrow.
  destruct (ensureDefaultBuckets_sound u w S D Hu Hrow) as [E I].
  rewrite loadBuckets_eq, (proj2 (isEmpty_false u) Hu), E. split; [reflexivity|].
  apply Inv_addTrace; [apply viewTrace_categorize | assumption].
Qed.

Lemma loadBuckets_empty_user (w : World) : loadBuckets "" w = (Ok [], w).
Proof. reflexivity. Qed.

(** [loadBuckets] for a user id without a user row. *)
Lemma loadBuckets_unknown_user (u : string) (w : World) :
  Sound w -> u <> "" -> Db.hasUser u w = false ->
  loadBuckets u w = (Thrown ForeignKeyViolation, nextUuid w).
Proof.
  intros S Hu H.
  now rewrite loadBuckets_eq, (proj2 (isEmpty_false u) Hu),
    (ensureDefaultBuckets_unknown_user u w S H).
Qed.

Lemma Inv_nextUuid (w : World) : Inv w -> Inv (nextUuid w).
Proof.
  intros [S D]. split; [now apply Sound_nextUuid|].
  now apply (defaultsPresent_same_buckets None w).
Qed.

(** [loadBuckets] keeps the invariant, for every user id. *)
Lemma loadBuckets_Inv (u : string) (w : World) :
  Inv w -> Inv (snd (loadBuckets u w)).
Proof.
  intros I. destruct u as [|c u]; [exact I|].
  destruct (Inv_weaken (Some (String c u)) w I) as [S D].
  destruct (Db.hasUser (String c u) w) eqn:Hrow.
  - destruct (loadBuckets_sound (String c u) w S D ltac:(discriminate) Hrow)
      as [E I'].
    now rewrite E.
  - rewrite (loadBuckets_unknown_user (String c u) w S ltac:(discriminate) Hrow).
    now apply Inv_nextUuid.
Qed.

End LoadFacts.

(* ================================================================== *)
(** ** The guarded mutations, case by case *)

Module MutationFacts.
Import WorldFacts InvFacts TableFacts LoadFacts.

Lemma firstn1_filter {A} (p : A -> bool) (l : list A) :
  firstn 1 (filter p l) = match find p l with Some x => [x] | None => [] end.
Proof.
  induction l as [|x l IH]; simpl; [reflexivity|].
  destruct (p x); simpl; [reflexivity | exact IH].
Qed.

Lemma selectOwnedBucket_eq (u i : string) (w : World) :
  selectOwnedBucket u i w
  = (Ok (match ownedBucket u i w with Some b => [b] | None => [] end), w).
Proof.
  unfold selectOwnedBucket, bind, Db.selectBuckets, ret, ownedBucket.
  now rewrite firstn1_filter.
Qed.

Lemma flat_map_nil_iff {A B} (f : A -> list B) (l : list A) :
  flat_map f l = [] <-> forall x, In x l -> f x = [].
Proof.
  induction l as [|x l IH]; simpl.
  - split; [intros _ y [] | reflexivity].
  - split.
    + intros H. apply app_eq_nil in H as [H1 H2]. intros y [<-|Hy]; [assumption|].
      now apply IH.
    + intros H. rewrite (H x (or_introl eq_refl)). simpl. apply IH.
      intros y Hy. apply H. now right.
Qed.

Lemma selectOwnedTask_eq (u i : string) (w : World) :
  exists rows,
    selectOwnedTask u i w = (Ok rows, w)
    /\ (rows = [] <-> ownsTask u i w = false).
Proof.
  unfold selectOwnedTask, bind, Db.selectTasksJoinBuckets, ret.
  eexists. split; [reflexivity|].
  set (rows := flat_map _ (tasks w)).
  assert (H : rows = [] <-> ownsTask u i w = false).
  { unfold rows, ownsTask. rewrite flat_map_nil_iff. split.
    - intros H. destruct (existsb _ (tasks w)) eqn:E; [|reflexivity].
      apply existsb_exists in E as (t & Ht & E).
      apply existsb_exists in E as (b & Hb & E).
      specialize (H t Ht).
      assert (Hin : In (t, b)
                      (map (fun b => (t, b))
                         (filter (fun b =>
                            (String.eqb (TaskRow.bucketId t) (BucketRow.id b)
                             && (String.eqb (TaskRow.id t) i
                                 && String.eqb (BucketRow.userId b) u))%bool)
                            (buckets w)))).
      { apply in_map, filter_In. auto. }
      rewrite H in Hin. destruct Hin.
    - intros H t Ht.
      destruct (filter _ (buckets w)) as [|b l] eqn:E; [reflexivity|].
      exfalso.
      assert (Hb : In b (b :: l)) by now left.
      rewrite <- E in Hb. apply filter_In in Hb as [Hb Hp].
      assert (Ht' : existsb (fun t =>
                 existsb (fun b =>
                   (String.eqb (TaskRow.bucketId t) (BucketRow.id b)
                    && (String.eqb (TaskRow.id t) i
                        && String.eqb (BucketRow.userId b) u))%bool)
                   (buckets w)) (tasks w) = true).
      { apply existsb_exists. exists t. split; [assumption|].
        apply existsb_exists. exists b. auto. }
      congruence. }
  destruct rows as [|r rows']; simpl.
  - exact H.
  - split; [discriminate|]. intros E. apply H in E. discriminate.
Qed.

(** [deleteBucket], case by case. *)
Lemma deleteBucket_eq (u i : string) (w : World) :
  deleteBucket u i w =
  if (JsString.isEmpty u || JsString.isEmpty i)%bool then loadBuckets u w
  else match ownedBucket u i w with
       | None => loadBuckets u w
       | Some b =>
           if isDefaultBucketName (BucketRow.name b) then loadBuckets u w
           else loadBuckets u (snd (Db.deleteBucket i w))
       end.
Proof.
  unfold deleteBucket.
  destruct (JsString.isEmpty u || JsString.isEmpty i)%bool; [reflexivity|].
  unfold bind at 1. rewrite selectOwnedBucket_eq.
  destruct (ownedBucket u i w) as [b|]; [|reflexivity].
  destruct (isDefaultBucketName (BucketRow.name b)); reflexivity.
Qed.

(** [updateBucketName], case by case. *)
Lemma updateBucketName_eq (u i n : string) (w : World) :
  updateBucketName u i n w =
  if (JsString.isEmpty u || JsString.isEmpty i
      || JsString.isEmpty (JsString.trim n))%bool
  then loadBuckets u w
  else match ownedBucket u i w with
       | None => loadBuckets u w
       | Some b =>
           if isDefaultBucketName (BucketRow.name b) then loadBuckets u w
           else loadBuckets u
                  (snd (Db.updateBucket i (JsString.trim n) (clock w) w))
       end.
Proof.
  unfold updateBucketName.
  destruct (JsString.isEmpty u || JsString.isEmpty i
            || JsString.isEmpty (JsString.trim n))%bool; [reflexivity|].
  unfold bind at 1. rewrite selectOwnedBucket_eq.
  destruct (ownedBucket u i w) as [b|]; [|reflexivity].
  destruct (isDefaultBucketName (BucketRow.name b)); reflexivity.
Qed.

(** [completeTask], case by case. *)
Lemma completeTask_eq (u i : string) (w : World) :
  completeTask u i w =
  if (JsString.isEmpty u || JsString.isEmpty i)%bool then loadBuckets u w
  else if ownsTask u i w then loadBuckets u (snd (Db.deleteTask i w))
       else loadBuckets u w.
Proof.
  unfold completeTask.
  destruct (JsString.isEmpty u || JsString.isEmpty i)%bool; [reflexivity|].
  destruct (selectOwnedTask_eq u i w) as (rows & E & H).
  unfold bind at 1. rewrite E.
  destruct rows as [|r rows'].
  - now rewrite (proj1 H eq_refl).
  - destruct (ownsTask u i w); [reflexivity|].
    destruct H as [_ H]. discriminate (H eq_refl).
Qed.

End MutationFacts.

Module CalendarFacts.
Import WorldFacts InvFacts TableFacts LoadFacts MutationFacts.

Lemma calendarEntry_eq (key : option string) (row : TaskRow.t * BucketRow.t)
    (w : World) :
  calendarEntry key row w
  = (Ok (entryOf key row),
     addTrace [Categorize (TaskRow.raw (fst row)) (storedFields (fst row))] w).
Proof. reflexivity. Qed.

Lemma mapM_calendar (l : list (TaskRow.t * BucketRow.t)) (w : World) :
  mapM (fun row =>
          bind (calendarEntry (Some (dateKey row)) row)
            (fun entry => ret (dateKey row, entry))) l w
  = (Ok (map (fun row => (dateKey row, entryOf (Some (dateKey row)) row)) l),
     addTrace (map (fun row => Categorize (TaskRow.raw (fst row))
                                 (storedFields (fst row))) l) w).
Proof.
  revert w; induction l as [|r l IH]; intros w; simpl.
  - unfold ret. now rewrite addTrace_nil.
  - unfold bind at 1. unfold bind at 1. rewrite calendarEntry_eq.
    unfold ret at 1. unfold bind at 1. rewrite IH.
    unfold ret. now rewrite addTrace_addTrace.
Qed.

(** [loadCalendarTasks] reads: it returns the view and records one
    categorizer call per row. *)
Lemma loadCalendarTasks_eq (u : string) (w : World) :
  loadCalendarTasks u w = (Ok (calendarView u w), addTrace (calendarTrace u w) w).
Proof.
  unfold loadCalendarTasks, calendarView, calendarTrace.
  destruct (JsString.isEmpty u).
  - unfold ret. now rewrite addTrace_nil.
  - unfold bind at 1, Db.selectTasksJoinBuckets.
    fold (calendarRows u w). unfold bind at 1.
    change (mapM _ (calendarRows u w) w)
      with (mapM (fun row =>
                    bind (calendarEntry (Some (dateKey row)) row)
                      (fun entry => ret (dateKey row, entry)))
              (calendarRows u w) w).
    now rewrite mapM_calendar.
Qed.

Lemma calendarTrace_categorize (u : string) (w : World) :
  forallb isCategorize (calendarTrace u w) = true.
Proof.
  unfold calendarTrace. destruct (JsString.isEmpty u); [reflexivity|].
  induction (calendarRows u w); simpl; auto.
Qed.

(** [updateTask], case by case. *)
Lemma updateTask_eq (env : Env) (u i : string) (up : TaskUpdates.t) (w : World) :
  updateTask env u i up w =
  if (JsString.isEmpty u || JsString.isEmpty i)%bool then loadCalendarTasks u w
  else if ownsTask u i w then
         bind (Db.updateTask i (TaskUpdates.assignmentName up)
                 (TaskUpdates.description up)
                 (if JsString.truthy (TaskUpdates.dueDate up)
                  then composeDueDate env (TaskUpdates.dueDate up)
                         (TaskUpdates.dueTime up)
                  else None)
                 (TaskUpdates.bucketId up) (clock w))
           (fun _ => loadCalendarTasks u) w
       else loadCalendarTasks u w.
Proof.
  unfold updateTask.
  destruct (JsString.isEmpty u || JsString.isEmpty i)%bool; [reflexivity|].
  destruct (selectOwnedTask_eq u i w) as (rows & E & H).
  unfold bind at 1. rewrite E.
  destruct rows as [|r rows'].
  - now rewrite (proj1 H eq_refl).
  - destruct (ownsTask u i w); [reflexivity|].
    destruct H as [_ H]. discriminate (H eq_refl).
Qed.

End CalendarFacts.

(* ================================================================== *)
(** ** [assignTaskToBucket], step by step *)

Module AssignFacts.
Import WorldFacts InvFacts TableFacts LoadFacts MutationFacts.

Lemma insertBy_In {A} (leb : A -> A -> bool) (x y : A) (l : list A) :
  In y (insertBy leb x l) <-> y = x \/ In y l.
Proof.
  induction l as [|z l IH]; simpl.
  - intuition.
  - destruct (leb x z); simpl; [intuition|]. rewrite IH. intuition.
Qed.

Lemma orderBy_In {A} (leb : A -> A -> bool) (y : A) (l : list A) :
  In y (orderBy leb l) <-> In y l.
Proof.
  induction l as [|x l IH]; simpl; [reflexivity|].
  rewrite insertBy_In, IH. intuition.
Qed.

(** Every bucket of the view is a row of the user. *)
Lemma bucketView_In (u : string) (w : World) (b : Bucket.t) :
  In b (bucketView u w) ->
  exists row, In row (buckets w) /\ BucketRow.userId row = u
              /\ BucketRow.id row = Bucket.id b
              /\ BucketRow.name row = Bucket.name b.
Proof.
  unfold bucketView. intros H. apply in_map_iff in H as (row & <- & Hrow).
  unfold bucketRowsOf in Hrow. apply orderBy_In, filter_In in Hrow as [Hin Hu].
  apply String.eqb_eq in Hu. exists row. simpl. auto.
Qed.

(** Every row of the user is a bucket of the view. *)
Lemma bucketView_row (u : string) (w : World) (row : BucketRow.t) :
  In row (buckets w) -> BucketRow.userId row = u ->
  exists b, In b (bucketView u w) /\ Bucket.id b = BucketRow.id row
            /\ Bucket.name b = BucketRow.name row.
Proof.
  intros Hin Hu. unfold bucketView. eexists. split.
  - apply in_map_iff. exists row. split; [reflexivity|].
    unfold bucketRowsOf. apply orderBy_In, filter_In. split; [assumption|].
    now apply String.eqb_eq.
  - simpl. auto.
Qed.

Lemma hasDefault_withBucket (u : string) (row : BucketRow.t) (w : World) :
  hasDefault u w = true -> hasDefault u (withBucket row w) = true.
Proof.
  apply hasDefault_mono. intros b Hb _. simpl. apply in_app_iff. now left.
Qed.

(** Loading again when the default bucket is there only reads. *)
Lemma loadBuckets_read (u : string) (w : World) :
  u <> "" -> hasDefault u w = true ->
  loadBuckets u w = (Ok (bucketView u w), addTrace (viewTrace u w) w).
Proof.
  intros Hu Hd. rewrite loadBuckets_eq, (proj2 (isEmpty_false u) Hu).
  now rewrite ensureDefaultBuckets_eq, Hd.
Qed.

Lemma Sound_afterResolve (u : string) (existing : list Bucket.t)
    (a : AssignmentResult.t) (w : World) :
  u <> "" -> Db.hasUser u w = true -> Sound w ->
  Sound (fst (afterResolve u existing a w)).
Proof.
  intros Hu Hrow S. unfold afterResolve.
  destruct (findById existing _); [assumption|].
  destruct (findByName existing _); [assumption|].
  simpl. now apply Sound_withBucket.
Qed.

Lemma Sound_afterTag (t : string) (p q : ParsedTask) (w : World) :
  Sound w -> Sound (afterTag t p q w).
Proof.
  intros S. unfold afterTag. destruct (tagFromModel p); [assumption|].
  now apply Sound_addTrace.
Qed.

(** The target bucket is a row of the table once it is resolved. *)
Lemma target_exists (u : string) (a : AssignmentResult.t) (w : World) :
  let r := afterResolve u (bucketView u w) a w in
  Db.hasBucketId (Bucket.id (snd r)) (fst r) = true.
Proof.
  cbv zeta. unfold afterResolve.
  destruct (findById (bucketView u w) _) as [b|] eqn:E1.
  - apply find_some in E1 as [Hin _]. simpl.
    apply bucketView_In in Hin as (row & Hrow & _ & Hid & _).
    apply hasBucketId_In. rewrite <- Hid. now apply in_map.
  - destruct (findByName (bucketView u w) _) as [b|] eqn:E2.
    + apply find_some in E2 as [Hin _]. simpl.
      apply bucketView_In in Hin as (row & Hrow & _ & Hid & _).
      apply hasBucketId_In. rewrite <- Hid. now apply in_map.
    + simpl. apply hasBucketId_In. simpl. rewrite map_app, in_app_iff. simpl. auto.
Qed.

End AssignFacts.

Module AssignEquation.
Import WorldFacts InvFacts TableFacts LoadFacts MutationFacts AssignFacts.

Lemma clock_afterDefault (u : string) (w : World) :
  clock (afterDefault u w) = clock w.
Proof. unfold afterDefault. now destruct (hasDefault u w). Qed.

(** Inserting a task under the next identifier succeeds in a sound world
    when the bucket exists. *)
Lemma insertTask_fresh (row : TaskRow.t) (w : World) :
  Sound w -> TaskRow.id row = uuidOf (uuids w) ->
  Db.hasBucketId (TaskRow.bucketId row) w = true ->
  Db.insertTask row (nextUuid w) = (Ok tt, withTask row (nextUuid w)).
Proof.
  intros S Hid Hb. unfold Db.insertTask.
  change (Db.hasTaskId (TaskRow.id row) (nextUuid w))
    with (Db.hasTaskId (TaskRow.id row) w).
  change (Db.hasBucketId (TaskRow.bucketId row) (nextUuid w))
    with (Db.hasBucketId (TaskRow.bucketId row) w).
  now rewrite Hid, (fresh_task_id w S), Hb.
Qed.

Lemma insertBucket_fresh (row : BucketRow.t) (w : World) :
  Sound w -> BucketRow.id row = uuidOf (uuids w) ->
  Db.hasUser (BucketRow.userId row) w = true ->
  Db.insertBucket row (nextUuid w) = (Ok tt, withBucket row (nextUuid w)).
Proof.
  intros S Hid Hrow. unfold Db.insertBucket.
  change (Db.hasBucketId (BucketRow.id row) (nextUuid w))
    with (Db.hasBucketId (BucketRow.id row) w).
  change (Db.hasUser (BucketRow.userId row) (nextUuid w))
    with (Db.hasUser (BucketRow.userId row) w).
  now rewrite Hid, (fresh_bucket_id w S), Hrow.
Qed.

(** The same for a user id without a user row: the reference fails. *)
Lemma insertBucket_unknown_user (row : BucketRow.t) (w : World) :
  Sound w -> BucketRow.id row = uuidOf (uuids w) ->
  Db.hasUser (BucketRow.userId row) w = false ->
  Db.insertBucket row (nextUuid w) = (Thrown ForeignKeyViolation, nextUuid w).
Proof.
  intros S Hid Hrow. unfold Db.insertBucket.
  change (Db.hasBucketId (BucketRow.id row) (nextUuid w))
    with (Db.hasBucketId (BucketRow.id row) w).
  change (Db.hasUser (BucketRow.userId row) (nextUuid w))
    with (Db.hasUser (BucketRow.userId row) w).
  now rewrite Hid, (fresh_bucket_id w S), Hrow.
Qed.

(** [assignTaskToBucket] is its guard, the load and [carryOut]. *)
Lemma assignTaskToBucket_unfold (env : Env) (task u : string) :
  assignTaskToBucket env task u =
  (let trimmedTask := JsString.trim task in
   if (JsString.isEmpty trimmedTask || JsString.isEmpty u)%bool then loadBuckets u
   else
     ensureOpenAIConfigured env ;;;
     ensureDefaultBuckets u ;;;
     existingBuckets <- loadBuckets u ;;
     now <- newDate ;;
     match analyzeTaskWithAI env trimmedTask existingBuckets now with
     | None => loadBuckets u
     | Some assignment =>
         if negb (Json.truthy assignment) then loadBuckets u
         else carryOut env u trimmedTask existingBuckets assignment
     end)%action.
Proof. reflexivity. Qed.

End AssignEquation.

Module CarryOutFacts.
Import WorldFacts InvFacts TableFacts LoadFacts MutationFacts AssignFacts
       AssignEquation.

Lemma hasDefault_afterResolve (u u' : string) (existing : list Bucket.t)
    (a : AssignmentResult.t) (w : World) :
  hasDefault u' w = true -> hasDefault u' (fst (afterResolve u existing a w)) = true.
Proof.
  intros H. unfold afterResolve.
  destruct (findById existing _); [assumption|].
  destruct (findByName existing _); [assumption|].
  simpl. now apply (hasDefault_withBucket u' _ (nextUuid w)).
Qed.

(** On a value that is a string the reading by the interface is what the
    source reads. *)
Lemma stringField_text (key : string) (v : Json.value) (s : string) :
  Json.field key v = Some (Json.Str s) -> Json.stringField key v = Some s.
Proof. unfold Json.stringField. now intros ->. Qed.

(** A value that is skipped by [||] is read by the interface as a falsy
    text or as nothing. *)
Lemma stringField_falsy (key : string) (v : Json.value) :
  Json.truthyAt (Json.field key v) = false ->
  JsString.truthy (Json.stringField key v) = false.
Proof.
  unfold Json.stringField. destruct (Json.field key v) as [[]|]; simpl; auto.
Qed.

(** A truthy text is read by the interface as it is. *)
Lemma stringField_truthy (key : string) (v : Json.value) :
  Json.truthyAt (Json.field key v) = true ->
  Json.isText (Json.field key v) = true ->
  exists s, Json.field key v = Some (Json.Str s)
            /\ Json.stringField key v = Some s
            /\ JsString.truthy (Some s) = true.
Proof.
  unfold Json.stringField. destruct (Json.field key v) as [[]|]; simpl;
    try discriminate. intros H _. eexists. repeat split. exact H.
Qed.

(** [parsedTask] as the interface reads it, and the raw value. *)
Lemma field_parsedTask (key : string) (v : Json.value) :
  match Json.field "parsedTask" v with
  | Some p => Json.field key p
  | None => None
  end
  = match AssignmentResult.parsedTask (Json.asAssignment v) with
    | Some _ => Json.field key (Json.parsedTaskValue v)
    | None => None
    end.
Proof.
  unfold Json.asAssignment, Json.parsedTaskValue, Json.orElse; simpl.
  destruct (Json.field "parsedTask" v) as [[]|]; reflexivity.
Qed.

Lemma parsedTaskOf_fields (v : Json.value) :
  parsedTaskOf (Json.asAssignment v)
  = Json.asParsedTask (Json.parsedTaskValue v).
Proof.
  unfold parsedTaskOf, Json.asAssignment, Json.parsedTaskValue, Json.orElse;
    simpl.
  destruct (Json.field "parsedTask" v) as [[]|]; try reflexivity.
  all: simpl.
  all: match goal with
       | |- context [if ?c then _ else _] => destruct c
       | _ => idtac
       end; reflexivity.
Qed.

(** One step of the chain of [||]. *)
Lemma orElse_text (key : string) (v : Json.value) (rest : option Json.value)
    (rest' : option string) :
  (Json.isText rest = true ->
   rest = Some (Json.Str (JsString.nullish rest' "Others"))) ->
  Json.isText (Json.orElse (Json.field key v) rest) = true ->
  Json.orElse (Json.field key v) rest
  = Some (Json.Str (JsString.nullish
                      (JsString.orElse (Json.stringField key v) rest')
                      "Others")).
Proof.
  intros IH. unfold Json.orElse, JsString.orElse.
  destruct (Json.truthyAt (Json.field key v)) eqn:E1.
  - intros H. destruct (stringField_truthy _ _ E1 H) as [s [E [F T]]].
    now rewrite F, T, E.
  - rewrite (stringField_falsy _ _ E1). exact IH.
Qed.

(** A candidate name that is a string is the candidate name as the
    interface reads it. *)
Lemma candidateValue_text (v : Json.value) :
  Json.isText (candidateValue v) = true ->
  candidateValue v
  = Some (Json.Str (candidateBucketName (Json.asAssignment v))).
Proof.
  unfold candidateValue, candidateBucketName.
  change (AssignmentResult.newBucketName (Json.asAssignment v))
    with (Json.stringField "newBucketName" v).
  apply orElse_text.
  rewrite (field_parsedTask "courseCategory" v).
  pose proof (parsedTaskOf_fields v) as P. unfold parsedTaskOf in P.
  destruct (AssignmentResult.parsedTask (Json.asAssignment v)) as [p|].
  - subst p. cbn [courseCategory Json.asParsedTask].
    apply orElse_text. reflexivity.
  - reflexivity.
Qed.

(** The second half of a successful assignment: the tag, the task row and
    the reload. *)
Lemma finish_eq (env : Env) (u t : string) (p q : ParsedTask) (target : Bucket.t)
    (w3 : World) :
  u <> "" -> Sound w3 -> hasDefault u w3 = true ->
  Db.hasBucketId (Bucket.id target) w3 = true ->
  let w5 := withTask (newTaskRow env t p (Bucket.id target) (afterTag t p q w3))
              (nextUuid (afterTag t p q w3)) in
  bind (match tagFromModel p with
        | Some tag => ret tag
        | None => categorizeTaskType t (Some q)
        end)
    (fun _ =>
       bind randomUUID (fun id =>
       bind newDate (fun createdAt =>
       bind newDate (fun updatedAt =>
       bind (Db.insertTask
               (TaskRow.mk id (Bucket.id target) t
                  (Some (JsString.nullish
                           (JsString.orElse (assignmentName p)
                              (JsString.orElse (courseCategory p) (Some "Task")))
                           "Task"))
                  (Some (JsString.nullish
                           (JsString.orElse (description p) (Some t)) t))
                  (composeDueDate env (dueDate p) (dueTime p))
                  createdAt updatedAt))
         (fun _ => loadBuckets u))))) w3
  = (Ok (bucketView u w5), addTrace (viewTrace u w5) w5).
Proof.
  intros Hu S Hd Hb w5.
  assert (S4 : Sound (afterTag t p q w3)) by now apply Sound_afterTag.
  assert (Hb4 : Db.hasBucketId (Bucket.id target) (afterTag t p q w3) = true).
  { unfold afterTag. now destruct (tagFromModel p). }
  assert (Hd5 : hasDefault u w5 = true).
  { unfold w5, afterTag, hasDefault in *. now destruct (tagFromModel p). }
  assert (Hstep : forall w4, Sound w4 ->
             Db.hasBucketId (Bucket.id target) w4 = true ->
             bind randomUUID (fun id =>
               bind newDate (fun createdAt =>
               bind newDate (fun updatedAt =>
               bind (Db.insertTask
                       (TaskRow.mk id (Bucket.id target) t
                          (Some (JsString.nullish
                                   (JsString.orElse (assignmentName p)
                                      (JsString.orElse (courseCategory p)
                                         (Some "Task")))
                                   "Task"))
                          (Some (JsString.nullish
                                   (JsString.orElse (description p) (Some t)) t))
                          (composeDueDate env (dueDate p) (dueTime p))
                          createdAt updatedAt))
                 (fun _ => loadBuckets u)))) w4
             = loadBuckets u
                 (withTask (newTaskRow env t p (Bucket.id target) w4)
                    (nextUuid w4))).
  { intros w4 S' Hb'. unfold bind at 1. unfold randomUUID at 1.
    fold (nextUuid w4). unfold bind at 1. unfold newDate at 1.
    unfold bind at 1. unfold newDate at 1. unfold bind at 1.
    change (clock (nextUuid w4)) with (clock w4).
    fold (newTaskRow env t p (Bucket.id target) w4).
    now rewrite (insertTask_fresh (newTaskRow env t p (Bucket.id target) w4) w4
                   S' eq_refl Hb'). }
  unfold bind at 1.
  destruct (tagFromModel p) as [tag|] eqn:Etag.
  - unfold ret at 1. rewrite (Hstep w3 S Hb).
    unfold w5, afterTag. rewrite Etag.
    apply loadBuckets_read; [assumption|].
    unfold w5, afterTag in Hd5. now rewrite Etag in Hd5.
  - unfold categorizeTaskType, bind at 1, log, ret.
    change (mkWorld (users w3) (buckets w3) (tasks w3) (clock w3) (uuids w3)
              (trace w3 ++ [Categorize t (Some q)]))
      with (addTrace [Categorize t (Some q)] w3).
    assert (E : afterTag t p q w3 = addTrace [Categorize t (Some q)] w3).
    { unfold afterTag. now rewrite Etag. }
    rewrite <- E. rewrite (Hstep _ S4 Hb4).
    now apply loadBuckets_read.
Qed.

(** The first half: the target bucket is resolved, or line 133 throws. *)
Lemma resolve_eq (u : string) (v : Json.value) (w : World) :
  Sound w -> hasDefault u w = true ->
  forall existing a,
  existing = bucketView u w -> a = Json.asAssignment v ->
  match findById existing (Json.stringField "bucketId" v) with
  | Some b => ret b
  | None =>
      match candidateValue v with
      | Some (Json.Str bucketName) =>
          match findByName existing bucketName with
          | Some b => ret b
          | None =>
              bind randomUUID (fun bucketId =>
              bind newDate (fun createdAt =>
              bind newDate (fun updatedAt =>
              bind (Db.insertBucket
                      (BucketRow.mk bucketId bucketName u createdAt updatedAt))
                (fun _ => ret (Bucket.mk bucketId bucketName [])))))
          end
      | Some Json.Wide => throw Unmodelled
      | _ => throw TypeError
      end
  end w
  = if resolvable existing v
    then (Ok (snd (afterResolve u existing a w)), fst (afterResolve u existing a w))
    else (Thrown (nameError v), w).
Proof.
  intros S Hd existing a _ ->. unfold resolvable, afterResolve.
  set (a := Json.asAssignment v).
  change (AssignmentResult.bucketId a) with (Json.stringField "bucketId" v).
  destruct (findById existing (Json.stringField "bucketId" v)) as [b|];
    [reflexivity|].
  destruct (Json.isText (candidateValue v)) eqn:Ht.
  - rewrite (candidateValue_text v Ht). fold a.
    destruct (findByName existing (candidateBucketName a)) as [b|];
      [reflexivity|].
    unfold bind at 1. unfold randomUUID at 1.
    fold (nextUuid w). unfold bind at 1. unfold newDate at 1.
    unfold bind at 1. unfold newDate at 1. unfold bind at 1.
    change (clock (nextUuid w)) with (clock w).
    fold (newBucketRow u a w).
    now rewrite (insertBucket_fresh (newBucketRow u a w) w S eq_refl
                   (hasUser_of_default u w S Hd)).
  - unfold nameError.
    destruct (candidateValue v) as [[]|]; try reflexivity. discriminate.
Qed.

(** An accepted suggestion, carried out: an exception when the candidate
    name is not a string or a task field is of another type, and
    otherwise the view of the resulting tables. *)
Lemma carryOut_eq (env : Env) (u t : string) (v : Json.value) (w : World) :
  u <> "" -> Sound w -> hasDefault u w = true ->
  let existing := bucketView u w in
  let a := Json.asAssignment v in
  let w5 := afterAssignment env u t existing a (Json.categorizerFields v) w in
  carryOut env u t existing v w
  = if resolvable existing v then
      if Json.taskFieldsTyped v
      then (Ok (bucketView u w5), addTrace (viewTrace u w5) w5)
      else (Thrown Unmodelled, fst (afterResolve u existing a w))
    else (Thrown (nameError v), w).
Proof.
  intros Hu S Hd existing a w5.
  pose proof (target_exists u a w) as Ht. cbv zeta in Ht.
  pose proof (Sound_afterResolve u existing a w Hu
                (hasUser_of_default u w S Hd) S) as S3.
  pose proof (hasDefault_afterResolve u u existing a w Hd) as Hd3.
  unfold carryOut. unfold bind at 1.
  rewrite (resolve_eq u v w S Hd existing a eq_refl eq_refl).
  destruct (resolvable existing v); [|reflexivity].
  destruct (Json.taskFieldsTyped v); [|reflexivity].
  cbn [negb]. unfold w5, afterAssignment. fold existing in Ht.
  destruct (afterResolve u existing a w) as [w3 target]. simpl in Ht, S3, Hd3.
  cbn [fst snd].
  now apply finish_eq.
Qed.

End CarryOutFacts.

Module AssignSpec.
Import WorldFacts InvFacts TableFacts LoadFacts MutationFacts AssignFacts
       AssignEquation CarryOutFacts.

Lemma keyConfigured (env : Env) (w : World) :
  OPENAI_API_KEY env <> "" -> ensureOpenAIConfigured env w = (Ok tt, w).
Proof.
  intros H. unfold ensureOpenAIConfigured.
  now rewrite (proj2 (isEmpty_false _) H).
Qed.

(** [assignTaskToBucket] with a task text and a user who has a user row,
    the key configured, in a sound world: the default bucket is ensured,
    the buckets are loaded, the model is asked; without a suggestion the
    buckets are loaded again, with one the suggestion is carried out. *)
Lemma assignTaskToBucket_eq (env : Env) (task u : string) (w : World) :
  Sound w -> defaultsPresentExcept (Some u) w ->
  OPENAI_API_KEY env <> "" -> JsString.trim task <> "" -> u <> "" ->
  Db.hasUser u w = true ->
  let w1 := afterDefault u w in
  let w2 := addTrace (viewTrace u w1) w1 in
  let suggestion :=
    analyzeTaskWithAI env (JsString.trim task) (bucketView u w1) (clock w) in
  assignTaskToBucket env task u w =
  match suggestion with
  | Some v =>
      if Json.truthy v
      then carryOut env u (JsString.trim task) (bucketView u w1) v w2
      else (Ok (bucketView u w1), addTrace (viewTrace u w1) w2)
  | None => (Ok (bucketView u w1), addTrace (viewTrace u w1) w2)
  end.
Proof.
  intros S D Hkey Ht Hu Hrow w1 w2 suggestion.
  destruct (ensureDefaultBuckets_sound u w S D Hu Hrow) as [E [S1 D1]].
  fold w1 in E, S1, D1.
  pose proof (hasDefault_afterDefault u w) as Hd1. fold w1 in Hd1.
  rewrite assignTaskToBucket_unfold. cbv zeta.
  rewrite (proj2 (isEmpty_false _) Ht), (proj2 (isEmpty_false _) Hu). cbn [orb].
  rewrite (bind_Ok _ _ w w tt (keyConfigured env w Hkey)).
  rewrite (bind_Ok _ _ w w1 tt E).
  rewrite (bind_Ok _ _ w1 w2 _ (loadBuckets_read u w1 Hu Hd1)).
  rewrite (bind_Ok newDate _ w2 w2 (clock w) ltac:(unfold newDate, w2; simpl;
             unfold w1; now rewrite clock_afterDefault)).
  fold suggestion.
  destruct suggestion as [v|].
  - destruct (Json.truthy v); cbn [negb]; [reflexivity|].
    now rewrite (loadBuckets_read u w2 Hu Hd1).
  - now rewrite (loadBuckets_read u w2 Hu Hd1).
Qed.

(** For a user id without a user row the default bucket cannot be
    created, and the assignment fails there. *)
Lemma assignTaskToBucket_unknown_user (env : Env) (task u : string) (w : World) :
  Sound w -> OPENAI_API_KEY env <> "" -> JsString.trim task <> "" -> u <> "" ->
  Db.hasUser u w = false ->
  assignTaskToBucket env task u w = (Thrown ForeignKeyViolation, nextUuid w).
Proof.
  intros S Hkey Ht Hu Hrow.
  rewrite assignTaskToBucket_unfold. cbv zeta.
  rewrite (proj2 (isEmpty_false _) Ht), (proj2 (isEmpty_false _) Hu). cbn [orb].
  rewrite (bind_Ok _ _ w w tt (keyConfigured env w Hkey)).
  unfold bind at 1.
  now rewrite (ensureDefaultBuckets_unknown_user u w S Hrow).
Qed.

(** The same, with the suggestion carried out. *)
Lemma assignTaskToBucket_cases (env : Env) (task u : string) (w : World) :
  Sound w -> defaultsPresentExcept (Some u) w ->
  OPENAI_API_KEY env <> "" -> JsString.trim task <> "" -> u <> "" ->
  Db.hasUser u w = true ->
  let w1 := afterDefault u w in
  let w2 := addTrace (viewTrace u w1) w1 in
  let existing := bucketView u w1 in
  let suggestion :=
    analyzeTaskWithAI env (JsString.trim task) existing (clock w) in
  assignTaskToBucket env task u w =
  if noSuggestion suggestion
  then (Ok existing, addTrace (viewTrace u w1) w2)
  else
    match suggestion with
    | Some v =>
        let a := Json.asAssignment v in
        let w5 := afterAssignment env u (JsString.trim task) existing a
                    (Json.categorizerFields v) w2 in
        if resolvable existing v then
          if Json.taskFieldsTyped v
          then (Ok (bucketView u w5), addTrace (viewTrace u w5) w5)
          else (Thrown Unmodelled, fst (afterResolve u existing a w2))
        else (Thrown (nameError v), w2)
    | None => (Ok existing, addTrace (viewTrace u w1) w2)
    end.
Proof.
  intros S D Hkey Ht Hu Hrow w1 w2 existing suggestion.
  destruct (ensureDefaultBuckets_sound u w S D Hu Hrow) as [_ [S1 _]].
  fold w1 in S1.
  pose proof (hasDefault_afterDefault u w) as Hd1. fold w1 in Hd1.
  rewrite (assignTaskToBucket_eq env task u w S D Hkey Ht Hu Hrow). cbv zeta.
  fold w1 w2 existing suggestion.
  destruct suggestion as [v|]; [|reflexivity]. cbn [noSuggestion].
  destruct (Json.truthy v); cbn [negb]; [|reflexivity].
  assert (Ev : bucketView u w2 = existing) by reflexivity.
  assert (Ea : forall a, afterResolve u existing a w2
                         = afterResolve u (bucketView u w2) a w2)
    by reflexivity.
  rewrite <- Ev.
  apply (carryOut_eq env u (JsString.trim task) v w2 Hu).
  - now apply Sound_addTrace; [apply viewTrace_categorize|].
  - exact Hd1.
Qed.

End AssignSpec.

Module Preservation.
Import WorldFacts InvFacts TableFacts LoadFacts MutationFacts CalendarFacts
       AssignFacts AssignEquation CarryOutFacts AssignSpec.

Lemma isDefaultBucketName_Events (n : string) :
  isDefaultBucketName n = false -> n <> "Events".
Proof. intros H ->. discriminate H. Qed.

Lemma ownedBucket_Some (u i : string) (w : World) (b : BucketRow.t) :
  ownedBucket u i w = Some b ->
  In b (buckets w) /\ BucketRow.id b = i /\ BucketRow.userId b = u.
Proof.
  unfold ownedBucket. intros H. apply find_some in H as [Hin H].
  apply andb_true_iff in H as [H1 H2]. apply String.eqb_eq in H1, H2. auto.
Qed.

Lemma autoCreated_snoc (u : string) (e : Effect) (w w' : World) :
  trace w' = trace w ++ [e] -> isCreatedFor u e = false ->
  autoCreated u w' = autoCreated u w.
Proof.
  intros Ht He. unfold autoCreated. rewrite Ht, filter_app. simpl.
  rewrite He. now rewrite app_nil_r.
Qed.

(** Deleting a bucket that is not named like the default keeps the
    invariant. *)
Lemma Inv_deleteBucket (u i : string) (w : World) (b : BucketRow.t) :
  Inv w -> ownedBucket u i w = Some b ->
  isDefaultBucketName (BucketRow.name b) = false ->
  Inv (snd (Db.deleteBucket i w)).
Proof.
  intros [S D] Ho Hn. apply ownedBucket_Some in Ho as (Hb & Hi & Hu).
  apply isDefaultBucketName_Events in Hn.
  assert (Hkeep : forall u', hasDefault u' w = true ->
                    hasDefault u' (snd (Db.deleteBucket i w)) = true).
  { intros u'. apply hasDefault_mono. intros x Hx Hname. simpl.
    apply filter_In. split; [assumption|].
    destruct (String.eqb_spec (BucketRow.id x) i) as [E|]; [|reflexivity].
    exfalso. apply Hn. rewrite <- Hname. f_equal.
    apply (same_key_same_row (buckets w)); try assumption;
      [apply (sound_keys w S) | congruence]. }
  split.
  - apply (Sound_build w); [reflexivity|..]; simpl; try assumption.
    + apply NoDup_map_filter, (sound_keys w S).
    + intros x Hx. apply filter_In in Hx as [Hx _]. exists x. auto.
    + intros x Hx. apply filter_In in Hx as [Hx _]. exists x. auto.
    + lia.
    + intros u'. now apply (autoCreated_snoc u' (DeleteBucket i)).
  - intros x Hx _. simpl in Hx. apply filter_In in Hx as [Hx _].
    apply Hkeep, D; [assumption | discriminate].
Qed.

Lemma Inv_updateBucket (u i n : string) (t : Z) (w : World) (b : BucketRow.t) :
  Inv w -> ownedBucket u i w = Some b ->
  isDefaultBucketName (BucketRow.name b) = false ->
  Inv (snd (Db.updateBucket i n t w)).
Proof.
  intros [S D] Ho Hn. apply ownedBucket_Some in Ho as (Hb & Hi & Hu).
  apply isDefaultBucketName_Events in Hn.
  set (upd := fun x : BucketRow.t =>
                if String.eqb (BucketRow.id x) i
                then BucketRow.mk (BucketRow.id x) n (BucketRow.userId x)
                       (BucketRow.createdAt x) t
                else x).
  assert (Hid : forall x, BucketRow.id (upd x) = BucketRow.id x).
  { intros x. unfold upd. now destruct (String.eqb (BucketRow.id x) i). }
  assert (Hus : forall x, BucketRow.userId (upd x) = BucketRow.userId x).
  { intros x. unfold upd. now destruct (String.eqb (BucketRow.id x) i). }
  assert (Hkeep : forall u', hasDefault u' w = true ->
                    hasDefault u' (snd (Db.updateBucket i n t w)) = true).
  { intros u'. apply hasDefault_mono. intros x Hx Hname. simpl.
    apply in_map_iff. exists x. split; [|assumption].
    destruct (String.eqb_spec (BucketRow.id x) i) as [E|]; [|reflexivity].
    exfalso. apply Hn. rewrite <- Hname. f_equal.
    apply (same_key_same_row (buckets w)); try assumption;
      [apply (sound_keys w S) | congruence]. }
  split.
  - apply (Sound_build w); [reflexivity|..]; simpl; try assumption.
    + fold upd. rewrite map_map.
      rewrite (map_ext _ BucketRow.id Hid). apply (sound_keys w S).
    + fold upd. intros x Hx. apply in_map_iff in Hx as (x0 & <- & Hx0).
      exists x0. auto.
    + intros x Hx. exists x. auto.
    + lia.
    + intros u'. now apply (autoCreated_snoc u' (UpdateBucket i n t)).
  - intros x Hx _. simpl in Hx. fold upd in Hx.
    apply in_map_iff in Hx as (x0 & <- & Hx0). rewrite Hus.
    apply Hkeep, D; [assumption | discriminate].
Qed.

Lemma Inv_same_buckets (w w' : World) (e : Effect) :
  users w' = users w ->
  buckets w' = buckets w -> uuids w <= uuids w' ->
  (forall t, In t (tasks w') ->
             exists t0, In t0 (tasks w) /\ TaskRow.id t = TaskRow.id t0) ->
  (trace w' = trace w \/ (trace w' = trace w ++ [e]
                          /\ forall u, isCreatedFor u e = false)) ->
  Inv w -> Inv w'.
Proof.
  intros Hus Hb Hu Ht Htr [S D]. split.
  - apply (Sound_build w); try assumption.
    + rewrite Hb. apply (sound_keys w S).
    + rewrite Hb. intros x Hx. exists x. auto.
    + intros u. destruct Htr as [E|[E He]].
      * unfold autoCreated. now rewrite E.
      * now apply (autoCreated_snoc u e).
    + intros u. unfold hasDefault. now rewrite Hb.
  - now apply (defaultsPresent_same_buckets None w).
Qed.

Lemma Inv_deleteTask (i : string) (w : World) :
  Inv w -> Inv (snd (Db.deleteTask i w)).
Proof.
  apply (Inv_same_buckets w _ (DeleteTask i)); simpl; auto.
  intros t Ht. apply filter_In in Ht as [Ht _]. exists t. auto.
Qed.

Lemma Inv_updateTask (i : string) (a d : option string) (due : option Z)
    (b : option string) (t : Z) (w : World) :
  Inv w -> Inv (snd (Db.updateTask i a d due b t w)).
Proof.
  intros I. unfold Db.updateTask.
  destruct (Db.hasTaskId i w && _)%bool; [exact I|].
  revert I. apply (Inv_same_buckets w _ (UpdateTask i a d due b t)); simpl; auto.
  intros x Hx. apply in_map_iff in Hx as (x0 & <- & Hx0). exists x0.
  split; [assumption|]. now destruct (String.eqb (TaskRow.id x0) i).
Qed.

Lemma Inv_withTask (row : TaskRow.t) (w : World) :
  Inv w -> TaskRow.id row = uuidOf (uuids w) -> Inv (withTask row (nextUuid w)).
Proof.
  intros [S D] Hid. split.
  - constructor; simpl.
    + apply (sound_users w S).
    + apply (sound_keys w S).
    + intros b H. destruct (sound_bucket_ids w S b H) as (k & Hk & E).
      exists k; split; [lia|auto].
    + intros t H. apply in_app_iff in H as [H|[<-|[]]].
      * destruct (sound_task_ids w S t H) as (k & Hk & E). exists k; split; [lia|auto].
      * exists (uuids w); split; [lia|auto].
    + apply (sound_owners w S).
    + intros u.
      rewrite (autoCreated_snoc u (InsertTask row) w
                 (withTask row (nextUuid w)) eq_refl eq_refl).
      apply (sound_created w S).
  - now apply (defaultsPresent_same_buckets None w).
Qed.

Lemma Inv_afterResolve (u : string) (existing : list Bucket.t)
    (a : AssignmentResult.t) (w : World) :
  u <> "" -> hasDefault u w = true -> Inv w ->
  Inv (fst (afterResolve u existing a w)).
Proof.
  intros Hu Hd I. unfold afterResolve.
  destruct (findById existing _); [assumption|].
  destruct (findByName existing _); [assumption|].
  simpl. destruct I as [S D]. split.
  - apply Sound_withBucket; try assumption; try reflexivity.
    now apply hasUser_of_default.
  - apply defaultsPresent_withBucket; [assumption|]. simpl. auto.
Qed.

Lemma Inv_afterAssignment (env : Env) (u t : string) (existing : list Bucket.t)
    (a : AssignmentResult.t) (q : ParsedTask) (w : World) :
  u <> "" -> hasDefault u w = true -> Inv w ->
  Inv (afterAssignment env u t existing a q w).
Proof.
  intros Hu Hd I. unfold afterAssignment.
  pose proof (Inv_afterResolve u existing a w Hu Hd I) as I3.
  destruct (afterResolve u existing a w) as [w3 target]. simpl in I3.
  apply Inv_withTask; [|reflexivity].
  unfold afterTag. destruct (tagFromModel _); [assumption|].
  now apply Inv_addTrace.
Qed.

End Preservation.

Module Reachability.
Import WorldFacts InvFacts TableFacts LoadFacts MutationFacts CalendarFacts
       AssignFacts AssignEquation CarryOutFacts AssignSpec Preservation.

Lemma Inv_initial : Inv initial.
Proof.
  split.
  - constructor; simpl.
    + intros b [].
    + constructor.
    + intros b [].
    + intros t [].
    + intros b [].
    + intros u. unfold autoCreated; simpl. split; [lia | reflexivity].
  - intros b [].
Qed.

Lemma Inv_deleteBucketAction (u i : string) (w : World) :
  Inv w -> Inv (snd (deleteBucket u i w)).
Proof.
  intros I. rewrite deleteBucket_eq.
  destruct (JsString.isEmpty u || JsString.isEmpty i)%bool;
    [now apply loadBuckets_Inv|].
  destruct (ownedBucket u i w) as [b|] eqn:E; [|now apply loadBuckets_Inv].
  destruct (isDefaultBucketName (BucketRow.name b)) eqn:En;
    [now apply loadBuckets_Inv|].
  apply loadBuckets_Inv. now apply (Inv_deleteBucket u i w b).
Qed.

Lemma Inv_updateBucketNameAction (u i n : string) (w : World) :
  Inv w -> Inv (snd (updateBucketName u i n w)).
Proof.
  intros I. rewrite updateBucketName_eq.
  destruct (JsString.isEmpty u || JsString.isEmpty i
            || JsString.isEmpty (JsString.trim n))%bool;
    [now apply loadBuckets_Inv|].
  destruct (ownedBucket u i w) as [b|] eqn:E; [|now apply loadBuckets_Inv].
  destruct (isDefaultBucketName (BucketRow.name b)) eqn:En;
    [now apply loadBuckets_Inv|].
  apply loadBuckets_Inv. now apply (Inv_updateBucket u i _ _ w b).
Qed.

Lemma Inv_completeTaskAction (u i : string) (w : World) :
  Inv w -> Inv (snd (completeTask u i w)).
Proof.
  intros I. rewrite completeTask_eq.
  destruct (JsString.isEmpty u || JsString.isEmpty i)%bool;
    [now apply loadBuckets_Inv|].
  destruct (ownsTask u i w); apply loadBuckets_Inv; [|assumption].
  now apply Inv_deleteTask.
Qed.

(** [createEmptyBucket] with a user and a name, in a sound world. *)
Lemma createEmptyBucket_eq (u n : string) (w : World) :
  Sound w -> u <> "" -> JsString.trim n <> "" -> Db.hasUser u w = true ->
  createEmptyBucket u n w
  = loadBuckets u
      (withBucket (BucketRow.mk (uuidOf (uuids w)) (JsString.trim n) u
                     (clock w) (clock w))
         (nextUuid w)).
Proof.
  intros S Hu Hn Hrow. unfold createEmptyBucket.
  rewrite (proj2 (isEmpty_false _) Hu), (proj2 (isEmpty_false _) Hn). cbn [orb].
  unfold bind at 1, randomUUID at 1. fold (nextUuid w).
  unfold bind at 1, newDate at 1. unfold bind at 1, newDate at 1.
  unfold bind at 1. change (clock (nextUuid w)) with (clock w).
  now rewrite (insertBucket_fresh
                 (BucketRow.mk (uuidOf (uuids w)) (JsString.trim n) u
                    (clock w) (clock w)) w S eq_refl Hrow).
Qed.

(** [createEmptyBucket] for a user id without a user row: the insertion
    fails. *)
Lemma createEmptyBucket_unknown_user (u n : string) (w : World) :
  Sound w -> u <> "" -> JsString.trim n <> "" -> Db.hasUser u w = false ->
  createEmptyBucket u n w = (Thrown ForeignKeyViolation, nextUuid w).
Proof.
  intros S Hu Hn Hrow. unfold createEmptyBucket.
  rewrite (proj2 (isEmpty_false _) Hu), (proj2 (isEmpty_false _) Hn). cbn [orb].
  unfold bind at 1, randomUUID at 1. fold (nextUuid w).
  unfold bind at 1, newDate at 1. unfold bind at 1, newDate at 1.
  unfold bind at 1. change (clock (nextUuid w)) with (clock w).
  now rewrite (insertBucket_unknown_user
                 (BucketRow.mk (uuidOf (uuids w)) (JsString.trim n) u
                    (clock w) (clock w)) w S eq_refl Hrow).
Qed.

Lemma Inv_createEmptyBucketAction (u n : string) (w : World) :
  Inv w -> Inv (snd (createEmptyBucket u n w)).
Proof.
  intros I.
  destruct (JsString.isEmpty u || JsString.isEmpty (JsString.trim n))%bool eqn:E.
  - unfold createEmptyBucket. rewrite E. now apply loadBuckets_Inv.
  - apply orb_false_iff in E as [Eu En].
    apply isEmpty_false in Eu, En.
    destruct (Db.hasUser u w) eqn:Hrow.
    + destruct I as [S D].
      rewrite (createEmptyBucket_eq u n w S Eu En Hrow).
      set (row := BucketRow.mk _ _ _ _ _).
      assert (S1 : Sound (withBucket row (nextUuid w)))
        by now apply Sound_withBucket.
      assert (D1 : defaultsPresentExcept (Some u) (withBucket row (nextUuid w))).
      { apply defaultsPresent_withBucket; [|now left].
        intros b Hb _. apply D; [assumption | discriminate]. }
      destruct (loadBuckets_sound u _ S1 D1 Eu Hrow) as [E I']. now rewrite E.
    + rewrite (createEmptyBucket_unknown_user u n w (proj1 I) Eu En Hrow).
      now apply Inv_nextUuid.
Qed.

Lemma Inv_loadCalendarTasks (u : string) (w : World) :
  Inv w -> Inv (snd (loadCalendarTasks u w)).
Proof.
  intros I. rewrite loadCalendarTasks_eq. simpl.
  apply Inv_addTrace; [apply calendarTrace_categorize | assumption].
Qed.

Lemma Inv_getTaskById (u i : string) (w : World) :
  Inv w -> Inv (snd (getTaskById u i w)).
Proof.
  intros I. unfold getTaskById.
  destruct (JsString.isEmpty u || JsString.isEmpty i)%bool; [exact I|].
  destruct (selectOwnedTask_eq u i w) as (rows & E & _).
  unfold bind at 1. rewrite E.
  destruct rows as [|r rows']; [exact I|].
  unfold bind at 1. rewrite calendarEntry_eq. simpl.
  now apply Inv_addTrace.
Qed.

Lemma Inv_updateTaskAction (env : Env) (u i : string) (up : TaskUpdates.t)
    (w : World) :
  Inv w -> Inv (snd (updateTask env u i up w)).
Proof.
  intros I. rewrite updateTask_eq.
  destruct (JsString.isEmpty u || JsString.isEmpty i)%bool;
    [now apply Inv_loadCalendarTasks|].
  destruct (ownsTask u i w); [|now apply Inv_loadCalendarTasks].
  unfold bind.
  match goal with
  | |- context [Db.updateTask ?a ?b ?c ?d ?e ?f w] =>
      pose proof (Inv_updateTask a b c d e f w I) as I';
      destruct (Db.updateTask a b c d e f w) as [[[]|err] w']
  end; simpl in I'.
  - now apply Inv_loadCalendarTasks.
  - exact I'.
Qed.

Lemma Inv_deleteTaskFromCalendar (u i : string) (w : World) :
  Inv w -> Inv (snd (deleteTaskFromCalendar u i w)).
Proof.
  intros I. unfold deleteTaskFromCalendar, bind.
  pose proof (Inv_completeTaskAction u i w I) as I'.
  destruct (completeTask u i w) as [[v|err] w']; simpl in I'.
  - now apply Inv_loadCalendarTasks.
  - exact I'.
Qed.

Lemma Inv_assignTaskToBucket (env : Env) (task u : string) (w : World) :
  Inv w -> Inv (snd (assignTaskToBucket env task u w)).
Proof.
  intros I.
  destruct (JsString.isEmpty (JsString.trim task) || JsString.isEmpty u)%bool eqn:E.
  - rewrite assignTaskToBucket_unfold. cbv zeta. rewrite E.
    now apply loadBuckets_Inv.
  - apply orb_false_iff in E as [Et Eu].
    destruct (JsString.isEmpty (OPENAI_API_KEY env)) eqn:Hkey.
    + rewrite assignTaskToBucket_unfold. cbv zeta. rewrite Et, Eu.
      unfold bind at 1, ensureOpenAIConfigured. rewrite Hkey. exact I.
    + apply isEmpty_false in Et, Eu, Hkey.
      destruct (Db.hasUser u w) eqn:Hrow.
      * destruct (Inv_weaken (Some u) w I) as [S D].
        rewrite (assignTaskToBucket_cases env task u w S D Hkey Et Eu Hrow).
        cbv zeta.
        destruct (ensureDefaultBuckets_sound u w S D Eu Hrow) as [_ I1].
        pose proof (hasDefault_afterDefault u w) as Hd1.
        assert (I2 : Inv (addTrace (viewTrace u (afterDefault u w))
                            (afterDefault u w))).
        { apply Inv_addTrace; [apply viewTrace_categorize | assumption]. }
        assert (I3 : Inv (addTrace (viewTrace u (afterDefault u w))
                            (addTrace (viewTrace u (afterDefault u w))
                               (afterDefault u w)))).
        { apply Inv_addTrace; [apply viewTrace_categorize | assumption]. }
        destruct (noSuggestion _); [exact I3|].
        destruct (analyzeTaskWithAI _ _ _ _) as [v|]; [|exact I3].
        destruct (resolvable _ v); [|exact I2].
        destruct (Json.taskFieldsTyped v); simpl.
        -- apply Inv_addTrace; [apply viewTrace_categorize|].
           now apply Inv_afterAssignment.
        -- now apply Inv_afterResolve.
      * rewrite (assignTaskToBucket_unknown_user env task u w (proj1 I) Hkey
                   Et Eu Hrow).
        now apply Inv_nextUuid.
Qed.

Lemma Inv_signUp (u : string) (w : World) :
  Inv w ->
  Inv (mkWorld (users w ++ [u]) (buckets w) (tasks w) (clock w) (uuids w)
         (trace w)).
Proof.
  intros [S D]. split; [|exact D].
  constructor; try apply S.
  intros b Hb. pose proof (sound_users w S b Hb) as H.
  unfold Db.hasUser in *. simpl. rewrite existsb_app. now rewrite H.
Qed.

(** Every request keeps the invariant. *)
Lemma Inv_serve (env : Env) (r : Request) (w : World) :
  Inv w -> Inv (serve env r w).
Proof.
  intros I. destruct r; simpl.
  - now apply loadBuckets_Inv.
  - now apply Inv_assignTaskToBucket.
  - now apply Inv_deleteBucketAction.
  - now apply Inv_completeTaskAction.
  - now apply Inv_createEmptyBucketAction.
  - now apply Inv_updateBucketNameAction.
  - now apply Inv_getTaskById.
  - now apply Inv_updateTaskAction.
  - now apply Inv_deleteTaskFromCalendar.
  - now apply Inv_loadCalendarTasks.
  - revert I. apply (Inv_same_buckets w _ (DeleteTask "")); simpl; auto.
    intros t Ht. exists t. auto.
  - destruct (Db.hasUser userId w); [exact I | now apply Inv_signUp].
Qed.

(** The invariant holds in every reachable world. *)
Lemma reachable_Inv (w : World) : reachable w -> Inv w.
Proof.
  induction 1 as [|env r w _ IH]; [apply Inv_initial | now apply Inv_serve].
Qed.

Lemma reachable_signedUp : reachable signedUp.
Proof. repeat apply reachable_serve. apply reachable_initial. Qed.

Lemma reachable_oneTask : reachable oneTask.
Proof. apply reachable_serve, reachable_signedUp. Qed.

Lemma reachable_twoUsers : reachable twoUsers.
Proof. apply reachable_serve, reachable_oneTask. Qed.

End Reachability.

(* ================================================================== *)
(** ** No-op paths: blank input, a failed classification, foreign ids *)

Module NoOpFacts.
Import WorldFacts InvFacts TableFacts LoadFacts MutationFacts CalendarFacts
       AssignFacts AssignEquation CarryOutFacts AssignSpec Preservation
       Reachability.

Lemma writes_addTrace (es : list Effect) (w : World) :
  writes (addTrace es w) = writes w ++ filter isWrite es.
Proof. unfold writes, addTrace; simpl. apply filter_app. Qed.

Lemma writes_addTrace_categorize (es : list Effect) (w : World) :
  forallb isCategorize es = true -> writes (addTrace es w) = writes w.
Proof.
  intros H. rewrite writes_addTrace, categorize_not_write by assumption.
  apply app_nil_r.
Qed.

Lemma buckets_afterDefault (u : string) (w : World) :
  buckets (afterDefault u w)
  = if hasDefault u w then buckets w else buckets w ++ [defaultRow u w].
Proof. unfold afterDefault. now destruct (hasDefault u w). Qed.

Lemma writes_afterDefault (u : string) (w : World) :
  writes (afterDefault u w)
  = if hasDefault u w then writes w
    else writes w ++ [InsertBucket (defaultRow u w)].
Proof.
  unfold afterDefault. destruct (hasDefault u w); [reflexivity|].
  unfold writes; simpl. rewrite !filter_app. simpl. now rewrite app_nil_r.
Qed.

Lemma onlyDefaultCreated_read (u : string) (es : list Effect) (w : World) :
  forallb isCategorize es = true ->
  onlyDefaultCreated u w (addTrace es (afterDefault u w)).
Proof.
  intros H. unfold onlyDefaultCreated.
  rewrite writes_addTrace_categorize by assumption. simpl.
  rewrite tasks_afterDefault, buckets_afterDefault, writes_afterDefault.
  split; [reflexivity|]. split; intros ->; auto.
Qed.

(** [loadBuckets] in a reachable world, for a user with a user row: no
    exception, the view of the tables, and no write but the creation of a
    missing default bucket. *)
Lemma loadBuckets_reachable (u : string) (w : World) :
  reachable w -> u <> "" -> Db.hasUser u w = true ->
  loadBuckets u w
  = (Ok (bucketView u (afterDefault u w)),
     addTrace (viewTrace u (afterDefault u w)) (afterDefault u w))
  /\ onlyDefaultCreated u w (snd (loadBuckets u w)).
Proof.
  intros R Hu Hrow.
  destruct (Inv_weaken (Some u) w (reachable_Inv w R)) as [S D].
  destruct (loadBuckets_sound u w S D Hu Hrow) as [E _]. split; [exact E|].
  rewrite E. simpl. apply onlyDefaultCreated_read, viewTrace_categorize.
Qed.

(** The same for a user id without a user row: the default bucket cannot
    be created. *)
Lemma loadBuckets_reachable_unknown (u : string) (w : World) :
  reachable w -> u <> "" -> Db.hasUser u w = false ->
  loadBuckets u w = (Thrown ForeignKeyViolation, nextUuid w).
Proof.
  intros R Hu Hrow. apply loadBuckets_unknown_user; try assumption.
  apply (reachable_Inv w R).
Qed.

End NoOpFacts.

Module BlankInput.
Import StringFacts WorldFacts InvFacts LoadFacts Reachability NoOpFacts.

(** C7, counterexample.  The blank request of a user who has signed up and
    has no bucket yet goes through [loadBuckets] (line 113), whose
    [ensureDefaultBuckets] inserts the bucket "Events". *)
Lemma assign_blank_creates_default_bucket : ~ blankAssignWritesNothing.
Proof.
  intros H.
  specialize (H (zoneEnv 0) "   " "u1" signedUp reachable_signedUp
                (or_introl eq_refl)).
  vm_compute in H. discriminate H.
Qed.

(** C7, amended.  With an empty or whitespace-only text, or with an empty
    user id, [assignTaskToBucket] is [loadBuckets]: without a user it
    returns the empty list and leaves the world as it is; for a user with
    a user row it returns the view of the tables, inserts no task, and
    writes nothing but the reserved default bucket, and that only if the
    user has no bucket of that exact name; for a non-empty user id without
    a user row the insertion of the default bucket violates the foreign
    key of the bucket table, the exception leaves the action, and no row
    is written. *)
Theorem assign_blank_is_load :
  forall (env : Env) (task u : string) (w : World),
    reachable w ->
    JsString.allSpaces task = true \/ u = "" ->
    let r := assignTaskToBucket env task u w in
    r = loadBuckets u w
    /\ (u = "" -> r = (Ok [], w))
    /\ (u <> "" -> Db.hasUser u w = true ->
        fst r = Ok (bucketView u (snd r)) /\ onlyDefaultCreated u w (snd r))
    /\ (u <> "" -> Db.hasUser u w = false ->
        r = (Thrown ForeignKeyViolation, nextUuid w)).
Proof.
  intros env task u w R Hblank r.
  assert (E : r = loadBuckets u w).
  { unfold r, assignTaskToBucket.
    destruct Hblank as [Hs| ->].
    - apply trim_empty_iff in Hs. now rewrite Hs.
    - simpl. now rewrite orb_true_r. }
  split; [exact E|]. split; [|split].
  - intros ->. now rewrite E.
  - intros Hu Hrow. rewrite E.
    destruct (loadBuckets_reachable u w R Hu Hrow) as [El Ho].
    split; [now rewrite El | exact Ho].
  - intros Hu Hrow. rewrite E. now apply loadBuckets_reachable_unknown.
Qed.

Lemma assign_blank_is_load_witness :
  let r := assignTaskToBucket (zoneEnv 0) "  " "u1" signedUp in
  r = loadBuckets "u1" signedUp
  /\ fst r = Ok (bucketView "u1" (snd r))
  /\ onlyDefaultCreated "u1" signedUp (snd r).
Proof.
  destruct (assign_blank_is_load (zoneEnv 0) "  " "u1" signedUp
              reachable_signedUp (or_introl eq_refl)) as (E & _ & H & _).
  split; [exact E|].
  exact (H ltac:(discriminate) eq_refl).
Defined.

End BlankInput.

Module FailedClassification.
Import StringFacts WorldFacts InvFacts LoadFacts AssignFacts AssignSpec
       Reachability NoOpFacts.

(** C1, counterexample.  For a user without buckets the request reaches
    [ensureDefaultBuckets] (line 117) before the model is asked, so the
    bucket "Events" is inserted although the call fails. *)
Lemma assign_failed_call_creates_default_bucket : ~ failedCallInsertsNoBucket.
Proof.
  intros H.
  specialize (H (zoneEnv 0) "buy milk" "u1" signedUp
                reachable_signedUp ltac:(discriminate) ltac:(discriminate)
                (fun _ => eq_refl)).
  vm_compute in H. discriminate H.
Qed.

(** A failed call and an unreadable reply both give no suggestion. *)
Lemma failure_is_noSuggestion (env : Env) (t : string) (bs : list Bucket.t)
    (d : Z) :
  askModel env t bs d = CallFailed
  \/ (exists c, askModel env t bs d = Reply c
                /\ Json.parse (JsString.nullish c "{}") = None) ->
  analyzeTaskWithAI env t bs d = None.
Proof.
  unfold analyzeTaskWithAI. intros [->|(c & -> & ->)]; reflexivity.
Qed.

(** The categorizer calls of a load concern stored tasks. *)
Lemma viewTrace_stored (u : string) (w : World) :
  Forall (fun e => exists t, In t (tasks w)
                             /\ e = Categorize (TaskRow.raw t) (storedFields t))
    (viewTrace u w).
Proof.
  unfold viewTrace. apply Forall_forall. intros e He.
  apply in_map_iff in He as (t & <- & Ht). exists t. split; [|reflexivity].
  unfold taskRowsOf in Ht. now apply orderBy_In, filter_In in Ht as [Ht _].
Qed.

(** C1, amended.  When the model call fails or its reply does not parse,
    [assignTaskToBucket] for a user with a user row returns the view of the
    tables without an exception; no task row is inserted and no task is
    touched; the only storage write that can happen is the creation of the
    reserved default bucket of a user who has none; and every call of the
    categorizer in this path is one of the read side for a task that is
    already stored: the submitted text is not categorized.  For a user id
    without a user row the creation of the default bucket violates the
    foreign key of the bucket table before the model is asked: the
    exception leaves the action and no row is written. *)
Theorem assign_without_suggestion :
  forall (env : Env) (task u : string) (w : World),
    reachable w -> OPENAI_API_KEY env <> "" ->
    JsString.trim task <> "" -> u <> "" ->
    let existing := bucketView u (afterDefault u w) in
    askModel env (JsString.trim task) existing (clock w) = CallFailed
    \/ (exists c, askModel env (JsString.trim task) existing (clock w) = Reply c
                  /\ Json.parse (JsString.nullish c "{}") = None) ->
    let r := assignTaskToBucket env task u w in
    (Db.hasUser u w = true ->
     fst r = Ok (bucketView u (snd r))
     /\ onlyDefaultCreated u w (snd r)
     /\ exists calls,
          trace (snd r) = trace (afterDefault u w) ++ calls
          /\ Forall (fun e => exists t, In t (tasks w)
                                        /\ e = Categorize (TaskRow.raw t)
                                                 (storedFields t))
               calls)
    /\ (Db.hasUser u w = false ->
        r = (Thrown ForeignKeyViolation, nextUuid w)).
Proof.
  intros env task u w R Hkey Ht Hu existing Hfail r.
  destruct (Inv_weaken (Some u) w (reachable_Inv w R)) as [S D].
  split; intros Hrow.
  - pose proof (assignTaskToBucket_eq env task u w S D Hkey Ht Hu Hrow) as E.
    cbv zeta in E. fold existing in E.
    rewrite (failure_is_noSuggestion _ _ _ _ Hfail) in E.
    unfold r. rewrite E. simpl. split; [reflexivity|]. split.
    + rewrite addTrace_addTrace. apply onlyDefaultCreated_read.
      rewrite forallb_app. now rewrite !viewTrace_categorize.
    + exists (viewTrace u (afterDefault u w) ++ viewTrace u (afterDefault u w)).
      split; [now rewrite app_assoc|].
      apply Forall_app. rewrite <- (tasks_afterDefault u w).
      split; apply viewTrace_stored.
  - now apply assignTaskToBucket_unknown_user.
Qed.

Lemma assign_without_suggestion_witness :
  let r := assignTaskToBucket (zoneEnv 0) "buy milk" "u1" signedUp in
  fst r = Ok (bucketView "u1" (snd r))
  /\ onlyDefaultCreated "u1" signedUp (snd r).
Proof.
  destruct (assign_without_suggestion (zoneEnv 0) "buy milk" "u1" signedUp
              reachable_signedUp ltac:(discriminate) ltac:(discriminate)
              ltac:(discriminate) (or_introl eq_refl)) as [H _].
  destruct (H eq_refl) as (H1 & H2 & _). split; assumption.
Defined.

End FailedClassification.

Module ForeignTarget.
Import StringFacts WorldFacts InvFacts LoadFacts MutationFacts CalendarFacts
       Reachability NoOpFacts.

(** C9, counterexample.  The refusal returns through [loadBuckets] (line
    191); for a user without buckets its [ensureDefaultBuckets] inserts the
    bucket "Events".  Here "u2" has signed up and owns no bucket, and names
    the bucket "Others" of "u1". *)
Lemma foreign_delete_creates_default_bucket : ~ foreignDeleteWritesNothing.
Proof.
  intros H.
  specialize (H "u2" "uuid-1" oneTask reachable_oneTask eq_refl).
  vm_compute in H. discriminate H.
Qed.

(** C9, amended.  With a bucket id, respectively a task id, that belongs to
    no bucket or task of the caller, [deleteBucket], [updateBucketName] and
    [completeTask] are [loadBuckets], and [updateTask] is
    [loadCalendarTasks]: the target is not written, [updateTask] raises no
    exception, returns the caller's calendar and performs no storage write
    at all; the other three, for a caller with a user row, raise no
    exception, return the caller's view and perform no write but the
    creation of the caller's reserved default bucket when it is missing;
    for a non-empty caller id without a user row that creation violates
    the foreign key of the bucket table, the exception leaves the action,
    and no row is written. *)
Theorem foreign_target_is_load :
  forall (env : Env) (u bucketId taskId newName : string)
         (updates : TaskUpdates.t) (w : World),
    reachable w ->
    ownedBucket u bucketId w = None -> ownsTask u taskId w = false ->
    deleteBucket u bucketId w = loadBuckets u w
    /\ updateBucketName u bucketId newName w = loadBuckets u w
    /\ completeTask u taskId w = loadBuckets u w
    /\ updateTask env u taskId updates w
       = (Ok (calendarView u w), addTrace (calendarTrace u w) w)
    /\ writes (snd (updateTask env u taskId updates w)) = writes w
    /\ (u = "" -> loadBuckets u w = (Ok [], w))
    /\ (u <> "" -> Db.hasUser u w = true ->
        fst (loadBuckets u w) = Ok (bucketView u (snd (loadBuckets u w)))
        /\ onlyDefaultCreated u w (snd (loadBuckets u w)))
    /\ (u <> "" -> Db.hasUser u w = false ->
        loadBuckets u w = (Thrown ForeignKeyViolation, nextUuid w)).
Proof.
  intros env u bucketId taskId newName updates w R Hb Ht.
  assert (Eu : updateTask env u taskId updates w
               = (Ok (calendarView u w), addTrace (calendarTrace u w) w)).
  { rewrite updateTask_eq, Ht.
    destruct (JsString.isEmpty u || JsString.isEmpty taskId)%bool;
      apply loadCalendarTasks_eq. }
  split; [|split; [|split; [|split; [|split; [|split; [|split]]]]]].
  - rewrite deleteBucket_eq, Hb.
    now destruct (JsString.isEmpty u || JsString.isEmpty bucketId)%bool.
  - rewrite updateBucketName_eq, Hb.
    now destruct (JsString.isEmpty u || JsString.isEmpty bucketId
                  || JsString.isEmpty (JsString.trim newName))%bool.
  - rewrite completeTask_eq, Ht.
    now destruct (JsString.isEmpty u || JsString.isEmpty taskId)%bool.
  - exact Eu.
  - rewrite Eu. simpl.
    apply writes_addTrace_categorize, calendarTrace_categorize.
  - now intros ->.
  - intros Hu Hrow. destruct (loadBuckets_reachable u w R Hu Hrow) as [El Ho].
    split; [now rewrite El | exact Ho].
  - intros Hu Hrow. now apply loadBuckets_reachable_unknown.
Qed.

(** In [twoUsers] the bucket "Others" (uuid-1) and the task in it (uuid-2)
    belong to "u1"; "u2" names them. *)
Lemma foreign_target_is_load_witness :
  let w := twoUsers in
  let updates := TaskUpdates.mk (Some "mine") None None None None in
  In "uuid-1" (map BucketRow.id (buckets w))
  /\ In "uuid-2" (map TaskRow.id (tasks w))
  /\ deleteBucket "u2" "uuid-1" w = loadBuckets "u2" w
  /\ updateBucketName "u2" "uuid-1" "Mine" w = loadBuckets "u2" w
  /\ completeTask "u2" "uuid-2" w = loadBuckets "u2" w
  /\ updateTask quietEnv "u2" "uuid-2" updates w
     = (Ok (calendarView "u2" w), addTrace (calendarTrace "u2" w) w)
  /\ writes (snd (updateTask quietEnv "u2" "uuid-2" updates w)) = writes w
  /\ fst (loadBuckets "u2" w) = Ok (bucketView "u2" (snd (loadBuckets "u2" w)))
  /\ onlyDefaultCreated "u2" w (snd (loadBuckets "u2" w)).
Proof.
  intros w updates.
  destruct (foreign_target_is_load quietEnv "u2" "uuid-1" "uuid-2" "Mine"
              updates w reachable_twoUsers eq_refl eq_refl)
    as (H1 & H2 & H3 & H4 & H5 & _ & H7 & _).
  split; [vm_compute; auto|]. split; [vm_compute; auto|].
  repeat (split; [assumption|]).
  exact (H7 ltac:(discriminate) eq_refl).
Defined.

End ForeignTarget.

(* ================================================================== *)
(** ** The reserved default bucket *)

Module DefaultBucket.
Import StringFacts WorldFacts InvFacts TableFacts LoadFacts MutationFacts
       AssignFacts AssignEquation CarryOutFacts AssignSpec Preservation
       Reachability NoOpFacts.

(** The guard compares the whole name, lower-cased. *)
Lemma isDefaultBucketName_iff (n : string) :
  isDefaultBucketName n = true <-> JsString.toLowerCase n = "events".
Proof.
  unfold isDefaultBucketName, DEFAULT_BUCKET_NAMES.
  change (existsb _ ["Events"])
    with (String.eqb "events" (JsString.toLowerCase n) || false)%bool.
  rewrite orb_false_r, String.eqb_eq. split; congruence.
Qed.

(** In a sound world the query for an owned bucket finds the row itself. *)
Lemma ownedBucket_own (w : World) (b : BucketRow.t) :
  Sound w -> In b (buckets w) ->
  ownedBucket (BucketRow.userId b) (BucketRow.id b) w = Some b.
Proof.
  intros S Hb. unfold ownedBucket.
  destruct (find _ (buckets w)) as [b'|] eqn:E.
  - apply find_some in E as [Hb' H]. apply andb_true_iff in H as [H _].
    apply String.eqb_eq in H. f_equal.
    now apply (same_key_same_row (buckets w)); [apply (sound_keys w S)|..].
  - exfalso. apply (find_none _ _ E) in Hb. now rewrite !String.eqb_refl in Hb.
Qed.

Lemma hasDefault_afterAssignment (env : Env) (u u' t : string)
    (existing : list Bucket.t) (a : AssignmentResult.t) (q : ParsedTask)
    (w : World) :
  hasDefault u' w = true ->
  hasDefault u' (afterAssignment env u t existing a q w) = true.
Proof.
  intros H. unfold afterAssignment.
  pose proof (hasDefault_afterResolve u u' existing a w H) as H3.
  destruct (afterResolve u existing a w) as [w3 target]. simpl in H3.
  unfold afterTag, hasDefault in *. now destruct (tagFromModel _).
Qed.

Lemma autoCreated_read (u : string) (es : list Effect) (w : World) :
  forallb isCategorize es = true ->
  autoCreated u (addTrace es w) = autoCreated u w.
Proof.
  intros H. rewrite autoCreated_addTrace, (categorize_not_created u es H).
  simpl. lia.
Qed.

Lemma autoCreated_afterResolve (u u' : string) (existing : list Bucket.t)
    (a : AssignmentResult.t) (w : World) :
  autoCreated u' (fst (afterResolve u existing a w)) = autoCreated u' w.
Proof.
  unfold afterResolve.
  destruct (findById existing _); [reflexivity|].
  destruct (findByName existing _); [reflexivity|].
  simpl. now apply (autoCreated_snoc u' (InsertBucket (newBucketRow u a w))).
Qed.

Lemma autoCreated_afterAssignment (env : Env) (u u' t : string)
    (existing : list Bucket.t) (a : AssignmentResult.t) (q : ParsedTask)
    (w : World) :
  autoCreated u' (afterAssignment env u t existing a q w) = autoCreated u' w.
Proof.
  unfold afterAssignment.
  pose proof (autoCreated_afterResolve u u' existing a w) as H3.
  destruct (afterResolve u existing a w) as [w3 target]. simpl in H3.
  rewrite <- H3.
  match goal with
  | |- autoCreated _ (withTask ?row (nextUuid ?w4)) = _ =>
      rewrite (autoCreated_snoc u' (InsertTask row) w4
                 (withTask row (nextUuid w4)) eq_refl eq_refl)
  end.
  unfold afterTag. destruct (tagFromModel _); [reflexivity|].
  now apply autoCreated_read.
Qed.

Lemma load_unchanged (u : string) (w : World) :
  u <> "" -> hasDefault u w = true -> unchangedBy u w (loadBuckets u w).
Proof.
  intros Hu Hd. rewrite (loadBuckets_read u w Hu Hd). unfold unchangedBy; simpl.
  repeat split. apply writes_addTrace_categorize, viewTrace_categorize.
Qed.

(** C8.  In every reachable world, for every bucket whose name is a
    reserved default name up to case, [deleteBucket] and [updateBucketName]
    by its owner write nothing, leave both tables as they are and return
    the owner's view; the guard is the comparison of the whole lower-cased
    name with "events", so a name with a blank inside is not protected
    although it normalizes like "Events"; and [ensureDefaultBuckets] has
    created the default bucket of any user at most once: it does so in the
    first [loadBuckets] or [assignTaskToBucket] of a user (an id with a
    user row) who has none, after which the user has it. *)
Theorem default_bucket_protected :
  forall (w : World) (u : string) (b : BucketRow.t) (newName : string),
    reachable w -> In b (buckets w) -> BucketRow.userId b = u ->
    isDefaultBucketName (BucketRow.name b) = true ->
    unchangedBy u w (deleteBucket u (BucketRow.id b) w)
    /\ unchangedBy u w (updateBucketName u (BucketRow.id b) newName w)
    /\ (forall n, isDefaultBucketName n = true
                  <-> JsString.toLowerCase n = "events")
    /\ (isDefaultBucketName "E vents" = false
        /\ normalizeName "E vents" = normalizeName "Events")
    /\ (forall u', autoCreated u' w <= 1)
    /\ (forall u', u' <> "" -> Db.hasUser u' w = true ->
                   hasDefault u' w = false ->
                   autoCreated u' (snd (loadBuckets u' w)) = 1
                   /\ hasDefault u' (snd (loadBuckets u' w)) = true)
    /\ (forall u' env task,
           u' <> "" -> Db.hasUser u' w = true -> OPENAI_API_KEY env <> "" ->
           hasDefault u' (snd (assignTaskToBucket env task u' w)) = true
           /\ (hasDefault u' w = false ->
               autoCreated u' (snd (assignTaskToBucket env task u' w)) = 1)).
Proof.
  intros w u b newName R Hb Hu Hname.
  destruct (reachable_Inv w R) as [S D].
  assert (Hne : u <> "") by (rewrite <- Hu; now apply (sound_owners w S)).
  assert (Hd : hasDefault u w = true).
  { rewrite <- Hu. apply D; [assumption | discriminate]. }
  pose proof (ownedBucket_own w b S Hb) as Ho. rewrite Hu in Ho.
  assert (Hid : JsString.isEmpty (BucketRow.id b) = false).
  { destruct (sound_bucket_ids w S b Hb) as (k & _ & ->). apply uuidOf_nonempty. }
  assert (Hcount : forall u', hasDefault u' w = false ->
            autoCreated u' (afterDefault u' w) = 1).
  { intros u' Hd'. unfold afterDefault. rewrite Hd'.
    rewrite autoCreated_addTrace. simpl. rewrite String.eqb_refl. simpl.
    rewrite (autoCreated_snoc u' (InsertBucket (defaultRow u' w)) w
               (withBucket (defaultRow u' w) (nextUuid w)) eq_refl eq_refl).
    now rewrite (proj2 (sound_created w S u') Hd'). }
  split; [|split; [|split; [|split; [|split; [|split]]]]].
  - rewrite deleteBucket_eq, Ho, Hname, Hid, (proj2 (isEmpty_false u) Hne).
    simpl. now apply load_unchanged.
  - rewrite updateBucketName_eq, Ho, Hname.
    destruct (_ || _ || _)%bool; now apply load_unchanged.
  - apply isDefaultBucketName_iff.
  - split; reflexivity.
  - intros u'. apply (sound_created w S u').
  - intros u' Hu' Hrow Hd'.
    destruct (Inv_weaken (Some u') w (conj S D)) as [_ D'].
    destruct (loadBuckets_sound u' w S D' Hu' Hrow) as [E _]. rewrite E. simpl.
    split.
    + rewrite (autoCreated_read u' _ _ (viewTrace_categorize _ _)).
      now apply Hcount.
    + apply (hasDefault_afterDefault u' w).
  - intros u' env task Hu' Hrow Hkey.
    destruct (Inv_weaken (Some u') w (conj S D)) as [_ D'].
    pose proof (hasDefault_afterDefault u' w) as Hd1.
    pose proof (viewTrace_categorize u' (afterDefault u' w)) as Hv.
    assert (Hc2 : hasDefault u' w = false ->
                  autoCreated u'
                    (addTrace (viewTrace u' (afterDefault u' w))
                       (afterDefault u' w)) = 1).
    { intros Hd'. rewrite (autoCreated_read u' _ _ Hv). now apply Hcount. }
    assert (Hc3 : hasDefault u' w = false ->
                  autoCreated u'
                    (addTrace (viewTrace u' (afterDefault u' w))
                       (addTrace (viewTrace u' (afterDefault u' w))
                          (afterDefault u' w)))
                  = 1).
    { intros Hd'. rewrite (autoCreated_read u' _ _ Hv). now apply Hc2. }
    destruct (JsString.isEmpty (JsString.trim task)) eqn:Et.
    + rewrite assignTaskToBucket_unfold. cbv zeta. rewrite Et. cbn [orb].
      destruct (loadBuckets_sound u' w S D' Hu' Hrow) as [E _].
      rewrite E. simpl. split; [exact Hd1 | exact Hc2].
    + apply isEmpty_false in Et.
      rewrite (assignTaskToBucket_cases env task u' w S D' Hkey Et Hu' Hrow).
      cbv zeta.
      destruct (noSuggestion _); [split; [exact Hd1 | exact Hc3]|].
      destruct (analyzeTaskWithAI _ _ _ _) as [v|];
        [|split; [exact Hd1 | exact Hc3]].
      destruct (resolvable _ v); [|split; [exact Hd1 | exact Hc2]].
      destruct (Json.taskFieldsTyped v); simpl.
      * split.
        -- now apply (hasDefault_afterAssignment env u' u').
        -- intros Hd'.
           rewrite (autoCreated_read u' _ _ (viewTrace_categorize _ _)).
           rewrite autoCreated_afterAssignment. now apply Hc2.
      * split.
        -- now apply hasDefault_afterResolve.
        -- intros Hd'. rewrite autoCreated_afterResolve. now apply Hc2.
Qed.

Lemma default_bucket_protected_witness :
  let w := serve (zoneEnv 0) (LoadBuckets "u1") signedUp in
  unchangedBy "u1" w (deleteBucket "u1" "uuid-0" w)
  /\ unchangedBy "u1" w (updateBucketName "u1" "uuid-0" "Parties" w)
  /\ autoCreated "u2" (snd (loadBuckets "u2" w)) = 1
  /\ hasDefault "u2" (snd (loadBuckets "u2" w)) = true.
Proof.
  intros w.
  destruct (default_bucket_protected w "u1" (defaultRow "u1" signedUp)
              "Parties" (reachable_serve _ _ _ reachable_signedUp)
              (or_introl eq_refl) eq_refl eq_refl)
    as (H1 & H2 & _ & _ & _ & H6 & _).
  split; [exact H1|]. split; [exact H2|].
  exact (H6 "u2" ltac:(discriminate) eq_refl eq_refl).
Defined.

End DefaultBucket.

(* ================================================================== *)
(** ** Uniqueness of normalized bucket names *)

Module UniqueNames.
Import StringFacts WorldFacts InvFacts TableFacts LoadFacts MutationFacts
       AssignFacts AssignEquation CarryOutFacts AssignSpec Preservation
       Reachability NoOpFacts.

Lemma unique_same_buckets (u : string) (w w' : World) :
  buckets w' = buckets w -> uniqueNormalizedNames u w ->
  uniqueNormalizedNames u w'.
Proof. unfold uniqueNormalizedNames. now intros ->. Qed.

(** A new row keeps the names unique when no bucket of its owner has its
    normal form. *)
Lemma unique_append (u : string) (row : BucketRow.t) (w w' : World) :
  buckets w' = buckets w ++ [row] ->
  (BucketRow.userId row = u ->
   forall b, In b (buckets w) -> BucketRow.userId b = u ->
             normalizeName (BucketRow.name b)
             <> normalizeName (BucketRow.name row)) ->
  uniqueNormalizedNames u w -> uniqueNormalizedNames u w'.
Proof.
  unfold uniqueNormalizedNames. intros -> Hrow U.
  rewrite filter_app, map_app. simpl.
  destruct (String.eqb_spec (BucketRow.userId row) u) as [E|E]; simpl.
  - apply NoDup_snoc; [assumption|].
    intros Hin. apply in_map_iff in Hin as (b & Hn & Hb).
    apply filter_In in Hb as [Hb Hu]. apply String.eqb_eq in Hu.
    now apply (Hrow E b Hb Hu).
  - now rewrite app_nil_r.
Qed.

Lemma unique_afterDefault (u u' : string) (w : World) :
  Inv w -> uniqueNormalizedNames u' w ->
  uniqueNormalizedNames u' (afterDefault u w).
Proof.
  intros [S D] U. unfold afterDefault.
  destruct (hasDefault u w) eqn:Hd; [assumption|].
  apply (unique_append u' (defaultRow u w) w); [reflexivity | | assumption].
  simpl. intros <- b Hb Hu. exfalso.
  assert (H : hasDefault u w = true).
  { rewrite <- Hu. apply D; [assumption | discriminate]. }
  congruence.
Qed.

Lemma unique_afterResolve (u u' : string) (a : AssignmentResult.t) (w : World) :
  uniqueNormalizedNames u' w ->
  uniqueNormalizedNames u' (fst (afterResolve u (bucketView u w) a w)).
Proof.
  intros U. unfold afterResolve.
  destruct (findById (bucketView u w) _); [assumption|].
  destruct (findByName (bucketView u w) _) eqn:E; [assumption|].
  simpl. apply (unique_append u' (newBucketRow u a w) w);
    [reflexivity | | assumption].
  simpl. intros <- b Hb Hu Hn.
  destruct (bucketView_row u w b Hb Hu) as (v & Hv & _ & Hname).
  unfold findByName in E. apply (find_none _ _ E) in Hv.
  rewrite Hname, Hn, String.eqb_refl in Hv. discriminate.
Qed.

Lemma unique_afterAssignment (env : Env) (u u' t : string)
    (a : AssignmentResult.t) (q : ParsedTask) (w : World) :
  uniqueNormalizedNames u' w ->
  uniqueNormalizedNames u' (afterAssignment env u t (bucketView u w) a q w).
Proof.
  intros U. unfold afterAssignment.
  pose proof (unique_afterResolve u u' a w U) as U3.
  destruct (afterResolve u (bucketView u w) a w) as [w3 target]. simpl in U3.
  unfold afterTag, uniqueNormalizedNames in *. now destruct (tagFromModel _).
Qed.

(** The assignment path keeps the names unique: it matches the candidate
    name against the loaded buckets before it inserts (lines 132-136). *)
Lemma assign_keeps_unique (env : Env) (task u u' : string) (w : World) :
  reachable w -> uniqueNormalizedNames u' w ->
  uniqueNormalizedNames u' (snd (assignTaskToBucket env task u w)).
Proof.
  intros R U. pose proof (reachable_Inv w R) as I.
  destruct (Inv_weaken (Some u) w I) as [S D].
  assert (Hload : u <> "" -> uniqueNormalizedNames u' (snd (loadBuckets u w))).
  { intros Hu. destruct (Db.hasUser u w) eqn:Hrow.
    - destruct (loadBuckets_sound u w S D Hu Hrow) as [E _]. rewrite E.
      now apply (unique_afterDefault u u' w I).
    - now rewrite (loadBuckets_unknown_user u w S Hu Hrow). }
  destruct (JsString.isEmpty u) eqn:Eu.
  - apply isEmpty_true in Eu. subst u.
    rewrite assignTaskToBucket_unfold. cbv zeta. now rewrite orb_true_r.
  - destruct (JsString.isEmpty (JsString.trim task)) eqn:Et.
    + rewrite assignTaskToBucket_unfold. cbv zeta. rewrite Et. cbn [orb].
      apply Hload. now apply isEmpty_false.
    + destruct (JsString.isEmpty (OPENAI_API_KEY env)) eqn:Hkey.
      * rewrite assignTaskToBucket_unfold. cbv zeta. rewrite Et, Eu. cbn [orb].
        unfold bind at 1, ensureOpenAIConfigured. now rewrite Hkey.
      * apply isEmpty_false in Et, Eu, Hkey.
        destruct (Db.hasUser u w) eqn:Hrow.
        -- rewrite (assignTaskToBucket_cases env task u w S D Hkey Et Eu Hrow).
           cbv zeta.
           pose proof (unique_afterDefault u u' w I U) as U1.
           assert (U2 : uniqueNormalizedNames u'
                          (addTrace (viewTrace u (afterDefault u w))
                             (afterDefault u w))) by exact U1.
           destruct (noSuggestion _); [exact U1|].
           destruct (analyzeTaskWithAI _ _ _ _) as [v|]; [|exact U1].
           destruct (resolvable _ v); [|exact U1].
           destruct (Json.taskFieldsTyped v); simpl snd.
           ++ match goal with
              | |- uniqueNormalizedNames _ (addTrace _ ?w5) =>
                  apply (unique_same_buckets u' w5); [reflexivity|]
              end.
              now apply (unique_afterAssignment env u u' (JsString.trim task) _ _
                           (addTrace (viewTrace u (afterDefault u w))
                              (afterDefault u w))).
           ++ now apply (unique_afterResolve u u' _
                           (addTrace (viewTrace u (afterDefault u w))
                              (afterDefault u w))).
        -- now rewrite (assignTaskToBucket_unknown_user env task u w S Hkey Et
                          Eu Hrow).
Qed.

(** C3, the code at the failing input.  [assignTaskToBucket] keeps the
    normalized names of every user unique in every reachable world, but
    [createEmptyBucket] inserts without looking at the existing names: a
    user who has the bucket "Events" and creates the bucket "events" has
    two buckets that normalize to "events".  [updateBucketName] writes the
    new name unseen in the same way: renaming the bucket "Maths" to
    "e vents" gives a second bucket that normalizes to "events". *)
Theorem createEmptyBucket_duplicates_normalized_name :
  (forall (env : Env) (task u u' : string) (w : World),
      reachable w -> uniqueNormalizedNames u' w ->
      uniqueNormalizedNames u' (snd (assignTaskToBucket env task u w)))
  /\ (let w0 := serve (zoneEnv 0) (LoadBuckets "u1") signedUp in
      let w1 := serve (zoneEnv 0)
                  (CreateEmptyBucket "u1" "events") w0 in
      reachable w1
      /\ uniqueNormalizedNames "u1" w0
      /\ map BucketRow.name (buckets w1) = ["Events"; "events"]
      /\ map (fun b => normalizeName (BucketRow.name b)) (buckets w1)
         = ["events"; "events"]
      /\ ~ uniqueNormalizedNames "u1" w1)
  /\ (let w0 := serve (zoneEnv 0)
                  (CreateEmptyBucket "u1" "Maths") signedUp in
      let w1 := serve (zoneEnv 0)
                  (UpdateBucketName "u1" "uuid-0" "e vents") w0 in
      uniqueNormalizedNames "u1" w0
      /\ map BucketRow.name (buckets w1) = ["e vents"; "Events"]
      /\ ~ uniqueNormalizedNames "u1" w1).
Proof.
  split; [exact assign_keeps_unique|].
  cbv zeta. split; [split; [|split; [|split; [|split]]] | split; [|split]].
  - repeat apply reachable_serve. apply reachable_initial.
  - unfold uniqueNormalizedNames. vm_compute. repeat constructor. intros [].
  - reflexivity.
  - reflexivity.
  - unfold uniqueNormalizedNames. vm_compute. intros H.
    inversion H as [|x l Hx Hl]; subst. apply Hx. now left.
  - unfold uniqueNormalizedNames. vm_compute. repeat constructor.
    + intros [H|[]]. discriminate H.
    + intros [].
  - reflexivity.
  - unfold uniqueNormalizedNames. vm_compute. intros H.
    inversion H as [|x l Hx Hl]; subst. apply Hx. now left.
Qed.

End UniqueNames.

(* ================================================================== *)
(** ** Resolution of the target bucket *)

Module Resolution.
Import StringFacts WorldFacts InvFacts TableFacts LoadFacts MutationFacts
       AssignFacts AssignEquation CarryOutFacts AssignSpec Preservation
       Reachability NoOpFacts.

(** [find] returns the first element that passes the test. *)
Lemma find_first_match {A} (p : A -> bool) (l : list A) (x : A) :
  find p l = Some x ->
  exists pre post, l = pre ++ x :: post /\ p x = true
                   /\ forall y, In y pre -> p y = false.
Proof.
  induction l as [|z l IH]; simpl; [discriminate|].
  destruct (p z) eqn:E.
  - intros [= ->]. exists [], l. repeat split; [assumption | intros y []].
  - intros H. destruct (IH H) as (pre & post & -> & Hx & Hpre).
    exists (z :: pre), post. repeat split; [assumption|].
    intros y [<-|Hy]; [assumption | now apply Hpre].
Qed.

Section Sorting.
Context {A : Type} (leb : A -> A -> bool).
Hypothesis leb_total : forall a b, leb a b = false -> leb b a = true.
Hypothesis leb_trans :
  forall a b c, leb a b = true -> leb b c = true -> leb a c = true.

Lemma insertBy_sorted (x : A) (l : list A) :
  StronglySorted (fun a b => leb a b = true) l ->
  StronglySorted (fun a b => leb a b = true) (insertBy leb x l).
Proof.
  induction 1 as [|y l Hs IH Hy]; simpl.
  - repeat constructor.
  - destruct (leb x y) eqn:E.
    + constructor; [now constructor|]. constructor; [exact E|].
      apply Forall_forall. intros z Hz. apply (leb_trans x y z E).
      now apply (proj1 (Forall_forall _ _) Hy).
    + constructor; [exact IH|]. apply Forall_forall. intros z Hz.
      apply insertBy_In in Hz as [->|Hz]; [now apply leb_total|].
      now apply (proj1 (Forall_forall _ _) Hy).
Qed.

(** [orderBy] sorts. *)
Lemma orderBy_sorted (l : list A) :
  StronglySorted (fun a b => leb a b = true) (orderBy leb l).
Proof.
  induction l as [|x l IH]; simpl; [constructor | now apply insertBy_sorted].
Qed.
End Sorting.


Lemma tasks_afterResolve (u : string) (existing : list Bucket.t)
    (a : AssignmentResult.t) (w : World) :
  tasks (fst (afterResolve u existing a w)) = tasks w.
Proof.
  unfold afterResolve.
  destruct (findById existing _); [reflexivity|].
  now destruct (findByName existing _).
Qed.

(** The tables after an accepted suggestion: the buckets as the resolution
    left them, and one more task, in the target bucket. *)
Lemma afterAssignment_tables (env : Env) (u t : string)
    (existing : list Bucket.t) (a : AssignmentResult.t) (q : ParsedTask)
    (w : World) :
  let r := afterResolve u existing a w in
  let row := newTaskRow env t (parsedTaskOf a) (Bucket.id (snd r))
               (afterTag t (parsedTaskOf a) q (fst r)) in
  tasks (afterAssignment env u t existing a q w) = tasks w ++ [row]
  /\ buckets (afterAssignment env u t existing a q w) = buckets (fst r).
Proof.
  cbv zeta. unfold afterAssignment.
  pose proof (tasks_afterResolve u existing a w) as Ht.
  destruct (afterResolve u existing a w) as [w3 target]. simpl in *.
  unfold afterTag. destruct (tagFromModel _); simpl; now rewrite Ht.
Qed.

Lemma candidateBucketName_cases (a : AssignmentResult.t) :
  let name := candidateBucketName a in
  (JsString.truthy (AssignmentResult.newBucketName a) = true ->
   AssignmentResult.newBucketName a = Some name)
  /\ (JsString.truthy (AssignmentResult.newBucketName a) = false ->
      JsString.truthy (courseCategory (parsedTaskOf a)) = true ->
      courseCategory (parsedTaskOf a) = Some name)
  /\ (JsString.truthy (AssignmentResult.newBucketName a) = false ->
      JsString.truthy (courseCategory (parsedTaskOf a)) = false ->
      name = "Others").
Proof.
  cbv zeta. unfold candidateBucketName, parsedTaskOf, JsString.orElse.
  destruct a as [bid nb pt rs]; simpl.
  destruct nb as [[|c s]|]; simpl;
    destruct pt as [[an dd dt de [[|c' s']|] tt]|]; simpl;
    repeat split; intros; try discriminate; reflexivity.
Qed.

(** Line 130 on the values as they are: the first truthy one of the new
    name, the course category and "Others". *)
Lemma candidateValue_cases (v : Json.value) :
  let category := match Json.field "parsedTask" v with
                  | Some p => Json.field "courseCategory" p
                  | None => None
                  end in
  (Json.truthyAt (Json.field "newBucketName" v) = true ->
   candidateValue v = Json.field "newBucketName" v)
  /\ (Json.truthyAt (Json.field "newBucketName" v) = false ->
      Json.truthyAt category = true -> candidateValue v = category)
  /\ (Json.truthyAt (Json.field "newBucketName" v) = false ->
      Json.truthyAt category = false ->
      candidateValue v = Some (Json.Str "Others")).
Proof.
  cbv zeta. unfold candidateValue, Json.orElse.
  repeat split; intros H; try intros H'; rewrite H; try rewrite H';
    reflexivity.
Qed.

Lemma stringField_Some (key : string) (v : Json.value) (s : string) :
  Json.stringField key v = Some s <-> Json.field key v = Some (Json.Str s).
Proof.
  unfold Json.stringField. destruct (Json.field key v) as [[]|]; split;
    intros H; try discriminate H; now injection H as ->.
Qed.

End Resolution.

Module ResolutionTheorem.
Import StringFacts WorldFacts InvFacts TableFacts LoadFacts MutationFacts
       AssignFacts AssignEquation CarryOutFacts AssignSpec Preservation
       Reachability NoOpFacts Resolution.

(** The target can be resolved when a loaded bucket has the suggested id
    or the candidate name is a string. *)
Lemma resolvable_iff (existing : list Bucket.t) (v : Json.value) :
  resolvable existing v = true
  <-> (exists b, In b existing
                 /\ Json.field "bucketId" v = Some (Json.Str (Bucket.id b)))
      \/ (exists name, candidateValue v = Some (Json.Str name)).
Proof.
  unfold resolvable, findById. split.
  - destruct (find _ existing) as [b|] eqn:E.
    + intros _. left. apply find_some in E as [Hin Hp].
      destruct (Json.stringField "bucketId" v) as [i|] eqn:Ei; [|discriminate].
      apply String.eqb_eq in Hp. apply stringField_Some in Ei.
      exists b. rewrite Hp. auto.
    + intros H. right. destruct (candidateValue v) as [[]|]; try discriminate.
      eexists. reflexivity.
  - intros [(b & Hin & Hb)|(name & Hn)].
    + apply stringField_Some in Hb. rewrite Hb.
      destruct (find _ existing) as [b'|] eqn:E; [reflexivity|].
      apply (find_none _ _ E) in Hin. now rewrite String.eqb_refl in Hin.
    + rewrite Hn. now destruct (find _ existing).
Qed.

Lemma afterResolve_resolvedAs (u : string) (existing : list Bucket.t)
    (v : Json.value) (w : World) :
  resolvable existing v = true ->
  let r := afterResolve u existing (Json.asAssignment v) w in
  resolvedAs u existing v (Bucket.id (snd r)) (buckets w) (buckets (fst r)).
Proof.
  unfold resolvable, resolvedAs, afterResolve. cbv zeta.
  change (AssignmentResult.bucketId (Json.asAssignment v))
    with (Json.stringField "bucketId" v).
  destruct (findById existing _) as [b|] eqn:E1.
  - intros _. left. unfold findById in E1. apply find_some in E1 as [Hin Hp].
    destruct (Json.stringField "bucketId" v) as [i|] eqn:Ei; [|discriminate].
    apply String.eqb_eq in Hp. apply stringField_Some in Ei.
    exists b. simpl. rewrite Hp. auto.
  - intros Ht. right. split.
    + intros b Hb Heq. apply stringField_Some in Heq.
      unfold findById in E1. apply (find_none _ _ E1) in Hb.
      rewrite Heq, String.eqb_refl in Hb. discriminate.
    + exists (candidateBucketName (Json.asAssignment v)).
      split; [now apply candidateValue_text|].
      destruct (findByName existing _) as [b|] eqn:E2.
      * left. unfold findByName in E2.
        apply find_first_match in E2 as (pre & post & -> & Hp & Hpre).
        apply String.eqb_eq in Hp. exists pre, b, post. simpl.
        repeat split; try assumption.
        intros x Hx Heq. apply Hpre in Hx. rewrite Heq, String.eqb_refl in Hx.
        discriminate.
      * right. split.
        -- intros b Hb Heq. unfold findByName in E2.
           apply (find_none _ _ E2) in Hb. rewrite Heq, String.eqb_refl in Hb.
           discriminate.
        -- exists (newBucketRow u (Json.asAssignment v) w). simpl. auto.
Qed.




End ResolutionTheorem.

(* ================================================================== *)
(** ** A reply without usable fields *)

Module EmptyReply.
Import StringFacts WorldFacts InvFacts TableFacts LoadFacts MutationFacts
       AssignFacts AssignEquation CarryOutFacts AssignSpec Preservation
       Reachability NoOpFacts Resolution ResolutionTheorem.

(** The bucket view shows a stored task under its bucket. *)
Lemma view_contains (u : string) (w : World) (brow : BucketRow.t)
    (trow : TaskRow.t) :
  In brow (buckets w) -> BucketRow.userId brow = u ->
  In trow (tasks w) -> TaskRow.bucketId trow = BucketRow.id brow ->
  exists bucket,
    In bucket (bucketView u w) /\ Bucket.id bucket = BucketRow.id brow
    /\ In (itemOf trow) (Bucket.items bucket).
Proof.
  intros Hb Hu Ht Hid.
  assert (Hrow : In brow (bucketRowsOf u w)).
  { unfold bucketRowsOf. apply orderBy_In, filter_In. split; [assumption|].
    now apply String.eqb_eq. }
  eexists. split; [|split].
  - unfold bucketView. apply in_map_iff. exists brow. split; [reflexivity | exact Hrow].
  - reflexivity.
  - simpl. apply in_map_iff. exists (TaskRow.bucketId trow, itemOf trow).
    split; [reflexivity|]. apply filter_In. split.
    + apply in_map_iff. exists trow. split; [reflexivity|].
      unfold taskRowsOf. apply orderBy_In, filter_In. split; [assumption|].
      apply existsb_exists. exists (BucketRow.id brow). split.
      * now apply in_map.
      * now apply String.eqb_eq.
    + simpl. now apply String.eqb_eq.
Qed.

Lemma falsy_nullish (o : option string) (d : string) :
  falsy o -> JsString.nullish (JsString.orElse o (Some d)) d = d.
Proof.
  unfold falsy, JsString.orElse. intros ->. destruct d; reflexivity.
Qed.

Lemma fallback_recorded (env : Env) (u t : string) (existing : list Bucket.t)
    (a : AssignmentResult.t) (q : ParsedTask) (w : World) :
  falsy (typeTag (parsedTaskOf a)) ->
  In (Categorize t (Some q)) (trace (afterAssignment env u t existing a q w)).
Proof.
  intros H. unfold afterAssignment.
  destruct (afterResolve u existing a w) as [w3 target].
  unfold afterTag, tagFromModel. rewrite H. simpl.
  rewrite !in_app_iff. simpl. auto.
Qed.

Lemma composeDueDate_falsy (env : Env) (d t : option string) :
  falsy d -> composeDueDate env d t = None.
Proof. unfold falsy, composeDueDate. now intros ->. Qed.

Lemma empty_object_parses : Json.parse "{}" = Some (Json.Obj []).
Proof. reflexivity. Qed.

(** Without usable fields, the fields that the interface reads are falsy,
    the candidate name is "Others" and the task fields are the defaults. *)
Lemma noUsableFields_typed (v : Json.value) :
  noUsableFields v ->
  let p := parsedTaskOf (Json.asAssignment v) in
  falsy (assignmentName p) /\ falsy (courseCategory p) /\ falsy (typeTag p)
  /\ falsy (dueDate p) /\ falsy (description p)
  /\ candidateValue v = Some (Json.Str "Others")
  /\ candidateBucketName (Json.asAssignment v) = "Others"
  /\ Json.taskFieldsTyped v = true.
Proof.
  intros (Hbid & Hnew & Hname & Hcc & Htag & Hdue & Hdesc). cbv zeta.
  rewrite parsedTaskOf_fields. cbn [assignmentName courseCategory typeTag
                                    dueDate description Json.asParsedTask].
  unfold falsy.
  assert (Hcand : candidateValue v = Some (Json.Str "Others")).
  { apply (proj2 (proj2 (candidateValue_cases v))); [exact Hnew|].
    rewrite (field_parsedTask "courseCategory" v).
    now destruct (AssignmentResult.parsedTask (Json.asAssignment v)). }
  repeat (split; [now apply stringField_falsy|]).
  split; [exact Hcand|]. split.
  - pose proof (candidateValue_text v) as H. rewrite Hcand in H.
    specialize (H eq_refl). now injection H as <-.
  - unfold Json.taskFieldsTyped, Json.textOrFalsy, Json.orElse.
    rewrite Hname, Hcc, Hdue, Hdesc. cbn [negb orb andb Json.isText].
    now rewrite !orb_true_r.
Qed.

End EmptyReply.

Module EmptyReplyTheorem.
Import StringFacts WorldFacts InvFacts TableFacts LoadFacts MutationFacts
       AssignFacts AssignEquation CarryOutFacts AssignSpec Preservation
       Reachability NoOpFacts Resolution ResolutionTheorem EmptyReply.

(** C10.  When the model call succeeds and the message has no content, or
    its content parses to a value that counts as a suggestion but has no
    usable field (none of the fields that the orchestrator reads holds a
    truthy value), [analyzeTaskWithAI] returns a suggestion (the empty
    object, for a missing content) and [assignTaskToBucket] creates a task:
    assignment name "Task", description the trimmed text, no due
    timestamp, in the bucket resolved from the name "Others" (the first
    loaded bucket that normalizes to "others", else a new bucket
    "Others"); the categorizer is called on the trimmed text, and the task
    is returned with the tag that the categorizer gives to the stored
    row.  (The model is asked only after the caller's default bucket is
    there, so the caller has a user row.) *)
Theorem empty_reply_creates_task :
  forall (env : Env) (task u : string) (w : World),
    reachable w -> OPENAI_API_KEY env <> "" ->
    JsString.trim task <> "" -> u <> "" -> Db.hasUser u w = true ->
    let w1 := afterDefault u w in
    let existing := bucketView u w1 in
    let completion := askModel env (JsString.trim task) existing (clock w) in
    completion = Reply None
    \/ (exists c v, completion = Reply (Some c) /\ Json.parse c = Some v
                    /\ Json.truthy v = true
                    /\ noUsableFields v) ->
    let suggestion :=
      analyzeTaskWithAI env (JsString.trim task) existing (clock w) in
    let r := assignTaskToBucket env task u w in
    exists v,
      suggestion = Some v /\ Json.truthy v = true
      /\ (completion = Reply None -> v = Json.Obj [])
      /\ exists target row,
           fst r = Ok (bucketView u (snd r))
           /\ tasks (snd r) = tasks w ++ [row]
           /\ TaskRow.raw row = JsString.trim task
           /\ TaskRow.assignmentName row = Some "Task"
           /\ TaskRow.description row = Some (JsString.trim task)
           /\ TaskRow.dueDate row = None
           /\ TaskRow.bucketId row = target
           /\ resolvedFromOthers u existing target (buckets w1) (buckets (snd r))
           /\ In (Categorize (JsString.trim task)
                    (Some (Json.categorizerFields v)))
                (trace (snd r))
           /\ exists bucket item,
                In bucket (bucketView u (snd r))
                /\ Bucket.id bucket = target
                /\ In item (Bucket.items bucket)
                /\ TaskItem.id item = TaskRow.id row
                /\ TaskItem.raw item = JsString.trim task
                /\ TaskItem.assignmentName item = Some "Task"
                /\ TaskItem.description item = Some (JsString.trim task)
                /\ TaskItem.dueDate item = None
                /\ TaskItem.dueTime item = None
                /\ TaskItem.typeTag item
                   = Some (Categorizer.categorizeTaskType (JsString.trim task)
                             (storedFields row)).
Proof.
  intros env task u w R Hkey Ht Hu Hrow w1 existing completion Hreply
    suggestion r.
  set (t := JsString.trim task) in *.
  assert (Hsug : exists v, suggestion = Some v /\ Json.truthy v = true
                           /\ noUsableFields v
                           /\ (completion = Reply None -> v = Json.Obj [])).
  { unfold suggestion, analyzeTaskWithAI. fold completion.
    destruct Hreply as [->|(c & v & -> & Hp & Hv & Hn)].
    - exists (Json.Obj []). simpl. repeat split; reflexivity.
    - exists v. simpl. repeat split; try assumption; try apply Hn.
      discriminate. }
  destruct Hsug as (v & Ev & Hv & Hn & Hempty).
  exists v. split; [exact Ev|]. split; [exact Hv|]. split; [exact Hempty|].
  destruct (Inv_weaken (Some u) w (reachable_Inv w R)) as [S D].
  destruct (ensureDefaultBuckets_sound u w S D Hu Hrow) as [_ [S1 _]].
  fold w1 in S1.
  pose proof (assignTaskToBucket_cases env task u w S D Hkey Ht Hu Hrow) as E.
  cbv zeta in E. fold t w1 existing suggestion in E. rewrite Ev in E.
  cbn [noSuggestion] in E. rewrite Hv in E. cbn [negb] in E.
  destruct (noUsableFields_typed v Hn)
    as (Hname & Hcc & Htag & Hdue & Hdesc & Hcand & Hcn & Hty).
  destruct Hn as (Hbid & _).
  set (a := Json.asAssignment v) in *.
  set (q := Json.categorizerFields v) in *.
  set (w2 := addTrace (viewTrace u w1) w1) in *.
  assert (Hres : resolvable existing v = true).
  { apply resolvable_iff. right. eexists. exact Hcand. }
  rewrite Hres, Hty in E.
  destruct (afterAssignment_tables env u t existing a q w2) as [Htasks Hbuckets].
  pose proof (afterResolve_resolvedAs u existing v w2 Hres) as Hr.
  cbv zeta in Hr. fold a in Hr.
  pose proof (fallback_recorded env u t existing a q w2 Htag) as Hcat.
  set (w5 := afterAssignment env u t existing a q w2) in *.
  set (target := Bucket.id (snd (afterResolve u existing a w2))) in *.
  set (row := newTaskRow env t (parsedTaskOf a) target
                (afterTag t (parsedTaskOf a) q
                   (fst (afterResolve u existing a w2))))
    in *.
  assert (Hothers : resolvedFromOthers u existing target (buckets w1) (buckets w5)).
  { rewrite Hbuckets. unfold resolvedAs in Hr.
    destruct Hr as [(b & Hb & Hid & _)|[_ (name & Hn & Hr)]].
    - exfalso. rewrite Hid in Hbid. simpl in Hbid.
      apply bucketView_In in Hb as (brow & Hbrow & _ & Hbid' & _).
      destruct (sound_bucket_ids w1 S1 brow Hbrow) as (k & _ & Hk).
      rewrite <- Hbid', Hk in Hbid.
      now rewrite (uuidOf_nonempty k) in Hbid.
    - rewrite Hcand in Hn. injection Hn as <-.
      change (normalizeName "Others") with "others" in Hr. exact Hr. }
  assert (Hrowf : TaskRow.raw row = t
                  /\ TaskRow.assignmentName row = Some "Task"
                  /\ TaskRow.description row = Some t
                  /\ TaskRow.dueDate row = None
                  /\ TaskRow.bucketId row = target).
  { unfold row, newTaskRow; simpl.
    unfold JsString.orElse at 1. rewrite Hname.
    rewrite (falsy_nullish _ "Task" Hcc), (falsy_nullish _ t Hdesc),
      (composeDueDate_falsy env _ _ Hdue). auto. }
  destruct Hrowf as (Hr1 & Hr2 & Hr3 & Hr4 & Hr5).
  assert (Hbrow : exists brow, In brow (buckets w5)
                               /\ BucketRow.userId brow = u
                               /\ BucketRow.id brow = target).
  { destruct Hothers as [(pre & b & post & Hex & _ & _ & Htg & Hsame)
                        |(_ & newRow & Happ & _ & Hu' & Hid)].
    - assert (Hb : In b existing) by (rewrite Hex, in_app_iff; simpl; auto).
      apply bucketView_In in Hb as (brow & Hbrow & Hbu & Hbid' & _).
      exists brow. rewrite Hsame, Htg. auto.
    - exists newRow. rewrite Happ, in_app_iff. simpl. auto. }
  destruct Hbrow as (brow & Hbrow & Hbu & Hbid').
  assert (Htrow : In row (tasks w5)) by (rewrite Htasks, in_app_iff; simpl; auto).
  destruct (view_contains u w5 brow row Hbrow Hbu Htrow
              ltac:(now rewrite Hr5, Hbid'))
    as (bucket & Hbucket & Hbk & Hitem).
  exists target, row. unfold r. rewrite E. simpl fst. simpl snd.
  split; [reflexivity|].
  split; [simpl tasks; rewrite Htasks; simpl tasks; unfold w1;
          rewrite tasks_afterDefault; reflexivity|].
  do 5 (split; [assumption|]).
  split; [exact Hothers|].
  split; [simpl trace; rewrite in_app_iff; now left|].
  exists bucket, (itemOf row).
  split; [exact Hbucket|]. split; [now rewrite Hbk|]. split; [exact Hitem|].
  split; [reflexivity|]. split; [exact Hr1|]. split; [exact Hr2|].
  split; [exact Hr3|].
  change (TaskItem.dueDate (itemOf row)) with (dueDateText (TaskRow.dueDate row)).
  change (TaskItem.dueTime (itemOf row)) with (dueTimeText (TaskRow.dueDate row)).
  change (TaskItem.typeTag (itemOf row))
    with (Some (Categorizer.categorizeTaskType (TaskRow.raw row) (storedFields row))).
  rewrite Hr4, Hr1. repeat split; reflexivity.
Qed.

(** A message without content, the reply [{}], and a reply whose only
    members are a reason and a [parsedTask] without fields. *)
Lemma empty_reply_creates_task_witness :
  let made (env : Env) :=
    let r := assignTaskToBucket env "buy milk" "u1" signedUp in
    exists target row,
      fst r = Ok (bucketView "u1" (snd r))
      /\ tasks (snd r) = tasks signedUp ++ [row]
      /\ TaskRow.assignmentName row = Some "Task"
      /\ TaskRow.description row = Some "buy milk"
      /\ TaskRow.dueDate row = None
      /\ TaskRow.bucketId row = target
      /\ resolvedFromOthers "u1"
           (bucketView "u1" (afterDefault "u1" signedUp)) target
           (buckets (afterDefault "u1" signedUp)) (buckets (snd r)) in
  made quietEnv
  /\ made (replyEnv "{}")
  /\ made (replyEnv ("{" ++ quoted "reason" ++ ":" ++ quoted "unclear" ++ ","
                     ++ quoted "parsedTask" ++ ":{}}")).
Proof.
  intros made.
  assert (use : forall env,
             OPENAI_API_KEY env <> "" ->
             (let completion :=
                askModel env (JsString.trim "buy milk")
                  (bucketView "u1" (afterDefault "u1" signedUp))
                  (clock signedUp) in
              completion = Reply None
              \/ (exists c v, completion = Reply (Some c)
                              /\ Json.parse c = Some v
                              /\ Json.truthy v = true
                              /\ noUsableFields v)) ->
             made env).
  { intros env Hkey Hreply.
    destruct (empty_reply_creates_task env "buy milk" "u1" signedUp
                reachable_signedUp Hkey ltac:(discriminate)
                ltac:(discriminate) ltac:(vm_compute; reflexivity) Hreply)
      as (v & _ & _ & _ & target & row & H1 & H2 & _ & H4 & H5 & H6 & H7 & H8
          & _).
    exists target, row. repeat (split; [assumption|]). exact H8. }
  split; [|split].
  - apply use; [discriminate|]. left. vm_compute. reflexivity.
  - apply use; [discriminate|]. right.
    exists "{}", (Json.Obj []).
    split; [vm_compute; reflexivity|]. repeat split; reflexivity.
  - apply use; [discriminate|]. right.
    exists ("{" ++ quoted "reason" ++ ":" ++ quoted "unclear" ++ ","
            ++ quoted "parsedTask" ++ ":{}}")%string,
           (Json.Obj [("reason", Json.Str "unclear");
                      ("parsedTask", Json.Obj [])]).
    split; [vm_compute; reflexivity|]. split; [vm_compute; reflexivity|].
    split; [reflexivity|]. repeat split; vm_compute; reflexivity.
Defined.

End EmptyReplyTheorem.

(* ================================================================== *)
(** ** Further properties of the server actions *)

Module MonadFacts.

Section Preserves.
Variable P : World -> Prop.

Lemma preserves_ret {A} (a : A) : preserves P (ret a).
Proof. intros w H. exact H. Qed.

Lemma preserves_throw {A} (e : Error) : preserves P (@throw A e).
Proof. intros w H. exact H. Qed.

Lemma preserves_bind {A B} (m : M A) (k : A -> M B) :
  preserves P m -> (forall a, preserves P (k a)) -> preserves P (bind m k).
Proof.
  intros Hm Hk w H. unfold bind. specialize (Hm w H).
  destruct (m w) as [[a|e] w']; simpl in Hm; [now apply Hk | exact Hm].
Qed.

Lemma preserves_mapM {A B} (f : A -> M B) (l : list A) :
  (forall x, preserves P (f x)) -> preserves P (mapM f l).
Proof.
  intros Hf. induction l as [|x l IH]; simpl.
  - apply preserves_ret.
  - apply preserves_bind; [apply Hf|]. intros y.
    apply preserves_bind; [exact IH|]. intros ys. apply preserves_ret.
Qed.

End Preserves.

End MonadFacts.

Module Integrity.
Import MonadFacts WorldFacts InvFacts.

(** The property looks at the two tables only. *)
Lemma tasksIntact_tables (w w' : World) :
  tasks w' = tasks w ->
  (forall i, Db.hasBucketId i w = true -> Db.hasBucketId i w' = true) ->
  tasksIntact w -> tasksIntact w'.
Proof.
  intros Ht Hb [Hk Hr]. split; rewrite Ht; [exact Hk|].
  intros t Hin. now apply Hb, Hr.
Qed.

Lemma hasBucketId_app (i : string) (w w' : World) (rows : list BucketRow.t) :
  buckets w' = buckets w ++ rows ->
  Db.hasBucketId i w = true -> Db.hasBucketId i w' = true.
Proof.
  unfold Db.hasBucketId. intros -> H. rewrite existsb_app, H. reflexivity.
Qed.

Lemma intact_log (e : Effect) : preserves tasksIntact (log e).
Proof. intros w. now apply tasksIntact_tables. Qed.

Lemma intact_newDate : preserves tasksIntact newDate.
Proof. intros w H. exact H. Qed.

Lemma intact_randomUUID : preserves tasksIntact randomUUID.
Proof. intros w. now apply tasksIntact_tables. Qed.

Lemma intact_selectBuckets (p : BucketRow.t -> bool) :
  preserves tasksIntact (Db.selectBuckets p).
Proof. intros w H. exact H. Qed.

Lemma intact_selectTasks (p : TaskRow.t -> bool) :
  preserves tasksIntact (Db.selectTasks p).
Proof. intros w H. exact H. Qed.

Lemma intact_selectJoin (p : TaskRow.t -> BucketRow.t -> bool) :
  preserves tasksIntact (Db.selectTasksJoinBuckets p).
Proof. intros w H. exact H. Qed.

Lemma intact_insertBucket (row : BucketRow.t) :
  preserves tasksIntact (Db.insertBucket row).
Proof.
  intros w H. unfold Db.insertBucket.
  destruct (Db.hasBucketId (BucketRow.id row) w); [exact H|].
  destruct (Db.hasUser (BucketRow.userId row) w); [|exact H].
  revert H. apply tasksIntact_tables; [reflexivity|].
  intros i. now apply (hasBucketId_app i w _ [row]).
Qed.

(** The primary key and the foreign key are checked by the insertion. *)
Lemma intact_insertTask (row : TaskRow.t) :
  preserves tasksIntact (Db.insertTask row).
Proof.
  intros w [Hk Hr]. unfold Db.insertTask.
  destruct (Db.hasTaskId (TaskRow.id row) w) eqn:Ek; [now split|].
  destruct (Db.hasBucketId (TaskRow.bucketId row) w) eqn:Eb; [|now split].
  simpl. split; simpl.
  - rewrite map_app. simpl. apply TableFacts.NoDup_snoc; [exact Hk|].
    intros Hin. apply hasTaskId_In in Hin. congruence.
  - intros t Hin. apply in_app_iff in Hin as [Hin|[<-|[]]].
    + now apply Hr.
    + exact Eb.
Qed.

(** The cascade removes the tasks that would be left without a bucket. *)
Lemma intact_deleteBucket (i : string) : preserves tasksIntact (Db.deleteBucket i).
Proof.
  intros w [Hk Hr]. split; simpl.
  - now apply TableFacts.NoDup_map_filter.
  - intros t Hin. apply filter_In in Hin as [Hin Hne].
    specialize (Hr t Hin). unfold Db.hasBucketId in *. simpl.
    apply existsb_exists in Hr as (b & Hb & E). apply existsb_exists.
    exists b. split; [|exact E]. apply filter_In. split; [exact Hb|].
    apply String.eqb_eq in E. now rewrite E.
Qed.

Lemma intact_deleteTask (i : string) : preserves tasksIntact (Db.deleteTask i).
Proof.
  intros w [Hk Hr]. split; simpl.
  - now apply TableFacts.NoDup_map_filter.
  - intros t Hin. apply filter_In in Hin as [Hin _]. now apply Hr.
Qed.

Lemma intact_updateBucket (i n : string) (t : Z) :
  preserves tasksIntact (Db.updateBucket i n t).
Proof.
  intros w. apply tasksIntact_tables; [reflexivity|].
  intros k Hk. unfold Db.hasBucketId in *. simpl.
  apply existsb_exists in Hk as (b & Hb & E). apply existsb_exists.
  eexists. split; [apply in_map, Hb|].
  now destruct (String.eqb (BucketRow.id b) i).
Qed.

(** A task moves only to a bucket that exists. *)
Lemma intact_updateTask (i : string) (a d : option string) (due : option Z)
    (b : option string) (t : Z) :
  preserves tasksIntact (Db.updateTask i a d due b t).
Proof.
  intros w [Hk Hr]. unfold Db.updateTask.
  destruct (Db.hasTaskId i w && _)%bool eqn:Ef; [now split|].
  split; simpl.
  - rewrite map_map.
    rewrite (map_ext _ TaskRow.id); [exact Hk|].
    intros x. now destruct (String.eqb (TaskRow.id x) i).
  - intros x Hin. apply in_map_iff in Hin as (x0 & <- & Hin).
    change (Db.hasBucketId ?k (mkWorld (users w) (buckets w) _ _ _ _))
      with (Db.hasBucketId k w).
    destruct (String.eqb (TaskRow.id x0) i) eqn:Ei; [|now apply Hr].
    simpl. destruct b as [k|]; simpl; [|now apply Hr].
    apply andb_false_iff in Ef as [Ef|Ef].
    + exfalso. apply String.eqb_eq in Ei.
      assert (Db.hasTaskId i w = true); [|congruence].
      apply hasTaskId_In. rewrite <- Ei. now apply in_map.
    + now apply negb_false_iff in Ef.
Qed.

Create HintDb intact.

#[local] Hint Resolve preserves_ret preserves_throw intact_log intact_newDate
  intact_randomUUID intact_selectBuckets intact_selectTasks intact_selectJoin
  intact_insertBucket intact_insertTask intact_deleteBucket intact_deleteTask
  intact_updateBucket intact_updateTask : intact.

(** One step through a computation: a bind, a branch, or a primitive. *)
Ltac intact_step :=
  first
    [ solve [auto with intact]
    | apply preserves_bind; [|intros ?]
    | apply preserves_mapM; intros ?
    | match goal with
      | |- preserves _ (if ?c then _ else _) => destruct c
      | |- preserves _ (match ?x with _ => _ end) => destruct x
      end ].

Lemma intact_categorize (task : string) (p : option ParsedTask) :
  preserves tasksIntact (categorizeTaskType task p).
Proof. unfold categorizeTaskType. repeat intact_step. Qed.

Lemma intact_ensureDefaultBuckets (u : string) :
  preserves tasksIntact (ensureDefaultBuckets u).
Proof. unfold ensureDefaultBuckets. repeat intact_step. Qed.

#[local] Hint Resolve intact_categorize intact_ensureDefaultBuckets : intact.

Lemma intact_loadBuckets (u : string) : preserves tasksIntact (loadBuckets u).
Proof. unfold loadBuckets, formatTaskRecord. cbv zeta. repeat intact_step. Qed.

#[local] Hint Resolve intact_loadBuckets : intact.

Lemma intact_loadCalendarTasks (u : string) :
  preserves tasksIntact (loadCalendarTasks u).
Proof. unfold loadCalendarTasks, calendarEntry. cbv zeta. repeat intact_step. Qed.

#[local] Hint Resolve intact_loadCalendarTasks : intact.

Lemma intact_assignTaskToBucket (env : Env) (task u : string) :
  preserves tasksIntact (assignTaskToBucket env task u).
Proof.
  unfold assignTaskToBucket, ensureOpenAIConfigured. cbv zeta.
  repeat intact_step.
Qed.

Lemma intact_deleteBucketAction (u i : string) :
  preserves tasksIntact (deleteBucket u i).
Proof. unfold deleteBucket, selectOwnedBucket. repeat intact_step. Qed.

Lemma intact_completeTask (u i : string) : preserves tasksIntact (completeTask u i).
Proof. unfold completeTask, selectOwnedTask. repeat intact_step. Qed.

#[local] Hint Resolve intact_completeTask : intact.

Lemma intact_createEmptyBucket (u n : string) :
  preserves tasksIntact (createEmptyBucket u n).
Proof. unfold createEmptyBucket. cbv zeta. repeat intact_step. Qed.

Lemma intact_updateBucketName (u i n : string) :
  preserves tasksIntact (updateBucketName u i n).
Proof. unfold updateBucketName, selectOwnedBucket. repeat intact_step. Qed.

Lemma intact_getTaskById (u i : string) : preserves tasksIntact (getTaskById u i).
Proof.
  unfold getTaskById, selectOwnedTask, calendarEntry. cbv zeta.
  repeat intact_step.
Qed.

Lemma intact_updateTaskAction (env : Env) (u i : string) (up : TaskUpdates.t) :
  preserves tasksIntact (updateTask env u i up).
Proof. unfold updateTask, selectOwnedTask. cbv zeta. repeat intact_step. Qed.

Lemma intact_deleteTaskFromCalendar (u i : string) :
  preserves tasksIntact (deleteTaskFromCalendar u i).
Proof. unfold deleteTaskFromCalendar. repeat intact_step. Qed.

Lemma intact_serve (env : Env) (r : Request) (w : World) :
  tasksIntact w -> tasksIntact (serve env r w).
Proof.
  destruct r; simpl.
  - apply intact_loadBuckets.
  - apply intact_assignTaskToBucket.
  - apply intact_deleteBucketAction.
  - apply intact_completeTask.
  - apply intact_createEmptyBucket.
  - apply intact_updateBucketName.
  - apply intact_getTaskById.
  - apply intact_updateTaskAction.
  - apply intact_deleteTaskFromCalendar.
  - apply intact_loadCalendarTasks.
  - now apply tasksIntact_tables.
  - destruct (Db.hasUser userId w); [auto | now apply tasksIntact_tables].
Qed.

Lemma tasksIntact_reachable (w : World) : reachable w -> tasksIntact w.
Proof.
  induction 1 as [|env r w _ IH]; [|now apply intact_serve].
  split; [constructor | intros t []].
Qed.

End Integrity.

Module MissingUser.
Import WorldFacts InvFacts LoadFacts AssignSpec Preservation Reachability
       NoOpFacts.

(** X2.  A user id without a user row.  The actions take the user id as
    an argument.  In a reachable world an id that is not empty and has no
    row in the user table owns no bucket, so [loadBuckets] tries to create
    the default bucket; the insertion violates the foreign key from the
    bucket table to the user table and the exception leaves the action.
    [createEmptyBucket] with a name and [assignTaskToBucket] with a task
    text and the key configured fail in the same way, the latter before
    the model is asked.  Nothing is written. *)
Theorem unknown_user_cannot_load (env : Env) (u task n : string) (w : World) :
  reachable w -> u <> "" -> Db.hasUser u w = false ->
  (forall b, In b (buckets w) -> BucketRow.userId b <> u)
  /\ loadBuckets u w = (Thrown ForeignKeyViolation, nextUuid w)
  /\ (JsString.trim n <> "" ->
      createEmptyBucket u n w = (Thrown ForeignKeyViolation, nextUuid w))
  /\ (OPENAI_API_KEY env <> "" -> JsString.trim task <> "" ->
      assignTaskToBucket env task u w
      = (Thrown ForeignKeyViolation, nextUuid w))
  /\ buckets (nextUuid w) = buckets w /\ tasks (nextUuid w) = tasks w
  /\ writes (nextUuid w) = writes w.
Proof.
  intros R Hu Hrow. destruct (reachable_Inv w R) as [S D].
  split; [|split; [|split; [|split]]].
  - intros b Hb E. pose proof (sound_users w S b Hb) as H.
    rewrite E in H. congruence.
  - now apply loadBuckets_unknown_user.
  - intros Hn. now apply createEmptyBucket_unknown_user.
  - intros Hkey Ht. now apply assignTaskToBucket_unknown_user.
  - repeat split.
Qed.

Lemma unknown_user_cannot_load_witness :
  Db.hasUser "ghost" twoUsers = false
  /\ loadBuckets "ghost" twoUsers
     = (Thrown ForeignKeyViolation, nextUuid twoUsers)
  /\ createEmptyBucket "ghost" "Maths" twoUsers
     = (Thrown ForeignKeyViolation, nextUuid twoUsers)
  /\ assignTaskToBucket quietEnv "essay" "ghost" twoUsers
     = (Thrown ForeignKeyViolation, nextUuid twoUsers).
Proof.
  destruct (unknown_user_cannot_load quietEnv "ghost" "essay" "Maths" twoUsers
              reachable_twoUsers ltac:(discriminate) eq_refl)
    as (_ & H1 & H2 & H3 & _).
  split; [reflexivity|]. split; [exact H1|].
  split; [apply H2; discriminate | apply H3; discriminate].
Defined.

End MissingUser.

Module Configuration.
Import WorldFacts LoadFacts AssignEquation.

(** X1.  On a server whose API key is set to the empty text, a request
    with a task text and a user throws before anything else happens: the
    world is left as it was, not even the default bucket is created.  A
    blank request does not need the key: it is the plain load. *)
Theorem assign_without_key_throws (env : Env) (task u : string) (w : World) :
  OPENAI_API_KEY env = "" ->
  (JsString.trim task <> "" -> u <> "" ->
   assignTaskToBucket env task u w = (Thrown MissingApiKey, w))
  /\ (JsString.trim task = "" \/ u = "" ->
      assignTaskToBucket env task u w = loadBuckets u w).
Proof.
  intros Hkey. rewrite assignTaskToBucket_unfold. cbv zeta. split.
  - intros Ht Hu.
    rewrite (proj2 (isEmpty_false _) Ht), (proj2 (isEmpty_false _) Hu).
    cbn [orb]. unfold bind at 1, ensureOpenAIConfigured. now rewrite Hkey.
  - intros [Ht|Hu].
    + now rewrite (proj2 (isEmpty_true _) Ht).
    + rewrite (proj2 (isEmpty_true _) Hu). now rewrite orb_true_r.
Qed.

Lemma assign_without_key_throws_witness :
  let env := mkEnv "" 0%Z (fun _ => None) (fun _ => CallFailed) in
  assignTaskToBucket env "essay" "u1" signedUp = (Thrown MissingApiKey, signedUp)
  /\ assignTaskToBucket env "  " "u1" signedUp = loadBuckets "u1" signedUp.
Proof.
  intros env.
  destruct (assign_without_key_throws env "essay" "u1" signedUp eq_refl)
    as [H _].
  destruct (assign_without_key_throws env "  " "u1" signedUp eq_refl)
    as [_ H'].
  split; [apply H; discriminate | apply H'; left; reflexivity].
Defined.

End Configuration.

Module Lookup.
Import WorldFacts InvFacts LoadFacts MutationFacts CalendarFacts NoOpFacts.

Lemma selectOwnedTask_rows (u i : string) (w : World) :
  selectOwnedTask u i w = (Ok (firstn 1 (ownedTaskRows u i w)), w).
Proof. reflexivity. Qed.

Lemma ownedTaskRows_In (u i : string) (w : World) (r : TaskRow.t * BucketRow.t) :
  In r (ownedTaskRows u i w)
  <-> In (fst r) (tasks w) /\ In (snd r) (buckets w)
      /\ TaskRow.bucketId (fst r) = BucketRow.id (snd r)
      /\ TaskRow.id (fst r) = i /\ BucketRow.userId (snd r) = u.
Proof.
  unfold ownedTaskRows. rewrite in_flat_map. split.
  - intros (t & Ht & H). apply in_map_iff in H as (b & <- & Hb).
    apply filter_In in Hb as [Hb E]. simpl.
    apply andb_true_iff in E as [E1 E]. apply andb_true_iff in E as [E2 E3].
    apply String.eqb_eq in E1, E2, E3. auto.
  - intros (Ht & Hb & E1 & E2 & E3). exists (fst r). split; [exact Ht|].
    apply in_map_iff. exists (snd r). split; [now destruct r|].
    apply filter_In. split; [exact Hb|].
    rewrite E1, E2, E3, !String.eqb_refl. reflexivity.
Qed.

Lemma ownedTaskRows_nil (u i : string) (w : World) :
  ownedTaskRows u i w = [] <-> ownsTask u i w = false.
Proof.
  destruct (selectOwnedTask_eq u i w) as (rows & E & H).
  rewrite selectOwnedTask_rows in E. injection E as E. rewrite <- H, <- E.
  now destruct (ownedTaskRows u i w).
Qed.

(** [getTaskById], case by case. *)
Lemma getTaskById_eq (u i : string) (w : World) :
  getTaskById u i w =
  if (JsString.isEmpty u || JsString.isEmpty i)%bool then (Ok None, w)
  else match ownedTaskRows u i w with
       | [] => (Ok None, w)
       | r :: _ =>
           (Ok (Some (entryOf (dueDateText (TaskRow.dueDate (fst r))) r)),
            addTrace [Categorize (TaskRow.raw (fst r)) (storedFields (fst r))] w)
       end.
Proof.
  unfold getTaskById.
  destruct (JsString.isEmpty u || JsString.isEmpty i)%bool; [reflexivity|].
  unfold bind at 1. rewrite selectOwnedTask_rows.
  destruct (ownedTaskRows u i w) as [|r rows]; reflexivity.
Qed.

Lemma getTaskById_tables (u i : string) (w : World) :
  buckets (snd (getTaskById u i w)) = buckets w
  /\ tasks (snd (getTaskById u i w)) = tasks w.
Proof.
  rewrite getTaskById_eq.
  destruct (JsString.isEmpty u || JsString.isEmpty i)%bool; [now split|].
  destruct (ownedTaskRows u i w); now split.
Qed.

(** X3.  [getTaskById] only reads: it never throws, leaves both tables as
    they are and performs no storage write.  It answers [null] exactly when
    the user id or the task id is empty or the user owns no bucket that
    holds a task with this id; otherwise the answer carries the requested
    id, the name of a bucket of the caller that holds the task, and the
    fields of that task row. *)
Theorem getTaskById_reads (u i : string) (w : World) :
  let r := getTaskById u i w in
  buckets (snd r) = buckets w /\ tasks (snd r) = tasks w
  /\ writes (snd r) = writes w
  /\ (fst r = Ok None <-> (u = "" \/ i = "" \/ ownsTask u i w = false))
  /\ (ownsTask u i w = true -> u <> "" -> i <> "" ->
      exists t b,
        In t (tasks w) /\ In b (buckets w)
        /\ TaskRow.bucketId t = BucketRow.id b /\ BucketRow.userId b = u
        /\ TaskRow.id t = i
        /\ fst r = Ok (Some (CalendarTask.mk i (BucketRow.name b)
                               (TaskRow.assignmentName t) (TaskRow.raw t)
                               (dueDateText (TaskRow.dueDate t))
                               (dueTimeText (TaskRow.dueDate t))
                               (TaskRow.description t)
                               (Some (Categorizer.categorizeTaskType
                                        (TaskRow.raw t) (storedFields t)))))).
Proof.
  cbv zeta. rewrite getTaskById_eq.
  destruct (JsString.isEmpty u) eqn:Eu; cbn [orb].
  { apply isEmpty_true in Eu. repeat split; auto. now intros _ []. }
  destruct (JsString.isEmpty i) eqn:Ei.
  { apply isEmpty_true in Ei. repeat split; auto. now intros _ _ []. }
  apply isEmpty_false in Eu, Ei.
  pose proof (ownedTaskRows_nil u i w) as Hnil.
  destruct (ownedTaskRows u i w) as [|r rows] eqn:E.
  - rewrite (proj1 Hnil eq_refl). repeat split; auto. discriminate.
  - assert (Hr : In r (ownedTaskRows u i w)) by (rewrite E; now left).
    apply ownedTaskRows_In in Hr as (Ht & Hb & E1 & E2 & E3).
    assert (Ho : ownsTask u i w = true).
    { destruct (ownsTask u i w); [reflexivity|].
      destruct Hnil as [_ Hnil]. discriminate (Hnil eq_refl). }
    simpl. split; [reflexivity|]. split; [reflexivity|]. split.
    { apply (writes_addTrace_categorize [_] w). reflexivity. }
    split.
    + split; [discriminate|]. intros [H|[H|H]]; congruence.
    + intros _ _ _. exists (fst r), (snd r). unfold entryOf. rewrite E2.
      repeat split; assumption.
Qed.

End Lookup.


Module OrderFacts.

Lemma insertBy_perm {A} (leb : A -> A -> bool) (x : A) (l : list A) :
  Permutation (insertBy leb x l) (x :: l).
Proof.
  induction l as [|y l IH]; simpl; [reflexivity|].
  destruct (leb x y); [reflexivity|].
  rewrite IH. apply perm_swap.
Qed.

(** [ORDER BY] rearranges the rows, it neither drops nor repeats one. *)
Lemma orderBy_perm {A} (leb : A -> A -> bool) (l : list A) :
  Permutation (orderBy leb l) l.
Proof.
  induction l as [|x l IH]; simpl; [reflexivity|].
  rewrite insertBy_perm. now constructor.
Qed.

Lemma filter_all {A} (p : A -> bool) (l : list A) :
  (forall x, In x l -> p x = true) -> filter p l = l.
Proof.
  induction l as [|x l IH]; simpl; intros H; [reflexivity|].
  rewrite (H x (or_introl eq_refl)). f_equal. apply IH. auto.
Qed.

(** Splitting a list by two tests that exclude each other. *)
Lemma filter_either {A} (p q : A -> bool) (l : list A) :
  (forall x, In x l -> p x = true -> q x = false) ->
  Permutation (filter p l ++ filter q l) (filter (fun x => p x || q x)%bool l).
Proof.
  induction l as [|x l IH]; simpl; intros H; [reflexivity|].
  assert (IH' := IH (fun y Hy => H y (or_intror Hy))).
  destruct (p x) eqn:Ep; simpl.
  - rewrite (H x (or_introl eq_refl) Ep). now constructor.
  - destruct (q x); [|exact IH'].
    rewrite <- Permutation_middle. now constructor.
Qed.

(** Grouping rows by a key, over keys without repetition, yields each row
    whose key is listed once. *)
Lemma group_by_key {A K} (key : A -> string) (name : K -> string)
    (ks : list K) (l : list A) :
  NoDup (map name ks) ->
  Permutation
    (flat_map (fun k => filter (fun x => String.eqb (key x) (name k)) l) ks)
    (filter (fun x => existsb (fun k => String.eqb (key x) (name k)) ks) l).
Proof.
  induction ks as [|k ks IH]; simpl; intros Hnd.
  - induction l; simpl; auto.
  - inversion Hnd as [|? ? Hk Hnd']; subst.
    rewrite (IH Hnd'). apply filter_either.
    intros x _ E. apply String.eqb_eq in E.
    destruct (existsb _ ks) eqn:Ex; [|reflexivity].
    apply existsb_exists in Ex as (k' & Hk' & E').
    apply String.eqb_eq in E'. exfalso. apply Hk.
    rewrite <- E, E'. now apply in_map.
Qed.

End OrderFacts.

Module ViewFacts.
Import WorldFacts InvFacts TableFacts LoadFacts AssignFacts Reachability
       NoOpFacts OrderFacts.

Lemma bucketView_tables (u : string) (w w' : World) :
  buckets w' = buckets w -> tasks w' = tasks w ->
  bucketView u w' = bucketView u w /\ viewTrace u w' = viewTrace u w.
Proof.
  unfold bucketView, viewTrace, taskRowsOf, bucketRowsOf. now intros -> ->.
Qed.

(** X4.  Loading is idempotent.  In a reachable world, for a user with a
    user row (or without a user id), a second [loadBuckets] right after
    the first returns the same list and changes neither table nor the list
    of writes: the default bucket is created by the first load at the
    latest. *)
Theorem loadBuckets_twice (u : string) (w : World) :
  reachable w -> u = "" \/ Db.hasUser u w = true ->
  let r1 := loadBuckets u w in
  let r2 := loadBuckets u (snd r1) in
  (exists bs, fst r1 = Ok bs /\ fst r2 = Ok bs)
  /\ buckets (snd r2) = buckets (snd r1)
  /\ tasks (snd r2) = tasks (snd r1)
  /\ writes (snd r2) = writes (snd r1).
Proof.
  intros R Hrow. cbv zeta.
  destruct (JsString.isEmpty u) eqn:Eu.
  { apply isEmpty_true in Eu. subst u. simpl.
    split; [exists []; split; reflexivity | repeat split]. }
  apply isEmpty_false in Eu.
  destruct Hrow as [->|Hrow]; [now destruct Eu|].
  destruct (loadBuckets_reachable u w R Eu Hrow) as [E _]. rewrite E. simpl.
  set (w1 := afterDefault u w).
  set (w2 := addTrace (viewTrace u w1) w1).
  assert (Hd : hasDefault u w2 = true) by apply (hasDefault_afterDefault u w).
  rewrite (loadBuckets_read u w2 Eu Hd). simpl.
  destruct (bucketView_tables u w1 w2 eq_refl eq_refl) as [Ev Et].
  split; [exists (bucketView u w1); now rewrite Ev|].
  split; [reflexivity|]. split; [reflexivity|].
  apply writes_addTrace_categorize, viewTrace_categorize.
Qed.

Lemma loadBuckets_twice_witness :
  let r1 := loadBuckets "u1" signedUp in
  let r2 := loadBuckets "u1" (snd r1) in
  (exists bs, fst r1 = Ok bs /\ fst r2 = Ok bs)
  /\ buckets (snd r2) = buckets (snd r1)
  /\ tasks (snd r2) = tasks (snd r1)
  /\ writes (snd r2) = writes (snd r1).
Proof.
  apply (loadBuckets_twice "u1" signedUp);
    [apply Reachability.reachable_signedUp | right; reflexivity].
Defined.

Lemma items_of_bucket (k : string) (T : list TaskRow.t) :
  map snd (filter (fun p => String.eqb (fst p) k)
             (map (fun t => (TaskRow.bucketId t, itemOf t)) T))
  = map itemOf (filter (fun t => String.eqb (TaskRow.bucketId t) k) T).
Proof.
  induction T as [|t T IH]; simpl; [reflexivity|].
  destruct (String.eqb (TaskRow.bucketId t) k); simpl; now rewrite IH.
Qed.

Lemma flat_map_items (u : string) (w : World) :
  flat_map Bucket.items (bucketView u w)
  = map itemOf
      (flat_map (fun row =>
                   filter (fun t => String.eqb (TaskRow.bucketId t)
                                      (BucketRow.id row))
                     (taskRowsOf u w))
         (bucketRowsOf u w)).
Proof.
  unfold bucketView. induction (bucketRowsOf u w) as [|row B IH]; simpl;
    [reflexivity|].
  now rewrite IH, map_app, items_of_bucket.
Qed.

Lemma inBucketOf_rows (u : string) (w : World) (t : TaskRow.t) :
  existsb (String.eqb (TaskRow.bucketId t))
    (map BucketRow.id (bucketRowsOf u w))
  = inBucketOf u w t.
Proof.
  apply eq_iff_eq_true. unfold inBucketOf, bucketRowsOf.
  rewrite !existsb_exists. split.
  - intros (i & Hi & E). apply in_map_iff in Hi as (b & <- & Hb).
    apply orderBy_In, filter_In in Hb as [Hb Hu].
    exists b. split; [exact Hb|]. now rewrite E, Hu.
  - intros (b & Hb & E). apply andb_true_iff in E as [E Hu].
    exists (BucketRow.id b). split; [|exact E].
    apply in_map, orderBy_In, filter_In. auto.
Qed.

Lemma existsb_map {A B} (f : A -> B) (p : B -> bool) (l : list A) :
  existsb p (map f l) = existsb (fun x => p (f x)) l.
Proof. induction l; simpl; congruence. Qed.

(** The items of the view are the tasks in the user's buckets, each once. *)
Lemma bucketView_partition (u : string) (w : World) :
  NoDup (map BucketRow.id (buckets w)) ->
  Permutation (flat_map Bucket.items (bucketView u w))
    (map itemOf (filter (inBucketOf u w) (tasks w))).
Proof.
  intros Hnd. rewrite flat_map_items. apply Permutation_map.
  assert (HB : NoDup (map BucketRow.id (bucketRowsOf u w))).
  { unfold bucketRowsOf.
    apply (Permutation_NoDup
             (l := map BucketRow.id
                     (filter (fun b => String.eqb (BucketRow.userId b) u)
                        (buckets w)))).
    - apply Permutation_map. symmetry. apply orderBy_perm.
    - now apply NoDup_map_filter. }
  rewrite (group_by_key TaskRow.bucketId BucketRow.id _ _ HB).
  rewrite filter_all.
  - unfold taskRowsOf. rewrite orderBy_perm.
    erewrite filter_ext; [reflexivity|]. intros t. apply inBucketOf_rows.
  - intros t Ht. unfold taskRowsOf in Ht.
    apply orderBy_In, filter_In in Ht as [_ Ht].
    now rewrite existsb_map in Ht.
Qed.

(** X5.  The view is a partition.  From a reachable world, [loadBuckets]
    for a user with a user row returns that user's buckets, and the items
    listed over all of them are, one for one, the stored tasks that sit in
    a bucket of the user; each item is listed under the bucket that its
    task row names. *)
Theorem loadBuckets_shows_each_task_once (u : string) (w : World) :
  reachable w -> u <> "" -> Db.hasUser u w = true ->
  exists bs w',
    loadBuckets u w = (Ok bs, w')
    /\ Permutation (flat_map Bucket.items bs)
         (map itemOf (filter (inBucketOf u w') (tasks w')))
    /\ (forall b item,
           In b bs -> In item (Bucket.items b) ->
           exists t row,
             In t (tasks w') /\ In row (buckets w')
             /\ item = itemOf t
             /\ TaskRow.bucketId t = BucketRow.id row
             /\ BucketRow.id row = Bucket.id b
             /\ BucketRow.name row = Bucket.name b
             /\ BucketRow.userId row = u).
Proof.
  intros R Hu Huser.
  destruct (Inv_weaken (Some u) w (reachable_Inv w R)) as [S D].
  destruct (loadBuckets_sound u w S D Hu Huser) as [E [S' _]].
  set (w1 := afterDefault u w) in *.
  exists (bucketView u w1), (addTrace (viewTrace u w1) w1).
  split; [exact E|]. split.
  - change (Permutation (flat_map Bucket.items (bucketView u w1))
              (map itemOf (filter (inBucketOf u w1) (tasks w1)))).
    apply bucketView_partition. apply (sound_keys _ S').
  - intros b item Hb Hitem. simpl.
    destruct (bucketView_In u w1 b Hb) as (row & Hrow & Hru & Hid & Hname).
    unfold bucketView in Hb. apply in_map_iff in Hb as (row' & <- & _).
    simpl in Hitem, Hid, Hname. rewrite items_of_bucket in Hitem.
    apply in_map_iff in Hitem as (t & <- & Ht).
    apply filter_In in Ht as [Ht Ek]. apply String.eqb_eq in Ek.
    unfold taskRowsOf in Ht. apply orderBy_In, filter_In in Ht as [Ht _].
    exists t, row. repeat split; try assumption. congruence.
Qed.

Lemma loadBuckets_shows_each_task_once_witness :
  exists bs w',
    loadBuckets "u1" twoUsers = (Ok bs, w')
    /\ Permutation (flat_map Bucket.items bs)
         (map itemOf (filter (inBucketOf "u1" w') (tasks w')))
    /\ (forall b item,
           In b bs -> In item (Bucket.items b) ->
           exists t row,
             In t (tasks w') /\ In row (buckets w')
             /\ item = itemOf t
             /\ TaskRow.bucketId t = BucketRow.id row
             /\ BucketRow.id row = Bucket.id b
             /\ BucketRow.name row = Bucket.name b
             /\ BucketRow.userId row = "u1").
Proof.
  apply (loadBuckets_shows_each_task_once "u1" twoUsers).
  - apply Reachability.reachable_twoUsers.
  - discriminate.
  - reflexivity.
Defined.

End ViewFacts.

Module GroupFacts.
Import OrderFacts.

Lemma groupAdd_keys (k : string) (e : CalendarTask.t)
    (g : list (string * list CalendarTask.t)) :
  map fst (groupAdd k e g)
  = if existsb (fun k' => String.eqb k' k) (map fst g) then map fst g
    else map fst g ++ [k].
Proof.
  induction g as [|[k' es] g IH]; simpl; [reflexivity|].
  destruct (String.eqb k' k); simpl; [reflexivity|].
  rewrite IH. now destruct (existsb _ (map fst g)).
Qed.

Lemma groupAdd_NoDup (k : string) (e : CalendarTask.t)
    (g : list (string * list CalendarTask.t)) :
  NoDup (map fst g) -> NoDup (map fst (groupAdd k e g)).
Proof.
  intros H. rewrite groupAdd_keys.
  destruct (existsb _ (map fst g)) eqn:E; [exact H|].
  apply TableFacts.NoDup_snoc; [exact H|]. intros Hin.
  assert (existsb (fun k' => String.eqb k' k) (map fst g) = true);
    [|congruence].
  apply existsb_exists. exists k. split; [exact Hin | apply String.eqb_refl].
Qed.

Lemma groupAdd_In (k : string) (e : CalendarTask.t)
    (g : list (string * list CalendarTask.t)) (k' : string)
    (es : list CalendarTask.t) :
  In (k', es) (groupAdd k e g) ->
  In (k', es) g
  \/ (k' = k /\ exists old, es = old ++ [e] /\ (old = [] \/ In (k, old) g)).
Proof.
  induction g as [|[k0 es0] g IH]; simpl.
  - intros [H|[]]. injection H as <- <-. right. split; [reflexivity|].
    exists []. auto.
  - destruct (String.eqb_spec k0 k) as [->|Hne]; simpl.
    + intros [H|H]; [|auto]. injection H as <- <-. right.
      split; [reflexivity|]. exists es0. auto.
    + intros [H|H]; [auto|]. apply IH in H as [H|(-> & old & -> & H)]; [auto|].
      right. split; [reflexivity|]. exists old. split; [reflexivity|].
      destruct H; auto.
Qed.

Lemma groupAdd_entries (k : string) (e : CalendarTask.t)
    (g : list (string * list CalendarTask.t)) :
  Permutation (flat_map snd (groupAdd k e g)) (e :: flat_map snd g).
Proof.
  induction g as [|[k0 es0] g IH]; simpl; [reflexivity|].
  destruct (String.eqb k0 k); simpl.
  - rewrite <- app_assoc. simpl. symmetry. apply Permutation_middle.
  - rewrite IH. symmetry. apply Permutation_middle.
Qed.

Lemma groupAdd_wellGrouped (k : string) (e : CalendarTask.t)
    (g : list (string * list CalendarTask.t)) :
  CalendarTask.dueDate e = Some k -> wellGrouped g ->
  wellGrouped (groupAdd k e g).
Proof.
  intros He [Hnd Hg]. split; [now apply groupAdd_NoDup|].
  intros k' es Hin. apply groupAdd_In in Hin as [Hin|(-> & old & -> & Hold)].
  - now apply Hg.
  - split; [now destruct old|]. intros e' He'.
    apply in_app_iff in He' as [He'|[<-|[]]]; [|exact He].
    destruct Hold as [->|Hold]; [destruct He'|].
    now apply (proj2 (Hg k old Hold)).
Qed.

Lemma fold_groupAdd (entries : list (string * CalendarTask.t)) :
  forall g,
    (forall p, In p entries -> CalendarTask.dueDate (snd p) = Some (fst p)) ->
    wellGrouped g ->
    let g' := fold_left (fun grouped p => groupAdd (fst p) (snd p) grouped)
                entries g in
    wellGrouped g'
    /\ Permutation (flat_map snd g') (flat_map snd g ++ map snd entries).
Proof.
  induction entries as [|p entries IH]; intros g He Hg; simpl.
  - split; [exact Hg|]. now rewrite app_nil_r.
  - destruct (IH (groupAdd (fst p) (snd p) g)) as [H1 H2].
    + intros q Hq. apply He. now right.
    + apply groupAdd_wellGrouped; [apply He; now left | exact Hg].
    + split; [exact H1|]. cbv zeta in H2. rewrite H2, groupAdd_entries.
      simpl. now rewrite <- Permutation_middle.
Qed.

End GroupFacts.

Module CalendarTheorems.
Import WorldFacts InvFacts TableFacts LoadFacts CalendarFacts NoOpFacts
       OrderFacts GroupFacts.

Lemma calendarView_wellGrouped (u : string) (w : World) :
  wellGrouped (calendarView u w)
  /\ Permutation (flat_map snd (calendarView u w))
       (if JsString.isEmpty u then []
        else map (fun row => entryOf (Some (dateKey row)) row)
               (calendarRows u w)).
Proof.
  unfold calendarView. destruct (JsString.isEmpty u).
  - split; [|reflexivity]. split; [constructor | intros k es []].
  - destruct (fold_groupAdd
                (map (fun row => (dateKey row, entryOf (Some (dateKey row)) row))
                   (calendarRows u w)) []) as [H1 H2].
    + intros p Hp. apply in_map_iff in Hp as (row & <- & _). reflexivity.
    + split; [constructor | intros k es []].
    + split; [exact H1|]. cbv zeta in H2. simpl in H2.
      now rewrite map_map in H2.
Qed.

(** X6.  [loadCalendarTasks] only reads, and unlike [loadBuckets] it never
    creates the default bucket: both tables and the list of writes stay as
    they are, and it never throws.  In its result no date key occurs
    twice, no group is empty, and every entry carries the key of its group
    as its due date (the text "unscheduled" for a task without one). *)
Theorem loadCalendarTasks_groups_by_date (u : string) (w : World) :
  exists grouped w',
    loadCalendarTasks u w = (Ok grouped, w')
    /\ buckets w' = buckets w /\ tasks w' = tasks w /\ writes w' = writes w
    /\ NoDup (map fst grouped)
    /\ (forall k es, In (k, es) grouped ->
          es <> []
          /\ forall e, In e es -> CalendarTask.dueDate e = Some k).
Proof.
  exists (calendarView u w), (addTrace (calendarTrace u w) w).
  split; [apply loadCalendarTasks_eq|].
  split; [reflexivity|]. split; [reflexivity|].
  split; [apply writes_addTrace_categorize, calendarTrace_categorize|].
  exact (proj1 (calendarView_wellGrouped u w)).
Qed.

Lemma flat_map_filter {A} (f : A -> list A) (p : A -> bool) (l : list A) :
  (forall x, In x l -> f x = if p x then [x] else []) ->
  flat_map f l = filter p l.
Proof.
  induction l as [|x l IH]; simpl; intros H; [reflexivity|].
  rewrite (H x (or_introl eq_refl)), IH by auto. now destruct (p x).
Qed.

(** With unique bucket ids the join pairs a task with at most one bucket. *)
Lemma join_once (t : TaskRow.t) (p : BucketRow.t -> bool)
    (bs : list BucketRow.t) :
  NoDup (map BucketRow.id bs) ->
  map fst (map (fun b => (t, b))
             (filter (fun b => (String.eqb (TaskRow.bucketId t) (BucketRow.id b)
                                && p b)%bool) bs))
  = if existsb (fun b => (String.eqb (TaskRow.bucketId t) (BucketRow.id b)
                          && p b)%bool) bs
    then [t] else [].
Proof.
  induction bs as [|b bs IH]; simpl; intros Hnd; [reflexivity|].
  inversion Hnd as [|? ? Hb Hnd']; subst.
  destruct (String.eqb_spec (TaskRow.bucketId t) (BucketRow.id b)) as [E|_];
    simpl; [|now apply IH].
  destruct (p b); simpl; [|now apply IH].
  rewrite (IH Hnd'). destruct (existsb _ bs) eqn:Ex; [|reflexivity].
  apply existsb_exists in Ex as (b' & Hb' & E').
  apply andb_true_iff in E' as [E' _]. apply String.eqb_eq in E'.
  exfalso. apply Hb. rewrite <- E, E'. now apply in_map.
Qed.

Lemma calendarRows_tasks (u : string) (w : World) :
  NoDup (map BucketRow.id (buckets w)) ->
  Permutation (map fst (calendarRows u w)) (filter (inBucketOf u w) (tasks w)).
Proof.
  intros Hnd. unfold calendarRows. rewrite orderBy_perm.
  rewrite flat_map_concat_map, concat_map, map_map, <- flat_map_concat_map.
  rewrite (flat_map_filter _ (inBucketOf u w)); [reflexivity|].
  intros t _. now apply join_once.
Qed.

(** X7.  The calendar is complete.  In a reachable world the entries of
    all groups are, one for one, the stored tasks that sit in a bucket of
    the user: no task of the user is left out, none is shown twice, and no
    task of another user is shown. *)
Theorem loadCalendarTasks_shows_each_task_once (u : string) (w : World) :
  reachable w -> u <> "" ->
  exists grouped w',
    loadCalendarTasks u w = (Ok grouped, w')
    /\ Permutation (map CalendarTask.id (flat_map snd grouped))
         (map TaskRow.id (filter (inBucketOf u w) (tasks w))).
Proof.
  intros R Hu.
  destruct (Reachability.reachable_Inv w R) as [S _].
  exists (calendarView u w), (addTrace (calendarTrace u w) w).
  split; [apply loadCalendarTasks_eq|].
  destruct (calendarView_wellGrouped u w) as [_ H].
  rewrite (proj2 (isEmpty_false u) Hu) in H. rewrite H, map_map. simpl.
  rewrite <- (map_map fst TaskRow.id).
  apply Permutation_map, calendarRows_tasks, (sound_keys w S).
Qed.

Lemma loadCalendarTasks_shows_each_task_once_witness :
  exists grouped w',
    loadCalendarTasks "u1" twoUsers = (Ok grouped, w')
    /\ Permutation (map CalendarTask.id (flat_map snd grouped))
         (map TaskRow.id (filter (inBucketOf "u1" twoUsers) (tasks twoUsers))).
Proof.
  apply (loadCalendarTasks_shows_each_task_once "u1" twoUsers).
  - apply Reachability.reachable_twoUsers.
  - discriminate.
Defined.

End CalendarTheorems.

Module UpdateTaskTheorems.
Import WorldFacts InvFacts TableFacts LoadFacts MutationFacts CalendarFacts
       NoOpFacts Lookup.

Lemma ownsTask_hasTaskId (u i : string) (w : World) :
  ownsTask u i w = true -> Db.hasTaskId i w = true.
Proof.
  unfold ownsTask, Db.hasTaskId. intros H.
  apply existsb_exists in H as (t & Ht & H).
  apply existsb_exists in H as (b & _ & H).
  apply andb_true_iff in H as [_ H]. apply andb_true_iff in H as [H _].
  apply existsb_exists. eauto.
Qed.

(** What the UPDATE statement does to the task table. *)
Lemma tasks_updateTask (i : string) (a d : option string) (due : option Z)
    (b : option string) (now : Z) (w : World) :
  Forall2
    (fun t t' =>
       TaskRow.id t' = TaskRow.id t /\ TaskRow.raw t' = TaskRow.raw t
       /\ TaskRow.createdAt t' = TaskRow.createdAt t
       /\ (TaskRow.id t <> i -> t' = t)
       /\ (a = None -> TaskRow.assignmentName t' = TaskRow.assignmentName t)
       /\ (d = None -> TaskRow.description t' = TaskRow.description t)
       /\ (due = None -> TaskRow.dueDate t' = TaskRow.dueDate t)
       /\ (b = None -> TaskRow.bucketId t' = TaskRow.bucketId t)
       /\ (TaskRow.dueDate t <> None -> TaskRow.dueDate t' <> None))
    (tasks w) (tasks (snd (Db.updateTask i a d due b now w))).
Proof.
  unfold Db.updateTask.
  destruct (Db.hasTaskId i w && _)%bool; simpl.
  - induction (tasks w); constructor; [|assumption]. repeat split; auto.
  - induction (tasks w) as [|t l IH]; simpl; constructor; [|exact IH].
    destruct (String.eqb_spec (TaskRow.id t) i) as [E|E]; simpl.
    + repeat split; try (now intros ->); try congruence.
      destruct due; [discriminate | auto].
    + repeat split; auto.
Qed.

Lemma tasks_loadCalendarTasks (u : string) (w : World) :
  tasks (snd (loadCalendarTasks u w)) = tasks w
  /\ buckets (snd (loadCalendarTasks u w)) = buckets w.
Proof. rewrite loadCalendarTasks_eq. split; reflexivity. Qed.

(** X8.  [updateTask] edits in place.  Whatever the request, and whether it
    succeeds or throws, the task table keeps its rows in their order:
    none is created or deleted, and id, original text and creation time
    stay.  A row with another id is not touched.  A field left out of the
    update keeps its value, and so does the due date when the date text is
    missing, empty or not a date; a due date that is set is never cleared. *)
Theorem updateTask_edits_in_place (env : Env) (u i : string)
    (up : TaskUpdates.t) (w : World) :
  Forall2
    (fun t t' =>
       TaskRow.id t' = TaskRow.id t /\ TaskRow.raw t' = TaskRow.raw t
       /\ TaskRow.createdAt t' = TaskRow.createdAt t
       /\ (TaskRow.id t <> i -> t' = t)
       /\ (TaskUpdates.assignmentName up = None ->
           TaskRow.assignmentName t' = TaskRow.assignmentName t)
       /\ (TaskUpdates.description up = None ->
           TaskRow.description t' = TaskRow.description t)
       /\ (composeDueDate env (TaskUpdates.dueDate up) (TaskUpdates.dueTime up)
           = None ->
           TaskRow.dueDate t' = TaskRow.dueDate t)
       /\ (TaskUpdates.bucketId up = None ->
           TaskRow.bucketId t' = TaskRow.bucketId t)
       /\ (TaskRow.dueDate t <> None -> TaskRow.dueDate t' <> None))
    (tasks w) (tasks (snd (updateTask env u i up w))).
Proof.
  assert (Hsame : forall w', tasks w' = tasks w ->
            Forall2 (fun t t' =>
              TaskRow.id t' = TaskRow.id t /\ TaskRow.raw t' = TaskRow.raw t
              /\ TaskRow.createdAt t' = TaskRow.createdAt t
              /\ (TaskRow.id t <> i -> t' = t)
              /\ (TaskUpdates.assignmentName up = None ->
                  TaskRow.assignmentName t' = TaskRow.assignmentName t)
              /\ (TaskUpdates.description up = None ->
                  TaskRow.description t' = TaskRow.description t)
              /\ (composeDueDate env (TaskUpdates.dueDate up)
                    (TaskUpdates.dueTime up) = None ->
                  TaskRow.dueDate t' = TaskRow.dueDate t)
              /\ (TaskUpdates.bucketId up = None ->
                  TaskRow.bucketId t' = TaskRow.bucketId t)
              /\ (TaskRow.dueDate t <> None -> TaskRow.dueDate t' <> None))
              (tasks w) (tasks w')).
  { intros w' ->. induction (tasks w); constructor; [|assumption].
    repeat split; auto. }
  rewrite updateTask_eq.
  destruct (JsString.isEmpty u || JsString.isEmpty i)%bool;
    [apply Hsame, tasks_loadCalendarTasks|].
  destruct (ownsTask u i w); [|apply Hsame, tasks_loadCalendarTasks].
  assert (Edue : (if JsString.truthy (TaskUpdates.dueDate up)
                  then composeDueDate env (TaskUpdates.dueDate up)
                         (TaskUpdates.dueTime up)
                  else None)
                 = composeDueDate env (TaskUpdates.dueDate up)
                     (TaskUpdates.dueTime up)).
  { unfold composeDueDate. now destruct (JsString.truthy _). }
  rewrite Edue. unfold bind.
  pose proof (tasks_updateTask i (TaskUpdates.assignmentName up)
                (TaskUpdates.description up)
                (composeDueDate env (TaskUpdates.dueDate up)
                   (TaskUpdates.dueTime up))
                (TaskUpdates.bucketId up) (clock w) w) as H.
  destruct (Db.updateTask _ _ _ _ _ _ w) as [[[]|e] w1]; simpl in H |- *;
    [|exact H].
  now rewrite (proj1 (tasks_loadCalendarTasks u w1)).
Qed.

(** X9.  A destination that is not stored.  When the caller owns the task
    and asks to move it to a bucket id that names no bucket row, the
    update fails on the foreign key: [updateTask] throws and the world,
    tables and trace, is as before. *)
Theorem updateTask_unknown_bucket_throws (env : Env) (u i k : string)
    (up : TaskUpdates.t) (w : World) :
  u <> "" -> i <> "" -> ownsTask u i w = true ->
  TaskUpdates.bucketId up = Some k -> Db.hasBucketId k w = false ->
  updateTask env u i up w = (Thrown ForeignKeyViolation, w).
Proof.
  intros Hu Hi Ho Hk Hb. rewrite updateTask_eq, Ho.
  rewrite (proj2 (isEmpty_false u) Hu), (proj2 (isEmpty_false i) Hi).
  cbn [orb]. unfold bind, Db.updateTask.
  now rewrite (ownsTask_hasTaskId u i w Ho), Hk, Hb.
Qed.

Lemma updateTask_unknown_bucket_throws_witness :
  updateTask quietEnv "u1" "uuid-2"
    (TaskUpdates.mk None None None None (Some "nowhere")) twoUsers
  = (Thrown ForeignKeyViolation, twoUsers).
Proof.
  apply (updateTask_unknown_bucket_throws quietEnv "u1" "uuid-2" "nowhere").
  - discriminate.
  - discriminate.
  - vm_compute. reflexivity.
  - reflexivity.
  - vm_compute. reflexivity.
Defined.

End UpdateTaskTheorems.

Module OwnershipFacts.
Import WorldFacts InvFacts TableFacts LoadFacts MutationFacts CalendarFacts
       AssignFacts NoOpFacts OrderFacts GroupFacts CalendarTheorems.

Lemma ownsTask_iff (u i : string) (w : World) :
  ownsTask u i w = true
  <-> exists t b, In t (tasks w) /\ In b (buckets w)
                  /\ TaskRow.bucketId t = BucketRow.id b
                  /\ TaskRow.id t = i /\ BucketRow.userId b = u.
Proof.
  unfold ownsTask. rewrite existsb_exists. split.
  - intros (t & Ht & H). apply existsb_exists in H as (b & Hb & H).
    apply andb_true_iff in H as [E1 H]. apply andb_true_iff in H as [E2 E3].
    apply String.eqb_eq in E1, E2, E3. eauto 8.
  - intros (t & b & Ht & Hb & E1 & E2 & E3). exists t. split; [exact Ht|].
    apply existsb_exists. exists b. split; [exact Hb|].
    now rewrite E1, E2, E3, !String.eqb_refl.
Qed.

Lemma ownsTask_tables (u i : string) (w w' : World) :
  buckets w' = buckets w -> tasks w' = tasks w ->
  ownsTask u i w' = ownsTask u i w.
Proof. unfold ownsTask. now intros -> ->. Qed.

Lemma calendarRows_In (u : string) (w : World) (row : TaskRow.t * BucketRow.t) :
  In row (calendarRows u w)
  <-> In (fst row) (tasks w) /\ In (snd row) (buckets w)
      /\ TaskRow.bucketId (fst row) = BucketRow.id (snd row)
      /\ BucketRow.userId (snd row) = u.
Proof.
  unfold calendarRows. rewrite orderBy_In, in_flat_map. split.
  - intros (t & Ht & H). apply in_map_iff in H as (b & <- & Hb).
    apply filter_In in Hb as [Hb E]. apply andb_true_iff in E as [E1 E2].
    apply String.eqb_eq in E1, E2. simpl. auto.
  - intros (Ht & Hb & E1 & E2). exists (fst row). split; [exact Ht|].
    apply in_map_iff. exists (snd row). split; [now destruct row|].
    apply filter_In. split; [exact Hb|]. now rewrite E1, E2, !String.eqb_refl.
Qed.

(** Every entry of the calendar stands for a task that the user owns. *)
Lemma calendar_entry_owned (u : string) (w : World) (k : string)
    (es : list CalendarTask.t) (e : CalendarTask.t) :
  In (k, es) (calendarView u w) -> In e es ->
  ownsTask u (CalendarTask.id e) w = true.
Proof.
  intros Hg He.
  assert (Hin : In e (flat_map snd (calendarView u w))).
  { apply in_flat_map. exists (k, es). auto. }
  destruct (calendarView_wellGrouped u w) as [_ P].
  apply (Permutation_in _ P) in Hin.
  destruct (JsString.isEmpty u); [destruct Hin|].
  apply in_map_iff in Hin as (row & <- & Hrow).
  apply calendarRows_In in Hrow as (Ht & Hb & E1 & E2).
  apply ownsTask_iff. exists (fst row), (snd row). simpl. auto.
Qed.

(** Every item of the bucket view stands for a task that the user owns. *)
Lemma view_item_owned (u : string) (w : World) (b : Bucket.t)
    (item : TaskItem.t) :
  In b (bucketView u w) -> In item (Bucket.items b) ->
  ownsTask u (TaskItem.id item) w = true.
Proof.
  intros Hb Hitem.
  destruct (bucketView_In u w b Hb) as (row & Hrow & Hu & Hid & _).
  unfold bucketView in Hb. apply in_map_iff in Hb as (row' & <- & _).
  simpl in Hitem, Hid. rewrite ViewFacts.items_of_bucket in Hitem.
  apply in_map_iff in Hitem as (t & <- & Ht).
  apply filter_In in Ht as [Ht Ek]. apply String.eqb_eq in Ek.
  unfold taskRowsOf in Ht. apply orderBy_In, filter_In in Ht as [Ht _].
  apply ownsTask_iff. exists t, row. repeat split; auto. congruence.
Qed.

End OwnershipFacts.

Module MoveTheorem.
Import WorldFacts InvFacts TableFacts LoadFacts MutationFacts CalendarFacts
       NoOpFacts OwnershipFacts UpdateTaskTheorems.

(** X10.  The destination of a move is not checked for its owner.  When the
    caller owns the task and names, as the new bucket, a stored bucket of
    another user, [updateTask] succeeds: afterwards the other user owns
    the task, the caller does not, and the calendar returned to the caller
    no longer shows it. *)
Theorem updateTask_moves_into_foreign_bucket (env : Env) (u i : string)
    (up : TaskUpdates.t) (b : BucketRow.t) (w : World) :
  reachable w -> u <> "" -> i <> "" -> ownsTask u i w = true ->
  In b (buckets w) -> BucketRow.userId b <> u ->
  TaskUpdates.bucketId up = Some (BucketRow.id b) ->
  exists grouped w',
    updateTask env u i up w = (Ok grouped, w')
    /\ ownsTask u i w' = false
    /\ ownsTask (BucketRow.userId b) i w' = true
    /\ forall k es e, In (k, es) grouped -> In e es -> CalendarTask.id e <> i.
Proof.
  intros R Hu Hi Ho Hb Hv Hk.
  destruct (Reachability.reachable_Inv w R) as [S _].
  rewrite updateTask_eq, Ho.
  rewrite (proj2 (isEmpty_false u) Hu), (proj2 (isEmpty_false i) Hi).
  cbn [orb]. unfold bind.
  assert (Hex : Db.hasBucketId (BucketRow.id b) w = true).
  { apply hasBucketId_In. now apply in_map. }
  unfold Db.updateTask at 1. rewrite Hk, Hex, andb_false_r.
  match goal with
  | |- context [loadCalendarTasks u ?x] => set (w1 := x)
  end.
  rewrite loadCalendarTasks_eq.
  assert (Hmoved : forall t', In t' (tasks w1) -> TaskRow.id t' = i ->
                     TaskRow.bucketId t' = BucketRow.id b).
  { intros t' Ht' Ei. unfold w1 in Ht'. simpl in Ht'.
    apply in_map_iff in Ht' as (t & <- & Ht).
    destruct (String.eqb_spec (TaskRow.id t) i) as [E|E]; [reflexivity|].
    now simpl in Ei. }
  assert (Hno : ownsTask u i w1 = false).
  { destruct (ownsTask u i w1) eqn:E; [|reflexivity].
    apply ownsTask_iff in E as (t' & b' & Ht' & Hb' & E1 & E2 & E3).
    exfalso. apply Hv. rewrite <- E3. f_equal.
    apply (same_key_same_row (buckets w)); try assumption;
      [apply (sound_keys w S)|].
    rewrite <- E1. symmetry. now apply Hmoved. }
  eexists _, _. split; [reflexivity|].
  split; [|split].
  - now rewrite (ownsTask_tables u i w1 (addTrace _ w1) eq_refl eq_refl).
  - rewrite (ownsTask_tables _ i w1 (addTrace _ w1) eq_refl eq_refl).
    apply ownsTask_iff in Ho as (t & b0 & Ht & _ & _ & E2 & _).
    apply ownsTask_iff.
    exists (TaskRow.mk (TaskRow.id t) (BucketRow.id b) (TaskRow.raw t)
              (match TaskUpdates.assignmentName up with
               | Some x => Some x | None => TaskRow.assignmentName t end)
              (match TaskUpdates.description up with
               | Some x => Some x | None => TaskRow.description t end)
              (match (if JsString.truthy (TaskUpdates.dueDate up)
                      then composeDueDate env (TaskUpdates.dueDate up)
                             (TaskUpdates.dueTime up)
                      else None) with
               | Some x => Some x | None => TaskRow.dueDate t end)
              (TaskRow.createdAt t) (clock w)), b.
    repeat split; try assumption. unfold w1. simpl.
    apply in_map_iff. exists t. split; [|exact Ht].
    now rewrite E2, String.eqb_refl.
  - intros k es e Hg He Ee.
    pose proof (calendar_entry_owned u w1 k es e Hg He) as H.
    rewrite Ee in H. congruence.
Qed.

Lemma updateTask_moves_into_foreign_bucket_witness :
  exists grouped w',
    updateTask quietEnv "u1" "uuid-2"
      (TaskUpdates.mk None None None None (Some "uuid-3")) twoUsers
    = (Ok grouped, w')
    /\ ownsTask "u1" "uuid-2" w' = false
    /\ ownsTask "u2" "uuid-2" w' = true
    /\ forall k es e,
         In (k, es) grouped -> In e es -> CalendarTask.id e <> "uuid-2".
Proof.
  apply (updateTask_moves_into_foreign_bucket quietEnv "u1" "uuid-2"
           (TaskUpdates.mk None None None None (Some "uuid-3"))
           (BucketRow.mk "uuid-3" "Maths" "u2" 0%Z 0%Z) twoUsers).
  - apply Reachability.reachable_twoUsers.
  - discriminate.
  - discriminate.
  - vm_compute. reflexivity.
  - vm_compute. auto.
  - discriminate.
  - reflexivity.
Defined.

End MoveTheorem.


Module SortFacts.
Import AssignFacts Resolution.

Lemma filter_filter_and {A} (p q : A -> bool) (l : list A) :
  filter p (filter q l) = filter (fun x => (p x && q x)%bool) l.
Proof.
  induction l as [|x l IH]; simpl; [reflexivity|].
  destruct (q x); simpl; rewrite ?andb_true_r, ?andb_false_r;
    [destruct (p x)|]; now rewrite IH.
Qed.

Lemma filter_swap {A} (p q : A -> bool) (l : list A) :
  filter p (filter q l) = filter q (filter p l).
Proof.
  rewrite !filter_filter_and. apply filter_ext. intros x. apply andb_comm.
Qed.

Lemma filter_map_swap {A B} (f : A -> B) (p : B -> bool) (l : list A) :
  filter p (map f l) = map f (filter (fun x => p (f x)) l).
Proof.
  induction l as [|x l IH]; simpl; [reflexivity|].
  destruct (p (f x)); simpl; now rewrite IH.
Qed.

Section Order.
Context {A : Type} (leb : A -> A -> bool).

(** Sorting commutes with a change of the rows that keeps the order. *)
Lemma orderBy_map (f : A -> A) (l : list A) :
  (forall a b, leb (f a) (f b) = leb a b) ->
  orderBy leb (map f l) = map f (orderBy leb l).
Proof.
  intros Hf.
  assert (Hins : forall x m, insertBy leb (f x) (map f m)
                             = map f (insertBy leb x m)).
  { intros x m. induction m as [|y m IH]; simpl; [reflexivity|].
    rewrite Hf. destruct (leb x y); simpl; [reflexivity | now rewrite IH]. }
  induction l as [|x l IH]; simpl; [reflexivity|]. now rewrite IH, Hins.
Qed.

Hypothesis leb_total : forall a b, leb a b = false -> leb b a = true.
Hypothesis leb_trans :
  forall a b c, leb a b = true -> leb b c = true -> leb a c = true.

Lemma insertBy_front (x : A) (l : list A) :
  (forall y, In y l -> leb x y = true) -> insertBy leb x l = x :: l.
Proof.
  destruct l as [|y l]; simpl; [reflexivity|]. intros H.
  now rewrite (H y (or_introl eq_refl)).
Qed.

Lemma filter_insertBy (p : A -> bool) (x : A) (l : list A) :
  StronglySorted (fun a b => leb a b = true) l ->
  filter p (insertBy leb x l)
  = if p x then insertBy leb x (filter p l) else filter p l.
Proof.
  induction 1 as [|y l Hs IH Hy]; simpl.
  - now destruct (p x).
  - destruct (leb x y) eqn:E; simpl.
    + destruct (p x) eqn:Ex; [|reflexivity].
      rewrite insertBy_front; [reflexivity|].
      intros z Hz.
      assert (Hz' : In z (y :: l)).
      { destruct (p y); [destruct Hz as [<-|Hz]; [now left|]|];
          right; now apply filter_In in Hz as [Hz _]. }
      destruct Hz' as [<-|Hz']; [exact E|].
      apply (leb_trans x y z E). now apply (proj1 (Forall_forall _ _) Hy).
    + rewrite IH. destruct (p y), (p x); simpl; try reflexivity.
      now rewrite E.
Qed.

(** Sorting commutes with a selection of the rows. *)
Lemma orderBy_filter (p : A -> bool) (l : list A) :
  filter p (orderBy leb l) = orderBy leb (filter p l).
Proof.
  induction l as [|x l IH]; simpl; [reflexivity|].
  rewrite filter_insertBy by now apply orderBy_sorted.
  rewrite IH. now destruct (p x).
Qed.

End Order.

Lemma byCreatedAt_total (a b : BucketRow.t) :
  Db.byCreatedAt a b = false -> Db.byCreatedAt b a = true.
Proof. unfold Db.byCreatedAt. lia. Qed.

Lemma byCreatedAt_trans (a b c : BucketRow.t) :
  Db.byCreatedAt a b = true -> Db.byCreatedAt b c = true ->
  Db.byCreatedAt a c = true.
Proof. unfold Db.byCreatedAt. lia. Qed.

Lemma taskByCreatedAt_total (a b : TaskRow.t) :
  Db.taskByCreatedAt a b = false -> Db.taskByCreatedAt b a = true.
Proof. unfold Db.taskByCreatedAt. lia. Qed.

Lemma taskByCreatedAt_trans (a b c : TaskRow.t) :
  Db.taskByCreatedAt a b = true -> Db.taskByCreatedAt b c = true ->
  Db.taskByCreatedAt a c = true.
Proof. unfold Db.taskByCreatedAt. lia. Qed.

End SortFacts.

Module ViewChange.
Import WorldFacts InvFacts TableFacts LoadFacts MutationFacts AssignFacts
       Preservation SortFacts ViewFacts.

Lemma taskRows_filter (p : TaskRow.t -> bool) (l : list TaskRow.t) :
  filter p (orderBy Db.taskByCreatedAt l) = orderBy Db.taskByCreatedAt (filter p l).
Proof.
  apply orderBy_filter; [apply taskByCreatedAt_total | apply taskByCreatedAt_trans].
Qed.

Lemma bucketRows_filter (p : BucketRow.t -> bool) (l : list BucketRow.t) :
  filter p (orderBy Db.byCreatedAt l) = orderBy Db.byCreatedAt (filter p l).
Proof.
  apply orderBy_filter; [apply byCreatedAt_total | apply byCreatedAt_trans].
Qed.

(** The view after a task row is deleted. *)
Lemma view_deleteTask (u i : string) (w : World) :
  bucketView u (snd (Db.deleteTask i w)) = map (withoutItem i) (bucketView u w).
Proof.
  unfold bucketView. rewrite map_map.
  change (bucketRowsOf u (snd (Db.deleteTask i w))) with (bucketRowsOf u w).
  assert (ET : taskRowsOf u (snd (Db.deleteTask i w))
               = filter (fun t => negb (String.eqb (TaskRow.id t) i))
                   (taskRowsOf u w)).
  { unfold taskRowsOf.
    change (bucketRowsOf u (snd (Db.deleteTask i w))) with (bucketRowsOf u w).
    simpl. now rewrite taskRows_filter, filter_swap. }
  rewrite ET. apply map_ext. intros row. unfold withoutItem. simpl. f_equal.
  rewrite !items_of_bucket, filter_swap.
  now rewrite (filter_map_swap itemOf
                 (fun item => negb (String.eqb (TaskItem.id item) i))).
Qed.

(** The view after a bucket row is deleted, with its tasks. *)
Lemma view_deleteBucket (u i : string) (w : World) :
  bucketView u (snd (Db.deleteBucket i w))
  = filter (fun x => negb (String.eqb (Bucket.id x) i)) (bucketView u w).
Proof.
  assert (EB : bucketRowsOf u (snd (Db.deleteBucket i w))
               = filter (fun x => negb (String.eqb (BucketRow.id x) i))
                   (bucketRowsOf u w)).
  { unfold bucketRowsOf. simpl. now rewrite bucketRows_filter, filter_swap. }
  unfold bucketView.
  rewrite (filter_map_swap _ (fun x => negb (String.eqb (Bucket.id x) i))).
  rewrite EB. cbn [Bucket.id]. apply map_ext_in. intros row Hrow. f_equal.
  apply filter_In in Hrow as [Hrow Hne].
  rewrite !items_of_bucket. f_equal.
  unfold taskRowsOf. rewrite EB, !taskRows_filter. f_equal. simpl.
  rewrite !filter_filter_and. apply filter_ext. intros t.
  destruct (String.eqb_spec (TaskRow.bucketId t) (BucketRow.id row)) as [E|_];
    [|reflexivity].
  rewrite E. simpl. rewrite Hne.
  assert (H1 : existsb (String.eqb (BucketRow.id row))
                 (map BucketRow.id (bucketRowsOf u w)) = true).
  { apply existsb_exists. exists (BucketRow.id row).
    split; [now apply in_map | apply String.eqb_refl]. }
  assert (H2 : existsb (String.eqb (BucketRow.id row))
                 (map BucketRow.id
                    (filter (fun x => negb (String.eqb (BucketRow.id x) i))
                       (bucketRowsOf u w))) = true).
  { apply existsb_exists. exists (BucketRow.id row).
    split; [|apply String.eqb_refl]. apply in_map, filter_In. auto. }
  now rewrite H1, H2.
Qed.

(** The view after a bucket row is renamed. *)
Lemma view_updateBucket (u i n : string) (now : Z) (w : World) :
  bucketView u (snd (Db.updateBucket i n now w))
  = map (renamed i n) (bucketView u w).
Proof.
  set (upd := fun b : BucketRow.t =>
                if String.eqb (BucketRow.id b) i
                then BucketRow.mk (BucketRow.id b) n (BucketRow.userId b)
                       (BucketRow.createdAt b) now
                else b).
  assert (Hid : forall x, BucketRow.id (upd x) = BucketRow.id x).
  { intros x. unfold upd. now destruct (String.eqb (BucketRow.id x) i). }
  assert (EB : bucketRowsOf u (snd (Db.updateBucket i n now w))
               = map upd (bucketRowsOf u w)).
  { unfold bucketRowsOf. simpl. fold upd.
    rewrite filter_map_swap. rewrite orderBy_map.
    - f_equal. f_equal. apply filter_ext. intros x. unfold upd.
      now destruct (String.eqb (BucketRow.id x) i).
    - intros a b. unfold Db.byCreatedAt, upd.
      now destruct (String.eqb (BucketRow.id a) i),
                   (String.eqb (BucketRow.id b) i). }
  assert (ET : taskRowsOf u (snd (Db.updateBucket i n now w)) = taskRowsOf u w).
  { unfold taskRowsOf. rewrite EB, map_map.
    now rewrite (map_ext _ BucketRow.id Hid). }
  unfold bucketView. rewrite EB, ET, !map_map. apply map_ext. intros row.
  unfold renamed, upd. simpl.
  now destruct (String.eqb (BucketRow.id row) i).
Qed.

Lemma ownsTask_bucket (u i : string) (w : World) :
  ownsTask u i w = true ->
  exists b, In b (buckets w) /\ BucketRow.userId b = u.
Proof.
  intros H. apply OwnershipFacts.ownsTask_iff in H as (t & b & _ & Hb & _ & _ & E).
  eauto.
Qed.

Lemma hasDefault_of_bucket (w : World) (b : BucketRow.t) :
  Inv w -> In b (buckets w) -> hasDefault (BucketRow.userId b) w = true.
Proof. intros [_ D] Hb. apply D; [exact Hb | discriminate]. Qed.

Lemma writes_snoc (w w' : World) (e : Effect) :
  trace w' = trace w ++ [e] -> isWrite e = true ->
  writes w' = writes w ++ [e].
Proof. unfold writes. intros -> He. rewrite filter_app. simpl. now rewrite He. Qed.

End ViewChange.

Module MutationTheorems.
Import WorldFacts InvFacts TableFacts LoadFacts MutationFacts AssignFacts
       Preservation Reachability NoOpFacts ViewChange.

(** X11.  Completing a task.  In a reachable world, when the caller owns
    the task, [completeTask] deletes the rows with this id and nothing
    else: the bucket table is as before, the one write is the deletion,
    and the list returned is the caller's view as it was, with the item
    taken out of its bucket; buckets, their order and all other items are
    unchanged. *)
Theorem completeTask_removes_item (u i : string) (w : World) :
  reachable w -> u <> "" -> i <> "" -> ownsTask u i w = true ->
  exists w',
    completeTask u i w = (Ok (map (withoutItem i) (bucketView u w)), w')
    /\ buckets w' = buckets w
    /\ tasks w'
       = filter (fun t => negb (String.eqb (TaskRow.id t) i)) (tasks w)
    /\ writes w' = writes w ++ [DeleteTask i].
Proof.
  intros R Hu Hi Ho. pose proof (reachable_Inv w R) as I.
  rewrite completeTask_eq, Ho.
  rewrite (proj2 (isEmpty_false u) Hu), (proj2 (isEmpty_false i) Hi).
  cbn [orb].
  destruct (ownsTask_bucket u i w Ho) as (b & Hb & Eb).
  pose proof (hasDefault_of_bucket w b I Hb) as Hd. rewrite Eb in Hd.
  set (w1 := snd (Db.deleteTask i w)).
  assert (Hd1 : hasDefault u w1 = true) by exact Hd.
  rewrite (loadBuckets_read u w1 Hu Hd1).
  eexists. split; [now rewrite <- view_deleteTask|].
  split; [reflexivity|]. split; [reflexivity|].
  rewrite writes_addTrace_categorize by apply viewTrace_categorize.
  now apply writes_snoc.
Qed.

Lemma completeTask_removes_item_witness :
  exists w',
    completeTask "u1" "uuid-2" twoUsers
    = (Ok (map (withoutItem "uuid-2") (bucketView "u1" twoUsers)), w')
    /\ buckets w' = buckets twoUsers
    /\ tasks w'
       = filter (fun t => negb (String.eqb (TaskRow.id t) "uuid-2"))
           (tasks twoUsers)
    /\ writes w' = writes twoUsers ++ [DeleteTask "uuid-2"].
Proof.
  apply (completeTask_removes_item "u1" "uuid-2" twoUsers).
  - apply Reachability.reachable_twoUsers.
  - discriminate.
  - discriminate.
  - vm_compute. reflexivity.
Defined.

(** X12.  Deleting a bucket.  In a reachable world, when the caller owns
    the bucket and its name is not the reserved one, [deleteBucket]
    removes the bucket row and, by the cascade, exactly the tasks of that
    bucket; the one write is the deletion, and the list returned is the
    caller's view as it was without that bucket. *)
Theorem deleteBucket_removes_bucket (u i : string) (b : BucketRow.t)
    (w : World) :
  reachable w -> ownedBucket u i w = Some b ->
  isDefaultBucketName (BucketRow.name b) = false ->
  exists w',
    deleteBucket u i w
    = (Ok (filter (fun x => negb (String.eqb (Bucket.id x) i))
             (bucketView u w)), w')
    /\ buckets w'
       = filter (fun x => negb (String.eqb (BucketRow.id x) i)) (buckets w)
    /\ tasks w'
       = filter (fun t => negb (String.eqb (TaskRow.bucketId t) i)) (tasks w)
    /\ writes w' = writes w ++ [DeleteBucket i].
Proof.
  intros R Ho Hn. pose proof (reachable_Inv w R) as I.
  pose proof (Inv_deleteBucket u i w b I Ho Hn) as I1.
  destruct (ownedBucket_Some u i w b Ho) as (Hb & Ei & Eu).
  destruct I as [S D].
  assert (Hu : u <> "") by (rewrite <- Eu; now apply (sound_owners w S)).
  assert (Hi : JsString.isEmpty i = false).
  { rewrite <- Ei. destruct (sound_bucket_ids w S b Hb) as (k & _ & ->).
    apply uuidOf_nonempty. }
  rewrite deleteBucket_eq, Ho, Hn, Hi, (proj2 (isEmpty_false u) Hu).
  cbn [orb].
  set (w1 := snd (Db.deleteBucket i w)) in *.
  assert (Hd1 : hasDefault u w1 = true).
  { assert (Hd : hasDefault u w = true).
    { rewrite <- Eu. apply D; [exact Hb | discriminate]. }
    apply hasDefault_iff in Hd as (d & Hd & Edu & Edn).
    apply hasDefault_iff. exists d. repeat split; try assumption.
    unfold w1. simpl. apply filter_In. split; [exact Hd|].
    destruct (String.eqb_spec (BucketRow.id d) i) as [E|]; [|reflexivity].
    exfalso. apply isDefaultBucketName_Events in Hn. apply Hn.
    rewrite <- Edn. f_equal.
    apply (same_key_same_row (buckets w)); try assumption;
      [apply (sound_keys w S) | congruence]. }
  rewrite (loadBuckets_read u w1 Hu Hd1).
  eexists. split; [now rewrite <- view_deleteBucket|].
  split; [reflexivity|]. split; [reflexivity|].
  rewrite writes_addTrace_categorize by apply viewTrace_categorize.
  now apply writes_snoc.
Qed.

Lemma deleteBucket_removes_bucket_witness :
  exists w',
    deleteBucket "u1" "uuid-1" twoUsers
    = (Ok (filter (fun x => negb (String.eqb (Bucket.id x) "uuid-1"))
             (bucketView "u1" twoUsers)), w')
    /\ buckets w'
       = filter (fun x => negb (String.eqb (BucketRow.id x) "uuid-1"))
           (buckets twoUsers)
    /\ tasks w'
       = filter (fun t => negb (String.eqb (TaskRow.bucketId t) "uuid-1"))
           (tasks twoUsers)
    /\ writes w' = writes twoUsers ++ [DeleteBucket "uuid-1"].
Proof.
  apply (deleteBucket_removes_bucket "u1" "uuid-1"
           (BucketRow.mk "uuid-1" "Others" "u1" 0%Z 0%Z) twoUsers).
  - apply Reachability.reachable_twoUsers.
  - vm_compute. reflexivity.
  - vm_compute. reflexivity.
Defined.

(** X13.  Renaming a bucket.  In a reachable world, when the caller owns
    the bucket, its name is not the reserved one and the new name is not
    blank, [updateBucketName] changes the name to the trimmed new name and
    nothing else that the view shows: the list returned holds the buckets
    of the caller's view as it was, with the same ids and items and with
    that one bucket renamed; it is in the same order when the creation
    times of the caller's buckets are pairwise different (among rows of
    equal creation time the query fixes no order); the task table is
    untouched and the bucket table holds the same ids. *)
Theorem updateBucketName_renames_in_place (u i n : string) (b : BucketRow.t)
    (w : World) :
  reachable w -> ownedBucket u i w = Some b ->
  isDefaultBucketName (BucketRow.name b) = false -> JsString.trim n <> "" ->
  exists bs w',
    updateBucketName u i n w = (Ok bs, w')
    /\ Permutation bs (map (renamed i (JsString.trim n)) (bucketView u w))
    /\ (NoDup (map BucketRow.createdAt
                 (filter (fun x => String.eqb (BucketRow.userId x) u)
                    (buckets w))) ->
        bs = map (renamed i (JsString.trim n)) (bucketView u w))
    /\ tasks w' = tasks w
    /\ Permutation (map BucketRow.id (buckets w'))
         (map BucketRow.id (buckets w))
    /\ writes w' = writes w ++ [UpdateBucket i (JsString.trim n) (clock w)].
Proof.
  intros R Ho Hn Hname. pose proof (reachable_Inv w R) as I.
  pose proof (Inv_updateBucket u i (JsString.trim n) (clock w) w b I Ho Hn)
    as I1.
  destruct (ownedBucket_Some u i w b Ho) as (Hb & Ei & Eu).
  pose proof I as [S D].
  assert (Hu : u <> "") by (rewrite <- Eu; now apply (sound_owners w S)).
  assert (Hi : JsString.isEmpty i = false).
  { rewrite <- Ei. destruct (sound_bucket_ids w S b Hb) as (k & _ & ->).
    apply uuidOf_nonempty. }
  rewrite updateBucketName_eq, Ho, Hn, Hi, (proj2 (isEmpty_false u) Hu),
    (proj2 (isEmpty_false _) Hname).
  cbn [orb].
  set (w1 := snd (Db.updateBucket i (JsString.trim n) (clock w) w)) in *.
  assert (Hd1 : hasDefault u w1 = true).
  { rewrite <- Eu.
    assert (Hb1 : In (BucketRow.mk (BucketRow.id b) (JsString.trim n)
                        (BucketRow.userId b) (BucketRow.createdAt b) (clock w))
                    (buckets w1)).
    { unfold w1. simpl. apply in_map_iff. exists b. split; [|exact Hb].
      now rewrite Ei, String.eqb_refl. }
    exact (hasDefault_of_bucket w1 _ I1 Hb1). }
  rewrite (loadBuckets_read u w1 Hu Hd1).
  assert (Ev : bucketView u w1
               = map (renamed i (JsString.trim n)) (bucketView u w)).
  { now rewrite <- (view_updateBucket u i (JsString.trim n) (clock w) w). }
  eexists _, _. split; [reflexivity|].
  split; [now rewrite Ev|]. split; [intros _; exact Ev|].
  split; [reflexivity|]. split.
  - simpl. rewrite map_map.
    erewrite map_ext; [reflexivity|]. intros x. simpl.
    now destruct (String.eqb (BucketRow.id x) i).
  - rewrite writes_addTrace_categorize by apply viewTrace_categorize.
    now apply writes_snoc.
Qed.

(** In [laterBucket] the bucket "Maths" (uuid-1) of "u1" is a second
    younger than the bucket "Events". *)
Lemma updateBucketName_renames_in_place_witness :
  map BucketRow.createdAt (buckets laterBucket) = [0; 1000]%Z
  /\ exists w',
       updateBucketName "u1" "uuid-1" " Algebra " laterBucket
       = (Ok (map (renamed "uuid-1" "Algebra") (bucketView "u1" laterBucket)),
          w')
       /\ tasks w' = tasks laterBucket
       /\ writes w'
          = writes laterBucket
              ++ [UpdateBucket "uuid-1" "Algebra" (clock laterBucket)].
Proof.
  split; [vm_compute; reflexivity|].
  destruct (updateBucketName_renames_in_place "u1" "uuid-1" " Algebra "
              (BucketRow.mk "uuid-1" "Maths" "u1" 1000%Z 1000%Z) laterBucket)
    as (bs & w' & E & _ & Hsame & Ht & _ & Hw).
  - repeat apply reachable_serve. apply reachable_initial.
  - vm_compute. reflexivity.
  - vm_compute. reflexivity.
  - vm_compute. discriminate.
  - exists w'. rewrite E. split; [|split; assumption].
    f_equal. f_equal. apply Hsame. vm_compute.
    repeat constructor; simpl; intuition discriminate.
Defined.

End MutationTheorems.

Module CreateTheorem.
Import WorldFacts InvFacts TableFacts LoadFacts MutationFacts AssignFacts
       Preservation Reachability NoOpFacts SortFacts ViewFacts ViewChange
       Integrity.

(** The items shown under a bucket depend on the tasks alone. *)
Lemma items_frame (u : string) (w w' : World) (row : BucketRow.t) :
  tasks w' = tasks w ->
  In row (bucketRowsOf u w) -> In row (bucketRowsOf u w') ->
  filter (fun t => String.eqb (TaskRow.bucketId t) (BucketRow.id row))
    (taskRowsOf u w')
  = filter (fun t => String.eqb (TaskRow.bucketId t) (BucketRow.id row))
      (taskRowsOf u w).
Proof.
  intros Et H H'. unfold taskRowsOf. rewrite !taskRows_filter, Et. f_equal.
  rewrite !filter_filter_and. apply filter_ext. intros t.
  destruct (String.eqb_spec (TaskRow.bucketId t) (BucketRow.id row)) as [E|_];
    [|reflexivity].
  rewrite E. simpl.
  assert (Hin : forall x, In row (bucketRowsOf u x) ->
                  existsb (String.eqb (BucketRow.id row))
                    (map BucketRow.id (bucketRowsOf u x)) = true).
  { intros x Hx. apply existsb_exists. exists (BucketRow.id row).
    split; [now apply in_map | apply String.eqb_refl]. }
  now rewrite (Hin w H), (Hin w' H').
Qed.

(** A bucket of the view stays as it is when buckets are added. *)
Lemma view_frame (u : string) (w w' : World) (b : Bucket.t) :
  tasks w' = tasks w ->
  (forall row, In row (buckets w) -> In row (buckets w')) ->
  In b (bucketView u w) -> In b (bucketView u w').
Proof.
  intros Et Hsub Hb. unfold bucketView in *.
  apply in_map_iff in Hb as (row & <- & Hrow). apply in_map_iff.
  assert (Hrow' : In row (bucketRowsOf u w')).
  { unfold bucketRowsOf in *. apply orderBy_In, filter_In in Hrow as [H1 H2].
    apply orderBy_In, filter_In. auto. }
  exists row. split; [|exact Hrow']. f_equal.
  rewrite !items_of_bucket. f_equal. now apply items_frame.
Qed.

(** X14.  Creating a bucket.  In a reachable world, [createEmptyBucket]
    for a user with a user row and with a name that is not blank inserts
    one bucket row whose name is the trimmed text, with a fresh id; the
    list returned shows the new bucket without items and every bucket
    that the caller had, with its items; the task table is untouched.
    When the caller already has the default bucket, this insertion is the
    only write. *)
Theorem createEmptyBucket_adds_empty_bucket (u n : string) (w : World) :
  reachable w -> u <> "" -> JsString.trim n <> "" -> Db.hasUser u w = true ->
  exists bs w',
    createEmptyBucket u n w = (Ok bs, w')
    /\ In (Bucket.mk (uuidOf (uuids w)) (JsString.trim n) []) bs
    /\ (forall b, In b (bucketView u w) -> In b bs)
    /\ tasks w' = tasks w
    /\ In (BucketRow.mk (uuidOf (uuids w)) (JsString.trim n) u (clock w)
             (clock w)) (buckets w')
    /\ (hasDefault u w = true ->
        buckets w'
        = buckets w ++ [BucketRow.mk (uuidOf (uuids w)) (JsString.trim n) u
                          (clock w) (clock w)]
        /\ writes w'
           = writes w ++ [InsertBucket
                            (BucketRow.mk (uuidOf (uuids w)) (JsString.trim n)
                               u (clock w) (clock w))]).
Proof.
  intros R Hu Hn Huser. destruct (reachable_Inv w R) as [S D].
  destruct (tasksIntact_reachable w R) as [_ Href].
  rewrite (createEmptyBucket_eq u n w S Hu Hn Huser).
  set (row := BucketRow.mk _ _ _ _ _).
  set (w1 := withBucket row (nextUuid w)).
  assert (S1 : Sound w1) by now apply Sound_withBucket.
  assert (D1 : defaultsPresentExcept (Some u) w1).
  { apply defaultsPresent_withBucket; [|now left].
    intros b Hb _. apply D; [assumption | discriminate]. }
  destruct (loadBuckets_sound u w1 S1 D1 Hu Huser) as [E _]. rewrite E.
  set (w2 := afterDefault u w1).
  assert (Et : tasks w2 = tasks w) by apply (tasks_afterDefault u w1).
  assert (Hsub : forall x, In x (buckets w1) -> In x (buckets w2)).
  { intros x Hx. unfold w2. rewrite buckets_afterDefault.
    destruct (hasDefault u w1); [exact Hx | apply in_app_iff; now left]. }
  assert (Hrow : In row (buckets w2)).
  { apply Hsub. unfold w1. simpl. apply in_app_iff. right. now left. }
  eexists _, _. split; [reflexivity|]. split; [|split; [|split; [|split]]].
  - unfold bucketView. apply in_map_iff. exists row. split.
    + unfold row at 1 2. simpl. f_equal. rewrite items_of_bucket.
      replace (filter _ (taskRowsOf u w2)) with (@nil TaskRow.t); [reflexivity|].
      symmetry. destruct (filter _ (taskRowsOf u w2)) as [|t l] eqn:Ef;
        [reflexivity|].
      exfalso. assert (Ht : In t (t :: l)) by now left.
      rewrite <- Ef in Ht. apply filter_In in Ht as [Ht Ek].
      apply String.eqb_eq in Ek. unfold taskRowsOf in Ht.
      apply orderBy_In, filter_In in Ht as [Ht _]. rewrite Et in Ht.
      pose proof (Href t Ht) as Hex. rewrite Ek in Hex.
      unfold row in Hex. simpl in Hex.
      now rewrite (fresh_bucket_id w S) in Hex.
    + unfold bucketRowsOf. apply orderBy_In, filter_In. split; [exact Hrow|].
      unfold row. simpl. apply String.eqb_refl.
  - intros b Hb. apply (view_frame u w w2); try assumption.
    intros x Hx. apply Hsub. unfold w1. simpl. apply in_app_iff. now left.
  - exact Et.
  - exact Hrow.
  - intros Hd.
    assert (Hd1 : hasDefault u w1 = true) by now apply hasDefault_withBucket.
    simpl. fold w2. unfold w2. rewrite (afterDefault_idem u w1 Hd1).
    split; [reflexivity|].
    rewrite writes_addTrace_categorize by apply viewTrace_categorize.
    now apply writes_snoc.
Qed.

Lemma createEmptyBucket_adds_empty_bucket_witness :
  exists bs w',
    createEmptyBucket "u1" "Physics" twoUsers = (Ok bs, w')
    /\ In (Bucket.mk (uuidOf (uuids twoUsers)) (JsString.trim "Physics") []) bs
    /\ (forall b, In b (bucketView "u1" twoUsers) -> In b bs)
    /\ tasks w' = tasks twoUsers
    /\ In (BucketRow.mk (uuidOf (uuids twoUsers)) (JsString.trim "Physics")
             "u1" (clock twoUsers) (clock twoUsers)) (buckets w')
    /\ (hasDefault "u1" twoUsers = true ->
        buckets w'
        = buckets twoUsers
            ++ [BucketRow.mk (uuidOf (uuids twoUsers))
                  (JsString.trim "Physics") "u1" (clock twoUsers)
                  (clock twoUsers)]
        /\ writes w'
           = writes twoUsers
               ++ [InsertBucket
                     (BucketRow.mk (uuidOf (uuids twoUsers))
                        (JsString.trim "Physics") "u1" (clock twoUsers)
                        (clock twoUsers))]).
Proof.
  apply (createEmptyBucket_adds_empty_bucket "u1" "Physics" twoUsers).
  - apply Reachability.reachable_twoUsers.
  - discriminate.
  - vm_compute. discriminate.
  - reflexivity.
Defined.

End CreateTheorem.


Module Isolation.
Import WorldFacts InvFacts TableFacts LoadFacts MutationFacts CalendarFacts
       AssignFacts AssignSpec Preservation Reachability NoOpFacts Resolution
       Integrity Lookup OwnershipFacts.

Lemma othersKept_trans (u : string) (w1 w2 w3 : World) :
  othersKept u w1 w2 -> othersKept u w2 w3 -> othersKept u w1 w3.
Proof.
  intros [B1 T1] [B2 T2]. split; [congruence|].
  intros t b Ht Hb E Hu. apply (T2 t b); try assumption.
  - now apply (T1 t b).
  - assert (H : In b (bucketsOfOthers u w1)).
    { apply filter_In. split; [exact Hb|]. now apply negb_true_iff, String.eqb_neq. }
    rewrite <- B1 in H. now apply filter_In in H as [H _].
Qed.

(** Rows that go into the caller's buckets, and new tasks, disturb nobody. *)
Lemma othersKept_grow (u : string) (w w' : World) (rows : list BucketRow.t)
    (more : list TaskRow.t) :
  buckets w' = buckets w ++ rows -> tasks w' = tasks w ++ more ->
  (forall b, In b rows -> BucketRow.userId b = u) ->
  othersKept u w w'.
Proof.
  intros Eb Et Hrows.
  assert (Hnil : filter (fun b => negb (String.eqb (BucketRow.userId b) u)) rows
                 = []).
  { clear Eb. induction rows as [|b rows IH]; simpl; [reflexivity|].
    rewrite (Hrows b (or_introl eq_refl)), String.eqb_refl. simpl.
    apply IH. intros x Hx. apply Hrows. now right. }
  split.
  - unfold bucketsOfOthers. rewrite Eb, filter_app, Hnil. apply app_nil_r.
  - intros t b Ht _ _ _. rewrite Et. apply in_app_iff. now left.
Qed.

Lemma othersKept_same (u : string) (w w' : World) :
  buckets w' = buckets w -> tasks w' = tasks w -> othersKept u w w'.
Proof.
  intros Eb Et. apply (othersKept_grow u w w' [] []);
    rewrite ?app_nil_r; auto. intros b [].
Qed.

Lemma othersKept_afterDefault (u : string) (w : World) :
  othersKept u w (afterDefault u w).
Proof.
  unfold afterDefault. destruct (hasDefault u w).
  - now apply othersKept_same.
  - apply (othersKept_grow u w _ [defaultRow u w] []); simpl;
      rewrite ?app_nil_r; auto.
    intros b [<-|[]]. reflexivity.
Qed.

Lemma othersKept_addTrace (u : string) (es : list Effect) (w w' : World) :
  othersKept u w w' -> othersKept u w (addTrace es w').
Proof.
  intros H. apply (othersKept_trans u w w'); [exact H|].
  now apply othersKept_same.
Qed.

Lemma othersKept_loadBuckets (u : string) (w : World) :
  othersKept u w (snd (loadBuckets u w)).
Proof.
  rewrite loadBuckets_eq. destruct (JsString.isEmpty u);
    [now apply othersKept_same|].
  rewrite ensureDefaultBuckets_eq.
  destruct (hasDefault u w) eqn:Hd; simpl.
  - now apply othersKept_same.
  - destruct (Db.hasBucketId _ w); simpl; [now apply othersKept_same|].
    destruct (Db.hasUser u w); simpl; [|now apply othersKept_same].
    apply othersKept_addTrace.
    pose proof (othersKept_afterDefault u w) as H. unfold afterDefault in H.
    now rewrite Hd in H.
Qed.

Lemma othersKept_loadCalendarTasks (u : string) (w : World) :
  othersKept u w (snd (loadCalendarTasks u w)).
Proof. rewrite loadCalendarTasks_eq. now apply othersKept_same. Qed.

Lemma same_id_same_task (l : list TaskRow.t) (a b : TaskRow.t) :
  NoDup (map TaskRow.id l) -> In a l -> In b l ->
  TaskRow.id a = TaskRow.id b -> a = b.
Proof.
  induction l as [|x l IH]; simpl; intros Hnd Ha Hb E; [destruct Ha|].
  inversion Hnd as [|? ? Hx Hnd']; subst.
  destruct Ha as [->|Ha], Hb as [->|Hb]; auto.
  - exfalso. apply Hx. rewrite E. now apply in_map.
  - exfalso. apply Hx. rewrite <- E. now apply in_map.
Qed.

(** A task in a bucket of somebody else does not have the id of a task
    that the caller owns. *)
Lemma foreign_task_other_id (u i : string) (w : World) (t : TaskRow.t)
    (b : BucketRow.t) :
  Sound w -> tasksIntact w -> ownsTask u i w = true ->
  In t (tasks w) -> In b (buckets w) ->
  TaskRow.bucketId t = BucketRow.id b -> BucketRow.userId b <> u ->
  TaskRow.id t <> i.
Proof.
  intros S [Hk _] Ho Ht Hb E Hu Ei.
  apply ownsTask_iff in Ho as (t0 & b0 & Ht0 & Hb0 & E1 & E2 & E3).
  assert (t = t0) by (apply (same_id_same_task (tasks w)); congruence).
  subst t0. apply Hu. rewrite <- E3. f_equal.
  apply (same_key_same_row (buckets w)); try assumption;
    [apply (sound_keys w S) | congruence].
Qed.

Lemma filter_map_fixed {A} (p : A -> bool) (f : A -> A) (l : list A) :
  (forall x, In x l -> p (f x) = p x /\ (p x = true -> f x = x)) ->
  filter p (map f l) = filter p l.
Proof.
  induction l as [|x l IH]; simpl; intros H; [reflexivity|].
  destruct (H x (or_introl eq_refl)) as [H1 H2]. rewrite H1.
  destruct (p x) eqn:E; rewrite IH by auto; [now rewrite H2|reflexivity].
Qed.

Lemma othersKept_deleteTask (u i : string) (w : World) :
  Sound w -> tasksIntact w -> ownsTask u i w = true ->
  othersKept u w (snd (Db.deleteTask i w)).
Proof.
  intros S T Ho. split; [reflexivity|].
  intros t b Ht Hb E Hu. simpl. apply filter_In. split; [exact Ht|].
  apply negb_true_iff, String.eqb_neq.
  now apply (foreign_task_other_id u i w t b).
Qed.

Lemma othersKept_updateTask (u i : string) (a d : option string)
    (due : option Z) (k : option string) (now : Z) (w : World) :
  Sound w -> tasksIntact w -> ownsTask u i w = true ->
  othersKept u w (snd (Db.updateTask i a d due k now w)).
Proof.
  intros S T Ho. unfold Db.updateTask.
  destruct (Db.hasTaskId i w && _)%bool; [now apply othersKept_same|].
  split; [reflexivity|].
  intros t b Ht Hb E Hu. simpl. apply in_map_iff. exists t.
  split; [|exact Ht].
  pose proof (foreign_task_other_id u i w t b S T Ho Ht Hb E Hu) as Hne.
  apply String.eqb_neq in Hne. now rewrite Hne.
Qed.

Lemma own_bucket_id (u i : string) (w : World) (b0 x : BucketRow.t) :
  Sound w -> ownedBucket u i w = Some b0 -> In x (buckets w) ->
  BucketRow.userId x <> u -> BucketRow.id x <> i.
Proof.
  intros S Ho Hx Hu Ei. apply ownedBucket_Some in Ho as (Hb0 & E0 & Eu).
  apply Hu. rewrite <- Eu. f_equal.
  apply (same_key_same_row (buckets w)); try assumption;
    [apply (sound_keys w S) | congruence].
Qed.

Lemma othersKept_deleteBucket (u i : string) (w : World) (b0 : BucketRow.t) :
  Sound w -> ownedBucket u i w = Some b0 ->
  othersKept u w (snd (Db.deleteBucket i w)).
Proof.
  intros S Ho. split.
  - unfold bucketsOfOthers. simpl. rewrite SortFacts.filter_filter_and.
    apply filter_ext_in. intros x Hx.
    destruct (String.eqb_spec (BucketRow.userId x) u) as [E|E];
      [reflexivity|]. simpl.
    apply negb_true_iff, String.eqb_neq.
    now apply (own_bucket_id u i w b0 x).
  - intros t b Ht Hb E Hu. simpl. apply filter_In. split; [exact Ht|].
    apply negb_true_iff, String.eqb_neq. rewrite E.
    now apply (own_bucket_id u i w b0 b).
Qed.

Lemma othersKept_updateBucket (u i n : string) (now : Z) (w : World)
    (b0 : BucketRow.t) :
  Sound w -> ownedBucket u i w = Some b0 ->
  othersKept u w (snd (Db.updateBucket i n now w)).
Proof.
  intros S Ho. split; [|intros t b Ht _ _ _; exact Ht].
  unfold bucketsOfOthers. simpl. apply filter_map_fixed. intros x Hx.
  destruct (String.eqb_spec (BucketRow.id x) i) as [E|E]; simpl; [|auto].
  split; [reflexivity|]. intros Hu. exfalso.
  apply negb_true_iff, String.eqb_neq in Hu.
  now apply (own_bucket_id u i w b0 x S Ho Hx Hu).
Qed.

Lemma grows_afterResolve (u : string) (existing : list Bucket.t)
    (a : AssignmentResult.t) (w : World) :
  exists rows,
    buckets (fst (afterResolve u existing a w)) = buckets w ++ rows
    /\ forall b, In b rows -> BucketRow.userId b = u.
Proof.
  unfold afterResolve.
  destruct (findById existing _);
    [exists []; simpl; rewrite app_nil_r; split; [reflexivity | intros b []]|].
  destruct (findByName existing _);
    [exists []; simpl; rewrite app_nil_r; split; [reflexivity | intros b []]|].
  exists [newBucketRow u a w]. simpl. split; [reflexivity|].
  intros b [<-|[]]. reflexivity.
Qed.

Lemma othersKept_afterResolve (u : string) (existing : list Bucket.t)
    (a : AssignmentResult.t) (w : World) :
  othersKept u w (fst (afterResolve u existing a w)).
Proof.
  destruct (grows_afterResolve u existing a w) as (rows & Hb & Hrows).
  apply (othersKept_grow u w _ rows []); [exact Hb | | exact Hrows].
  rewrite app_nil_r. apply tasks_afterResolve.
Qed.

Lemma othersKept_afterAssignment (env : Env) (u t : string)
    (existing : list Bucket.t) (a : AssignmentResult.t) (q : ParsedTask)
    (w : World) :
  othersKept u w (afterAssignment env u t existing a q w).
Proof.
  destruct (afterAssignment_tables env u t existing a q w) as [Et Eb].
  cbv zeta in Et, Eb.
  destruct (grows_afterResolve u existing a w) as (rows & Hb & Hrows).
  rewrite Hb in Eb.
  exact (othersKept_grow u w _ rows _ Eb Et Hrows).
Qed.

(** X16.  Isolation of the users.  In a reachable world, whatever request
    is served on behalf of a user, with any arguments and under any
    behaviour of the model, the bucket rows of all other users are
    afterwards the same rows in the same order, and every task that sat in
    a bucket of another user is still stored, unchanged. *)
Theorem requests_leave_other_users_alone (env : Env) (r : Request)
    (u : string) (w : World) :
  reachable w -> requester r = Some u ->
  filter (fun b => negb (String.eqb (BucketRow.userId b) u))
    (buckets (serve env r w))
  = filter (fun b => negb (String.eqb (BucketRow.userId b) u)) (buckets w)
  /\ forall t b,
       In t (tasks w) -> In b (buckets w) ->
       TaskRow.bucketId t = BucketRow.id b -> BucketRow.userId b <> u ->
       In t (tasks (serve env r w)).
Proof.
  intros R Hr. change (othersKept u w (serve env r w)).
  pose proof (reachable_Inv w R) as I. pose proof I as [S D].
  pose proof (tasksIntact_reachable w R) as T.
  destruct r; simpl in Hr; try (injection Hr as ->); try discriminate; simpl.
  - apply othersKept_loadBuckets.
  - destruct (JsString.isEmpty (JsString.trim task) || JsString.isEmpty u)%bool
      eqn:E.
    + rewrite AssignEquation.assignTaskToBucket_unfold. cbv zeta. rewrite E.
      apply othersKept_loadBuckets.
    + destruct (JsString.isEmpty (OPENAI_API_KEY env)) eqn:Hkey.
      * rewrite AssignEquation.assignTaskToBucket_unfold. cbv zeta. rewrite E.
        unfold bind at 1, ensureOpenAIConfigured. rewrite Hkey.
        now apply othersKept_same.
      * apply orb_false_iff in E as [Et Eu].
        apply isEmpty_false in Et, Eu, Hkey.
        destruct (Inv_weaken (Some u) w I) as [_ D'].
        destruct (Db.hasUser u w) eqn:Huser.
        -- rewrite (assignTaskToBucket_cases env task u w S D' Hkey Et Eu
                      Huser).
           cbv zeta.
           assert (H2 : othersKept u w
                          (addTrace (viewTrace u (afterDefault u w))
                             (afterDefault u w)))
             by apply othersKept_addTrace, othersKept_afterDefault.
           assert (H3 : othersKept u w
                          (addTrace (viewTrace u (afterDefault u w))
                             (addTrace (viewTrace u (afterDefault u w))
                                (afterDefault u w))))
             by now apply othersKept_addTrace.
           destruct (noSuggestion _); [exact H3|].
           destruct (analyzeTaskWithAI _ _ _ _) as [v|]; [|exact H3].
           destruct (resolvable _ v); [|exact H2].
           destruct (Json.taskFieldsTyped v); simpl.
           ++ apply othersKept_addTrace.
              eapply othersKept_trans; [exact H2|].
              apply othersKept_afterAssignment.
           ++ eapply othersKept_trans; [exact H2|].
              apply othersKept_afterResolve.
        -- rewrite (assignTaskToBucket_unknown_user env task u w S Hkey Et Eu
                      Huser).
           now apply othersKept_same.
  - rewrite deleteBucket_eq.
    destruct (JsString.isEmpty u || JsString.isEmpty bucketId)%bool;
      [apply othersKept_loadBuckets|].
    destruct (ownedBucket u bucketId w) as [b0|] eqn:Ho;
      [|apply othersKept_loadBuckets].
    destruct (isDefaultBucketName _); [apply othersKept_loadBuckets|].
    eapply othersKept_trans; [|apply othersKept_loadBuckets].
    now apply (othersKept_deleteBucket u bucketId w b0).
  - rewrite completeTask_eq.
    destruct (JsString.isEmpty u || JsString.isEmpty taskId)%bool;
      [apply othersKept_loadBuckets|].
    destruct (ownsTask u taskId w) eqn:Ho; [|apply othersKept_loadBuckets].
    eapply othersKept_trans; [|apply othersKept_loadBuckets].
    now apply othersKept_deleteTask.
  - destruct (JsString.isEmpty u || JsString.isEmpty (JsString.trim bucketName))%bool
      eqn:E.
    + unfold createEmptyBucket. rewrite E. apply othersKept_loadBuckets.
    + apply orb_false_iff in E as [Eu En]. apply isEmpty_false in Eu, En.
      destruct (Db.hasUser u w) eqn:Huser.
      * rewrite (createEmptyBucket_eq u bucketName w S Eu En Huser).
        eapply othersKept_trans; [|apply othersKept_loadBuckets].
        eapply (othersKept_grow u w _ [_] []); simpl; rewrite ?app_nil_r;
          try reflexivity.
        intros b [<-|[]]. reflexivity.
      * rewrite (createEmptyBucket_unknown_user u bucketName w S Eu En Huser).
        now apply othersKept_same.
  - rewrite updateBucketName_eq.
    destruct (_ || _ || _)%bool; [apply othersKept_loadBuckets|].
    destruct (ownedBucket u bucketId w) as [b0|] eqn:Ho;
      [|apply othersKept_loadBuckets].
    destruct (isDefaultBucketName _); [apply othersKept_loadBuckets|].
    eapply othersKept_trans; [|apply othersKept_loadBuckets].
    now apply (othersKept_updateBucket u bucketId _ _ w b0).
  - destruct (getTaskById_tables u taskId w) as (Eb & Et).
    now apply othersKept_same.
  - rewrite updateTask_eq.
    destruct (JsString.isEmpty u || JsString.isEmpty taskId)%bool;
      [apply othersKept_loadCalendarTasks|].
    destruct (ownsTask u taskId w) eqn:Ho; [|apply othersKept_loadCalendarTasks].
    unfold bind.
    match goal with
    | |- context [Db.updateTask ?a ?b ?c ?d ?e ?f w] =>
        pose proof (othersKept_updateTask u a b c d e f w S T Ho) as H;
        destruct (Db.updateTask a b c d e f w) as [[[]|err] w1]
    end; simpl in H; [|exact H].
    eapply othersKept_trans; [exact H | apply othersKept_loadCalendarTasks].
  - unfold deleteTaskFromCalendar, bind.
    assert (H : othersKept u w (snd (completeTask u taskId w))).
    { rewrite completeTask_eq.
      destruct (JsString.isEmpty u || JsString.isEmpty taskId)%bool;
        [apply othersKept_loadBuckets|].
      destruct (ownsTask u taskId w) eqn:Ho; [|apply othersKept_loadBuckets].
      eapply othersKept_trans; [|apply othersKept_loadBuckets].
      now apply othersKept_deleteTask. }
    destruct (completeTask u taskId w) as [[v|err] w1]; simpl in H; [|exact H].
    eapply othersKept_trans; [exact H | apply othersKept_loadCalendarTasks].
  - apply othersKept_loadCalendarTasks.
Qed.

Lemma requests_leave_other_users_alone_witness :
  filter (fun b => negb (String.eqb (BucketRow.userId b) "u1"))
    (buckets (serve quietEnv (DeleteBucketReq "u1" "uuid-1") twoUsers))
  = filter (fun b => negb (String.eqb (BucketRow.userId b) "u1"))
      (buckets twoUsers)
  /\ forall t b,
       In t (tasks twoUsers) -> In b (buckets twoUsers) ->
       TaskRow.bucketId t = BucketRow.id b -> BucketRow.userId b <> "u1" ->
       In t (tasks (serve quietEnv (DeleteBucketReq "u1" "uuid-1") twoUsers)).
Proof.
  apply (requests_leave_other_users_alone quietEnv
           (DeleteBucketReq "u1" "uuid-1") "u1" twoUsers).
  - apply Reachability.reachable_twoUsers.
  - reflexivity.
Defined.

End Isolation.

Module CalendarDeletion.
Import WorldFacts InvFacts TableFacts LoadFacts MutationFacts CalendarFacts
       AssignFacts Preservation Reachability NoOpFacts OrderFacts GroupFacts
       CalendarTheorems OwnershipFacts ViewChange SortFacts.

Lemma Permutation_filter {A} (p : A -> bool) (l l' : list A) :
  Permutation l l' -> Permutation (filter p l) (filter p l').
Proof.
  induction 1 as [|x l l' _ IH|x y l|l1 l2 l3 _ IH1 _ IH2]; simpl.
  - constructor.
  - destruct (p x); [now constructor | exact IH].
  - destruct (p x), (p y); try reflexivity. apply perm_swap.
  - now transitivity (filter p l2).
Qed.

(** The ids shown by the calendar are those of the user's tasks. *)
Lemma calendar_ids (u : string) (w : World) :
  u <> "" -> NoDup (map BucketRow.id (buckets w)) ->
  Permutation (map CalendarTask.id (flat_map snd (calendarView u w)))
    (map TaskRow.id (filter (inBucketOf u w) (tasks w))).
Proof.
  intros Hu Hnd. destruct (calendarView_wellGrouped u w) as [_ H].
  rewrite (proj2 (isEmpty_false u) Hu) in H. rewrite H, map_map. simpl.
  rewrite <- (map_map fst TaskRow.id).
  now apply Permutation_map, calendarRows_tasks.
Qed.

(** X15.  Deleting from the calendar.  In a reachable world, when the
    caller owns the task, [deleteTaskFromCalendar] deletes the rows with
    this id and nothing else, with the deletion as its one write, and
    returns the calendar of the world after it: the task is no longer
    shown, and the ids shown are, one for one, those that the calendar
    showed before, without this one. *)
Theorem deleteTaskFromCalendar_removes_entry (u i : string) (w : World) :
  reachable w -> u <> "" -> i <> "" -> ownsTask u i w = true ->
  exists grouped w',
    deleteTaskFromCalendar u i w = (Ok grouped, w')
    /\ buckets w' = buckets w
    /\ tasks w'
       = filter (fun t => negb (String.eqb (TaskRow.id t) i)) (tasks w)
    /\ writes w' = writes w ++ [DeleteTask i]
    /\ (forall k es e, In (k, es) grouped -> In e es -> CalendarTask.id e <> i)
    /\ Permutation (map CalendarTask.id (flat_map snd grouped))
         (filter (fun x => negb (String.eqb x i))
            (map CalendarTask.id (flat_map snd (calendarView u w)))).
Proof.
  intros R Hu Hi Ho. pose proof (reachable_Inv w R) as I.
  pose proof I as [S _].
  unfold deleteTaskFromCalendar, bind. rewrite completeTask_eq, Ho.
  rewrite (proj2 (isEmpty_false u) Hu), (proj2 (isEmpty_false i) Hi).
  cbn [orb].
  destruct (ownsTask_bucket u i w Ho) as (b & Hb & Eb).
  pose proof (hasDefault_of_bucket w b I Hb) as Hd. rewrite Eb in Hd.
  set (w1 := snd (Db.deleteTask i w)).
  assert (Hd1 : hasDefault u w1 = true) by exact Hd.
  rewrite (loadBuckets_read u w1 Hu Hd1).
  set (w2 := addTrace (viewTrace u w1) w1).
  rewrite loadCalendarTasks_eq.
  assert (Ev : calendarView u w2 = calendarView u w1) by reflexivity.
  assert (Hgone : ownsTask u i w1 = false).
  { destruct (ownsTask u i w1) eqn:E; [|reflexivity].
    apply ownsTask_iff in E as (t & _ & Ht & _ & _ & Et & _).
    unfold w1 in Ht. simpl in Ht. apply filter_In in Ht as [_ Ht].
    now rewrite Et, String.eqb_refl in Ht. }
  exists (calendarView u w2), (addTrace (calendarTrace u w2) w2).
  split; [reflexivity|]. split; [reflexivity|]. split; [reflexivity|].
  split; [|split].
  - rewrite writes_addTrace_categorize by apply calendarTrace_categorize.
    unfold w2.
    rewrite writes_addTrace_categorize by apply viewTrace_categorize.
    now apply writes_snoc.
  - intros k es e Hg He Ee. rewrite Ev in Hg.
    pose proof (calendar_entry_owned u w1 k es e Hg He) as H.
    rewrite Ee in H. congruence.
  - rewrite Ev.
    rewrite (calendar_ids u w1 Hu (sound_keys w S)).
    rewrite (Permutation_filter _ _ _ (calendar_ids u w Hu (sound_keys w S))).
    rewrite (filter_map_swap TaskRow.id (fun x => negb (String.eqb x i))).
    apply Permutation_map. unfold w1. simpl.
    change (inBucketOf u (mkWorld (users w) (buckets w) _ _ _ _)) with (inBucketOf u w).
    now rewrite filter_swap.
Qed.

Lemma deleteTaskFromCalendar_removes_entry_witness :
  exists grouped w',
    deleteTaskFromCalendar "u1" "uuid-2" twoUsers = (Ok grouped, w')
    /\ buckets w' = buckets twoUsers
    /\ tasks w'
       = filter (fun t => negb (String.eqb (TaskRow.id t) "uuid-2"))
           (tasks twoUsers)
    /\ writes w' = writes twoUsers ++ [DeleteTask "uuid-2"]
    /\ (forall k es e,
          In (k, es) grouped -> In e es -> CalendarTask.id e <> "uuid-2")
    /\ Permutation (map CalendarTask.id (flat_map snd grouped))
         (filter (fun x => negb (String.eqb x "uuid-2"))
            (map CalendarTask.id
               (flat_map snd (calendarView "u1" twoUsers)))).
Proof.
  apply (deleteTaskFromCalendar_removes_entry "u1" "uuid-2" twoUsers).
  - apply Reachability.reachable_twoUsers.
  - discriminate.
  - discriminate.
  - vm_compute. reflexivity.
Defined.

End CalendarDeletion.

(* ================================================================== *)
(** ** Properties of the pages *)

Module LocalDateFacts.
Import JsDate JsLocal.
Local Open Scope Z_scope.

(** The civil date of a day number is a date, and it is that day. *)
Lemma civil_roundtrip (z : Z) :
  let '(y, m, d) := civilFromDays z in
  daysFromCivil y m d = z /\ 1 <= m <= 12 /\ 1 <= d <= 31.
Proof.
  unfold civilFromDays, daysFromCivil.
  set (z' := z + 719468).
  set (era := z' / 146097).
  set (doe := z' - era * 146097).
  assert (Hdoe : 0 <= doe <= 146096).
  { unfold doe, era. Z.to_euclidean_division_equations. lia. }
  set (yoe := (doe - doe / 1460 + doe / 36524 - doe / 146096) / 365).
  assert (Hyoe : 0 <= yoe <= 399).
  { unfold yoe. Z.to_euclidean_division_equations. lia. }
  set (doy := doe - (365 * yoe + yoe / 4 - yoe / 100)).
  assert (Hdoy : 0 <= doy <= 365).
  { unfold doy, yoe. Z.to_euclidean_division_equations. lia. }
  set (mp := (5 * doy + 2) / 153).
  assert (Hmp : 0 <= mp <= 11).
  { unfold mp. Z.to_euclidean_division_equations. lia. }
  set (d := doy - (153 * mp + 2) / 5 + 1).
  assert (Hd : 1 <= d <= 31).
  { unfold d, mp. Z.to_euclidean_division_equations. lia. }
  cbv zeta.
  destruct (mp <? 10) eqn:E10.
  - apply Z.ltb_lt in E10.
    replace (mp + 3 <=? 2) with false by (symmetry; apply Z.leb_gt; lia).
    split; [|lia].
    replace ((yoe + era * 400) / 400) with era
      by (Z.to_euclidean_division_equations; lia).
    replace (mp + 3 - 3) with mp by lia.
    replace (yoe + era * 400 - era * 400) with yoe by lia.
    unfold d, doy, doe, z'. lia.
  - apply Z.ltb_ge in E10.
    replace (mp - 9 <=? 2) with true by (symmetry; apply Z.leb_le; lia).
    split; [|lia].
    replace (yoe + era * 400 + 1 - 1) with (yoe + era * 400) by lia.
    replace ((yoe + era * 400) / 400) with era
      by (Z.to_euclidean_division_equations; lia).
    replace (mp - 9 + 9) with mp by lia.
    replace (yoe + era * 400 - era * 400) with yoe by lia.
    unfold d, doy, doe, z'. lia.
Qed.

Lemma daysFromCivil_day (y m d : Z) :
  daysFromCivil y m d = daysFromCivil y m 1 + d - 1.
Proof. unfold daysFromCivil. cbv zeta. lia. Qed.

(** Setting the day of the month moves by whole days. *)
Lemma makeDay_of_day (z k : Z) :
  let '(y, m, d) := civilFromDays z in makeDay y (m - 1) (d + k) = z + k.
Proof.
  pose proof (civil_roundtrip z) as H.
  destruct (civilFromDays z) as [[y m] d]. destruct H as (E & Hm & Hd).
  unfold makeDay.
  replace ((m - 1) / 12) with 0 by (Z.to_euclidean_division_equations; lia).
  replace ((m - 1) mod 12 + 1) with m
    by (Z.to_euclidean_division_equations; lia).
  rewrite Z.add_0_r. rewrite (daysFromCivil_day y m d) in E. lia.
Qed.

(** The length of a month: at most 31 days. *)
Lemma month_length (y m : Z) :
  0 <= m <= 11 ->
  28 <= makeDay y (m + 1) 1 - makeDay y m 1 <= 31.
Proof.
  intros Hm.
  assert (Hc : m = 0 \/ m = 1 \/ m = 2 \/ m = 3 \/ m = 4 \/ m = 5 \/ m = 6
               \/ m = 7 \/ m = 8 \/ m = 9 \/ m = 10 \/ m = 11) by lia.
  unfold makeDay.
  destruct Hc as [->|[->|[->|[->|[->|[->|[->|[->|[->|[->|[->| ->]]]]]]]]]]];
    repeat match goal with
           | |- context [daysFromCivil (y + ?a / 12) (?b mod 12 + 1) 1] =>
               let q := eval vm_compute in (a / 12) in
               let r := eval vm_compute in (b mod 12 + 1) in
               change (daysFromCivil (y + a / 12) (b mod 12 + 1) 1)
                 with (daysFromCivil (y + q) r 1)
           end;
    unfold daysFromCivil; cbv zeta;
    repeat match goal with
           | |- context [?a <=? ?b] =>
               let v := eval vm_compute in (a <=? b) in
               change (a <=? b) with v
           end;
    cbv iota; Z.to_euclidean_division_equations; lia.
Qed.

End LocalDateFacts.

Module GridFacts.
Import JsDate JsLocal LocalDateFacts.

Lemma fillDays_length (tz : Z) (tbd : list (string * list CalendarTask.t))
    (n : nat) (current : option Z) :
  List.length (fst (fillDays tz tbd n current)) = n.
Proof.
  revert current. induction n as [|n IH]; intros current; simpl; [reflexivity|].
  specialize (IH (setDate tz current
                    (option_map (fun d => (d + 1)%Z) (getDate tz current)))).
  destruct (fillDays tz tbd n _) as [days final]. simpl in *. now rewrite IH.
Qed.

Lemma fillWeeks_shape (tz : Z) (tbd : list (string * list CalendarTask.t))
    (n : nat) (current : option Z) :
  List.length (fillWeeks tz tbd n current) = n
  /\ Forall (fun week => List.length week = 7) (fillWeeks tz tbd n current).
Proof.
  revert current. induction n as [|n IH]; intros current;
    [split; [reflexivity | constructor]|].
  cbn [fillWeeks].
  pose proof (fillDays_length tz tbd 7 current) as H7.
  destruct (fillDays tz tbd 7 current) as [days current'].
  destruct (IH current') as [H1 H2]. simpl in H7.
  split; [cbn [List.length]; now f_equal | now constructor].
Qed.

Lemma hasChar_app (c : ascii) (a b : string) :
  hasChar c (a ++ String c b)%string = true.
Proof.
  induction a as [|x a IH]; simpl.
  - now rewrite Ascii.eqb_refl.
  - rewrite IH. apply orb_true_r.
Qed.

(** A local date text is never the key of the tasks without a date. *)
Lemma localeDate_scheduled (tz : Z) (t : option Z) :
  toLocaleDateStringCA tz t <> "unscheduled"%string.
Proof.
  destruct t as [t|]; simpl; [|discriminate].
  destruct (civilFromDays (localDay tz t)) as [[y m] d]. intros E.
  assert (H : hasChar "-" "unscheduled" = true);
    [rewrite <- E; apply hasChar_app | discriminate H].
Qed.

Lemma fillDays_cells (tz : Z) (tbd : list (string * list CalendarTask.t))
    (n : nat) (current : option Z) (cell : DayCell) :
  In cell (fst (fillDays tz tbd n current)) ->
  cellTasks cell = tasksOn tbd (date cell)
  /\ date cell <> "unscheduled"%string.
Proof.
  revert current. induction n as [|n IH]; intros current; simpl; [intros []|].
  specialize (IH (setDate tz current
                    (option_map (fun d => (d + 1)%Z) (getDate tz current)))).
  destruct (fillDays tz tbd n _) as [days final]. simpl in *.
  intros [<-|H]; [|now apply IH]. simpl.
  split; [reflexivity | apply localeDate_scheduled].
Qed.

Lemma fillWeeks_cells (tz : Z) (tbd : list (string * list CalendarTask.t))
    (n : nat) (current : option Z) (cell : DayCell) :
  In cell (List.concat (fillWeeks tz tbd n current)) ->
  cellTasks cell = tasksOn tbd (date cell)
  /\ date cell <> "unscheduled"%string.
Proof.
  revert current. induction n as [|n IH]; intros current; [intros []|].
  cbn [fillWeeks].
  pose proof (fillDays_cells tz tbd 7 current cell) as H7.
  destruct (fillDays tz tbd 7 current) as [days current']. simpl in H7.
  cbn [List.concat]. intros H. apply in_app_iff in H as [H|H]; [now apply H7 | now apply (IH current')].
Qed.

(** X17.  The shape of the month grid.  Whatever the month, the zone and
    the tasks, [buildCalendarWeeks] returns six weeks of seven cells, so
    the test for an empty grid on the page never succeeds and the
    empty-state panel is never shown.  Every cell carries the tasks stored
    under its own date text, and no cell has the key "unscheduled": tasks
    without a due date are in no cell of the grid. *)
Theorem buildCalendarWeeks_shape (tz : Z)
    (tasksByDate : list (string * list CalendarTask.t)) (year month : Z) :
  let weeks := buildCalendarWeeks tz tasksByDate year month in
  List.length weeks = 6
  /\ Forall (fun week => List.length week = 7) weeks
  /\ showsEmptyState weeks = false
  /\ forall cell, In cell (List.concat weeks) ->
       cellTasks cell = tasksOn tasksByDate (date cell)
       /\ date cell <> "unscheduled"%string.
Proof.
  cbv zeta. unfold buildCalendarWeeks, showsEmptyState.
  match goal with
  | |- context [fillWeeks tz tasksByDate 6 ?c] =>
      destruct (fillWeeks_shape tz tasksByDate 6 c) as [H1 H2];
      pose proof (fillWeeks_cells tz tasksByDate 6 c) as H3
  end.
  rewrite H1. repeat split; try assumption; now apply H3.
Qed.

End GridFacts.

Module GridDates.
Import JsDate JsLocal LocalDateFacts GridFacts.
Local Open Scope Z_scope.
#[local] Arguments toLocaleDateStringCA : simpl never.

Lemma timeClip_in_range (t : Z) :
  - maxTime <= t <= maxTime -> timeClip t = Some t.
Proof.
  intros H. unfold timeClip.
  replace (Z.abs t <=? maxTime) with true; [reflexivity|].
  symmetry. apply Z.leb_le. lia.
Qed.

Lemma localDay_shift (tz t k : Z) :
  localDay tz (t + k * msPerDay) = localDay tz t + k.
Proof.
  unfold localDay, localTime.
  replace (t + k * msPerDay + tz * msPerMinute)
    with (t + tz * msPerMinute + k * msPerDay) by ring.
  apply Z.div_add. discriminate.
Qed.

(** [setDate] with the day of the month moved by [k] moves the time value
    by [k] days. *)
Lemma setDate_shift (tz t k : Z) :
  setDate tz (Some t) (option_map (fun d => d + k) (getDate tz (Some t)))
  = timeClip (t + k * msPerDay).
Proof.
  unfold setDate, getDate, localDay. cbn [option_map].
  pose proof (makeDay_of_day (localTime tz t / msPerDay) k) as H.
  destruct (civilFromDays (localTime tz t / msPerDay)) as [[y m] d].
  cbn [snd]. rewrite H. f_equal. unfold utc.
  pose proof (Z.div_mod (localTime tz t) msPerDay ltac:(discriminate)) as E.
  unfold localTime in *. lia.
Qed.

Lemma datesFrom_S (tz t : Z) (n : nat) :
  datesFrom tz t (S n)
  = toLocaleDateStringCA tz (Some t) :: datesFrom tz (t + msPerDay) n.
Proof.
  unfold datesFrom. simpl. rewrite Z.add_0_r. f_equal.
  rewrite <- seq_shift, map_map. apply map_ext. intros k.
  do 2 f_equal. rewrite Nat2Z.inj_succ. ring.
Qed.

Lemma datesFrom_app (tz t : Z) (a b : nat) :
  datesFrom tz t (a + b)
  = (datesFrom tz t a ++ datesFrom tz (t + Z.of_nat a * msPerDay) b)%list.
Proof.
  unfold datesFrom. rewrite seq_app, map_app. f_equal. simpl.
  rewrite <- (map_id (seq a b)) at 1.
  replace (seq a b) with (map (fun k => (a + k)%nat) (seq 0 b)).
  - rewrite !map_map. apply map_ext. intros k. do 2 f_equal. unfold msPerDay. lia.
  - clear. revert a. induction b as [|b IH]; intros a; simpl; [reflexivity|].
    rewrite Nat.add_0_r. f_equal. rewrite <- seq_shift, map_map.
    rewrite <- (IH (S a)). apply map_ext. intros k. lia.
Qed.

Lemma fillDays_dates (tz : Z) (tbd : list (string * list CalendarTask.t))
    (n : nat) :
  forall t,
    - maxTime <= t -> t + Z.of_nat n * msPerDay <= maxTime ->
    map date (fst (fillDays tz tbd n (Some t))) = datesFrom tz t n
    /\ snd (fillDays tz tbd n (Some t)) = Some (t + Z.of_nat n * msPerDay).
Proof.
  induction n as [|n IH]; intros t Hlo Hhi.
  - simpl. split; [reflexivity|]. f_equal. unfold msPerDay. lia.
  - cbn [fillDays]. rewrite (setDate_shift tz t 1).
    assert (Hd : 0 < msPerDay) by (unfold msPerDay; lia).
    rewrite timeClip_in_range by (unfold msPerDay in *; lia).
    destruct (IH (t + 1 * msPerDay)) as [H1 H2];
      [unfold msPerDay in *; lia | unfold msPerDay in *; lia |].
    destruct (fillDays tz tbd n (Some (t + 1 * msPerDay))) as [days final].
    cbn [fst snd map date] in *. split.
    + rewrite datesFrom_S, H1.
      now replace (t + 1 * msPerDay) with (t + msPerDay) by ring.
    + rewrite H2. f_equal. rewrite Nat2Z.inj_succ. ring.
Qed.

Lemma fillWeeks_dates (tz : Z) (tbd : list (string * list CalendarTask.t))
    (n : nat) :
  forall t,
    - maxTime <= t -> t + Z.of_nat (7 * n) * msPerDay <= maxTime ->
    map date (List.concat (fillWeeks tz tbd n (Some t)))
    = datesFrom tz t (7 * n).
Proof.
  assert (Hd : 0 < msPerDay) by (unfold msPerDay; lia).
  induction n as [|n IH]; intros t Hlo Hhi; [reflexivity|].
  cbn [fillWeeks].
  destruct (fillDays_dates tz tbd 7 t) as [H1 H2];
    [lia | unfold msPerDay in *; lia |].
  destruct (fillDays tz tbd 7 (Some t)) as [days current'].
  simpl in H1, H2. subst current'. cbn [List.concat].
  rewrite map_app, H1, IH by (unfold msPerDay in *; lia).
  replace (7 * S n)%nat with (7 + 7 * n)%nat by lia.
  now rewrite datesFrom_app.
Qed.

Lemma makeDay_bounds (y m : Z) :
  -200000 <= y <= 200000 -> 0 <= m <= 12 ->
  -80000000 <= makeDay y m 1 <= 80000000.
Proof.
  intros Hy Hm. unfold makeDay, daysFromCivil. cbv zeta.
  assert (H12 : 0 <= m / 12 <= 1)
    by (Z.to_euclidean_division_equations; lia).
  assert (Hmod : 0 <= m mod 12 <= 11)
    by (Z.to_euclidean_division_equations; lia).
  set (q := m / 12) in *. set (r := m mod 12) in *.
  destruct (r + 1 <=? 2);
    Z.to_euclidean_division_equations; lia.
Qed.

End GridDates.

Module GridTheorem.
Import JsDate JsLocal LocalDateFacts GridFacts GridDates.
Local Open Scope Z_scope.
#[local] Arguments toLocaleDateStringCA : simpl never.

Lemma localDay_utc (tz d : Z) : localDay tz (utc tz (d * msPerDay)) = d.
Proof.
  unfold localDay, localTime, utc.
  replace (d * msPerDay - tz * msPerMinute + tz * msPerMinute)
    with (d * msPerDay) by ring.
  apply Z.div_mul. discriminate.
Qed.

(** The text of a date depends on its local day alone. *)
Lemma localeDate_of_day (tz t : Z) :
  toLocaleDateStringCA tz (Some t)
  = toLocaleDateStringCA 0 (Some (localDay tz t * msPerDay)).
Proof.
  unfold toLocaleDateStringCA.
  replace (localDay 0 (localDay tz t * msPerDay)) with (localDay tz t);
    [reflexivity|].
  unfold localDay at 2, localTime. rewrite Z.mul_0_l, Z.add_0_r.
  symmetry. apply Z.div_mul. discriminate.
Qed.

(** X18.  The month grid covers the month.  For a month of a year from 100
    to 200000, in a zone within a day of UTC, the 42 cells of
    [buildCalendarWeeks] are consecutive local days; the first cell is a
    Sunday, the one on or before the first of the month; and every day of
    the month, from its first to the day before the first of the next
    month, has its cell. *)
Theorem buildCalendarWeeks_covers_month (tz : Z)
    (tasksByDate : list (string * list CalendarTask.t)) (year month : Z) :
  100 <= year <= 200000 -> 0 <= month <= 11 -> -1440 <= tz <= 1440 ->
  let first := makeDay year month 1 in
  let next := makeDay year (month + 1) 1 in
  let start := first - (first + 4) mod 7 in
  let dates :=
    map date (List.concat (buildCalendarWeeks tz tasksByDate year month)) in
  dates = dayTexts start 42
  /\ (start + 4) mod 7 = 0
  /\ first - 6 <= start <= first
  /\ first < next <= start + 42
  /\ forall day, first <= day < next ->
       In (toLocaleDateStringCA 0 (Some (day * msPerDay))) dates.
Proof.
  intros Hy Hm Htz first next start dates.
  assert (Hfirst : -80000000 <= first <= 80000000)
    by (apply makeDay_bounds; lia).
  pose proof (month_length year month Hm) as Hlen. fold first next in Hlen.
  assert (Hwd : 0 <= (first + 4) mod 7 < 7) by (apply Z.mod_pos_bound; lia).
  assert (Hsun : (start + 4) mod 7 = 0).
  { unfold start. Z.to_euclidean_division_equations. lia. }
  assert (Hdates : dates = dayTexts start 42).
  { unfold dates, buildCalendarWeeks, construct.
    replace ((0 <=? year) && (year <=? 99))%bool with false
      by (symmetry; apply andb_false_iff; right; apply Z.leb_gt; lia).
    fold first. set (t1 := utc tz (first * msPerDay)).
    assert (Ht1 : - maxTime + 50 * msPerDay <= t1 <= maxTime - 50 * msPerDay).
    { unfold t1, utc, maxTime, msPerDay, msPerMinute. lia. }
    rewrite timeClip_in_range by (unfold msPerDay in Ht1; lia).
    assert (Eday : localDay tz t1 = first) by apply localDay_utc.
    unfold getDay at 1. cbn [option_map]. rewrite Eday.
    set (wd := (first + 4) mod 7) in *.
    assert (Eset : setDate tz (Some t1)
                     match getDate tz (Some t1) with
                     | Some d => Some (d - wd)
                     | None => None
                     end
                   = Some (t1 + - wd * msPerDay)).
    { rewrite <- (timeClip_in_range (t1 + - wd * msPerDay))
        by (unfold msPerDay in *; lia).
      rewrite <- (setDate_shift tz t1 (- wd)).
      unfold getDate. cbn [option_map]. reflexivity. }
    rewrite Eset. rewrite fillWeeks_dates;
      [| unfold msPerDay in *; lia | unfold msPerDay in *; simpl; lia].
    unfold datesFrom, dayTexts. apply map_ext. intros k.
    rewrite localeDate_of_day.
    replace (t1 + - wd * msPerDay + Z.of_nat k * msPerDay)
      with (t1 + (Z.of_nat k - wd) * msPerDay) by ring.
    rewrite localDay_shift, Eday. do 3 f_equal. unfold start. lia. }
  split; [exact Hdates|]. split; [exact Hsun|].
  split; [unfold start; lia|]. split; [unfold start; lia|].
  intros day Hday. rewrite Hdates. unfold dayTexts.
  apply in_map_iff. exists (Z.to_nat (day - start)). split.
  - do 3 f_equal. unfold start. lia.
  - apply in_seq. unfold start in *. lia.
Qed.

Lemma buildCalendarWeeks_covers_month_witness :
  let first := makeDay 2024 11 1 in
  let next := makeDay 2024 (11 + 1) 1 in
  let start := first - (first + 4) mod 7 in
  let dates := map date (List.concat (buildCalendarWeeks (-300) [] 2024 11)) in
  dates = dayTexts start 42
  /\ (start + 4) mod 7 = 0
  /\ first - 6 <= start <= first
  /\ first < next <= start + 42
  /\ forall day, first <= day < next ->
       In (toLocaleDateStringCA 0 (Some (day * msPerDay))) dates.
Proof. apply (buildCalendarWeeks_covers_month (-300) [] 2024 11); lia. Defined.

End GridTheorem.

Module NavigationTheorem.
Local Open Scope Z_scope.

(** X19.  Month navigation.  Starting from a month number in 0..11, as
    the page does, any sequence of clicks on "Previous" and "Next" leaves
    the month number in 0..11, and the month shown is the one that many
    months away: counted as [12 * year + month], each "Next" adds one and
    each "Previous" takes one away, across the ends of the years. *)
Theorem month_navigation (clicks : list Click) (v : VisibleMonth) :
  0 <= month v <= 11 ->
  let v' := fold_left click clicks v in
  0 <= month v' <= 11
  /\ 12 * year v' + month v' = 12 * year v + month v + monthsMoved clicks.
Proof.
  revert v. induction clicks as [|c clicks IH]; intros v Hv;
    cbn [fold_left monthsMoved fold_right]; cbv zeta.
  - lia.
  - assert (Hc : 0 <= month (click v c) <= 11
                 /\ 12 * year (click v c) + month (click v c)
                    = 12 * year v + month v
                      + match c with Previous => -1 | Next => 1 end).
    { destruct c; unfold click, previousMonth, nextMonth; cbv zeta;
        cbn [year month].
      - destruct (Z.eqb_spec (month v) 0); lia.
      - destruct (Z.eqb_spec (month v) 11); lia. }
    destruct Hc as [Hr He]. destruct (IH (click v c) Hr) as [H1 H2].
    split; [exact H1|]. cbv zeta in H2. unfold monthsMoved in H2. lia.
Qed.

Lemma month_navigation_witness :
  let v' := fold_left click [Previous; Previous; Next] (mkVisibleMonth 2025 0) in
  0 <= month v' <= 11
  /\ 12 * year v' + month v'
     = 12 * 2025 + 0 + monthsMoved [Previous; Previous; Next].
Proof.
  apply (month_navigation [Previous; Previous; Next] (mkVisibleMonth 2025 0)).
  simpl. lia.
Defined.

End NavigationTheorem.

Module PriorityFacts.
Import JsDate JsLocal GridDates GridTheorem.
Local Open Scope Z_scope.

Lemma includes_iff (s kw : string) : includes s kw = true <-> contains kw s.
Proof.
  unfold contains. split.
  - induction s as [|c s IH]; simpl.
    + destruct (JsString.stripPrefix kw "") as [rest|] eqn:E; [|discriminate].
      intros _. apply StringFacts.stripPrefix_Some in E.
      exists ""%string, rest. exact E.
    + destruct (JsString.stripPrefix kw (String c s)) as [rest|] eqn:E.
      * intros _. apply StringFacts.stripPrefix_Some in E.
        exists ""%string, rest. exact E.
      * intros H. destruct (IH H) as (pre & post & ->).
        exists (String c pre), post. reflexivity.
  - intros (pre & post & ->). induction pre as [|c pre IH].
    + simpl. destruct post; simpl;
        destruct kw; simpl; rewrite ?Ascii.eqb_refl,
          ?StringFacts.stripPrefix_app; try reflexivity.
      all: now rewrite ?StringFacts.append_nil_r, ?StringFacts.stripPrefix_app.
    + change (String c pre ++ kw ++ post)%string
        with (String c (pre ++ kw ++ post)%string).
      cbn [includes]. rewrite IH. now destruct (JsString.stripPrefix kw _).
Qed.

Lemma setHoursZero_in_range (zone : Zone) (t : Z) :
  midnightInRange zone t ->
  setHoursZero zone (Some t)
  = Some (utcIn zone (localDayIn zone t * msPerDay)).
Proof. intros H. unfold setHoursZero. now apply timeClip_in_range. Qed.

(** A fixed offset: two days of margin keep the midnight in range, and
    days and midnights are in order. *)
Lemma fixedZone_midnightInRange (tz t : Z) :
  -1440 <= tz <= 1440 ->
  - maxTime + 2 * msPerDay <= t <= maxTime - 2 * msPerDay ->
  midnightInRange (fixedZone tz) t.
Proof.
  intros Htz Ht. unfold midnightInRange, utcIn, localDayIn, localTimeIn. simpl.
  pose proof (Z.div_mod (t + tz * msPerMinute) msPerDay ltac:(discriminate)).
  pose proof (Z.mod_pos_bound (t + tz * msPerMinute) msPerDay eq_refl).
  unfold maxTime, msPerDay, msPerMinute in *. lia.
Qed.

Lemma fixedZone_ordered (tz : Z) : orderedZone (fixedZone tz).
Proof.
  split.
  - intros a b H. unfold localDayIn, localTimeIn. simpl.
    apply Z.div_le_mono; [reflexivity | lia].
  - intros d e H. unfold utcIn. simpl. unfold msPerDay. lia.
Qed.

(** The zone of the example. *)
Lemma newYork2024_ordered : orderedZone newYork2024.
Proof.
  split.
  - intros a b H. unfold localDayIn, localTimeIn. simpl.
    unfold autumnChange, msPerDay, msPerMinute.
    destruct (Z.ltb_spec a 1730613600000), (Z.ltb_spec b 1730613600000);
      Z.to_euclidean_division_equations; lia.
  - intros d e H. unfold utcIn, newYork2024. cbn [offsetOfLocal].
    unfold autumnChange, msPerDay, msPerMinute.
    repeat match goal with
           | |- context [?x <? ?y] => destruct (Z.ltb_spec x y)
           end; lia.
Qed.

(** [Math.ceil] of the time between two local midnights, in days: the
    local days between them, and one day more or less per day by which
    the offset of the zone differs. *)
Lemma ceilDiv_midnights (a b s : Z) :
  ceilDiv (a * msPerDay - b * msPerDay + s * msPerMinute) (1000 * 60 * 60 * 24)
  = a - b + ceilDiv s 1440.
Proof.
  unfold ceilDiv, msPerDay, msPerMinute.
  replace (- (a * 86400000 - b * 86400000 + s * 60000))
    with (((b - a) * 1440 + - s) * 60000) by ring.
  change (1000 * 60 * 60 * 24) with (1440 * 60000).
  rewrite Z.div_mul_cancel_r by discriminate.
  rewrite Z.div_add_l by discriminate. ring.
Qed.

Lemma ceilDiv_mono (a b : Z) :
  a <= b ->
  ceilDiv a (1000 * 60 * 60 * 24) <= ceilDiv b (1000 * 60 * 60 * 24).
Proof.
  intros H. unfold ceilDiv.
  pose proof (Z.div_le_mono (- b) (- a) (1000 * 60 * 60 * 24) eq_refl
                ltac:(lia)).
  lia.
Qed.

Lemma levelOfDays_past (diff : Z) :
  (if diff <? 0 then high else levelOfDays diff) = levelOfDays diff.
Proof.
  unfold levelOfDays. destruct (Z.ltb_spec diff 0) as [H|H]; [|reflexivity].
  replace (diff <=? 1) with true by (symmetry; apply Z.leb_le; lia).
  reflexivity.
Qed.

(** With a due date that parses, the level is a function of the time
    between today's local midnight and the local midnight of the due
    day. *)
Lemma priority_of_midnights (zone : Zone) (legacy : string -> option Z)
    (now dueTime : Z) (item : TaskItem.t) :
  midnightInRange zone now -> midnightInRange zone dueTime ->
  JsString.truthy (TaskItem.dueDate item) = true ->
  parseIn (offsetOfLocal zone) legacy
    (JsString.nullish (TaskItem.dueDate item) "") = Some dueTime ->
  getTaskPriority zone legacy now item
  = levelOfDays
      (ceilDiv (utcIn zone (localDayIn zone dueTime * msPerDay)
                - utcIn zone (localDayIn zone now * msPerDay))
         (1000 * 60 * 60 * 24)).
Proof.
  intros Hnow Hdue Ht Hp. unfold getTaskPriority. rewrite Ht, Hp.
  rewrite !setHoursZero_in_range by assumption.
  cbv zeta. apply levelOfDays_past.
Qed.

(** The same in days: the local days from today to the due day, and the
    difference of the offsets at the two midnights. *)
Lemma priority_of_days (zone : Zone) (legacy : string -> option Z)
    (now dueTime : Z) (item : TaskItem.t) :
  midnightInRange zone now -> midnightInRange zone dueTime ->
  JsString.truthy (TaskItem.dueDate item) = true ->
  parseIn (offsetOfLocal zone) legacy
    (JsString.nullish (TaskItem.dueDate item) "") = Some dueTime ->
  getTaskPriority zone legacy now item
  = levelOfDays
      (localDayIn zone dueTime - localDayIn zone now
       + ceilDiv (offsetOfLocal zone (localDayIn zone now * msPerDay)
                  - offsetOfLocal zone (localDayIn zone dueTime * msPerDay))
           1440).
Proof.
  intros Hnow Hdue Ht Hp.
  rewrite (priority_of_midnights zone legacy now dueTime item) by assumption.
  unfold utcIn. rewrite <- ceilDiv_midnights. f_equal. f_equal. ring.
Qed.

Lemma levelOfDays_mono (a b : Z) :
  a <= b -> urgency (levelOfDays b) <= urgency (levelOfDays a).
Proof.
  intros H. unfold levelOfDays.
  destruct (Z.leb_spec a 1), (Z.leb_spec b 1); simpl; try lia;
    destruct (Z.leb_spec a 4), (Z.leb_spec b 4); simpl; lia.
Qed.

(** Under a fixed offset within a day of UTC, and two days away from the
    ends of the range of time values, the later due date is never the
    more urgent one. *)
Lemma later_is_not_more_urgent_fixed_offset (tz : Z)
    (legacy : string -> option Z) (now dueA dueB : Z) (a b : TaskItem.t) :
  -1440 <= tz <= 1440 ->
  - maxTime + 2 * msPerDay <= now <= maxTime - 2 * msPerDay ->
  - maxTime + 2 * msPerDay <= dueA -> dueA <= dueB ->
  dueB <= maxTime - 2 * msPerDay ->
  JsString.truthy (TaskItem.dueDate a) = true ->
  JsString.truthy (TaskItem.dueDate b) = true ->
  parse tz legacy (JsString.nullish (TaskItem.dueDate a) "") = Some dueA ->
  parse tz legacy (JsString.nullish (TaskItem.dueDate b) "") = Some dueB ->
  urgency (getTaskPriority (fixedZone tz) legacy now b)
  <= urgency (getTaskPriority (fixedZone tz) legacy now a).
Proof.
  intros Htz Hnow HA HAB HB Ta Tb Pa Pb.
  destruct (fixedZone_ordered tz) as [Hdays Hmid].
  rewrite (priority_of_midnights (fixedZone tz) legacy now dueA a);
    try assumption; try (apply fixedZone_midnightInRange; lia).
  rewrite (priority_of_midnights (fixedZone tz) legacy now dueB b);
    try assumption; try (apply fixedZone_midnightInRange; lia).
  apply levelOfDays_mono, ceilDiv_mono.
  pose proof (Hmid _ _ (Hdays dueA dueB HAB)). lia.
Qed.

Lemma mentions_iff (keywords : list string) (text : string) :
  existsb (fun keyword => includes text keyword) keywords = true
  <-> mentions keywords text.
Proof.
  unfold mentions. rewrite existsb_exists.
  split; intros (kw & Hin & H); exists kw; split; try assumption;
    now apply includes_iff.
Qed.

End PriorityFacts.

Module PriorityTheorems.
Import JsDate JsLocal GridDates GridTheorem PriorityFacts.
Local Open Scope Z_scope.

(** X20.  Priority by due date.  For an item whose due date text parses,
    the level depends on the number of days that the function counts
    from today to the due day: high up to one day, and so for every day
    that is past; medium from two to four days; low from five days on.
    The days counted are the local days from today to the due day when
    the offset of the zone at the two local midnights is the same or the
    clocks were set forward in between; when the clocks were set back in
    between (the end of daylight saving), one day more is counted, so a
    task due tomorrow is shown as medium.  The last test of the function,
    for days that are past, never changes the level. *)
Theorem getTaskPriority_by_due_day (zone : Zone) (legacy : string -> option Z)
    (now dueTime : Z) (item : TaskItem.t) :
  midnightInRange zone now -> midnightInRange zone dueTime ->
  JsString.truthy (TaskItem.dueDate item) = true ->
  parseIn (offsetOfLocal zone) legacy
    (JsString.nullish (TaskItem.dueDate item) "") = Some dueTime ->
  let days := localDayIn zone dueTime - localDayIn zone now in
  let setBack := offsetOfLocal zone (localDayIn zone now * msPerDay)
                 - offsetOfLocal zone (localDayIn zone dueTime * msPerDay) in
  let diffDays := days + ceilDiv setBack 1440 in
  let level := getTaskPriority zone legacy now item in
  (level = high <-> diffDays <= 1)
  /\ (level = medium <-> 2 <= diffDays <= 4)
  /\ (level = low <-> 5 <= diffDays)
  /\ (-1440 < setBack <= 0 -> diffDays = days)
  /\ (0 < setBack <= 1440 -> diffDays = days + 1).
Proof.
  intros Hnow Hdue Ht Hp. cbv zeta.
  rewrite (priority_of_days zone legacy now dueTime item) by assumption.
  set (days := localDayIn zone dueTime - localDayIn zone now).
  set (setBack := offsetOfLocal zone _ - offsetOfLocal zone _).
  assert (Hlevel : forall d,
             (levelOfDays d = high <-> d <= 1)
             /\ (levelOfDays d = medium <-> 2 <= d <= 4)
             /\ (levelOfDays d = low <-> 5 <= d)).
  { intros d. unfold levelOfDays.
    destruct (Z.leb_spec d 1);
      [repeat split; intros; try discriminate; lia|].
    destruct (Z.leb_spec d 4);
      repeat split; intros; try discriminate; lia. }
  destruct (Hlevel (days + ceilDiv setBack 1440)) as (H1 & H2 & H3).
  split; [exact H1|]. split; [exact H2|]. split; [exact H3|].
  unfold ceilDiv. split; intros H; Z.to_euclidean_division_equations; lia.
Qed.

(** New York, Sunday 3 November 2024 at noon, the day on which the clocks
    were set back; a task due on Monday (date text "2024-11-05", read as
    midnight UTC, which is Monday evening in New York). *)
Lemma getTaskPriority_by_due_day_witness :
  let item := TaskItem.mk "uuid-2" "essay" None (Some "2024-11-05"%string) None
                None None None in
  let now := 1730653200000 in
  let dueTime := 1730764800000 in
  localDayIn newYork2024 dueTime - localDayIn newYork2024 now = 1
  /\ getTaskPriority newYork2024 (fun _ => None) now item = medium.
Proof.
  intros item now dueTime.
  destruct (getTaskPriority_by_due_day newYork2024 (fun _ => None) now dueTime
              item) as (_ & H & _).
  - unfold midnightInRange. vm_compute. split; discriminate.
  - unfold midnightInRange. vm_compute. split; discriminate.
  - reflexivity.
  - vm_compute. reflexivity.
  - split; [vm_compute; reflexivity|].
    apply H. vm_compute. split; discriminate.
Defined.

(** X21.  Priority is monotone in the due date.  Of two items whose due
    date texts parse, at the same moment in the same zone, the one that is
    due later is never shown as more urgent.  The zone may change its
    offset; its local days and local midnights follow the order of time,
    as they do under a fixed offset ([fixedZone_ordered]) and across the
    end of daylight saving ([newYork2024_ordered]). *)
Theorem getTaskPriority_later_is_not_more_urgent (zone : Zone)
    (legacy : string -> option Z) (now dueA dueB : Z) (a b : TaskItem.t) :
  orderedZone zone ->
  midnightInRange zone now ->
  midnightInRange zone dueA -> dueA <= dueB -> midnightInRange zone dueB ->
  JsString.truthy (TaskItem.dueDate a) = true ->
  JsString.truthy (TaskItem.dueDate b) = true ->
  parseIn (offsetOfLocal zone) legacy
    (JsString.nullish (TaskItem.dueDate a) "") = Some dueA ->
  parseIn (offsetOfLocal zone) legacy
    (JsString.nullish (TaskItem.dueDate b) "") = Some dueB ->
  urgency (getTaskPriority zone legacy now b)
  <= urgency (getTaskPriority zone legacy now a).
Proof.
  intros [Hdays Hmid] Hnow HA HAB HB Ta Tb Pa Pb.
  rewrite (priority_of_midnights zone legacy now dueA a) by assumption.
  rewrite (priority_of_midnights zone legacy now dueB b) by assumption.
  apply levelOfDays_mono, ceilDiv_mono.
  pose proof (Hmid _ _ (Hdays dueA dueB HAB)). lia.
Qed.

(** New York on 3 November 2024 at noon; tasks with the date texts
    "2024-11-05" and "2024-11-09". *)
Lemma getTaskPriority_later_is_not_more_urgent_witness :
  urgency (getTaskPriority newYork2024 (fun _ => None) 1730653200000
             (TaskItem.mk "b" "talk" None (Some "2024-11-09"%string) None None
                None None))
  <= urgency (getTaskPriority newYork2024 (fun _ => None) 1730653200000
                (TaskItem.mk "a" "essay" None (Some "2024-11-05"%string) None
                   None None None)).
Proof.
  apply (getTaskPriority_later_is_not_more_urgent newYork2024 (fun _ => None)
           1730653200000 1730764800000 1731110400000).
  - apply newYork2024_ordered.
  - unfold midnightInRange. vm_compute. split; discriminate.
  - unfold midnightInRange. vm_compute. split; discriminate.
  - lia.
  - unfold midnightInRange. vm_compute. split; discriminate.
  - reflexivity.
  - reflexivity.
  - vm_compute. reflexivity.
  - vm_compute. reflexivity.
Defined.

(** X22.  Priority by keywords.  An item without a due date is high when
    its lower-cased name, description and text mention one of the urgent
    keywords; medium when they mention none of those but one of the
    medium keywords; low otherwise.  An item with a due date text that is
    not a date is low whatever it mentions. *)
Theorem getTaskPriority_by_keywords (zone : Zone)
    (legacy : string -> option Z) (now : Z) (item : TaskItem.t) :
  let level := getTaskPriority zone legacy now item in
  (JsString.truthy (TaskItem.dueDate item) = false ->
   (level = high <-> mentions urgentKeywords (priorityContext item))
   /\ (level = medium <->
       ~ mentions urgentKeywords (priorityContext item)
       /\ mentions mediumKeywords (priorityContext item))
   /\ (level = low <->
       ~ mentions urgentKeywords (priorityContext item)
       /\ ~ mentions mediumKeywords (priorityContext item)))
  /\ (JsString.truthy (TaskItem.dueDate item) = true ->
      parseIn (offsetOfLocal zone) legacy
        (JsString.nullish (TaskItem.dueDate item) "") = None ->
      level = low).
Proof.
  cbv zeta. unfold getTaskPriority. split.
  - intros ->. fold (priorityContext item).
    pose proof (mentions_iff urgentKeywords (priorityContext item)) as Hu.
    pose proof (mentions_iff mediumKeywords (priorityContext item)) as Hm.
    destruct (existsb _ urgentKeywords);
      [|destruct (existsb _ mediumKeywords)].
    + assert (U : mentions urgentKeywords (priorityContext item))
        by now apply Hu.
      repeat split; intros; try discriminate; try reflexivity; tauto.
    + assert (U : ~ mentions urgentKeywords (priorityContext item))
        by (intros H; apply Hu in H; discriminate).
      assert (M : mentions mediumKeywords (priorityContext item))
        by now apply Hm.
      repeat split; intros; try discriminate; try reflexivity; tauto.
    + assert (U : ~ mentions urgentKeywords (priorityContext item))
        by (intros H; apply Hu in H; discriminate).
      assert (M : ~ mentions mediumKeywords (priorityContext item))
        by (intros H; apply Hm in H; discriminate).
      repeat split; intros; try discriminate; try reflexivity; tauto.
  - intros -> ->. reflexivity.
Qed.

End PriorityTheorems.

Module DateTextFacts.
Import JsDate JsLocal LocalDateFacts GridDates StringFacts.
Local Open Scope Z_scope.

Lemma digitVal_digitChar (v : Z) :
  0 <= v <= 9 -> digitVal (digitChar v) = Some v.
Proof.
  intros H.
  assert (Hc : v = 0 \/ v = 1 \/ v = 2 \/ v = 3 \/ v = 4 \/ v = 5 \/ v = 6
               \/ v = 7 \/ v = 8 \/ v = 9) by lia.
  destruct Hc as [->|[->|[->|[->|[->|[->|[->|[->|[->| ->]]]]]]]]];
    reflexivity.
Qed.

Lemma length_append (a b : string) :
  String.length (a ++ b) = (String.length a + String.length b)%nat.
Proof. induction a as [|c a IH]; simpl; [reflexivity | now rewrite IH]. Qed.

Lemma pad_length (w : nat) (n : Z) : String.length (pad w n) = w.
Proof.
  revert n. induction w as [|w IH]; intros n; simpl; [reflexivity|].
  rewrite length_append, IH. simpl. lia.
Qed.

Lemma digitRun_pad (w : nat) :
  forall n rest,
    digitRun (pad w n ++ rest)%string
    = (padDigits w n ++ fst (digitRun rest), snd (digitRun rest)).
Proof.
  induction w as [|w IH]; intros n rest; simpl.
  - now destruct (digitRun rest).
  - rewrite append_assoc, IH. cbn [String.append digitRun].
    rewrite digitVal_digitChar
      by (pose proof (Z.mod_pos_bound n 10 eq_refl); lia).
    destruct (digitRun rest) as [ds rest']. simpl.
    now rewrite <- app_assoc.
Qed.

Lemma padDigits_length (w : nat) (n : Z) : List.length (padDigits w n) = w.
Proof.
  revert n. induction w as [|w IH]; intros n; simpl; [reflexivity|].
  rewrite length_app, IH. simpl. lia.
Qed.

Lemma fixedNumber_pad2 (n : Z) (rest : string) :
  0 <= n <= 99 -> digitRun rest = ([], rest) ->
  fixedNumber 2 (pad 2 n ++ rest)%string = Some (n, rest).
Proof.
  intros Hn Hr. unfold fixedNumber. rewrite digitRun_pad, Hr. simpl.
  unfold digitsValue. simpl. do 2 f_equal.
  Z.to_euclidean_division_equations. lia.
Qed.

Lemma fixedNumber_pad4 (n : Z) (rest : string) :
  0 <= n <= 9999 -> digitRun rest = ([], rest) ->
  fixedNumber 4 (pad 4 n ++ rest)%string = Some (n, rest).
Proof.
  intros Hn Hr. unfold fixedNumber. rewrite digitRun_pad, Hr. simpl.
  unfold digitsValue. simpl. do 2 f_equal.
  Z.to_euclidean_division_equations. lia.
Qed.

Lemma substring_prefix (a b : string) :
  substring 0 (String.length a) (a ++ b) = a.
Proof.
  induction a as [|c a IH]; simpl.
  - now destruct b.
  - now rewrite IH.
Qed.

(** The first character of a padded number is a digit. *)
Lemma pad_first (w : nat) (n : Z) :
  exists v s, 0 <= v <= 9 /\ pad (S w) n = String (digitChar v) s.
Proof.
  revert n. induction w as [|w IH]; intros n.
  - exists (n mod 10), ""%string.
    split; [pose proof (Z.mod_pos_bound n 10 eq_refl); lia|].
    reflexivity.
  - destruct (IH (n / 10)) as (v & s & Hv & E).
    exists v, (s ++ String (digitChar (n mod 10)) "")%string.
    split; [exact Hv|].
    change (pad (S (S w)) n)
      with (pad (S w) (n / 10) ++ String (digitChar (n mod 10)) "")%string.
    now rewrite E.
Qed.

(** The date part of [toISOString], for the years with four digits. *)
Lemma dueDateText_form (t y m d : Z) :
  civilFromDays (t / msPerDay) = (y, m, d) -> 0 <= y <= 9999 ->
  slice 0 10 (toISOString t)
  = (pad 4 y ++ "-" ++ pad 2 m ++ "-" ++ pad 2 d)%string.
Proof.
  intros E Hy. unfold toISOString. rewrite E.
  replace ((0 <=? y) && (y <=? 9999))%bool with true
    by (symmetry; apply andb_true_iff; split; apply Z.leb_le; lia).
  set (A := (pad 4 y ++ "-" ++ pad 2 m ++ "-" ++ pad 2 d)%string).
  match goal with
  | |- slice 0 10 ?s = _ =>
      match s with
      | context [String.append (pad 2 d) ?rest] =>
          replace s with (A ++ rest)%string
            by (unfold A; now rewrite !append_assoc)
      end
  end.
  assert (HL : String.length A = 10%nat).
  { unfold A. rewrite !length_append, !pad_length. reflexivity. }
  unfold slice. change (10 - 0)%nat with 10%nat. rewrite <- HL.
  apply substring_prefix.
Qed.

Lemma digit_not_sign (v : Z) :
  0 <= v <= 9 ->
  (isChar "+" (digitChar v) || isChar "-" (digitChar v))%bool = false.
Proof.
  intros H.
  assert (Hc : v = 0 \/ v = 1 \/ v = 2 \/ v = 3 \/ v = 4 \/ v = 5 \/ v = 6
               \/ v = 7 \/ v = 8 \/ v = 9) by lia.
  destruct Hc as [->|[->|[->|[->|[->|[->|[->|[->|[->| ->]]]]]]]]];
    reflexivity.
Qed.

(** [new Date] reads a date-only text as midnight UTC of that day. *)
Lemma parse_date_text (local : Z -> Z) (legacy : string -> option Z)
    (y m d : Z) :
  0 <= y <= 9999 -> 1 <= m <= 12 -> 1 <= d <= 31 ->
  parseIn local legacy (pad 4 y ++ "-" ++ pad 2 m ++ "-" ++ pad 2 d)%string
  = timeClip (daysFromCivil y m d * msPerDay).
Proof.
  intros Hy Hm Hd. unfold parseIn, readDateTime.
  set (rest := ("-" ++ pad 2 m ++ "-" ++ pad 2 d)%string).
  assert (Hf : fixedNumber 4 (pad 4 y ++ rest)%string = Some (y, rest)).
  { apply fixedNumber_pad4; [lia | reflexivity]. }
  destruct (pad_first 3 y) as (v & s' & Hv & E). rewrite E in *.
  cbn [String.append] in *. rewrite (digit_not_sign v Hv), Hf.
  unfold rest, readAfterYear. cbn [String.append].
  change (isChar "-" "-") with true. cbv iota.
  rewrite (fixedNumber_pad2 m (String "-" (pad 2 d)) ltac:(lia) eq_refl).
  replace (isMonth m) with true
    by (symmetry; apply andb_true_iff; split; apply Z.leb_le; lia).
  change (isChar "-" "-") with true. cbv iota.
  rewrite <- (append_nil_r (pad 2 d)).
  rewrite (fixedNumber_pad2 d "" ltac:(lia) eq_refl).
  replace (isDay d) with true
    by (symmetry; apply andb_true_iff; split; apply Z.leb_le; lia).
  f_equal. rewrite (daysFromCivil_day y m d). ring.
Qed.

(** The days from 1970 to 9999 have years with four digits. *)
Lemma year_bounds (z : Z) :
  0 <= z <= 2932896 -> 1970 <= fst (fst (civilFromDays z)) <= 9999.
Proof.
  intros Hz. unfold civilFromDays.
  set (z' := z + 719468).
  set (era := z' / 146097).
  set (doe := z' - era * 146097).
  assert (Hera : 4 <= era <= 24).
  { unfold era, z'. Z.to_euclidean_division_equations. lia. }
  assert (Hdoe : 0 <= doe <= 146096).
  { unfold doe, era. Z.to_euclidean_division_equations. lia. }
  set (yoe := (doe - doe / 1460 + doe / 36524 - doe / 146096) / 365).
  assert (Hyoe : 0 <= yoe <= 399).
  { unfold yoe. Z.to_euclidean_division_equations. lia. }
  set (doy := doe - (365 * yoe + yoe / 4 - yoe / 100)).
  assert (Hdoy : 0 <= doy <= 365).
  { unfold doy, yoe. Z.to_euclidean_division_equations. lia. }
  set (mp := (5 * doy + 2) / 153).
  cbv zeta. cbn [fst].
  assert (Hlow : era = 4 -> yoe = 369 -> 306 <= doy).
  { intros E4 E369. unfold doy. rewrite E369.
    unfold doe, z'. rewrite E4. change (369 / 4) with 92.
    change (369 / 100) with 3. lia. }
  assert (Hhigh : era = 24 -> yoe = 399 -> doy <= 305).
  { intros E24 E399. unfold doy. rewrite E399.
    unfold doe, z'. rewrite E24. change (399 / 4) with 99.
    change (399 / 100) with 3. lia. }
  assert (Hyoe4 : era = 4 -> 369 <= yoe).
  { intros E4. unfold yoe, doe, z'. rewrite E4.
    Z.to_euclidean_division_equations. lia. }
  destruct (Z.ltb_spec mp 10) as [Hmp|Hmp].
  - replace (mp + 3 <=? 2) with false
      by (symmetry; apply Z.leb_gt; unfold mp;
          Z.to_euclidean_division_equations; lia).
    assert (era = 4 -> yoe = 369 -> False).
    { intros E4 E369. specialize (Hlow E4 E369). unfold mp in Hmp.
      Z.to_euclidean_division_equations. lia. }
    specialize (Hyoe4). lia.
  - replace (mp - 9 <=? 2) with true
      by (symmetry; apply Z.leb_le; unfold mp;
          Z.to_euclidean_division_equations; lia).
    assert (era = 24 -> yoe = 399 -> False).
    { intros E24 E399. specialize (Hhigh E24 E399). unfold mp in Hmp.
      Z.to_euclidean_division_equations. lia. }
    specialize (Hyoe4). lia.
Qed.

(** The date text of a stored timestamp, read back by [new Date]. *)
Lemma parse_dueDateText (local : Z -> Z) (legacy : string -> option Z)
    (t : Z) :
  0 <= t < 253402300800000 ->
  exists text,
    dueDateText (Some t) = Some text /\ text <> ""%string
    /\ parseIn local legacy text = Some (t / msPerDay * msPerDay).
Proof.
  intros Ht.
  pose proof (civil_roundtrip (t / msPerDay)) as H.
  destruct (civilFromDays (t / msPerDay)) as [[y m] d] eqn:E.
  destruct H as (Er & Hm & Hd).
  assert (Hz : 0 <= t / msPerDay <= 2932896).
  { unfold msPerDay. Z.to_euclidean_division_equations. lia. }
  assert (Hy : 0 <= y <= 9999).
  { pose proof (year_bounds (t / msPerDay) Hz) as Hb.
    rewrite E in Hb. simpl in Hb. lia. }
  exists (pad 4 y ++ "-" ++ pad 2 m ++ "-" ++ pad 2 d)%string.
  split; [|split].
  - simpl. f_equal. now apply dueDateText_form.
  - destruct (pad_first 3 y) as (v & s' & _ & ->). discriminate.
  - rewrite parse_date_text by assumption. rewrite Er.
    apply timeClip_in_range. unfold maxTime, msPerDay in *. lia.
Qed.

End DateTextFacts.

Module StoredPriority.
Import JsDate JsLocal LocalDateFacts GridDates GridTheorem PriorityFacts
       DateTextFacts.
Local Open Scope Z_scope.

Lemma localDay_of_utc_midnight (zone : Zone) (z : Z) :
  localDayIn zone (z * msPerDay) = z + offsetAt zone (z * msPerDay) / 1440.
Proof.
  unfold localDayIn, localTimeIn, msPerDay, msPerMinute.
  change 86400000 with (1440 * 60000).
  replace (z * (1440 * 60000) + offsetAt zone (z * (1440 * 60000)) * 60000)
    with ((z * 1440 + offsetAt zone (z * (1440 * 60000))) * 60000) by ring.
  rewrite Z.div_mul_cancel_r by discriminate.
  now rewrite Z.div_add_l by discriminate.
Qed.

(** X23.  The priority of a stored task.  A task stored with a due
    timestamp between 1970 and 9999 reaches the dashboard as the date text
    of its UTC day; the browser reads that text as midnight UTC and then
    takes the local day of that moment: the UTC day in a zone at or east
    of UTC, and the day before it in a zone west of UTC, where every task
    counts as due one day earlier than its date text says.  The level is
    that of the days counted from the local today to that day: the local
    days between them, and one more when the clocks were set back in
    between. *)
Theorem stored_task_priority (zone : Zone) (legacy : string -> option Z)
    (now t : Z) (row : TaskRow.t) :
  TaskRow.dueDate row = Some t -> 0 <= t < 253402300800000 ->
  midnightInRange zone now ->
  midnightInRange zone (t / msPerDay * msPerDay) ->
  let utcDay := t / msPerDay in
  let offset := offsetAt zone (utcDay * msPerDay) in
  let dueDay := utcDay + offset / 1440 in
  let today := localDayIn zone now in
  let setBack := offsetOfLocal zone (today * msPerDay)
                 - offsetOfLocal zone (dueDay * msPerDay) in
  getTaskPriority zone legacy now (itemOf row)
  = levelOfDays (dueDay - today + ceilDiv setBack 1440)
  /\ (0 <= offset < 1440 -> dueDay = utcDay)
  /\ (-1440 <= offset < 0 -> dueDay = utcDay - 1)
  /\ (-1440 < setBack <= 0 -> ceilDiv setBack 1440 = 0)
  /\ (0 < setBack <= 1440 -> ceilDiv setBack 1440 = 1).
Proof.
  intros Hrow Ht Hnow Hdue. cbv zeta.
  destruct (parse_dueDateText (offsetOfLocal zone) legacy t Ht)
    as (text & Etext & Hne & Hp).
  split; [|unfold ceilDiv; repeat split; intros H;
           Z.to_euclidean_division_equations; lia].
  rewrite (priority_of_days zone legacy now (t / msPerDay * msPerDay)).
  - now rewrite localDay_of_utc_midnight.
  - exact Hnow.
  - exact Hdue.
  - unfold itemOf. cbn [TaskItem.dueDate]. rewrite Hrow, Etext.
    destruct text; [contradiction | reflexivity].
  - unfold itemOf. cbn [TaskItem.dueDate]. rewrite Hrow, Etext. exact Hp.
Qed.

(** New York on 3 November 2024 at noon; a task stored as due on
    5 November at 14:00 UTC counts as due on Monday the 4th, and the day
    to it, 25 hours long, counts as two: medium. *)
Lemma stored_task_priority_witness :
  getTaskPriority newYork2024 (fun _ => None) 1730653200000
    (itemOf (TaskRow.mk "uuid-2" "uuid-1" "essay" None None
               (Some 1730815200000) 0 0))
  = medium.
Proof.
  destruct (stored_task_priority newYork2024 (fun _ => None) 1730653200000
              1730815200000
              (TaskRow.mk "uuid-2" "uuid-1" "essay" None None
                 (Some 1730815200000) 0 0)) as [H _].
  - reflexivity.
  - lia.
  - unfold midnightInRange. vm_compute. split; discriminate.
  - unfold midnightInRange. vm_compute. split; discriminate.
  - rewrite H. vm_compute. reflexivity.
Defined.

End StoredPriority.

(* ================================================================== *)
(** ** The pages and the server actions together *)

Module CaseFacts.
Import JsString StringFacts.
Local Open Scope string_scope.

Lemma lowerChar_idem (c : ascii) : lowerChar (lowerChar c) = lowerChar c.
Proof. destruct c as [[] [] [] [] [] [] [] []]; reflexivity. Qed.

Lemma toLowerCase_idem (s : string) : toLowerCase (toLowerCase s) = toLowerCase s.
Proof.
  induction s as [|c s IH]; simpl; [reflexivity|].
  now rewrite lowerChar_idem, IH.
Qed.

(** X27.  The categorizer ignores letter case.  The type given to a task
    text with its stored fields is the type given to the same texts in
    lower case: the patterns are matched against the lower-cased text, so
    "HOMEWORK", "Homework" and "homework" are the same to it. *)
Theorem categorizeTaskType_ignores_case (task : string)
    (parsedTask : option ParsedTask) :
  Categorizer.categorizeTaskType task parsedTask
  = Categorizer.categorizeTaskType (toLowerCase task)
      (option_map lowerCased parsedTask).
Proof.
  unfold Categorizer.categorizeTaskType. f_equal. f_equal.
  unfold Categorizer.source. rewrite !toLowerCase_app, toLowerCase_idem.
  destruct parsedTask as [[an dd dt de cc tt]|]; simpl; [|reflexivity].
  destruct de as [de|], an as [an|]; simpl;
    now rewrite ?toLowerCase_idem.
Qed.

End CaseFacts.

Module DialogFacts.
Import WorldFacts InvFacts TableFacts LoadFacts MutationFacts CalendarFacts
       AssignFacts Reachability NoOpFacts Integrity Lookup OwnershipFacts
       UpdateTaskTheorems Isolation ViewChange.

(** The task table after [updateTask]: as it was, or as the UPDATE
    statement left it. *)
Lemma updateTask_tasks (env : Env) (u i : string) (up : TaskUpdates.t)
    (w : World) :
  tasks (snd (updateTask env u i up w)) = tasks w
  \/ tasks (snd (updateTask env u i up w))
     = tasks (snd (Db.updateTask i (TaskUpdates.assignmentName up)
                     (TaskUpdates.description up)
                     (composeDueDate env (TaskUpdates.dueDate up)
                        (TaskUpdates.dueTime up))
                     (TaskUpdates.bucketId up) (clock w) w)).
Proof.
  rewrite updateTask_eq.
  destruct (JsString.isEmpty u || JsString.isEmpty i)%bool;
    [left; apply tasks_loadCalendarTasks|].
  destruct (ownsTask u i w); [|left; apply tasks_loadCalendarTasks].
  assert (Edue : (if JsString.truthy (TaskUpdates.dueDate up)
                  then composeDueDate env (TaskUpdates.dueDate up)
                         (TaskUpdates.dueTime up)
                  else None)
                 = composeDueDate env (TaskUpdates.dueDate up)
                     (TaskUpdates.dueTime up)).
  { unfold composeDueDate. now destruct (JsString.truthy _). }
  rewrite Edue. right. unfold bind.
  destruct (Db.updateTask _ _ _ _ _ _ w) as [[[]|e] w1]; simpl; [|reflexivity].
  apply tasks_loadCalendarTasks.
Qed.

Lemma orUndefined_blank (s : string) :
  JsString.allSpaces s = true -> orUndefined (JsString.trim s) = None.
Proof.
  intros H. unfold orUndefined.
  now rewrite (proj2 (StringFacts.trim_empty_iff s) H).
Qed.

Lemma Forall2_same {A} (R : A -> A -> Prop) (l : list A) :
  (forall x, R x x) -> Forall2 R l l.
Proof. intros H. induction l; constructor; auto. Qed.

Lemma NoDup_map_same {A B} (f : A -> B) (l : list A) (a b : A) :
  NoDup (map f l) -> In a l -> In b l -> f a = f b -> a = b.
Proof.
  induction l as [|x l IH]; simpl; intros Hnd Ha Hb E; [destruct Ha|].
  inversion Hnd as [|? ? Hx Hnd']; subst.
  destruct Ha as [->|Ha], Hb as [->|Hb]; auto.
  - exfalso. apply Hx. rewrite E. now apply in_map.
  - exfalso. apply Hx. rewrite <- E. now apply in_map.
Qed.

End DialogFacts.

Module DialogTheorems.
Import WorldFacts InvFacts TableFacts LoadFacts MutationFacts CalendarFacts
       AssignFacts Reachability NoOpFacts Integrity Lookup OwnershipFacts
       UpdateTaskTheorems Isolation ViewChange DialogFacts.

(** X24.  What the edit dialog cannot do.  Whatever the state of the
    dialog, saving it leaves the stored name of every task as it is when
    the name field is blank, the description when that field is blank,
    the due date when the date field is empty, even with a time given,
    and the bucket when no bucket is selected: a blank field is sent as
    undefined and left out of the update, so the dialog cannot clear a
    name, a description or a due date. *)
Theorem dialog_cannot_clear_fields (env : Env) (u i : string)
    (form : EditForm) (w : World) :
  Forall2
    (fun t t' =>
       (JsString.allSpaces (formAssignmentName form) = true ->
        TaskRow.assignmentName t' = TaskRow.assignmentName t)
       /\ (JsString.allSpaces (formDescription form) = true ->
           TaskRow.description t' = TaskRow.description t)
       /\ (formDueDate form = "" -> TaskRow.dueDate t' = TaskRow.dueDate t)
       /\ (formBucketId form = "" -> TaskRow.bucketId t' = TaskRow.bucketId t))
    (tasks w) (tasks (snd (updateTask env u i (handleSave form) w))).
Proof.
  destruct (updateTask_tasks env u i (handleSave form) w) as [E|E]; rewrite E.
  - apply Forall2_same. intros t. auto.
  - eapply Forall2_impl; [|apply tasks_updateTask].
    intros t t' (_ & _ & _ & _ & Ha & Hd & Hdue & Hb & _).
    repeat split.
    + intros H. apply Ha. simpl. now apply orUndefined_blank.
    + intros H. apply Hd. simpl. now apply orUndefined_blank.
    + intros H. apply Hdue. simpl. now rewrite H.
    + intros H. apply Hb. simpl. now rewrite H.
Qed.

(** X25.  The untouched dialog keeps the bucket.  In a reachable world,
    when the names of the user's buckets are pairwise different, opening
    the edit dialog for an own task, with the buckets as loaded, and
    saving it leaves every task in its bucket: the bucket that the dialog
    selects by the name that [getTaskById] reports is the task's own. *)
Theorem untouched_dialog_keeps_bucket (env : Env) (u i : string) (w : World) :
  reachable w -> u <> "" -> i <> "" -> ownsTask u i w = true ->
  NoDup (map BucketRow.name
           (filter (fun b => String.eqb (BucketRow.userId b) u) (buckets w))) ->
  exists fullTask w1,
    getTaskById u i w = (Ok (Some fullTask), w1)
    /\ map TaskRow.bucketId
         (tasks (snd (updateTask env u i
                        (handleSave (openEditForm (editedItem fullTask)
                                       (bucketView u w)))
                        w1)))
       = map TaskRow.bucketId (tasks w).
Proof.
  intros R Hu Hi Ho Hnames.
  destruct (reachable_Inv w R) as [S _].
  destruct (tasksIntact_reachable w R) as [Hkeys _].
  rewrite getTaskById_eq.
  rewrite (proj2 (isEmpty_false u) Hu), (proj2 (isEmpty_false i) Hi).
  cbn [orb].
  pose proof (ownedTaskRows_nil u i w) as Hnil.
  destruct (ownedTaskRows u i w) as [|r rows] eqn:Er.
  { rewrite (proj1 Hnil eq_refl) in Ho. discriminate. }
  assert (Hr : In r (ownedTaskRows u i w)) by (rewrite Er; now left).
  apply ownedTaskRows_In in Hr as (Ht & Hb & E1 & E2 & E3).
  destruct r as [t b]. simpl in Ht, Hb, E1, E2, E3.
  eexists _, _. split; [reflexivity|].
  set (w1 := addTrace _ w).
  set (form := openEditForm _ _).
  assert (Hsel : formBucketId form = "" \/ formBucketId form = BucketRow.id b).
  { unfold form, openEditForm, editedItem, entryOf. cbn -[bucketView].
    destruct (JsString.isEmpty (BucketRow.name b)); cbn -[bucketView];
      [now left|].
    destruct (find _ (bucketView u w)) as [x|] eqn:Ef; [|now left].
    right. apply find_some in Ef as [Hx Ex]. apply String.eqb_eq in Ex.
    destruct (bucketView_In u w x Hx) as (row & Hrow & Hru & Hrid & Hrname).
    rewrite <- Hrid. f_equal.
    apply (NoDup_map_same BucketRow.name
             (filter (fun b => String.eqb (BucketRow.userId b) u) (buckets w)));
      try assumption.
    - apply filter_In. split; [exact Hrow | now apply String.eqb_eq].
    - apply filter_In. split; [exact Hb | now apply String.eqb_eq].
    - congruence. }
  destruct (updateTask_tasks env u i (handleSave form) w1) as [E|E];
    rewrite E; [reflexivity|].
  unfold Db.updateTask.
  destruct (Db.hasTaskId i w1 && _)%bool; [reflexivity|].
  cbn [snd tasks]. change (tasks w1) with (tasks w).
  rewrite map_map. apply map_ext_in. intros x Hx.
  destruct (String.eqb_spec (TaskRow.id x) i) as [Ex|Ex]; [|reflexivity].
  cbn [TaskRow.bucketId]. cbn [handleSave TaskUpdates.bucketId].
  assert (x = t).
  { apply (same_id_same_task (tasks w)); try assumption. congruence. }
  subst x. unfold orUndefined.
  destruct Hsel as [->| ->]; [reflexivity|].
  destruct (JsString.isEmpty (BucketRow.id b)); [reflexivity|].
  simpl. now symmetry.
Qed.

Lemma untouched_dialog_keeps_bucket_witness :
  exists fullTask w1,
    getTaskById "u1" "uuid-2" twoUsers = (Ok (Some fullTask), w1)
    /\ map TaskRow.bucketId
         (tasks (snd (updateTask quietEnv "u1" "uuid-2"
                        (handleSave (openEditForm (editedItem fullTask)
                                       (bucketView "u1" twoUsers)))
                        w1)))
       = map TaskRow.bucketId (tasks twoUsers).
Proof.
  apply (untouched_dialog_keeps_bucket quietEnv "u1" "uuid-2" twoUsers).
  - apply Reachability.reachable_twoUsers.
  - discriminate.
  - discriminate.
  - vm_compute. reflexivity.
  - vm_compute. repeat constructor; simpl; intuition discriminate.
Defined.

End DialogTheorems.

Module ClientGuard.
Import WorldFacts LoadFacts MutationFacts DefaultBucket.

(** X26.  The two guards of the default bucket agree.  The dashboard's
    handler returns without a request exactly for the bucket names for
    which the server's [deleteBucket] refuses to delete, and then nothing
    changes; for every other name it passes the request on and shows what
    [deleteBucket] returns. *)
Theorem handleDeleteBucket_agrees_with_server (u i name : string) (w : World) :
  (isDefaultBucketName name = true ->
   handleDeleteBucket u i name w = (Ok None, w))
  /\ (isDefaultBucketName name = false ->
      handleDeleteBucket u i name w
      = match deleteBucket u i w with
        | (Ok bs, w') => (Ok (Some bs), w')
        | (Thrown e, w') => (Thrown e, w')
        end).
Proof.
  assert (G : existsb (String.eqb (JsString.toLowerCase name))
                protectedBucketNames
              = isDefaultBucketName name).
  { apply eq_iff_eq_true. rewrite isDefaultBucketName_iff.
    unfold protectedBucketNames. simpl. rewrite orb_false_r.
    apply String.eqb_eq. }
  unfold handleDeleteBucket. rewrite G.
  split; intros ->; [reflexivity|].
  unfold bind. now destruct (deleteBucket u i w) as [[bs|e] w'].
Qed.

End ClientGuard.
